(* ===== verification/_CoqProject ===== *)
-Q . S2P
Prelude.v
Externals.v
Strings.v
StatusList.v
TokenStatusList.v
StatusManager.v
Effects.v
Threads.v
Json.v
Serde.v
Keys.v
Jws.v
Credentials.v
SdJwt.v
X509.v
X509Mint.v
Cbor.v
Cose.v
Mdoc.v
MdocVerify.v
MdocFlow.v
MdocBinding.v
Errors.v
Oid4vci.v
Oid4vp.v
IssuerState.v
IssuerStateSpec.v
Locks.v
Authorization.v
Token.v
Dpop.v
ClientAttestation.v
Metadata.v
Offer.v
Credential.v
CredentialSpec.v
CredentialIssuance.v
CredentialServing.v
CredentialDemo.v
Dcql.v
VerifierState.v
VerifierLocks.v
VerifierRequest.v
VerifierResponse.v
VerifierRace.v
VerifierFlow.v
Http.v
ServerState.v
IssuerRoutes.v
RequestAuth.v
IssuerRoutesSpec.v
CodeFlow.v
IssuerServer.v
IssuerAnswers.v
Wire.v
WireAnswers.v
VerifierRoutes.v
StatusRoutes.v
WellKnown.v
Startup.v
ServerDemo.v
WireDemo.v
