(* ===== verification/Prelude.v ===== *)
(** * A verification development for oid4vc-rs

    oid4vc-rs issues and verifies digital credentials: an OpenID4VCI issuer and
    an OpenID4VP verifier for SD-JWT VCs and ISO mdocs, with revocation lists.
    This library models its five library crates and the routes, the
    configuration and the start of its server function by function, and proves
    what makes them correct.  Names follow the source; a struct's fields carry a
    short prefix.

    ** Conventions

    A fallible Rust function returns [res A E]: [Ok], [Err], or [Panic], the
    third way a Rust call can end (an index out of bounds, [unwrap] on an error,
    an overflow in a build with overflow checks).  A pure function is a Rocq
    function.  A function that calls storage, the clock or a generator is a
    program, a tree of calls (Effects), and a handler runs it; a handler is a
    step per call, so programs interleave at their calls.  Machine integers are
    [Z] with the wrap-around written out; instants are nanoseconds since the
    epoch.  Strings are the bytes of their UTF-8 form.  Code outside the
    repository (curves, hashes, base64, JSON and CBOR codecs, URLs, dates, DER)
    is a class of functions, and what is relied on a class of laws (Externals,
    and next to their users); module [Toy] and its fellows are instances that
    satisfy the laws, with which the witnesses run the model.

    ** Files

    Prelude, Externals, Strings: outcomes, tactics, integers; third-party
    interfaces; the operations of [str].  Effects, Threads: programs over calls,
    handlers, simulation, interleaved runs; threads over locks, and why one lock
    order excludes deadlock.  Json, Cbor: the value types. Serde: what the
    [serde] attributes of a struct mean, as codecs between a type and a JSON
    value, with their laws proved once for every description.

    Status lists (crates/status, types/src/status.rs).  StatusList is the W3C
    bitstring, TokenStatusList the IETF list, each with its byte vector, bounds
    and panics; StatusManager composes them: allocation of indices, the updates
    of both formats, the published documents.  Theorems: reading what was
    written; the two published formats always agree; no index is allocated
    twice; a revocation is never undone; allocation ends.

    Cryptographic formats (crates/crypto, types/src/credentials.rs).  Keys:
    JWKs, key pairs, PEM.  Jws: compact signatures.  Credentials, SdJwt: the
    compact form, issuing with selectively disclosable claims, verifying, key
    binding.  X509: chains and PEM bundles; X509Mint: the certificates made for
    development.  Cose, Mdoc: COSE_Sign1, mdocs from issuer to verifier and
    status lists as CWT; MdocVerify says exactly what is accepted, MdocFlow that
    honest presentations are, MdocBinding what a device signature covers.
    Theorems: round trips of every format, exact characterisations of every
    verifier, soundness of disclosed claims.

    The issuer (crates/issuer, types/src/oid4vci.rs, types/src/error.rs).
    Oid4vci and Errors are the data.  IssuerState is the trait and the in-memory
    storage, seven mutexes with expiry; IssuerStateSpec an abstract storage it
    is proved to refine, for every program of allowed calls; the endpoints are
    verified against the abstract one and the theorems carried over.  Locks has
    the same operations lock by lock, poisoned locks included.  Authorization,
    Token, Dpop, ClientAttestation, Metadata, Offer, Credential are the
    endpoints; CredentialSpec and CredentialIssuance state what a served
    credential request satisfies, CredentialServing that a request that is
    granted is served when the issuer is ready for it, CredentialDemo runs one.
    Theorems: each endpoint succeeds exactly under its conditions and changes
    exactly what it should; a code is redeemed once, also when requests
    interleave; a proof of possession is used once and binds the credential to
    its key; the metadata announces what is issued; two operations can deadlock.

    The verifier (crates/verifier, types/src/oid4vp.rs).  Oid4vp is the data,
    Dcql the queries, VerifierState the session store, VerifierLocks its lock
    discipline, VerifierRequest and VerifierResponse the two operations,
    VerifierRace concurrent responses, VerifierFlow the way of a credential from
    its issuer over its holder to the verifier.  Theorems: exactly which
    responses are accepted, once each when they come in turn and every one of
    them when they race; that honest presentations are; and what the plain JWT
    branch accepts.

    The server (crates/server).  Http is the shape of responses, errors and
    bodies (middleware.rs, extract.rs), ServerState the state the routes read.
    IssuerRoutes, VerifierRoutes, StatusRoutes and WellKnown are the handlers of
    routes/*.rs, each a program over the storages, and the routing table of
    lib.rs; RequestAuth, IssuerRoutesSpec and CodeFlow verify the issuer's.
    IssuerServer puts all requests to the issuer, for credentials too, into one
    server over the issuer's storage and the status manager, whose draws are any
    that end; its sessions are verified there, its answers in IssuerAnswers.
    Startup is config.rs and the construction of the state in state.rs over a
    model of the file system; ServerDemo runs a flow through the routes.
    Theorems: exactly which requests reach a protected resource; a token stays
    with the key it was made for; no request panics in a release build, and each
    that is finished was answered with one of its own statuses; pushed sessions
    stay stored; an offer can be redeemed and an honest code flow completes;
    administration takes the token and changes what it names; pages cannot be
    injected into; a server keeps its identity over a restart and is never open
    to administration; minted certificates last as long as they say.

    The wire (the [serde] attributes of all crates).  Wire has the codec of
    every struct and enum that is sent or stored as JSON, WireAnswers the
    documents of the answers, WireDemo examples.  Theorems: the requests of
    clients are read by the names of their members; an answer is the text of
    exactly the members the protocols name, and clients read what the issuer
    sent; two types do not read what they write; the laws assumed of derived
    serializers follow from those of [serde_json].

    ** Bounds and fuel

    Loops over data are structural.  Two loops draw random numbers until one is
    fresh: an index of a status list, where [None] asks for more draws and
    [draw_index_terminates] says when it stops, and a digest id of an mdoc,
    whose fuel is an argument; running out of it is an error of its own, [Err
    None], which no theorem about success allows and no answer of the source
    stands for.  The nesting that JSON and CBOR parsers accept is bounded as in
    the crates ([fits 127], [cbor_fits], and [entry_codec 127] for the one
    recursive struct).  The clock of a theorem is any sequence of instants in
    range, monotone where the theorem says so.

    ** Assumptions

    A call of a storage, of the status manager or of the file system is atomic,
    so no interleaving of calls blocks; Locks and VerifierLocks look inside the
    calls of the two storages, where two of them can deadlock.  A file system
    maps paths to contents and modes, without directories, and writing to any
    path may fail.  Laws of third-party code are hypotheses by name
    (KeyPairLaws, SerdeJsonLaws, ClaimsSerdeLaws, ChronoLaws, ...); signatures
    are only assumed to verify what was signed, and no theorem assumes that
    forging one is impossible: those that need unforgeability say that what is
    accepted verifies under the key.

    ** Not modelled

    main.rs (the .env file, the socket, logging), log lines anywhere, and the
    layers of axum and tower (routing by path, CORS, tracing): I/O and library
    code only.  The decoding of form-encoded bodies and query strings is axum's,
    whose extractors answer with a value or a rejection.  Encoding and signing
    of certificates is rcgen's, base64, CBOR, URLs, dates and curves are those
    of their crates.  The order of the members in JSON text is not modelled, nor
    are the texts of [serde]'s errors. *)

From Stdlib Require Export ZArith Lia.
From stdpp Require Export base gmap strings list list_numbers numbers option pretty.

Abbreviation ascii := Ascii.ascii (only parsing).

#[global] Open Scope Z_scope.

(** ** Outcomes of Rust functions

    [Ok] and [Err] are the two constructors of [Result]; [Panic] is the third
    way a Rust call can end (an index out of bounds, an [unwrap] on [Err], an
    arithmetic overflow in a build with overflow checks). *)
Inductive res (A E : Type) : Type :=
| Ok (a : A)
| Err (e : E)
| Panic.
Arguments Ok {A E} a.
Arguments Err {A E} e.
Arguments Panic {A E}.

#[global] Instance res_eq_dec {A E} `{EqDecision A, EqDecision E} : EqDecision (res A E).
Proof. solve_decision. Defined.

(** The [?] operator. *)
Definition res_bind {A B E} (r : res A E) (f : A -> res B E) : res B E :=
  match r with Ok a => f a | Err e => Err e | Panic => Panic end.

(** [Result::map_err]. *)
Definition map_err {A E F} (f : E -> F) (r : res A E) : res A F :=
  match r with Ok a => Ok a | Err e => Err (f e) | Panic => Panic end.

(** [Result::map]. *)
Definition res_map {A B E} (f : A -> B) (r : res A E) : res B E :=
  match r with Ok a => Ok (f a) | Err e => Err e | Panic => Panic end.

(** [Option::ok_or] and [Option::ok_or_else]. *)
Definition ok_or {A E} (o : option A) (e : E) : res A E :=
  match o with Some a => Ok a | None => Err e end.

(** [Result::ok]. *)
Definition res_ok {A E} (r : res A E) : option A :=
  match r with Ok a => Some a | _ => None end.

(** [Result::is_ok]. *)
Definition is_ok {A E} (r : res A E) : bool :=
  match r with Ok _ => true | _ => false end.

(** [Result::unwrap] and [expect]: an [Err] panics. *)
Definition unwrap {A E F} (r : res A E) : res A F :=
  match r with Ok a => Ok a | _ => Panic end.

(** A third-party call answers in a sum: [inl] is its value, [inr] the text
    of its error. *)
Definition from_ext {A E} (r : A + E) : res A E :=
  match r with inl a => Ok a | inr e => Err e end.

Declare Scope rust_scope.
Delimit Scope rust_scope with rust.
#[global] Open Scope rust_scope.

Notation "'let?' x := m 'in' k" := (res_bind m (fun x => k))
  (at level 10, x name, m at level 100, k at level 200) : rust_scope.
Notation "'let?' ' x := m 'in' k" := (res_bind m (fun x => k))
  (at level 10, x strict pattern, m at level 100, k at level 200) : rust_scope.

(** [fail? c with e ; k]: the early return [if c { return Err(e) }]. *)
Notation "'fail?' c 'with' e ; k" := (if c then Err e else k)
  (at level 10, c at level 100, e at level 100, k at level 200) : rust_scope.

Section ResFacts.
Context {A B E F : Type}.

Lemma res_bind_Ok (r : res A E) (f : A -> res B E) b :
  res_bind r f = Ok b <-> exists a, r = Ok a /\ f a = Ok b.
Proof. destruct r; simpl; naive_solver. Qed.

Lemma map_err_Ok (f : E -> F) (r : res A E) a :
  map_err f r = Ok a <-> r = Ok a.
Proof. destruct r; simpl; naive_solver. Qed.

Lemma map_err_Err (f : E -> F) (r : res A E) e :
  map_err f r = Err e <-> exists e0, r = Err e0 /\ e = f e0.
Proof. destruct r; simpl; naive_solver. Qed.

Lemma ok_or_Ok (o : option A) (e : E) a : ok_or o e = Ok a <-> o = Some a.
Proof. destruct o; simpl; naive_solver. Qed.

Lemma from_ext_Ok (r : A + E) a : from_ext r = Ok a <-> r = inl a.
Proof. destruct r; simpl; naive_solver. Qed.

Lemma res_ok_Some (r : res A E) a : res_ok r = Some a <-> r = Ok a.
Proof. destruct r; simpl; naive_solver. Qed.
End ResFacts.

(** *** Functions that cannot panic *)
Section NoPanic.
Context {A B E F : Type}.
Lemma np_bind (r : res A E) (f : A -> res B E) :
  r <> Panic -> (forall a, f a <> Panic) -> res_bind r f <> Panic.
Proof. destruct r; simpl; auto. Qed.
Lemma np_map_err (f : E -> F) (r : res A E) : r <> Panic -> map_err f r <> Panic.
Proof. by destruct r. Qed.
Lemma np_ok_or (o : option A) (e : E) : ok_or o e <> Panic.
Proof. by destruct o. Qed.
Lemma np_from_ext (r : A + E) : from_ext r <> Panic.
Proof. by destruct r. Qed.
Lemma np_if (c : bool) (r s : res A E) : r <> Panic -> s <> Panic -> (if c then r else s) <> Panic.
Proof. by destruct c. Qed.
Lemma np_Ok (a : A) : Ok (E := E) a <> Panic.
Proof. done. Qed.
Lemma np_Err (e : E) : Err (A := A) e <> Panic.
Proof. done. Qed.
End NoPanic.

Create HintDb no_panic.
#[export] Hint Resolve np_bind np_map_err np_ok_or np_from_ext np_if np_Ok np_Err : no_panic.

(** Functions written with [let?], [fail?] and matches. *)
Ltac solve_np :=
  repeat first
    [ match goal with |- forall _ : _, _ => intro end
    | solve [eauto with no_panic nocore]
    | apply np_bind | apply np_map_err | apply np_if
    | match goal with |- match ?x with _ => _ end <> Panic => destruct x end ].

Lemma pair_eq_fst {A B} (p : A * B) a : p.1 = a -> p = (a, p.2).
Proof. destruct p; simpl; congruence. Qed.

Create HintDb oid4vc.

(** ** Tactics *)

(** Invert one success hypothesis about a chain of [?] calls. *)
Ltac inv_ok_in H :=
  lazymatch type of H with
  | res_bind _ _ = Ok _ =>
      let x := fresh "a" in let H1 := fresh H in
      apply res_bind_Ok in H as (x & H1 & H); inv_ok_in H1
  | map_err _ _ = Ok _ => apply map_err_Ok in H; inv_ok_in H
  | ok_or _ _ = Ok _ => apply ok_or_Ok in H
  | from_ext _ = Ok _ => apply from_ext_Ok in H
  | (if ?c then Err _ else _) = Ok _ =>
      let C := fresh "C" in destruct c eqn:C; [discriminate H | inv_ok_in H]
  | _ => idtac
  end.

Ltac inv_ok :=
  repeat match goal with
  | H : res_bind _ _ = Ok _ |- _ => inv_ok_in H
  | H : map_err _ _ = Ok _ |- _ => inv_ok_in H
  | H : ok_or _ _ = Ok _ |- _ => inv_ok_in H
  | H : from_ext _ = Ok _ |- _ => inv_ok_in H
  | H : (if _ then Err _ else _) = Ok _ |- _ => inv_ok_in H
  | H : Ok _ = Ok _ |- _ => injection H as H; try subst
  | H : Err _ = Ok _ |- _ => discriminate H
  | H : Panic = Ok _ |- _ => discriminate H
  end.

(** Boolean reflections used all over. *)
Ltac b2p :=
  repeat match goal with
  | H : (_ && _)%bool = true |- _ => apply andb_true_iff in H as [? ?]
  | H : (_ || _)%bool = false |- _ => apply orb_false_iff in H as [? ?]
  | H : negb _ = true |- _ => apply negb_true_iff in H
  | H : negb _ = false |- _ => apply negb_false_iff in H
  | H : bool_decide _ = true |- _ => apply bool_decide_eq_true in H
  | H : bool_decide _ = false |- _ => apply bool_decide_eq_false in H
  | H : (_ <? _) = true |- _ => apply Z.ltb_lt in H
  | H : (_ <? _) = false |- _ => apply Z.ltb_ge in H
  | H : (_ <=? _) = true |- _ => apply Z.leb_le in H
  | H : (_ <=? _) = false |- _ => apply Z.leb_gt in H
  | H : (_ =? _) = true |- _ => apply Z.eqb_eq in H
  | H : (_ =? _) = false |- _ => apply Z.eqb_neq in H
  end.

(** ** Machine integers

    Every Rust integer is a [Z]; the operations that can leave the type's
    range say what happens then. *)
Definition bytes := list Z.

Definition is_u8 (b : Z) : Prop := 0 <= b < 256.
Definition u8_not (b : Z) : Z := Z.lxor b 255.
(** [u8 << n] for [n < 8]: bits shifted out are lost. *)
Definition u8_shl (b n : Z) : Z := (Z.shiftl b n) mod 256.

Definition i64_min : Z := - 2 ^ 63.
Definition i64_max : Z := 2 ^ 63 - 1.
Definition in_i64 (z : Z) : bool := (i64_min <=? z) && (z <=? i64_max).
(** [as i64] and [as u64]: reduction modulo [2^64]. *)
Definition as_i64 (z : Z) : Z := (z + 2 ^ 63) mod 2 ^ 64 - 2 ^ 63.
Definition as_u64 (z : Z) : Z := z mod 2 ^ 64.
(** [usize::div_ceil] and [u64::div_ceil]. *)
Definition div_ceil (a b : Z) : Z := (a + b - 1) / b.

(** Whether the build has overflow checks (the [dev] and [test] profiles do,
    [release] wraps around). *)
Class Profile := { overflow_checks : bool }.

(** The result of an [i64] operation whose mathematical value is [z]. *)
Definition i64_result {E} `{Profile} (z : Z) : res Z E :=
  if in_i64 z then Ok z
  else if overflow_checks then Panic else Ok (as_i64 z).

Definition i64_add {E} `{Profile} (a b : Z) : res Z E := i64_result (a + b).
Definition i64_sub {E} `{Profile} (a b : Z) : res Z E := i64_result (a - b).
(** [i64::abs] overflows on [i64::MIN] only. *)
Definition i64_abs {E} `{Profile} (a : Z) : res Z E := i64_result (Z.abs a).

Lemma in_i64_spec z : in_i64 z = true <-> i64_min <= z <= i64_max.
Proof. unfold in_i64. rewrite andb_true_iff, !Z.leb_le. done. Qed.

Lemma as_i64_id z : in_i64 z = true -> as_i64 z = z.
Proof.
  rewrite in_i64_spec. unfold as_i64, i64_min, i64_max. intros ?.
  rewrite Z.mod_small; lia.
Qed.

(** One wrap-around at the top. *)
Lemma as_i64_above z : i64_max < z <= i64_max + 2 ^ 63 -> as_i64 z = z - 2 ^ 64.
Proof.
  unfold as_i64, i64_max. intros ?.
  assert ((z + 2 ^ 63) mod 2 ^ 64 = z - 2 ^ 63) as ->; [|lia].
  symmetry. apply (Z.mod_unique _ _ 1); lia.
Qed.

Lemma i64_result_in {E} `{Profile} z : in_i64 z = true -> i64_result (E := E) z = Ok z.
Proof. unfold i64_result. by intros ->. Qed.

(** ** Bit fields of a byte *)
Section BitFields.

Lemma testbit_high b i : is_u8 b -> 8 <= i -> Z.testbit b i = false.
Proof.
  intros [H0 H1] Hi. destruct (decide (b = 0)) as [->|]; [apply Z.bits_0|].
  apply Z.bits_above_log2; [lia|].
  assert (Z.log2 b < 8); [|lia]. apply Z.log2_lt_pow2; [lia|]. lia.
Qed.

Lemma u8_of_testbit b : 0 <= b -> (forall i, 8 <= i -> Z.testbit b i = false) -> is_u8 b.
Proof.
  intros H0 H. split; [done|]. destruct (decide (b = 0)) as [->|]; [lia|].
  destruct (decide (b < 256)); [done|].
  pose proof (Z.bit_log2 b ltac:(lia)) as Hb.
  rewrite H in Hb; [done|]. apply (Z.log2_le_mono 256); lia.
Qed.

Lemma u8_not_spec b i : 0 <= i -> Z.testbit (u8_not b) i = xorb (Z.testbit b i) (i <? 8).
Proof.
  intros ?. unfold u8_not. rewrite Z.lxor_spec. change 255 with (Z.ones 8).
  f_equal. destruct (Z.ltb_spec i 8).
  - by rewrite Z.ones_spec_low by lia.
  - by rewrite Z.ones_spec_high by lia.
Qed.

Lemma u8_shl_spec b n i :
  0 <= n -> 0 <= i ->
  Z.testbit (u8_shl b n) i = (i <? 8) && Z.testbit b (i - n).
Proof.
  intros. unfold u8_shl. change 256 with (2 ^ 8).
  destruct (Z.ltb_spec i 8); simpl.
  - rewrite Z.mod_pow2_bits_low by lia. by rewrite Z.shiftl_spec by lia.
  - by rewrite Z.mod_pow2_bits_high by lia.
Qed.

Lemma u8_shl_range b n : is_u8 (u8_shl b n).
Proof. unfold u8_shl, is_u8. apply Z.mod_pos_bound. lia. Qed.

Lemma u8_lor b c : is_u8 b -> is_u8 c -> is_u8 (Z.lor b c).
Proof.
  intros Hb Hc. apply u8_of_testbit.
  - apply Z.lor_nonneg. split; [apply Hb|apply Hc].
  - intros i Hi. by rewrite Z.lor_spec, !testbit_high.
Qed.

Lemma u8_land_l b c : is_u8 b -> is_u8 (Z.land b c).
Proof.
  intros Hb. apply u8_of_testbit.
  - apply Z.land_nonneg. left. apply Hb.
  - intros i Hi. by rewrite Z.land_spec, testbit_high.
Qed.
End BitFields.

#[export] Hint Resolve u8_shl_range u8_lor u8_land_l : oid4vc.

(** ** Mutexes

    [lock] fails once a thread has panicked while holding the lock. *)
Record Mutex (A : Type) := mkMutex { poisoned : bool; inner : A }.
Arguments mkMutex {A} poisoned inner.
Arguments poisoned {A} m.
Arguments inner {A} m.

Definition Mutex_new {A} (a : A) : Mutex A := mkMutex false a.
Definition set_inner {A} (m : Mutex A) (a : A) : Mutex A := mkMutex (poisoned m) a.
(** The state a panic inside the critical section leaves behind. *)
Definition poison {A} (a : A) : Mutex A := mkMutex true a.

(** ** Time

    An instant ([chrono::DateTime<Utc>]) is a count of nanoseconds since the
    Unix epoch. *)
Abbreviation DateTime := Z (only parsing).
Definition NANOS : Z := 1000000000.
