(* ===== verification/Externals.v ===== *)
(** * Third-party code the sources call

    The crates below are not part of the repository, so each is an interface:
    a class of the functions the sources call, and a class of laws that state
    their documented behaviour.  Every definition of the development takes the
    functions as parameters; a theorem that relies on a law says so.

    Module [Toy] gives concrete instances that satisfy the laws.  They stand
    for nothing but the consistency of the laws: witnesses run the model with
    them. *)
From S2P Require Import Prelude.

(** ** [flate2] and [base64ct]

    An error is its text ([e.to_string()]). *)
Class Flate2 := {
  gz_compress : bytes -> bytes + string;
  gz_decompress : bytes -> bytes + string;
  zlib_compress : bytes -> bytes + string;
  zlib_decompress : bytes -> bytes + string;
}.

Class Flate2Laws (F : Flate2) : Prop := {
  gz_roundtrip d c : Forall is_u8 d -> gz_compress d = inl c ->
    Forall is_u8 c /\ gz_decompress c = inl d;
  zlib_roundtrip d c : Forall is_u8 d -> zlib_compress d = inl c ->
    Forall is_u8 c /\ zlib_decompress c = inl d;
}.

(** [Base64UrlUnpadded]: the url-safe alphabet without padding. *)
Class Base64Url := {
  b64url_encode : bytes -> string;
  b64url_decode : string -> bytes + string;
}.

(** A character of the url-safe alphabet: a letter, a digit, [-] or [_]. *)
Definition b64url_char (c : ascii) : bool :=
  let n := Z.of_N (Ascii.N_of_ascii c) in
  ((65 <=? n) && (n <=? 90)) || ((97 <=? n) && (n <=? 122))
  || ((48 <=? n) && (n <=? 57)) || (n =? 45) || (n =? 95).

Class Base64UrlLaws (B : Base64Url) : Prop := {
  b64url_roundtrip d : Forall is_u8 d -> b64url_decode (b64url_encode d) = inl d;
  b64url_alphabet d c : In c (String.list_ascii_of_string (b64url_encode d)) -> b64url_char c = true;
  (** Nothing outside the alphabet is decoded, and to bytes only. *)
  b64url_decode_alphabet s d c :
    b64url_decode s = inl d -> In c (String.list_ascii_of_string s) -> b64url_char c = true;
  b64url_decode_u8 s d : b64url_decode s = inl d -> Forall is_u8 d;
  b64url_nonempty d : b64url_encode d = EmptyString -> d = [];
}.

(** [Base64]: the standard alphabet with padding. *)
Class Base64Std := {
  b64_encode : bytes -> string;
  b64_decode : string -> bytes + string;
}.

Definition b64_char (c : ascii) : bool :=
  let n := Z.of_N (Ascii.N_of_ascii c) in
  ((65 <=? n) && (n <=? 90)) || ((97 <=? n) && (n <=? 122))
  || ((48 <=? n) && (n <=? 57)) || (n =? 43) || (n =? 47) || (n =? 61).

Class Base64StdLaws (B : Base64Std) : Prop := {
  b64_roundtrip d : Forall is_u8 d -> b64_decode (b64_encode d) = inl d;
  b64_alphabet d c : In c (String.list_ascii_of_string (b64_encode d)) -> b64_char c = true;
}.

(** ** [chrono]

    [add_seconds t s] is [t + Duration::seconds(s)]; it panics ([None]) when
    the duration or the date leaves the range of the type. *)
Class Chrono := {
  add_seconds : DateTime -> Z -> option DateTime;
  (** [(a - b).num_seconds()] and [(a - b).num_milliseconds()] *)
  num_seconds_between : DateTime -> DateTime -> Z;
  num_millis_between : DateTime -> DateTime -> Z;
  (** [t.timestamp()] *)
  timestamp : DateTime -> Z;
  (** [t.to_rfc3339()], [t.to_rfc3339_opts(Secs, true)], [t.to_string()] *)
  to_rfc3339 : DateTime -> string;
  rfc3339_secs : DateTime -> string;
  datetime_to_string : DateTime -> string;
  (** [DateTime::parse_from_rfc3339(s)] in UTC, [DateTime::from_timestamp(s, 0)] *)
  parse_rfc3339 : string -> DateTime + string;
  from_timestamp : Z -> option DateTime;
  (** A [NaiveDate] is the number of its day since the epoch:
      [t.date_naive()], [d.and_time(MIN).and_utc()], [d.format("%Y-%m-%d")],
      [parse_from_str(s, "%Y-%m-%d")], [d.checked_add_months(n)] and
      [a.years_since(b)]. *)
  date_naive : DateTime -> Z;
  midnight : Z -> DateTime;
  ymd : Z -> string;
  parse_ymd : string -> Z + string;
  add_months : Z -> Z -> option Z;
  years_since : Z -> Z -> option Z;
}.

Definition DAY_NANOS : Z := 86400 * NANOS.
(** The end of the year 9999, the last that RFC 3339 can write. *)
Definition RFC3339_END : Z := 253402300800.

Class ChronoLaws (C : Chrono) : Prop := {
  add_seconds_spec t s t' : add_seconds t s = Some t' -> t' = t + s * NANOS;
  (** Dates up to the year 33658 and durations of up to a century fit. *)
  add_seconds_total t s :
    0 <= t <= 1000000000000 * NANOS -> 0 <= s <= 3155760000 -> is_Some (add_seconds t s);
  num_seconds_spec a b : num_seconds_between a b = Z.quot (a - b) NANOS;
  num_millis_spec a b : num_millis_between a b = Z.quot (a - b) 1000000;
  timestamp_spec t : timestamp t = t / NANOS;
  rfc3339_roundtrip s : 0 <= s < RFC3339_END -> parse_rfc3339 (rfc3339_secs (s * NANOS)) = inl (s * NANOS);
  from_timestamp_spec s t : from_timestamp s = Some t -> t = s * NANOS;
  from_timestamp_total s : 0 <= s <= 2000000000000 -> is_Some (from_timestamp s);
  date_naive_spec t : date_naive t = t / DAY_NANOS;
  midnight_spec d : midnight d = d * DAY_NANOS;
}.

(** ** [url] *)
Class UrlApi := {
  Url : Type;
  url_parse : string -> Url + string;
  url_as_str : Url -> string;
  (** [url.join(reference)] *)
  url_join : Url -> string -> Url + string;
  (** [url.set_query(q)], [url.set_fragment(f)] and
      [url.query_pairs_mut().append_pair(k, v)] *)
  url_set_query : Url -> option string -> Url;
  url_set_fragment : Url -> option string -> Url;
  url_append_pair : Url -> string -> string -> Url;
}.

(** ** [sha2] *)
Class Sha2 := { sha256 : bytes -> bytes }.

(** A digest is 32 bytes. *)
Class Sha2Laws (S : Sha2) : Prop := {
  sha256_length d : length (sha256 d) = 32%nat;
  sha256_u8 d : Forall is_u8 (sha256 d);
}.

(** ** Concrete instances *)
Module Toy.

Definition nibble (n : Z) : ascii := Ascii.ascii_of_N (Z.to_N (65 + n)).

Fixpoint enc (d : bytes) : string :=
  match d with
  | [] => EmptyString
  | b :: d' => String (nibble (b / 16)) (String (nibble (b mod 16)) (enc d'))
  end.

Definition unnibble (c : ascii) : option Z :=
  let n := Z.of_N (Ascii.N_of_ascii c) - 65 in
  if (0 <=? n) && (n <? 16) then Some n else None.

Fixpoint dec (s : string) : bytes + string :=
  match s with
  | EmptyString => inl []
  | String a (String b s') =>
      match unnibble a, unnibble b, dec s' with
      | Some x, Some y, inl d => inl (16 * x + y :: d)
      | _, _, _ => inr "invalid Base64 encoding"%string
      end
  | _ => inr "invalid Base64 encoding"%string
  end.

#[export] Instance flate2 : Flate2 := {|
  gz_compress := inl; gz_decompress := inl;
  zlib_compress := inl; zlib_decompress := inl |}.
Fixpoint digits (n : nat) (z : Z) : bytes :=
  match n with O => [] | S n => z mod 256 :: digits n (z / 256) end.
Definition undigits (d : bytes) : Z := fold_right (fun b acc => b + 256 * acc) 0 d.

#[export] Instance chrono : Chrono := {|
  add_seconds t s := Some (t + s * NANOS);
  num_seconds_between a b := Z.quot (a - b) NANOS;
  num_millis_between a b := Z.quot (a - b) 1000000;
  timestamp t := t / NANOS;
  to_rfc3339 t := "1970-01-01T00:00:00+00:00"%string;
  rfc3339_secs t := enc (digits 8 (t / NANOS));
  datetime_to_string t := "1970-01-01 00:00:00 UTC"%string;
  parse_rfc3339 s := match dec s with inl d => inl (undigits d * NANOS) | inr e => inr e end;
  from_timestamp s := Some (s * NANOS);
  date_naive t := t / DAY_NANOS;
  midnight d := d * DAY_NANOS;
  ymd d := enc (digits 8 d);
  parse_ymd s := if bool_decide (s = "1990-01-01"%string) then inl 7305
    else match dec s with inl d => inl (undigits d) | inr e => inr e end;
  add_months d n := Some (d + 30 * n);
  years_since a b := if b <=? a then Some ((a - b) / 365) else None |}.
#[export] Instance url : UrlApi := {|
  Url := string; url_parse := inl; url_as_str := id;
  url_join u s := inl (u +:+ s);
  url_set_query u _ := u; url_set_fragment u _ := u;
  url_append_pair u k v := u +:+ "&" +:+ k +:+ "=" +:+ v |}.

(** Not a hash: a polynomial of the input modulo [2^64], as 32 bytes. *)
Definition poly (d : bytes) : Z := fold_left (fun h b => Z.land (257 * h + b) (Z.ones 64)) d 1.
#[export] Instance sha2 : Sha2 := {| sha256 d := digits 32 (poly d) |}.

Lemma digits_u8 n z : Forall is_u8 (digits n z).
Proof.
  revert z. induction n as [|n IH]; intros z; simpl; constructor; [|done].
  apply Z.mod_pos_bound. lia.
Qed.

#[export] Instance sha2_laws : Sha2Laws sha2.
Proof. split; intros d; [done|apply digits_u8]. Qed.

#[export] Instance flate2_laws : Flate2Laws flate2.
Proof. split; simpl; intros ? ? ? [= <-]; done. Qed.

Lemma unnibble_nibble n : 0 <= n < 16 -> unnibble (nibble n) = Some n.
Proof.
  intros. unfold unnibble, nibble.
  rewrite Ascii.N_ascii_embedding by lia. rewrite Z2N.id by lia.
  replace (65 + n - 65) with n by lia.
  rewrite (proj2 (Z.leb_le 0 n)), (proj2 (Z.ltb_lt n 16)) by lia. done.
Qed.

Lemma nibble_alphabet n : 0 <= n < 16 -> b64url_char (nibble n) = true.
Proof.
  intros. unfold b64url_char, nibble.
  rewrite Ascii.N_ascii_embedding by lia. rewrite Z2N.id by lia.
  rewrite (proj2 (Z.leb_le 65 (65 + n))), (proj2 (Z.leb_le (65 + n) 90)) by lia. done.
Qed.

Lemma nibbles b : is_u8 b -> 0 <= b / 16 < 16 /\ 0 <= b mod 16 < 16.
Proof.
  intros [? ?]. split; [|apply Z.mod_pos_bound; lia].
  split; [apply Z.div_pos; lia|apply Z.div_lt_upper_bound; lia].
Qed.

Lemma dec_enc d : Forall is_u8 d -> dec (enc d) = inl d.
Proof.
  induction 1 as [|b d Hb _ IH]; [done|]. cbn -[unnibble nibble].
  destruct (nibbles b Hb). rewrite !unnibble_nibble, IH by done.
  do 2 f_equal. pose proof (Z.div_mod b 16). lia.
Qed.

Lemma mod256_u8 b : is_u8 b -> b mod 256 = b.
Proof. intros ?. by apply Z.mod_small. Qed.

Lemma map_mod256 d : Forall is_u8 d -> map (fun b => b mod 256) d = d.
Proof.
  induction 1 as [|b d Hb _ IH]; simpl; [done|]. by rewrite IH, mod256_u8.
Qed.

Lemma enc_alphabet d c :
  Forall is_u8 d -> In c (String.list_ascii_of_string (enc d)) -> b64url_char c = true.
Proof.
  induction 1 as [|b d Hb _ IH]; simpl; [done|].
  destruct (nibbles b Hb). intros [<-|[<-|?]]; auto using nibble_alphabet.
Qed.

#[export] Instance base64 : Base64Url := {|
  b64url_encode d := enc (map (fun b => b mod 256) d);
  b64url_decode := dec |}.

Lemma unnibble_alphabet c n : unnibble c = Some n -> 0 <= n < 16 /\ b64url_char c = true.
Proof.
  unfold unnibble, b64url_char. set (k := Z.of_N (Ascii.N_of_ascii c)).
  destruct ((0 <=? k - 65) && (k - 65 <? 16)) eqn:E; [|done]. intros [= <-]. b2p.
  split; [lia|]. rewrite (proj2 (Z.leb_le 65 k)), (proj2 (Z.leb_le k 90)) by lia. done.
Qed.

Lemma dec_spec s d :
  dec s = inl d ->
  Forall is_u8 d /\ forall c, In c (String.list_ascii_of_string s) -> b64url_char c = true.
Proof.
  revert d. induction s as [s IH] using (Nat.measure_induction _ String.length).
  intros d. destruct s as [|a [|b s]]; simpl; [by intros [= <-]|done|].
  destruct (unnibble a) as [n|] eqn:Ha; [|done]. destruct (unnibble b) as [m|] eqn:Hb; [|done].
  destruct (dec s) as [d'|] eqn:Hd; [|done]. intros [= <-].
  destruct (unnibble_alphabet _ _ Ha), (unnibble_alphabet _ _ Hb).
  destruct (IH s ltac:(simpl; lia) d' Hd). split.
  - constructor; [|done]. unfold is_u8. lia.
  - intros c [<-|[<-|?]]; auto.
Qed.

#[export] Instance base64_laws : Base64UrlLaws base64.
Proof.
  split; simpl.
  - intros d Hd. rewrite map_mod256 by done. by apply dec_enc.
  - intros d c. apply enc_alphabet. clear.
    induction d; simpl; constructor; [|done]. apply Z.mod_pos_bound. lia.
  - intros s d c Hd. by apply (dec_spec s d).
  - intros s d Hd. by apply (dec_spec s d).
  - by intros [|b d].
Qed.

#[export] Instance base64_std : Base64Std := {|
  b64_encode d := enc (map (fun b => b mod 256) d);
  b64_decode := dec |}.

#[export] Instance base64_std_laws : Base64StdLaws base64_std.
Proof.
  split; simpl.
  - intros d Hd. rewrite map_mod256 by done. by apply dec_enc.
  - intros d c Hc. assert (b64url_char c = true) as H.
    { revert Hc. apply enc_alphabet. clear.
      induction d; simpl; constructor; [|done]. apply Z.mod_pos_bound. lia. }
    induction d as [|b d IH]; simpl in Hc; [done|].
    assert (0 <= (b mod 256) / 16 < 16 /\ 0 <= (b mod 256) mod 16 < 16) as [? ?]
      by (apply nibbles; apply Z.mod_pos_bound; lia).
    assert (Hn : forall n, 0 <= n < 16 -> b64_char (nibble n) = true).
    { intros n Hn. unfold b64_char, nibble.
      rewrite Ascii.N_ascii_embedding by lia. rewrite Z2N.id by lia.
      by rewrite (proj2 (Z.leb_le 65 (65 + n))), (proj2 (Z.leb_le (65 + n) 90)) by lia. }
    destruct Hc as [<-|[<-|?]]; auto.
Qed.

Lemma undigits_digits n z : 0 <= z < 256 ^ Z.of_nat n -> undigits (digits n z) = z.
Proof.
  revert z. induction n as [|n IH]; intros z Hz; [change (256 ^ Z.of_nat 0) with 1 in Hz; simpl; lia|].
  rewrite Nat2Z.inj_succ, Z.pow_succ_r in Hz by lia. simpl. fold (undigits (digits n (z / 256))).
  rewrite IH; [pose proof (Z.div_mod z 256); lia|].
  split; [apply Z.div_pos; lia|]. apply Z.div_lt_upper_bound; lia.
Qed.

#[export] Instance chrono_laws : ChronoLaws chrono.
Proof.
  split; try (simpl; intros; simplify_eq; eauto; done).
  intros s Hs. unfold parse_rfc3339, rfc3339_secs, chrono. rewrite Z.div_mul by (unfold NANOS; lia).
  rewrite dec_enc by apply digits_u8. rewrite undigits_digits; [done|].
  unfold RFC3339_END in Hs. change (256 ^ Z.of_nat 8) with (2 ^ 64). lia.
Qed.

End Toy.
