(* ===== verification/Strings.v ===== *)
(** * Operations of [str]

    A Rust string is a Rocq [string]: the sequence of its UTF-8 bytes.  The
    operations below are the ones the sources call, with the lemmas that the
    parsers need. *)
From S2P Require Import Prelude.

Abbreviation chr n := (Ascii.ascii_of_N n) (only parsing).
Abbreviation slash := (chr 47) (only parsing).

(** A string as its bytes. *)
Definition as_bytes (s : string) : bytes :=
  map (fun c => Z.of_N (Ascii.N_of_ascii c)) (String.list_ascii_of_string s).

Lemma as_bytes_u8 s : Forall is_u8 (as_bytes s).
Proof.
  unfold as_bytes. apply Forall_fmap, list.Forall_forall. intros c _. unfold is_u8; simpl.
  pose proof (Ascii.N_ascii_bounded c). lia.
Qed.

Lemma as_bytes_inj s t : as_bytes s = as_bytes t -> s = t.
Proof.
  revert t. induction s as [|c s IH]; intros [|d t]; try discriminate; [done|].
  unfold as_bytes. simpl. intros [= Hc Hs]. f_equal; [|by apply IH].
  apply N2Z.inj in Hc. rewrite <- (Ascii.ascii_N_embedding c), <- (Ascii.ascii_N_embedding d).
  by rewrite Hc.
Qed.

(** [s.contains(c)] for a character. *)
Fixpoint has_char (c : ascii) (s : string) : bool :=
  match s with
  | EmptyString => false
  | String a s' => bool_decide (a = c) || has_char c s'
  end.

(** [s.matches(c).count()] *)
Fixpoint count_char (c : ascii) (s : string) : Z :=
  match s with
  | EmptyString => 0
  | String a s' => (if bool_decide (a = c) then 1 else 0) + count_char c s'
  end.

(** [s.split_once(c)] *)
Fixpoint split_once (c : ascii) (s : string) : option (string * string) :=
  match s with
  | EmptyString => None
  | String a s' =>
      if bool_decide (a = c) then Some (EmptyString, s')
      else match split_once c s' with
           | Some (l, r) => Some (String a l, r)
           | None => None
           end
  end.

(** [s.split(c)] *)
Fixpoint split (c : ascii) (s : string) : list string :=
  match s with
  | EmptyString => [EmptyString]
  | String a s' =>
      if bool_decide (a = c) then EmptyString :: split c s'
      else match split c s' with
           | p :: ps => String a p :: ps
           | [] => [String a EmptyString]
           end
  end.

(** [s.splitn(n, c)] *)
Fixpoint splitn (n : nat) (c : ascii) (s : string) : list string :=
  match n with
  | O => []
  | S O => [s]
  | S n' => match split_once c s with
            | Some (l, r) => l :: splitn n' c r
            | None => [s]
            end
  end.

(** [parts.join(sep)] *)
Fixpoint join (sep : string) (parts : list string) : string :=
  match parts with
  | [] => EmptyString
  | [p] => p
  | p :: ps => p +:+ sep +:+ join sep ps
  end.

(** [s.starts_with(p)], [s.strip_prefix(p)] *)
Fixpoint strip_prefix (p s : string) : option string :=
  match p, s with
  | EmptyString, _ => Some s
  | String a p', String b s' => if bool_decide (a = b) then strip_prefix p' s' else None
  | String _ _, EmptyString => None
  end.

Definition starts_with (p s : string) : bool := bool_decide (is_Some (strip_prefix p s)).

Fixpoint string_rev (s acc : string) : string :=
  match s with EmptyString => acc | String a s' => string_rev s' (String a acc) end.

(** [s.strip_suffix(p)] *)
Definition strip_suffix (p s : string) : option string :=
  match strip_prefix (string_rev p EmptyString) (string_rev s EmptyString) with
  | Some r => Some (string_rev r EmptyString)
  | None => None
  end.

(** [s.contains(p)] for a string *)
Fixpoint contains (p s : string) : bool :=
  starts_with p s || match s with EmptyString => false | String _ s' => contains p s' end.

(** [s.trim_end_matches(c)] *)
Fixpoint trim_end_matches (c : ascii) (s : string) : string :=
  match s with
  | EmptyString => EmptyString
  | String a s' =>
      match trim_end_matches c s' with
      | EmptyString => if bool_decide (a = c) then EmptyString else String a EmptyString
      | t => String a t
      end
  end.

(** [s.rfind(c)] and the slice [&s[..=idx]]; the whole string without a match. *)
Fixpoint up_to_last (c : ascii) (s : string) : option string :=
  match s with
  | EmptyString => None
  | String a s' =>
      match up_to_last c s' with
      | Some t => Some (String a t)
      | None => if bool_decide (a = c) then Some (String a EmptyString) else None
      end
  end.

(** ** White space

    [char::is_whitespace] on the UTF-8 form: the characters of the Unicode
    property [White_Space] are one, two or three bytes long. *)
Definition ws1 (a : ascii) : bool :=
  let n := Ascii.N_of_ascii a in ((9 <=? n) && (n <=? 13) || (n =? 32))%N.
Definition ws2 (a b : ascii) : bool :=
  bool_decide (a = chr 194) && (bool_decide (b = chr 133) || bool_decide (b = chr 160)).
Definition ws3 (a b c : ascii) : bool :=
  let n := Ascii.N_of_ascii c in
  (bool_decide (a = chr 225) && bool_decide (b = chr 154) && (n =? 128)%N)
  || (bool_decide (a = chr 226) && bool_decide (b = chr 128)
      && ((128 <=? n) && (n <=? 138) || (n =? 168) || (n =? 169) || (n =? 175))%N)
  || (bool_decide (a = chr 226) && bool_decide (b = chr 129) && (n =? 159)%N)
  || (bool_decide (a = chr 227) && bool_decide (b = chr 128) && (n =? 128)%N).

(** [s.split_whitespace()]: the maximal runs without white space. *)
Definition flush (acc : string) (l : list string) : list string :=
  match acc with EmptyString => l | _ => acc :: l end.

Fixpoint split_ws (s acc : string) : list string :=
  match s with
  | EmptyString => flush acc []
  | String a s1 =>
      if ws1 a then flush acc (split_ws s1 EmptyString)
      else
        let more := split_ws s1 (acc +:+ String a EmptyString) in
        match s1 with
        | EmptyString => more
        | String b s2 =>
            if ws2 a b then flush acc (split_ws s2 EmptyString)
            else match s2 with
                 | EmptyString => more
                 | String c s3 => if ws3 a b c then flush acc (split_ws s3 EmptyString) else more
                 end
        end
  end.

Definition split_whitespace (s : string) : list string := split_ws s EmptyString.

(** [s.trim()] *)
Fixpoint trim_start (s : string) : string :=
  match s with
  | EmptyString => EmptyString
  | String a s1 =>
      if ws1 a then trim_start s1
      else match s1 with
           | EmptyString => s
           | String b s2 =>
               if ws2 a b then trim_start s2
               else match s2 with
                    | EmptyString => s
                    | String c s3 => if ws3 a b c then trim_start s3 else s
                    end
           end
  end.

(** The same on a reversed string. *)
Fixpoint trim_rev (s : string) : string :=
  match s with
  | EmptyString => EmptyString
  | String a s1 =>
      if ws1 a then trim_rev s1
      else match s1 with
           | EmptyString => s
           | String b s2 =>
               if ws2 b a then trim_rev s2
               else match s2 with
                    | EmptyString => s
                    | String c s3 => if ws3 c b a then trim_rev s3 else s
                    end
           end
  end.

Definition trim_end (s : string) : string := string_rev (trim_rev (string_rev s EmptyString)) EmptyString.
Definition trim (s : string) : string := trim_end (trim_start s).

(** [s.lines()]: a final line end starts no line; a CR before a line feed
    belongs to the line end. *)
Abbreviation LF := (chr 10) (only parsing).
Abbreviation CR := (chr 13) (only parsing).

Fixpoint lines_of (parts : list string) : list string :=
  match parts with
  | [] => []
  | [p] => match p with EmptyString => [] | _ => [p] end
  | p :: ps => default p (strip_suffix (String CR EmptyString) p) :: lines_of ps
  end.

Definition lines (s : string) : list string := lines_of (split LF s).

(** [s.as_bytes().chunks(n)], each as a string; [room] is what is left of the
    current chunk [acc]. *)
Fixpoint chunks_go (n room : nat) (acc s : string) : list string :=
  match s with
  | EmptyString => flush acc []
  | String a s' =>
      match room with
      | O => acc :: chunks_go n (n - 1) (String a EmptyString) s'
      | S room' => chunks_go n room' (acc +:+ String a EmptyString) s'
      end
  end.

Definition chunks (n : nat) (s : string) : list string := chunks_go n n EmptyString s.

(** [parts.concat()] *)
Definition concat (parts : list string) : string := foldr String.append EmptyString parts.

(** ** Facts *)
Lemma string_app_cons a (s t : string) : String a s +:+ t = String a (s +:+ t).
Proof. done. Qed.

Lemma string_app_nil_l (t : string) : EmptyString +:+ t = t.
Proof. done. Qed.

Create Rewrite HintDb str.
#[export] Hint Rewrite string_app_cons string_app_nil_l : str.
Ltac app_simpl := simpl; autorewrite with str; simpl.

Lemma string_app_nil_r (s : string) : s +:+ EmptyString = s.
Proof. induction s as [|a s IH]; app_simpl; [done|]. by rewrite IH. Qed.

Lemma string_app_assoc (s t u : string) : (s +:+ t) +:+ u = s +:+ t +:+ u.
Proof. induction s as [|a s IH]; app_simpl; [done|]. by rewrite IH. Qed.

Lemma string_app_cancel_r (s t u : string) : s +:+ u = t +:+ u -> s = t.
Proof.
  assert (Hl : forall x y, String.length (x +:+ y) = (String.length x + String.length y)%nat).
  { intros x y. induction x as [|a x IH]; app_simpl; [done|]. simpl. by rewrite IH. }
  revert t. induction s as [|a s IH]; intros [|b t]; app_simpl; intros Heq; [done|..].
  - apply (f_equal String.length) in Heq. simpl in Heq. rewrite Hl in Heq. lia.
  - apply (f_equal String.length) in Heq. simpl in Heq. rewrite Hl in Heq. lia.
  - injection Heq as -> Heq. by rewrite (IH t Heq).
Qed.

Lemma has_char_app c s t : has_char c (s +:+ t) = has_char c s || has_char c t.
Proof. induction s as [|a s IH]; app_simpl; [done|]. by rewrite IH, orb_assoc. Qed.

Lemma split_once_app c l r :
  has_char c l = false -> split_once c (l +:+ String c r) = Some (l, r).
Proof.
  induction l as [|a l IH]; app_simpl; intros Hc.
  - by rewrite bool_decide_eq_true_2.
  - apply orb_false_iff in Hc as [Ha Hl]. rewrite Ha, IH by done. done.
Qed.

Lemma split_once_Some c s l r :
  split_once c s = Some (l, r) -> s = l +:+ String c r /\ has_char c l = false.
Proof.
  revert l r. induction s as [|a s IH]; app_simpl; intros l r; [done|].
  case_bool_decide as Ha.
  - intros [= <- <-]. by subst.
  - destruct (split_once c s) as [[l' r']|]; [|done]. intros [= <- <-].
    destruct (IH l' r' eq_refl) as [-> ?]. app_simpl. by rewrite bool_decide_eq_false_2.
Qed.

Lemma split_once_None c s : split_once c s = None <-> has_char c s = false.
Proof.
  induction s as [|a s IH]; simpl; [done|]. case_bool_decide; simpl; [done|].
  rewrite <- IH. by destruct (split_once c s) as [[]|].
Qed.

Lemma split_nonempty c s : split c s <> [].
Proof. destruct s; simpl; [done|]. case_bool_decide; [done|]. by destruct (split c s). Qed.

Lemma split_no_char c s : has_char c s = false -> split c s = [s].
Proof.
  induction s as [|a s IH]; simpl; [done|]. intros [Ha Hs]%orb_false_iff.
  by rewrite Ha, IH.
Qed.

Lemma split_app c l r : has_char c l = false -> split c (l +:+ String c r) = l :: split c r.
Proof.
  induction l as [|a l IH]; app_simpl; intros Hl.
  - by rewrite bool_decide_eq_true_2.
  - apply orb_false_iff in Hl as [Ha Hl]. by rewrite Ha, IH.
Qed.

(** Splitting what was joined. *)
Lemma split_join c (ps : list string) :
  ps <> [] -> Forall (fun p => has_char c p = false) ps ->
  split c (join (String c EmptyString) ps) = ps.
Proof.
  induction ps as [|p ps IH]; [done|]. intros _ [Hp Hps]%Forall_cons.
  destruct ps as [|q ps]; [by apply split_no_char|].
  change (join _ (p :: q :: ps)) with (p +:+ String c (join (String c EmptyString) (q :: ps))).
  rewrite split_app by done. by rewrite IH.
Qed.

(** Joining what was split. *)
Lemma join_split c s : join (String c EmptyString) (split c s) = s.
Proof.
  induction s as [|a s IH]; simpl; [done|].
  pose proof (split_nonempty c s). case_bool_decide as Ha;
    destruct (split c s) as [|p ps]; try done.
  - subst a. change (String c (join (String c EmptyString) (p :: ps)) = String c s). by rewrite IH.
  - rewrite <- IH. by destruct ps.
Qed.

Lemma split_parts c s : Forall (fun p => has_char c p = false) (split c s).
Proof.
  induction s as [|a s IH]; simpl; [by repeat constructor|]. case_bool_decide as Ha.
  - by constructor.
  - destruct (split c s) as [|p ps].
    + constructor; [|done]. simpl. by rewrite bool_decide_eq_false_2.
    + apply Forall_cons in IH as [? ?]. constructor; [|done]. simpl.
      by rewrite bool_decide_eq_false_2.
Qed.

Lemma splitn3_app c l m r :
  has_char c l = false -> has_char c m = false ->
  splitn 3 c (l +:+ String c (m +:+ String c r)) = [l; m; r].
Proof. intros. simpl. rewrite split_once_app by done. by rewrite split_once_app. Qed.

Lemma splitn3_inv c s l m r :
  splitn 3 c s = [l; m; r] ->
  s = l +:+ String c (m +:+ String c r) /\ has_char c l = false /\ has_char c m = false.
Proof.
  simpl. destruct (split_once c s) as [[l' r']|] eqn:H1; [|done].
  destruct (split_once c r') as [[m' r'']|] eqn:H2; [|done]. intros [= -> -> ->].
  apply split_once_Some in H1 as [-> ?], H2 as [-> ?]. done.
Qed.

Lemma trim_end_matches_idem c s : trim_end_matches c (trim_end_matches c s) = trim_end_matches c s.
Proof.
  induction s as [|a s IH]; simpl; [done|].
  destruct (trim_end_matches c s) as [|b t] eqn:E.
  - case_bool_decide as Ha; simpl; [done|]. by rewrite bool_decide_eq_false_2.
  - change (trim_end_matches c (String a (String b t))) with
      (match trim_end_matches c (String b t) with
       | EmptyString => if bool_decide (a = c) then EmptyString else String a EmptyString
       | t' => String a t' end).
    by rewrite IH.
Qed.

(** [count_char] sees the separators of a join. *)
Lemma count_char_app c s t : count_char c (s +:+ t) = count_char c s + count_char c t.
Proof. induction s as [|a s IH]; app_simpl; [done|]. rewrite IH. lia. Qed.

Lemma count_char_none c s : has_char c s = false -> count_char c s = 0.
Proof. induction s as [|a s IH]; simpl; [done|]. intros [-> ?]%orb_false_iff. rewrite IH; done. Qed.

Lemma string_rev_app s t acc : string_rev (s +:+ t) acc = string_rev t (string_rev s acc).
Proof. revert acc. induction s as [|a s IH]; app_simpl; intros acc; [done|]. apply IH. Qed.

Lemma string_rev_acc s acc : string_rev s acc = string_rev s EmptyString +:+ acc.
Proof.
  revert acc. induction s as [|a s IH]; app_simpl; intros acc; [done|].
  rewrite IH, (IH (String a EmptyString)), string_app_assoc. done.
Qed.

Lemma string_rev_rev s : string_rev (string_rev s EmptyString) EmptyString = s.
Proof.
  induction s as [|a s IH]; app_simpl; [done|].
  rewrite (string_rev_acc s (String a EmptyString)), string_rev_app. app_simpl. by rewrite IH.
Qed.

Lemma strip_prefix_spec p s r : strip_prefix p s = Some r <-> s = p +:+ r.
Proof.
  revert s. induction p as [|a p IH]; intros s; app_simpl; [naive_solver|].
  destruct s as [|b s]; [done|]. case_bool_decide as Hab; [|naive_solver].
  subst. rewrite IH. naive_solver.
Qed.

Lemma strip_suffix_spec p s r : strip_suffix p s = Some r <-> s = r +:+ p.
Proof.
  assert (Hrev : forall u, string_rev (u +:+ p) EmptyString = string_rev p EmptyString +:+ string_rev u EmptyString).
  { intros u. by rewrite string_rev_app, string_rev_acc. }
  unfold strip_suffix. split.
  - destruct (strip_prefix _ _) as [t|] eqn:E; [|done]. intros [= <-].
    apply strip_prefix_spec in E.
    rewrite <- (string_rev_rev s), E, string_rev_app, string_rev_acc, string_rev_rev. done.
  - intros ->. assert (strip_prefix (string_rev p EmptyString) (string_rev (r +:+ p) EmptyString)
      = Some (string_rev r EmptyString)) as ->.
    { by apply strip_prefix_spec. }
    by rewrite string_rev_rev.
Qed.

(** ** Lines, chunks and trimming *)

(** A visible ASCII character. *)
Definition plain (c : ascii) : bool :=
  let n := Ascii.N_of_ascii c in ((33 <=? n) && (n <=? 126))%N.

Definition all_chars (P : ascii -> bool) (s : string) : bool :=
  forallb P (String.list_ascii_of_string s).

Lemma all_chars_app P s t : all_chars P (s +:+ t) = all_chars P s && all_chars P t.
Proof.
  unfold all_chars. induction s as [|a s IH]; app_simpl; [done|]. by rewrite IH, andb_assoc.
Qed.

Lemma all_chars_rev P s : all_chars P (string_rev s EmptyString) = all_chars P s.
Proof.
  induction s as [|a s IH]; [done|]. simpl. rewrite string_rev_acc, all_chars_app, IH.
  unfold all_chars. simpl. by rewrite andb_true_r, andb_comm.
Qed.

Lemma all_chars_no P c s : all_chars P s = true -> P c = false -> has_char c s = false.
Proof.
  unfold all_chars. induction s as [|a s IH]; simpl; [done|].
  intros [Ha Hs]%andb_true_iff Hc. rewrite IH by done. rewrite bool_decide_eq_false_2; [done|].
  intros ->. congruence.
Qed.

Lemma plain_ws1 c : plain c = true -> ws1 c = false.
Proof.
  unfold plain, ws1. destruct (Ascii.N_of_ascii c) as [|p]; [done|]. intros [H1 H2]%andb_true_iff.
  apply N.leb_le in H1. apply orb_false_iff. split.
  - apply andb_false_iff. right. apply N.leb_gt. lia.
  - apply N.eqb_neq. lia.
Qed.

Lemma plain_not c n : plain c = true -> (126 < n < 256)%N -> bool_decide (c = chr n) = false.
Proof.
  intros Hc Hn. apply bool_decide_eq_false_2. intros ->. unfold plain in Hc.
  rewrite Ascii.N_ascii_embedding in Hc by lia.
  apply andb_true_iff in Hc as [_ Hc]. apply N.leb_le in Hc. lia.
Qed.

(** A string that starts and ends with visible characters is not trimmed. *)
Lemma trim_start_plain a s : plain a = true -> trim_start (String a s) = String a s.
Proof.
  intros Ha. simpl. rewrite plain_ws1 by done. destruct s as [|b s]; [done|].
  unfold ws2. rewrite (plain_not a 194) by (done || lia). simpl. destruct s as [|c s]; [done|].
  unfold ws3. by rewrite (plain_not a 225), (plain_not a 226), (plain_not a 227) by (done || lia).
Qed.

Lemma trim_rev_plain a s : plain a = true -> trim_rev (String a s) = String a s.
Proof.
  intros Ha. simpl. rewrite plain_ws1 by done. destruct s as [|b s]; [done|].
  unfold ws2. rewrite (plain_not a 133), (plain_not a 160) by (done || lia).
  rewrite andb_false_r. destruct s as [|c s]; [done|].
  unfold ws3. unfold plain in Ha. apply andb_true_iff in Ha as [_ Ha]. apply N.leb_le in Ha.
  rewrite !(proj2 (N.eqb_neq (Ascii.N_of_ascii a) _)) by lia.
  rewrite (proj2 (N.leb_gt 128 (Ascii.N_of_ascii a))) by lia. simpl. by rewrite !andb_false_r.
Qed.

Definition trimmed (s : string) : Prop :=
  s = EmptyString \/
  (exists a t, s = String a t /\ plain a = true) /\
  (exists a t, string_rev s EmptyString = String a t /\ plain a = true).

Lemma trim_id s : trimmed s -> trim s = s.
Proof.
  intros [->|[(a & t & Hs & Ha) (b & u & Hr & Hb)]]; [done|]. unfold trim, trim_end.
  rewrite Hs at 1. rewrite trim_start_plain by done. rewrite <- Hs, Hr, trim_rev_plain by done.
  by rewrite <- Hr, string_rev_rev.
Qed.

Lemma plain_trimmed s : all_chars plain s = true -> trimmed s.
Proof.
  intros Hs. destruct (string_rev s EmptyString) as [|b u] eqn:Er.
  { left. by rewrite <- (string_rev_rev s), Er. }
  right. split.
  - destruct s as [|a s]; [done|]. exists a, s. by apply andb_true_iff in Hs as [? _].
  - exists b, u. rewrite <- all_chars_rev, Er in Hs. by apply andb_true_iff in Hs as [? _].
Qed.

Lemma concat_app l k : concat (l ++ k) = concat l +:+ concat k.
Proof. induction l as [|p l IH]; app_simpl; [done|]. by rewrite IH, string_app_assoc. Qed.

Lemma chunks_go_concat n room acc s : concat (chunks_go n room acc s) = acc +:+ s.
Proof.
  revert room acc. induction s as [|a s IH]; intros room acc; app_simpl.
  - unfold flush. destruct acc; app_simpl; [done|]. by rewrite !string_app_nil_r.
  - destruct room; app_simpl; rewrite IH; [done|]. by rewrite string_app_assoc.
Qed.

Lemma chunks_concat n s : concat (chunks n s) = s.
Proof. apply chunks_go_concat. Qed.

Lemma chunks_go_chars P n room acc s :
  all_chars P acc = true -> all_chars P s = true ->
  Forall (fun c => all_chars P c = true) (chunks_go n room acc s).
Proof.
  revert room acc. induction s as [|a s IH]; intros room acc Hacc Hs; simpl.
  - unfold flush. destruct acc; [constructor|by repeat constructor].
  - apply andb_true_iff in Hs as [Ha Hs].
    assert (all_chars P (String a EmptyString) = true) by (unfold all_chars; simpl; by rewrite Ha).
    destruct room; [constructor; [done|]|]; apply IH; try done. rewrite all_chars_app. by apply andb_true_iff.
Qed.

(** A text made of lines, each with its line feed. *)
Definition text_of (ls : list string) : string := concat (map (fun l => l +:+ String LF EmptyString) ls).

Definition one_line (l : string) : Prop := has_char LF l = false /\ has_char CR l = false.

Lemma text_of_app ls ks : text_of (ls ++ ks) = text_of ls +:+ text_of ks.
Proof. unfold text_of. by rewrite map_app, concat_app. Qed.

Lemma lines_text_of ls : Forall one_line ls -> lines (text_of ls) = ls.
Proof.
  intros Hls. unfold lines.
  assert (split LF (text_of ls) = ls ++ [EmptyString]) as ->.
  { induction Hls as [|l ls [Hl _] _ IH]; [done|].
    change (text_of (l :: ls)) with ((l +:+ String LF EmptyString) +:+ text_of ls).
    rewrite string_app_assoc, string_app_cons, string_app_nil_l, split_app by done. by rewrite IH. }
  induction Hls as [|l ls [_ Hl] _ IH]; [done|].
  change ((l :: ls) ++ [EmptyString]) with (l :: (ls ++ [EmptyString])).
  destruct (ls ++ [EmptyString]) as [|k ks] eqn:E; [by destruct ls|].
  change (lines_of (l :: k :: ks))
    with (default l (strip_suffix (String CR EmptyString) l) :: lines_of (k :: ks)).
  rewrite IH. f_equal. destruct (strip_suffix _ l) as [r|] eqn:Hs; [|done].
  apply strip_suffix_spec in Hs. rewrite Hs, has_char_app in Hl. simpl in Hl.
  by rewrite orb_true_r in Hl.
Qed.

(** ** Numbers *)

(** [s.parse()] for an unsigned type with this many values: digits, with a plus
    sign allowed before them. *)
Fixpoint parse_digits (size : Z) (s : string) (acc : Z) : res Z string :=
  match s with
  | EmptyString => Ok acc
  | String a s' =>
      let n := Z.of_N (Ascii.N_of_ascii a) - 48 in
      if (0 <=? n) && (n <=? 9) then
        if 10 * acc + n <? size then parse_digits size s' (10 * acc + n)
        else Err "number too large to fit in target type"%string
      else Err "invalid digit found in string"%string
  end.

Definition parse_uint (size : Z) (s : string) : res Z string :=
  fail? bool_decide (s = EmptyString) with "cannot parse integer from empty string"%string;
  let digits := match strip_prefix "+" s with Some s' => s' | None => s end in
  fail? bool_decide (digits = EmptyString) with "invalid digit found in string"%string;
  parse_digits size digits 0.

Lemma pretty_N_char_digit x : (x < 10)%N -> Z.of_N (Ascii.N_of_ascii (pretty_N_char x)) = 48 + Z.of_N x.
Proof.
  intros Hx. assert (Hcases : In x [0;1;2;3;4;5;6;7;8;9]%N).
  { simpl. lia. }
  simpl in Hcases. repeat destruct Hcases as [<-|Hcases]; done.
Qed.

Lemma parse_pretty_go size x s :
  Z.of_N x < size -> parse_digits size (pretty_N_go x s) 0 = parse_digits size s (Z.of_N x).
Proof.
  revert s. induction (N.lt_wf_0 x) as [x _ IH]. intros s Hx. destruct (decide (x = 0%N)) as [->|Hn]; [done|].
  rewrite pretty_N_go_step by lia. assert (Hd : (x / 10 < x)%N) by (apply N.div_lt; lia).
  pose proof (N.mod_lt x 10 ltac:(lia)) as Hm.
  rewrite IH by lia. simpl. rewrite pretty_N_char_digit by done.
  replace (48 + Z.of_N (x mod 10) - 48) with (Z.of_N (x mod 10)) by lia.
  apply N2Z.inj_lt in Hm. rewrite N2Z.inj_div, N2Z.inj_mod in *. change (Z.of_N 10) with 10 in *.
  pose proof (Z.mod_pos_bound (Z.of_N x) 10 ltac:(lia)) as Hm10.
  rewrite (proj2 (Z.leb_le 0 (Z.of_N x mod 10))), (proj2 (Z.leb_le (Z.of_N x mod 10) 9)) by lia. simpl andb. cbv iota.
  rewrite <- Z.div_mod by lia.
  by rewrite (proj2 (Z.ltb_lt _ _)) by done.
Qed.

Lemma parse_pretty size (x : N) : Z.of_N x < size -> parse_uint size (pretty x) = Ok (Z.of_N x).
Proof.
  intros Hx. unfold parse_uint. unfold pretty, pretty_N. case_decide as H0.
  { subst. transitivity (if 0 <? size then Ok 0 else Err "number too large to fit in target type"%string); [reflexivity|].
    by rewrite (proj2 (Z.ltb_lt 0 size) Hx). }
  assert (Hfirst : exists c s, pretty_N_go x EmptyString = String c s /\ c <> chr 43).
  { assert (Hgo : forall y t, (exists c s, t = String c s /\ c <> chr 43) \/ (0 < y)%N ->
      exists c s, pretty_N_go y t = String c s /\ c <> chr 43).
    { induction y as [y IH] using (well_founded_ind N.lt_wf_0). intros t Ht.
      destruct (decide (y = 0%N)) as [->|Hy]; [rewrite pretty_N_go_0; destruct Ht as [Ht|Ht]; [exact Ht|lia]|].
      rewrite pretty_N_go_step by lia. apply IH; [apply N.div_lt; lia|]. left. eexists _, _. split; [done|].
      pose proof (N.mod_lt y 10 ltac:(lia)) as Hm. apply pretty_N_char_digit in Hm. intros Hc. rewrite Hc in Hm.
      change (Z.of_N (Ascii.N_of_ascii (chr 43))) with 43 in Hm. pose proof (N2Z.is_nonneg (y mod 10)). remember (Z.of_N (y mod 10)). clear -Hm H. lia. }
    apply Hgo. right. lia. }
  destruct Hfirst as (c & s & Hgo & Hc). rewrite Hgo. rewrite bool_decide_eq_false_2 by done.
  cbn [strip_prefix]. rewrite (bool_decide_eq_false_2 (_ = c)) by (intros <-; by apply Hc).
  rewrite bool_decide_eq_false_2 by done. rewrite <- Hgo.
  by rewrite parse_pretty_go by done.
Qed.
