(* ===== verification/StatusList.v ===== *)
(** * StatusList2021: the W3C bitstring status list

    Models [crates/status/src/status_list_2021.rs].  A list is a byte vector
    in which index [i] is bit [7 - i mod 8] of byte [i / 8]; every operation
    is modelled with its bounds checks, and an access outside the byte vector
    is the panic it is in Rust.  The gzip and base64 codecs are third-party
    code: they are parameters. *)
From S2P Require Import Prelude Externals.

Module StatusList2021.

Inductive StatusListError :=
| Compression (e : string)
| Decompression (e : string)
| IndexOutOfBounds (index size : Z)
| Base64Error (e : string).

Definition to_string (e : StatusListError) : string :=
  match e with
  | Compression e => "compression error: " +:+ e
  | Decompression e => "decompression error: " +:+ e
  | IndexOutOfBounds i n => "index out of bounds: " +:+ pretty i +:+ " >= " +:+ pretty n
  | Base64Error e => "base64 decode error: " +:+ e
  end.

Record StatusList := mkStatusList {
  bits : list Z;
  size : Z;
}.

Definition new (size : Z) : StatusList :=
  mkStatusList (replicate (Z.to_nat (div_ceil size 8)) 0) size.

Definition get (l : StatusList) (index : Z) : res bool StatusListError :=
  if size l <=? index then Err (IndexOutOfBounds index (size l))
  else
    let byte_index := index / 8 in
    let bit_index := index mod 8 in
    match bits l !! Z.to_nat byte_index with
    | None => Panic
    | Some b => Ok (negb (Z.land b (u8_shl 1 (7 - bit_index)) =? 0))
    end.

Definition set (l : StatusList) (index : Z) (value : bool)
  : res StatusList StatusListError :=
  if size l <=? index then Err (IndexOutOfBounds index (size l))
  else
    let byte_index := index / 8 in
    let bit_index := index mod 8 in
    match bits l !! Z.to_nat byte_index with
    | None => Panic
    | Some b =>
        let b' := if value then Z.lor b (u8_shl 1 (7 - bit_index))
                  else Z.land b (u8_not (u8_shl 1 (7 - bit_index))) in
        Ok (mkStatusList (<[Z.to_nat byte_index := b']> (bits l)) (size l))
    end.

Section Codec.
Context `{F : Flate2, B : Base64Url}.

Definition encode (l : StatusList) : res string StatusListError :=
  let? compressed := map_err Compression (from_ext (gz_compress (bits l))) in
  Ok (b64url_encode compressed).

Definition decode (encoded : string) (size : Z) : res StatusList StatusListError :=
  let? compressed := map_err Base64Error (from_ext (b64url_decode encoded)) in
  let? bits := map_err Decompression (from_ext (gz_decompress compressed)) in
  Ok (mkStatusList bits size).
End Codec.

(** [(0..self.size).find(|&i| !self.get(i).unwrap_or(true))]: [unwrap_or]
    keeps a panic a panic. *)
Fixpoint find_clear (l : StatusList) (idxs : list Z) : res (option Z) StatusListError :=
  match idxs with
  | [] => Ok None
  | i :: idxs' =>
      match get l i with
      | Ok false => Ok (Some i)
      | Ok true | Err _ => find_clear l idxs'
      | Panic => Panic
      end
  end.

Definition allocate_index (l : StatusList) : res (option Z) StatusListError :=
  find_clear l (seqZ 0 (size l)).

(** ** Well-formed lists *)

(** The byte vector holds every index below [size]. *)
Record wf (l : StatusList) : Prop := {
  wf_size : 0 <= size l;
  wf_len : Z.of_nat (length (bits l)) = div_ceil (size l) 8;
  wf_bytes : Forall is_u8 (bits l);
}.

(** The abstract value of the list: which indices are set. *)
Definition bit (l : StatusList) (i : Z) : bool :=
  match bits l !! Z.to_nat (i / 8) with
  | None => false
  | Some b => Z.testbit b (7 - i mod 8)
  end.

Lemma div_ceil_bound i n k : 0 < k -> 0 <= i < n -> 0 <= i / k < div_ceil n k.
Proof.
  intros Hk Hi. unfold div_ceil. split; [apply Z.div_pos; lia|].
  apply Z.div_lt_upper_bound; [lia|].
  pose proof (Z.div_mod (n + k - 1) k ltac:(lia)).
  pose proof (Z.mod_pos_bound (n + k - 1) k Hk). lia.
Qed.

Lemma lookup_byte l i :
  wf l -> 0 <= i < size l -> exists b, bits l !! Z.to_nat (i / 8) = Some b /\ is_u8 b.
Proof.
  intros [Hs Hl Hb] Hi.
  pose proof (div_ceil_bound i (size l) 8 ltac:(lia) Hi).
  destruct (lookup_lt_is_Some_2 (bits l) (Z.to_nat (i / 8))) as [b E]; [lia|].
  exists b. split; [done|]. by eapply Forall_lookup in Hb.
Qed.

Lemma land_bit_zero b k :
  0 <= k < 8 -> negb (Z.land b (u8_shl 1 k) =? 0) = Z.testbit b k.
Proof.
  intros Hk.
  assert (Hone : u8_shl 1 k = 2 ^ k).
  { unfold u8_shl. rewrite Z.shiftl_1_l. apply Z.mod_small.
    split; [lia|]. change 256 with (2 ^ 8). apply Z.pow_lt_mono_r; lia. }
  rewrite Hone. destruct (Z.testbit b k) eqn:E.
  - apply negb_true_iff, Z.eqb_neq. intros H0.
    assert (Hz : Z.testbit (Z.land b (2 ^ k)) k = true)
      by (rewrite Z.land_spec, E, Z.pow2_bits_true; [done|lia]).
    by rewrite H0, Z.bits_0 in Hz.
  - apply negb_false_iff, Z.eqb_eq, Z.bits_inj'. intros i Hi.
    rewrite Z.land_spec, Z.bits_0, Z.pow2_bits_eqb by lia.
    destruct (Z.eqb_spec k i) as [<-|]; [by rewrite E|apply andb_false_r].
Qed.

(** In range, [get] reads the bit and never fails. *)
Lemma sl_get_in_range l i : wf l -> 0 <= i < size l -> get l i = Ok (bit l i).
Proof.
  intros Hwf Hi. unfold get, bit.
  rewrite (proj2 (Z.leb_gt _ _)) by lia.
  destruct (lookup_byte l i Hwf Hi) as (b & -> & _).
  rewrite land_bit_zero; [done|]. pose proof (Z.mod_pos_bound i 8). lia.
Qed.

Lemma sl_get_out_of_range l i : size l <= i -> get l i = Err (IndexOutOfBounds i (size l)).
Proof. intros. unfold get. by rewrite (proj2 (Z.leb_le _ _)). Qed.

Lemma sl_new_wf n : 0 <= n -> wf (new n).
Proof.
  intros Hn. split; simpl; [done| |].
  - rewrite length_replicate, Z2Nat.id; [done|]. unfold div_ceil. apply Z.div_pos; lia.
  - apply Forall_replicate. unfold is_u8. lia.
Qed.

Lemma sl_new_bit n i : bit (new n) i = false.
Proof.
  unfold bit, new; simpl. destruct (_ !! _) as [b|] eqn:H; [|done].
  apply lookup_replicate in H as [-> _]. apply Z.bits_0.
Qed.

(** One byte after [set]: the bit written, the others kept. *)
Definition put_bit (b k : Z) (value : bool) : Z :=
  if value then Z.lor b (u8_shl 1 k) else Z.land b (u8_not (u8_shl 1 k)).

Lemma put_bit_u8 b k v : is_u8 b -> is_u8 (put_bit b k v).
Proof. unfold put_bit. destruct v; auto with oid4vc. Qed.

Lemma put_bit_spec b k v j :
  0 <= k < 8 -> 0 <= j < 8 ->
  Z.testbit (put_bit b k v) j = if decide (k = j) then v else Z.testbit b j.
Proof.
  intros Hk Hj. unfold put_bit.
  assert (Hone : Z.testbit (u8_shl 1 k) j = bool_decide (k = j)).
  { rewrite u8_shl_spec by lia. rewrite (proj2 (Z.ltb_lt j 8)) by lia. simpl.
    destruct (decide (k = j)) as [->|].
    - by rewrite Z.sub_diag, bool_decide_true.
    - rewrite bool_decide_false by done.
      destruct (decide (j < k)); [by rewrite Z.testbit_neg_r by lia|].
      change 1 with (2 ^ 0). apply Z.pow2_bits_false. lia. }
  destruct v.
  - rewrite Z.lor_spec, Hone. case_decide; case_bool_decide; try done;
      [by rewrite orb_true_r|by rewrite orb_false_r].
  - rewrite Z.land_spec, u8_not_spec, Hone by lia.
    rewrite (proj2 (Z.ltb_lt j 8)) by lia.
    case_decide; case_bool_decide; try done;
      [by rewrite andb_false_r|by rewrite andb_true_r].
Qed.

(** The functional behaviour of [set] on every index in range. *)
Lemma sl_set_in_range l i v :
  wf l -> 0 <= i < size l ->
  exists l', set l i v = Ok l' /\ wf l' /\ size l' = size l /\
    forall j, 0 <= j -> bit l' j = if decide (i = j) then v else bit l j.
Proof.
  intros Hwf Hi. unfold set.
  rewrite (proj2 (Z.leb_gt _ _)) by lia.
  destruct (lookup_byte l i Hwf Hi) as (b & Hb & Hu). rewrite Hb.
  eexists; split; [reflexivity|]. fold (put_bit b (7 - i mod 8) v).
  pose proof (Z.mod_pos_bound i 8 ltac:(lia)) as Hm.
  assert (Hlt : (Z.to_nat (i / 8) < length (bits l))%nat) by (eapply lookup_lt_Some; eassumption).
  split; [|split; [done|]].
  - destruct Hwf as [Hs Hl HF]. split; simpl; [done|by rewrite length_insert|].
    apply Forall_insert; [done|by apply put_bit_u8].
  - intros j Hj. unfold bit at 1; simpl.
    pose proof (Z.mod_pos_bound j 8 ltac:(lia)) as Hmj.
    destruct (decide (i / 8 = j / 8)) as [E|E].
    + rewrite <- E, list_lookup_insert_eq by done.
      rewrite put_bit_spec by lia. unfold bit. rewrite <- E, Hb.
      destruct (decide (i = j)) as [<-|Hne]; [by rewrite decide_True|].
      rewrite decide_False; [done|].
      pose proof (Z.div_mod i 8 ltac:(lia)). pose proof (Z.div_mod j 8 ltac:(lia)). lia.
    + rewrite decide_False by congruence.
      rewrite list_lookup_insert_ne; [done|].
      pose proof (Z.div_pos i 8). pose proof (Z.div_pos j 8). lia.
Qed.

Lemma sl_set_out_of_range l i v :
  size l <= i -> set l i v = Err (IndexOutOfBounds i (size l)).
Proof. intros. unfold set. by rewrite (proj2 (Z.leb_le _ _)). Qed.

(** ** Properties *)

(** [set] is exact on every index.  In range it succeeds, keeps the list
    well formed and of the same size, and afterwards [get] answers the written
    value at that index and the old value at every other one (in range or
    not); out of range it is the bounds error; it never panics. *)
Theorem set_get (l : StatusList) (i : Z) (v : bool) :
  wf l -> 0 <= i ->
  match set l i v with
  | Ok l' =>
      i < size l /\ wf l' /\ size l' = size l /\
      forall j, 0 <= j -> get l' j = if decide (i = j) then Ok v else get l j
  | Err e => size l <= i /\ e = IndexOutOfBounds i (size l)
  | Panic => False
  end.
Proof.
  intros Hwf Hi. destruct (Z.lt_ge_cases i (size l)) as [Hlt|Hge].
  - destruct (sl_set_in_range l i v Hwf) as (l' & -> & Hwf' & Hs & Hb); [lia|].
    split_and!; [done..|]. intros j Hj.
    destruct (Z.lt_ge_cases j (size l)).
    + rewrite !sl_get_in_range by (done || lia). rewrite Hb by done. by case_decide.
    + rewrite !sl_get_out_of_range by lia. rewrite decide_False by lia. by rewrite Hs.
  - by rewrite sl_set_out_of_range.
Qed.

Lemma set_get_witness :
  wf (new 10) /\ 0 <= 9 /\
  (exists l', set (new 10) 9 true = Ok l' /\ get l' 9 = Ok true /\ get l' 8 = Ok false) /\
  match set (new 10) 9 true with
  | Ok l' =>
      9 < size (new 10) /\ wf l' /\ size l' = size (new 10) /\
      forall j, 0 <= j -> get l' j = if decide (9 = j) then Ok true else get (new 10) j
  | Err e => size (new 10) <= 9 /\ e = IndexOutOfBounds 9 (size (new 10))
  | Panic => False
  end.
Proof.
  split; [apply sl_new_wf; lia|]. split; [lia|]. split.
  - eexists; split; [vm_compute; reflexivity|]. split; vm_compute; reflexivity.
  - apply set_get; [apply sl_new_wf; lia|lia].
Defined.

Lemma find_clear_spec l idxs :
  wf l -> Forall (fun i => 0 <= i < size l) idxs ->
  find_clear l idxs = Ok (snd <$> list_find (fun i => bit l i = false) idxs).
Proof.
  intros Hwf. induction 1 as [|i idxs Hi _ IH]; simpl; [done|].
  rewrite sl_get_in_range by done. destruct (bit l i) eqn:E; simpl.
  - rewrite IH. by destruct (list_find _ idxs) as [[??]|].
  - done.
Qed.

(** [allocate_index] returns the least clear index, and [None] only when
    every index is set. *)
Theorem allocate_index_least (l : StatusList) :
  wf l ->
  match allocate_index l with
  | Ok (Some i) =>
      0 <= i < size l /\ get l i = Ok false /\
      forall j, 0 <= j < i -> get l j = Ok true
  | Ok None => forall j, 0 <= j < size l -> get l j = Ok true
  | _ => False
  end.
Proof.
  intros Hwf. unfold allocate_index.
  rewrite find_clear_spec; [|done|by apply list.Forall_forall; intros ? ?%elem_of_seqZ; lia].
  destruct (list_find _ _) as [[n i]|] eqn:E; simpl.
  - apply list_find_Some in E as (Hi & Hb & Hmin).
    apply lookup_seqZ in Hi as [-> Hn].
    rewrite sl_get_in_range by (done || lia). rewrite Hb. split; [lia|]. split; [done|].
    intros j Hj. rewrite sl_get_in_range by (done || lia).
    specialize (Hmin (Z.to_nat j) j).
    destruct (bit l j); [done|]. destruct Hmin; [|lia|done].
    apply lookup_seqZ. lia.
  - apply list_find_None in E. rewrite list.Forall_forall in E.
    intros j Hj. rewrite sl_get_in_range by done. specialize (E j).
    destruct (bit l j); [done|]. destruct E; [|done]. apply elem_of_seqZ. lia.
Qed.

Lemma allocate_index_least_witness :
  wf (new 3) /\ allocate_index (new 3) = Ok (Some 0) /\
  match allocate_index (new 3) with
  | Ok (Some i) =>
      0 <= i < size (new 3) /\ get (new 3) i = Ok false /\
      forall j, 0 <= j < i -> get (new 3) j = Ok true
  | Ok None => forall j, 0 <= j < size (new 3) -> get (new 3) j = Ok true
  | _ => False
  end.
Proof.
  split; [apply sl_new_wf; lia|]. split; [vm_compute; reflexivity|].
  apply allocate_index_least. apply sl_new_wf; lia.
Defined.

Section CodecFacts.
Context `{FL : Flate2Laws, BL : Base64UrlLaws}.

(** What is published decodes to the list itself. *)
Lemma sl_decode_encode l s :
  wf l -> encode l = Ok s -> decode s (size l) = Ok l.
Proof.
  intros Hwf H. unfold encode in H. inv_ok.
  destruct (gz_roundtrip _ _ (wf_bytes _ Hwf) H0) as [Hu Hg].
  unfold decode. rewrite b64url_roundtrip by done. simpl. rewrite Hg. simpl.
  by destruct l.
Qed.

(** [decode] takes the size on trust: reading an index the decompressed
    bytes do not hold panics instead of failing. *)
Lemma sl_decode_short s n l i :
  decode s n = Ok l -> Z.of_nat (length (bits l)) <= i / 8 -> i < n -> get l i = Panic.
Proof.
  intros H Hlen Hi. unfold decode in H. inv_ok. simpl in *.
  unfold get; simpl. rewrite (proj2 (Z.leb_gt _ _)) by lia.
  rewrite lookup_ge_None_2; [done|lia].
Qed.
End CodecFacts.

End StatusList2021.
