(* ===== verification/TokenStatusList.v ===== *)
(** * The IETF Token Status List

    Models [crates/status/src/token_status_list.rs] and the status values of
    [crates/types/src/status.rs].  An entry takes [bits_per_status] bits (1, 2,
    4 or 8), the first entry in the least significant bits of byte 0; the byte
    vector is therefore one little-endian number cut into fields, which is the
    reference definition [entry] below. *)
From S2P Require Import Prelude Externals.

(** ** Status values ([types/src/status.rs]) *)

Inductive TokenStatus := Valid | Invalid | Suspended.

#[export] Instance TokenStatus_eq_dec : EqDecision TokenStatus.
Proof. solve_decision. Defined.

(** [status as u8] *)
Definition status_u8 (s : TokenStatus) : Z :=
  match s with Valid => 0 | Invalid => 1 | Suspended => 2 end.

Definition from_byte (value : Z) : option TokenStatus :=
  if value =? 0 then Some Valid
  else if value =? 1 then Some Invalid
  else if value =? 2 then Some Suspended
  else None.

Definition status_to_string (s : TokenStatus) : string :=
  match s with Valid => "valid" | Invalid => "invalid" | Suspended => "suspended" end.

Module Tsl.

Inductive TokenStatusListError :=
| InvalidBitsPerStatus (bits : Z)
| IndexOutOfBounds (index : Z)
| Compression (e : string)
| Decompression (e : string)
| Base64Error (e : string)
| InvalidStatus (value : Z).

Definition to_string (e : TokenStatusListError) : string :=
  match e with
  | InvalidBitsPerStatus b =>
      "invalid bits_per_status: " +:+ pretty b +:+ " (must be 1, 2, 4, or 8)"
  | IndexOutOfBounds i => "index out of bounds: " +:+ pretty i
  | Compression e => "compression error: " +:+ e
  | Decompression e => "decompression error: " +:+ e
  | Base64Error e => "base64 decode error: " +:+ e
  | InvalidStatus v => "invalid status value: " +:+ pretty v
  end.

Record TokenStatusListImpl := mkTsl {
  data : list Z;
  bits_per_status : Z;
  capacity : Z;
}.

(** [[1, 2, 4, 8].contains(&bits_per_status)] *)
Definition valid_bits (b : Z) : bool := bool_decide (b ∈ [1; 2; 4; 8]).

Definition new (capacity bits_per_status : Z)
  : res TokenStatusListImpl TokenStatusListError :=
  if negb (valid_bits bits_per_status) then Err (InvalidBitsPerStatus bits_per_status)
  else
    let entries_per_byte := 8 / bits_per_status in
    let byte_len := div_ceil capacity entries_per_byte in
    Ok (mkTsl (replicate (Z.to_nat byte_len) 0) bits_per_status capacity).

(** [((1u16 << bits_per_status) - 1) as u8] *)
Definition mask (bits_per_status : Z) : Z :=
  ((Z.shiftl 1 bits_per_status) mod 2 ^ 16 - 1) mod 256.

Definition byte_index (l : TokenStatusListImpl) (index : Z) : Z :=
  index / (8 / bits_per_status l).

Definition bit_offset (l : TokenStatusListImpl) (index : Z) : Z :=
  ((index mod (8 / bits_per_status l)) * bits_per_status l) mod 256.

Definition get (l : TokenStatusListImpl) (index : Z) : res Z TokenStatusListError :=
  if capacity l <=? index then Err (IndexOutOfBounds index)
  else
    match data l !! Z.to_nat (byte_index l index) with
    | None => Panic
    | Some b => Ok (Z.land (Z.shiftr b (bit_offset l index)) (mask (bits_per_status l)))
    end.

Definition set (l : TokenStatusListImpl) (index value : Z)
  : res TokenStatusListImpl TokenStatusListError :=
  if capacity l <=? index then Err (IndexOutOfBounds index)
  else
    let max_value := mask (bits_per_status l) in
    if max_value <? value then Err (InvalidStatus value)
    else
      let off := bit_offset l index in
      match data l !! Z.to_nat (byte_index l index) with
      | None => Panic
      | Some b =>
          let cleared := Z.land b (u8_not (u8_shl (mask (bits_per_status l)) off)) in
          let b' := Z.lor cleared (u8_shl value off) in
          Ok (mkTsl (<[Z.to_nat (byte_index l index) := b']> (data l))
                (bits_per_status l) (capacity l))
      end.

Definition get_status (l : TokenStatusListImpl) (index : Z)
  : res TokenStatus TokenStatusListError :=
  let? value := get l index in
  ok_or (from_byte value) (InvalidStatus value).

Definition set_status (l : TokenStatusListImpl) (index : Z) (status : TokenStatus)
  : res TokenStatusListImpl TokenStatusListError :=
  set l index (status_u8 status).

Section Codec.
Context `{F : Flate2, B : Base64Url}.

Definition compress (l : TokenStatusListImpl) : res bytes TokenStatusListError :=
  map_err Compression (from_ext (zlib_compress (data l))).

Definition encode (l : TokenStatusListImpl) : res string TokenStatusListError :=
  let? c := compress l in Ok (b64url_encode c).

Definition decode (encoded : string) (capacity bits_per_status : Z)
  : res TokenStatusListImpl TokenStatusListError :=
  if negb (valid_bits bits_per_status) then Err (InvalidBitsPerStatus bits_per_status)
  else
    let? compressed := map_err Base64Error (from_ext (b64url_decode encoded)) in
    let? data := map_err Decompression (from_ext (zlib_decompress compressed)) in
    Ok (mkTsl data bits_per_status capacity).
End Codec.

(** ** Well-formed lists and the reference layout *)

Record wf (l : TokenStatusListImpl) : Prop := {
  wf_bits : bits_per_status l ∈ [1; 2; 4; 8];
  wf_capacity : 0 <= capacity l;
  wf_len : Z.of_nat (length (data l)) = div_ceil (capacity l) (8 / bits_per_status l);
  wf_data : Forall is_u8 (data l);
}.

(** The byte vector as one little-endian number. *)
Fixpoint le_bytes (d : list Z) : Z :=
  match d with [] => 0 | b :: d' => Z.lor b (Z.shiftl (le_bytes d') 8) end.

(** Entry [i] of the array (draft-ietf-oauth-status-list, section 4.1): the
    [i]-th field of [w] bits of that number. *)
Definition entry (l : TokenStatusListImpl) (i : Z) : Z :=
  Z.land (Z.shiftr (le_bytes (data l)) (i * bits_per_status l)) (Z.ones (bits_per_status l)).

Lemma bits_cases w : w ∈ [1; 2; 4; 8] -> w = 1 \/ w = 2 \/ w = 4 \/ w = 8.
Proof. set_solver. Qed.

Lemma le_bytes_testbit d i :
  Forall is_u8 d -> 0 <= i ->
  Z.testbit (le_bytes d) i =
    match d !! Z.to_nat (i / 8) with Some b => Z.testbit b (i mod 8) | None => false end.
Proof.
  intros Hd. revert i. induction Hd as [|b d Hb _ IH]; intros i Hi; simpl.
  - by rewrite Z.bits_0.
  - rewrite Z.lor_spec, Z.shiftl_spec by done.
    destruct (Z.lt_ge_cases i 8).
    + rewrite Z.div_small, Z.mod_small by lia. simpl.
      rewrite (Z.testbit_neg_r _ (i - 8)) by lia. apply orb_false_r.
    + rewrite testbit_high by done. simpl. rewrite IH by lia.
      assert (Hd : i / 8 = (i - 8) / 8 + 1).
      { rewrite <- Z.div_add by lia. f_equal. lia. }
      assert (Hm : i mod 8 = (i - 8) mod 8).
      { rewrite <- (Z.mod_add (i - 8) 1 8) by lia. f_equal. lia. }
      rewrite Hd, Hm, Z2Nat.inj_add by (try apply Z.div_pos; lia).
      rewrite Nat.add_1_r. done.
Qed.

(** Where field [i] sits: all its bits are in byte [byte_index]. *)
Lemma field_position l i k :
  bits_per_status l ∈ [1; 2; 4; 8] -> 0 <= i -> 0 <= k < bits_per_status l ->
  (k + i * bits_per_status l) / 8 = byte_index l i /\
  (k + i * bits_per_status l) mod 8 = k + bit_offset l i /\
  0 <= bit_offset l i /\ k + bit_offset l i < 8.
Proof.
  intros Hw Hi Hk. unfold byte_index, bit_offset.
  apply bits_cases in Hw.
  destruct Hw as [E|[E|[E|E]]]; rewrite E in *;
    [change (8 / 1) with 8|change (8 / 2) with 4|change (8 / 4) with 2|change (8 / 8) with 1];
    Z.div_mod_to_equations; lia.
Qed.

Lemma mask_ones w : w ∈ [1; 2; 4; 8] -> mask w = Z.ones w.
Proof. intros [-> | [-> | [-> | ->]]]%bits_cases; reflexivity. Qed.

Lemma byte_in_range l i :
  wf l -> 0 <= i < capacity l ->
  exists b, data l !! Z.to_nat (byte_index l i) = Some b /\ is_u8 b.
Proof.
  intros [Hw Hc Hl Hd] Hi.
  assert (Hk : 0 < 8 / bits_per_status l).
  { apply bits_cases in Hw as [-> | [-> | [-> | ->]]]; by vm_compute. }
  assert (Hb : 0 <= byte_index l i < div_ceil (capacity l) (8 / bits_per_status l)).
  { unfold byte_index, div_ceil. split; [apply Z.div_pos; lia|].
    apply Z.div_lt_upper_bound; [lia|].
    pose proof (Z.div_mod (capacity l + 8 / bits_per_status l - 1) (8 / bits_per_status l) ltac:(lia)).
    pose proof (Z.mod_pos_bound (capacity l + 8 / bits_per_status l - 1) _ Hk). lia. }
  destruct (lookup_lt_is_Some_2 (data l) (Z.to_nat (byte_index l i))) as [b E]; [lia|].
  exists b. split; [done|]. by eapply Forall_lookup in Hd.
Qed.

Lemma entry_testbit l i k :
  wf l -> 0 <= i -> 0 <= k < bits_per_status l ->
  Z.testbit (entry l i) k =
    match data l !! Z.to_nat (byte_index l i) with
    | Some b => Z.testbit b (k + bit_offset l i) | None => false end.
Proof.
  intros [Hw _ _ Hd] Hi Hk. unfold entry.
  assert (0 <= i * bits_per_status l) by (apply Z.mul_nonneg_nonneg; lia).
  rewrite Z.land_spec, Z.shiftr_spec, Z.ones_spec_low, andb_true_r by lia.
  rewrite le_bytes_testbit by (done || lia).
  destruct (field_position l i k Hw Hi Hk) as (-> & -> & _). done.
Qed.

Lemma entry_range l i : wf l -> 0 <= entry l i < 2 ^ bits_per_status l.
Proof.
  intros [Hw _ _ _]. unfold entry. rewrite Z.land_ones.
  - apply Z.mod_pos_bound. apply bits_cases in Hw as [-> | [-> | [-> | ->]]]; lia.
  - apply bits_cases in Hw as [-> | [-> | [-> | ->]]]; lia.
Qed.

(** In range, [get] computes the reference entry. *)
Lemma tsl_get_in_range l i : wf l -> 0 <= i < capacity l -> get l i = Ok (entry l i).
Proof.
  intros Hwf Hi. unfold get. rewrite (proj2 (Z.leb_gt _ _)) by lia.
  pose proof (wf_bits _ Hwf) as Hw.
  pose proof (entry_testbit l i) as He.
  destruct (byte_in_range l i Hwf Hi) as (b & Hb & Hu). rewrite Hb in He |- *. f_equal.
  assert (Hpos : 0 < bits_per_status l) by (apply bits_cases in Hw; lia).
  destruct (field_position l i 0 Hw) as (_ & _ & Hoff & _); [lia..|].
  rewrite mask_ones by done. apply Z.bits_inj'. intros k Hk.
  rewrite Z.land_spec, Z.shiftr_spec by lia.
  destruct (Z.lt_ge_cases k (bits_per_status l)).
  - rewrite Z.ones_spec_low, andb_true_r by lia. by rewrite He by (done || lia).
  - rewrite Z.ones_spec_high, andb_false_r by lia. symmetry. unfold entry.
    by rewrite Z.land_spec, Z.ones_spec_high, andb_false_r by lia.
Qed.

Lemma tsl_get_out_of_range l i : capacity l <= i -> get l i = Err (IndexOutOfBounds i).
Proof. intros. unfold get. by rewrite (proj2 (Z.leb_le _ _)). Qed.

(** Two values of [w] bits with the same bits are equal. *)
Lemma bits_ext w x y :
  0 <= w -> 0 <= x < 2 ^ w -> 0 <= y < 2 ^ w ->
  (forall k, 0 <= k < w -> Z.testbit x k = Z.testbit y k) -> x = y.
Proof.
  intros Hw Hx Hy H. apply Z.bits_inj'. intros k Hk.
  destruct (Z.lt_ge_cases k w); [by apply H|].
  rewrite <- (Z.mod_small x (2 ^ w)), <- (Z.mod_small y (2 ^ w)) by done.
  by rewrite !Z.mod_pow2_bits_high by lia.
Qed.

(** One byte after [set]: the field at [off] rewritten. *)
Definition put_field (b w off v : Z) : Z :=
  Z.lor (Z.land b (u8_not (u8_shl (mask w) off))) (u8_shl v off).

Lemma put_field_u8 b w off v : is_u8 b -> is_u8 (put_field b w off v).
Proof. unfold put_field. auto with oid4vc. Qed.

Lemma put_field_spec b w off v p :
  w ∈ [1; 2; 4; 8] -> 0 <= v < 2 ^ w -> 0 <= off -> 0 <= p < 8 ->
  Z.testbit (put_field b w off v) p =
    if bool_decide (off <= p < off + w) then Z.testbit v (p - off) else Z.testbit b p.
Proof.
  intros Hw Hv Ho Hp. unfold put_field. rewrite mask_ones by done.
  assert (0 < w) by (apply bits_cases in Hw; lia).
  rewrite Z.lor_spec, Z.land_spec, u8_not_spec, !u8_shl_spec by lia.
  rewrite (proj2 (Z.ltb_lt p 8)) by lia. simpl.
  case_bool_decide as Hin.
  - rewrite Z.ones_spec_low by lia. simpl. by rewrite andb_false_r.
  - destruct (Z.lt_ge_cases p off).
    + rewrite !(Z.testbit_neg_r _ (p - off)) by lia. simpl.
      by rewrite andb_true_r, orb_false_r.
    + rewrite Z.ones_spec_high by lia. simpl. rewrite andb_true_r.
      replace (Z.testbit v (p - off)) with false; [by rewrite orb_false_r|].
      rewrite <- (Z.mod_small v (2 ^ w)) by done.
      by rewrite Z.mod_pow2_bits_high by lia.
Qed.

Lemma tsl_set_in_range l i v :
  wf l -> 0 <= i < capacity l -> 0 <= v < 2 ^ bits_per_status l ->
  exists l', set l i v = Ok l' /\ wf l' /\
    bits_per_status l' = bits_per_status l /\ capacity l' = capacity l /\
    forall j, 0 <= j -> entry l' j = if decide (i = j) then v else entry l j.
Proof.
  intros Hwf Hi Hv. unfold set. rewrite (proj2 (Z.leb_gt _ _)) by lia.
  pose proof (wf_bits _ Hwf) as Hw.
  assert (Hpos : 0 < bits_per_status l) by (apply bits_cases in Hw; lia).
  rewrite (proj2 (Z.ltb_ge (mask _) v)) by (rewrite mask_ones, Z.ones_equiv by done; lia).
  destruct (byte_in_range l i Hwf Hi) as (b & Hb & Hu). rewrite Hb.
  eexists; split; [reflexivity|].
  fold (put_field b (bits_per_status l) (bit_offset l i) v).
  set (l' := mkTsl _ _ _).
  assert (Hwf' : wf l').
  { destruct Hwf as [? ? Hl HF]. split; simpl; [done..|by rewrite length_insert|].
    apply Forall_insert; [done|by apply put_field_u8]. }
  split; [done|]. split; [done|]. split; [done|]. intros j Hj.
  assert (Hlt : (Z.to_nat (byte_index l i) < length (data l))%nat)
    by (eapply lookup_lt_Some; eassumption).
  apply (bits_ext (bits_per_status l)); [lia|by apply (entry_range l')|
    case_decide; [done|by apply entry_range]|].
  intros k Hk. rewrite (entry_testbit l' j k) by done.
  change (bit_offset l' j) with (bit_offset l j).
  change (byte_index l' j) with (byte_index l j). simpl.
  destruct (field_position l i 0 Hw) as (Hp1 & Hp2 & Ho & _); [lia..|].
  destruct (field_position l j k Hw) as (Hq1 & Hq2 & Ho' & Hk8); [lia..|].
  destruct (decide (byte_index l i = byte_index l j)) as [E|E].
  - rewrite <- E, list_lookup_insert_eq by done. rewrite put_field_spec by (done || lia).
    destruct (decide (i = j)) as [<-|Hne].
    + rewrite bool_decide_true by lia. f_equal. lia.
    + rewrite bool_decide_false.
      * rewrite entry_testbit by done. by rewrite <- E, Hb.
      * intros Hin. apply Hne.
        pose proof (Z.div_mod (0 + i * bits_per_status l) 8 ltac:(lia)).
        pose proof (Z.div_mod (k + j * bits_per_status l) 8 ltac:(lia)). nia.
  - rewrite list_lookup_insert_ne.
    + rewrite decide_False by congruence. by rewrite entry_testbit.
    + assert (0 <= i * bits_per_status l) by nia.
      assert (0 <= k + j * bits_per_status l) by nia.
      rewrite <- Hp1, <- Hq1 in *. intros ?%Z2Nat.inj; [done|apply Z.div_pos; lia..].
Qed.

Lemma tsl_set_out_of_range l i v : capacity l <= i -> set l i v = Err (IndexOutOfBounds i).
Proof. intros. unfold set. by rewrite (proj2 (Z.leb_le _ _)). Qed.

Lemma set_too_large l i v :
  wf l -> 0 <= i < capacity l -> 2 ^ bits_per_status l <= v -> set l i v = Err (InvalidStatus v).
Proof.
  intros [Hw _ _ _] Hi Hv. unfold set. rewrite (proj2 (Z.leb_gt _ _)) by lia.
  rewrite mask_ones by done. rewrite (proj2 (Z.ltb_lt _ _)); [done|].
  rewrite Z.ones_equiv. lia.
Qed.

Lemma tsl_new_wf c w l : 0 <= c -> new c w = Ok l -> wf l /\ bits_per_status l = w /\ capacity l = c.
Proof.
  unfold new. intros Hc H. destruct (valid_bits w) eqn:Hw; simpl in H; [|done].
  injection H as <-. simpl. unfold valid_bits in Hw. b2p. split; [|done].
  split; simpl; [done..| |apply Forall_replicate; unfold is_u8; lia].
  rewrite length_replicate, Z2Nat.id; [done|]. unfold div_ceil.
  apply bits_cases in Hw as [-> | [-> | [-> | ->]]];
    (apply Z.div_pos; [|by vm_compute]); vm_compute (8 / _); lia.
Qed.

Lemma tsl_new_entry c w l i : new c w = Ok l -> 0 <= i -> entry l i = 0.
Proof.
  unfold new. intros H Hi. destruct (negb _); [done|]. injection H as <-. unfold entry; simpl.
  replace (le_bytes (replicate _ 0)) with 0; [by rewrite Z.shiftr_0_l|].
  induction (Z.to_nat _) as [|n IH]; simpl; [done|]. by rewrite <- IH.
Qed.

(** ** Properties *)

(** [get] is the reference layout.  On every index in range it answers the
    [i]-th field of the little-endian number the bytes spell (section 4.1 of
    the draft); out of range it is the bounds error; it never panics. *)
Theorem get_reference (l : TokenStatusListImpl) (i : Z) :
  wf l -> 0 <= i ->
  get l i = if i <? capacity l then Ok (entry l i) else Err (IndexOutOfBounds i).
Proof.
  intros Hwf Hi. destruct (Z.ltb_spec i (capacity l)).
  - by apply tsl_get_in_range.
  - by apply tsl_get_out_of_range.
Qed.

(** The two-bit example of the draft: bytes [C9 44 F9]. *)
Definition spec_two_bits : TokenStatusListImpl := mkTsl [201; 68; 249] 2 12.

Lemma spec_two_bits_wf : wf spec_two_bits.
Proof. split; simpl; [set_solver|lia|done|]. repeat constructor; unfold is_u8; lia. Qed.

Lemma get_reference_witness :
  wf spec_two_bits /\
  map (get spec_two_bits) (seqZ 0 12) = map Ok [1; 2; 0; 3; 0; 1; 0; 1; 1; 2; 3; 3] /\
  get spec_two_bits 3 =
    if 3 <? capacity spec_two_bits then Ok (entry spec_two_bits 3) else Err (IndexOutOfBounds 3).
Proof.
  split; [exact spec_two_bits_wf|]. split; [vm_compute; reflexivity|].
  apply get_reference; [exact spec_two_bits_wf|lia].
Defined.

(** [set] is exact for every width, index and value.  It succeeds just when
    the index is in range and the value fits the width; then the list stays
    well formed and [get] answers the new value there and the old one
    everywhere else.  Otherwise it is the matching error, and never a panic. *)
Theorem set_get_exact (l : TokenStatusListImpl) (i v : Z) :
  wf l -> 0 <= i -> 0 <= v ->
  match set l i v with
  | Ok l' =>
      i < capacity l /\ v < 2 ^ bits_per_status l /\ wf l' /\
      bits_per_status l' = bits_per_status l /\ capacity l' = capacity l /\
      forall j, 0 <= j -> get l' j = if decide (i = j) then Ok v else get l j
  | Err e =>
      (capacity l <= i /\ e = IndexOutOfBounds i) \/
      (i < capacity l /\ 2 ^ bits_per_status l <= v /\ e = InvalidStatus v)
  | Panic => False
  end.
Proof.
  intros Hwf Hi Hv. destruct (Z.lt_ge_cases i (capacity l)) as [Hlt|Hge].
  2: { rewrite tsl_set_out_of_range by done. by left. }
  destruct (Z.lt_ge_cases v (2 ^ bits_per_status l)).
  2: { rewrite set_too_large by done. by right. }
  destruct (tsl_set_in_range l i v Hwf) as (l' & -> & Hwf' & Hw & Hc & He); [lia..|].
  split_and!; [done..|]. intros j Hj. destruct (Z.lt_ge_cases j (capacity l)).
  - rewrite !tsl_get_in_range by (done || lia). rewrite He by done. by case_decide.
  - rewrite !tsl_get_out_of_range by lia. by rewrite decide_False by lia.
Qed.

Lemma set_get_exact_witness :
  (exists l', set spec_two_bits 4 2 = Ok l' /\ get l' 4 = Ok 2 /\ get l' 5 = Ok 1) /\
  match set spec_two_bits 4 2 with
  | Ok l' =>
      4 < capacity spec_two_bits /\ 2 < 2 ^ bits_per_status spec_two_bits /\ wf l' /\
      bits_per_status l' = bits_per_status spec_two_bits /\
      capacity l' = capacity spec_two_bits /\
      forall j, 0 <= j -> get l' j = if decide (4 = j) then Ok 2 else get spec_two_bits j
  | Err e =>
      (capacity spec_two_bits <= 4 /\ e = IndexOutOfBounds 4) \/
      (4 < capacity spec_two_bits /\ 2 ^ bits_per_status spec_two_bits <= 2 /\ e = InvalidStatus 2)
  | Panic => False
  end.
Proof.
  split.
  - eexists; split; [vm_compute; reflexivity|]. split; vm_compute; reflexivity.
  - apply set_get_exact; [exact spec_two_bits_wf|lia|lia].
Defined.

Lemma from_byte_status_u8 s : from_byte (status_u8 s) = Some s.
Proof. by destruct s. Qed.

Lemma status_u8_range s : 0 <= status_u8 s < 4.
Proof. destruct s; simpl; lia. Qed.

(** A status fits a list of two bits or more; [Suspended] does not fit one bit. *)
Lemma set_status_get_status l i s :
  wf l -> 0 <= i < capacity l -> 2 <= bits_per_status l ->
  exists l', set_status l i s = Ok l' /\ wf l' /\
    bits_per_status l' = bits_per_status l /\ capacity l' = capacity l /\
    forall j, 0 <= j < capacity l ->
      get_status l' j = if decide (i = j) then Ok s else get_status l j.
Proof.
  intros Hwf Hi Hw. pose proof (status_u8_range s) as Hs.
  destruct (tsl_set_in_range l i (status_u8 s) Hwf Hi) as (l' & E & Hwf' & Hb & Hc & He).
  { split; [lia|]. apply Z.lt_le_trans with (2 ^ 2); [lia|]. apply Z.pow_le_mono_r; lia. }
  exists l'. split_and!; [done..|]. intros j Hj. unfold get_status.
  rewrite !tsl_get_in_range by (done || lia). simpl. rewrite He by lia.
  case_decide; [by rewrite from_byte_status_u8|done].
Qed.

Section CodecFacts.
Context `{FL : Flate2Laws, BL : Base64UrlLaws}.

Lemma tsl_decode_encode l s :
  wf l -> encode l = Ok s -> decode s (capacity l) (bits_per_status l) = Ok l.
Proof.
  intros Hwf H. unfold encode, compress in H. inv_ok.
  destruct (zlib_roundtrip _ _ (wf_data _ Hwf) H0) as [Hu Hz].
  unfold decode, valid_bits. rewrite bool_decide_true by apply Hwf. simpl.
  rewrite b64url_roundtrip by done. simpl. rewrite Hz. by destruct l.
Qed.
End CodecFacts.

End Tsl.
