(* ===== verification/StatusManager.v ===== *)
(** * The status manager

    Models [crates/status/src/manager.rs] and the published data of
    [crates/types/src/status.rs].  The manager keeps, behind one mutex, a
    StatusList2021 and a Token Status List per purpose, and behind another the
    mdoc revocation list.  An operation is a function of the manager's state;
    the random numbers [rand] returns are the argument [draws], and the answer
    [None] says that the drawing loop asks for more of them. *)
From S2P Require Import Prelude Externals StatusList TokenStatusList.

(** ** Published data ([types/src/status.rs]) *)

Inductive StatusPurpose := Revocation | Suspension.

#[export] Instance StatusPurpose_eq_dec : EqDecision StatusPurpose.
Proof. solve_decision. Defined.

Definition purpose_to_string (p : StatusPurpose) : string :=
  match p with Revocation => "revocation" | Suspension => "suspension" end.

Section Published.
Context `{U : UrlApi}.

Record StatusList2021Subject := mkSubject {
  subject_id : Url;
  subject_type : string;
  subject_status_purpose : StatusPurpose;
  encoded_list : string;
}.

Record StatusList2021Credential := mkCredential {
  cred_id : Url;
  credential_type : list string;
  issuer : string;
  valid_from : string;
  credential_subject : StatusList2021Subject;
}.

Record StatusList2021Entry := mkEntry {
  entry_id : Url;
  entry_type : string;
  status_purpose : StatusPurpose;
  status_list_credential : Url;
  status_list_index : string;
}.
End Published.

Record TokenStatusList := mkTokenStatusList { tsl_bits : Z; tsl_lst : string }.

Module Manager.

Inductive ManagerError :=
| ListNotFound (id : string)
| ListError (e : string)
| NoAvailableIndex
| LockPoisoned.

Definition manager_error_to_string (e : ManagerError) : string :=
  match e with
  | ListNotFound id => "status list not found: " +:+ id
  | ListError e => "status list error: " +:+ e
  | NoAvailableIndex => "no available index"
  | LockPoisoned => "lock poisoned"
  end.

Definition LIST_CAPACITY : Z := 100000.

Record ManagedList := mkManaged {
  sl2021 : StatusList2021.StatusList;
  tsl : Tsl.TokenStatusListImpl;
  purpose : StatusPurpose;
  capacity : Z;
  allocated : gset Z;
}.

Record MdocList := mkMdoc {
  mdoc_tsl : Tsl.TokenStatusListImpl;
  mdoc_allocated : gset Z;
}.

(** The loop of [draw_index]: the first draw whose residue is unused. *)
Fixpoint draw_loop (allocated : gset Z) (capacity : Z) (draws : list Z)
  : option (Z * list Z) :=
  match draws with
  | [] => None
  | r :: draws' =>
      let candidate := r mod capacity in
      if bool_decide (candidate ∈ allocated) then draw_loop allocated capacity draws'
      else Some (candidate, draws')
  end.

(** [draw_index]: the result, the set afterwards and the draws left. *)
Definition draw_index (allocated : gset Z) (capacity : Z) (draws : list Z)
  : option (res Z ManagerError * gset Z * list Z) :=
  if capacity <=? Z.of_nat (size allocated) then Some (Err NoAvailableIndex, allocated, draws)
  else
    '(candidate, draws') ← draw_loop allocated capacity draws;
    Some (Ok candidate, {[candidate]} ∪ allocated, draws').

Definition set_allocated (l : ManagedList) (a : gset Z) : ManagedList :=
  mkManaged (sl2021 l) (tsl l) (purpose l) (capacity l) a.
Definition set_sl2021 (l : ManagedList) (s : StatusList2021.StatusList) : ManagedList :=
  mkManaged s (tsl l) (purpose l) (capacity l) (allocated l).
Definition set_tsl (l : ManagedList) (t : Tsl.TokenStatusListImpl) : ManagedList :=
  mkManaged (sl2021 l) t (purpose l) (capacity l) (allocated l).

Section Ops.
Context `{U : UrlApi}.

Record StatusManager := mkManager {
  lists : Mutex (gmap string ManagedList);
  mdoc : Mutex MdocList;
  issuer_url : Url;
}.

Definition new_list (purpose : StatusPurpose) : res ManagedList ManagerError :=
  let? t := unwrap (Tsl.new LIST_CAPACITY 2) in
  Ok (mkManaged (StatusList2021.new LIST_CAPACITY) t purpose LIST_CAPACITY ∅).

Definition new (issuer_url : Url) : res StatusManager ManagerError :=
  let? revocation := new_list Revocation in
  let? suspension := new_list Suspension in
  let? m := unwrap (Tsl.new LIST_CAPACITY 1) in
  Ok (mkManager
        (Mutex_new (<["suspension" := suspension]> (<["revocation" := revocation]> ∅)))
        (Mutex_new (mkMdoc m ∅))
        issuer_url).

Definition with_lists (m : StatusManager) (ls : Mutex (gmap string ManagedList)) :=
  mkManager ls (mdoc m) (issuer_url m).
Definition with_mdoc (m : StatusManager) (md : Mutex MdocList) :=
  mkManager (lists m) md (issuer_url m).

Definition join (m : StatusManager) (path : string) : res Url ManagerError :=
  unwrap (from_ext (E := string) (url_join (issuer_url m) path)).

(** The entry built once an index is drawn; the joins [unwrap]. *)
Definition entry_for (m : StatusManager) (p : StatusPurpose) (index : Z)
  : res StatusList2021Entry ManagerError :=
  let list_id := purpose_to_string p in
  let? status_list_url := join m ("/status/" +:+ list_id) in
  let? id := join m ("/status/" +:+ list_id +:+ "#" +:+ pretty index) in
  Ok (mkEntry id "StatusList2021Entry" p status_list_url (pretty index)).

Definition allocate_entry (m : StatusManager) (p : StatusPurpose) (draws : list Z)
  : option (res StatusList2021Entry ManagerError * StatusManager * list Z) :=
  let list_id := purpose_to_string p in
  if poisoned (lists m) then Some (Err LockPoisoned, m, draws)
  else
    match inner (lists m) !! list_id with
    | None => Some (Err (ListNotFound list_id), m, draws)
    | Some managed =>
        '(r, a, draws') ← draw_index (allocated managed) (capacity managed) draws;
        let ls := <[list_id := set_allocated managed a]> (inner (lists m)) in
        match r with
        | Ok index =>
            match entry_for m p index with
            | Panic => Some (Panic, with_lists m (poison ls), draws')
            | e => Some (e, with_lists m (Mutex_new ls), draws')
            end
        | Err e => Some (Err e, with_lists m (Mutex_new ls), draws')
        | Panic => Some (Panic, with_lists m (poison ls), draws')
        end
    end.

(** The status both formats are given: the Token Status List value says
    which list it is. *)
Definition token_status (list_id : string) (value : bool) : TokenStatus :=
  if value then (if bool_decide (list_id = "revocation") then Invalid else Suspended)
  else Valid.

Definition update_status (m : StatusManager) (list_id : string) (index : Z) (value : bool)
  : res unit ManagerError * StatusManager :=
  if poisoned (lists m) then (Err LockPoisoned, m)
  else
    match inner (lists m) !! list_id with
    | None => (Err (ListNotFound list_id), m)
    | Some managed =>
        match StatusList2021.set (sl2021 managed) index value with
        | Err e => (Err (ListError (StatusList2021.to_string e)), m)
        | Panic => (Panic, with_lists m (poison (inner (lists m))))
        | Ok s =>
            let managed := set_sl2021 managed s in
            let ls := <[list_id := managed]> (inner (lists m)) in
            match Tsl.set_status (tsl managed) index (token_status list_id value) with
            | Err e => (Err (ListError (Tsl.to_string e)), with_lists m (Mutex_new ls))
            | Panic => (Panic, with_lists m (poison ls))
            | Ok t => (Ok tt, with_lists m (Mutex_new (<[list_id := set_tsl managed t]> ls)))
            end
        end
    end.

Definition revoke (m : StatusManager) (index : Z) := update_status m "revocation" index true.
Definition suspend (m : StatusManager) (index : Z) := update_status m "suspension" index true.
Definition reinstate (m : StatusManager) (index : Z) := update_status m "suspension" index false.

Definition allocate_mdoc_index (m : StatusManager) (draws : list Z)
  : option (res Z ManagerError * StatusManager * list Z) :=
  if poisoned (mdoc m) then Some (Err LockPoisoned, m, draws)
  else
    '(r, a, draws') ← draw_index (mdoc_allocated (inner (mdoc m))) LIST_CAPACITY draws;
    Some (r, with_mdoc m (Mutex_new (mkMdoc (mdoc_tsl (inner (mdoc m))) a)), draws').

Definition revoke_mdoc (m : StatusManager) (index : Z) : res unit ManagerError * StatusManager :=
  if poisoned (mdoc m) then (Err LockPoisoned, m)
  else
    let md := inner (mdoc m) in
    match Tsl.set (mdoc_tsl md) index 1 with
    | Err e => (Err (ListError (Tsl.to_string e)), m)
    | Panic => (Panic, with_mdoc m (poison md))
    | Ok t => (Ok tt, with_mdoc m (Mutex_new (mkMdoc t (mdoc_allocated md))))
    end.
End Ops.

Section Publish.
Context `{U : UrlApi, F : Flate2, B : Base64Url, C : Chrono}.

Definition mdoc_status_list (m : StatusManager) : res (Z * bytes) ManagerError :=
  if poisoned (mdoc m) then Err LockPoisoned
  else
    let t := mdoc_tsl (inner (mdoc m)) in
    let? lst := map_err (fun e => ListError (Tsl.to_string e)) (Tsl.compress t) in
    Ok (Tsl.bits_per_status t, lst).

Definition build_status_list_credential
  (m : StatusManager) (now : DateTime) (list_id issuer : string)
  : res StatusList2021Credential ManagerError * StatusManager :=
  if poisoned (lists m) then (Err LockPoisoned, m)
  else
    match inner (lists m) !! list_id with
    | None => (Err (ListNotFound list_id), m)
    | Some managed =>
        match StatusList2021.encode (sl2021 managed) with
        | Err e => (Err (ListError (StatusList2021.to_string e)), m)
        | Panic => (Panic, with_lists m (poison (inner (lists m))))
        | Ok encoded =>
            match join m ("/status/" +:+ list_id) with
            | Ok credential_url =>
                (Ok (mkCredential credential_url
                      ["VerifiableCredential"; "StatusList2021Credential"]%string
                      issuer (to_rfc3339 now)
                      (mkSubject credential_url "StatusList2021" (purpose managed) encoded)), m)
            | Err e => (Err e, m)
            | Panic => (Panic, with_lists m (poison (inner (lists m))))
            end
        end
    end.

Definition build_token_status_list (m : StatusManager) (list_id : string)
  : res TokenStatusList ManagerError :=
  if poisoned (lists m) then Err LockPoisoned
  else
    let? managed := ok_or (inner (lists m) !! list_id) (ListNotFound list_id) in
    let? encoded := map_err (fun e => ListError (Tsl.to_string e))
                      (Tsl.encode (tsl managed)) in
    Ok (mkTokenStatusList (Tsl.bits_per_status (tsl managed)) encoded).
End Publish.

(** ** Drawing an index *)

Lemma draw_loop_spec a c ds i ds' :
  draw_loop a c ds = Some (i, ds') ->
  exists pre r, ds = pre ++ r :: ds' /\ i = r mod c /\ (i ∉ a) /\
    Forall (fun x => (x mod c) ∈ a) pre.
Proof.
  induction ds as [|r ds IH]; simpl; [done|]. case_bool_decide as Hin.
  - intros (pre & r' & -> & -> & Hn & HF)%IH.
    exists (r :: pre), r'. split_and!; [done..|by constructor].
  - intros [= <- <-]. exists [], r. split_and!; [done..|constructor].
Qed.

Lemma draw_loop_total a c ds :
  (exists r, r ∈ ds /\ (r mod c) ∉ a) <-> is_Some (draw_loop a c ds).
Proof.
  induction ds as [|r ds IH]; simpl.
  - split; [|by intros []]. intros (? & []%not_elem_of_nil & _).
  - case_bool_decide as Hin.
    + rewrite <- IH. split; intros (x & Hx & Hn); exists x; [|set_solver].
      apply elem_of_cons in Hx as [->|]; done.
    + split; [by eexists|]. intros _. exists r. split; [left|done].
Qed.

(** What one call of [draw_index] does to the set of used indices. *)
Lemma draw_index_spec a c ds r a' ds' :
  0 < c -> draw_index a c ds = Some (r, a', ds') ->
  match r with
  | Ok i => 0 <= i < c /\ (i ∉ a) /\ a' = {[i]} ∪ a /\ Z.of_nat (size a) < c
  | Err e => e = NoAvailableIndex /\ a' = a /\ c <= Z.of_nat (size a)
  | Panic => False
  end.
Proof.
  intros Hc. unfold draw_index. destruct (Z.leb_spec c (Z.of_nat (size a))).
  - by intros [= <- <- <-].
  - destruct (draw_loop a c ds) as [[i ds0]|] eqn:E; simpl; [|done].
    intros [= <- <- <-].
    apply draw_loop_spec in E as (pre & r & -> & -> & Hn & _).
    split; [apply Z.mod_pos_bound; lia|done].
Qed.

(** The used indices, all in range, fill the list only when there are as many
    as it holds. *)
Lemma free_index_exists (a : gset Z) c :
  0 <= c -> (forall i, i ∈ a -> 0 <= i < c) -> Z.of_nat (size a) < c ->
  exists i, 0 <= i < c /\ i ∉ a.
Proof.
  intros Hc Ha Hs.
  destruct (decide (Forall (fun i => i ∈ a) (seqZ 0 c))) as [HF|HF].
  - exfalso.
    assert (Hsub : (list_to_set (seqZ 0 c) : gset Z) ⊆ a).
    { intros i Hi. apply elem_of_list_to_set in Hi. by eapply list.Forall_forall in HF. }
    apply subseteq_size in Hsub. rewrite size_list_to_set in Hsub by apply NoDup_seqZ.
    rewrite length_seqZ in Hsub. lia.
  - apply not_Forall_Exists, Exists_exists in HF as (i & Hi & Hn); [|apply _].
    exists i. apply elem_of_seqZ in Hi. split; [lia|done].
Qed.

(** ** The invariant *)

(** The two formats of one list agree: the bit is set exactly where the
    status is [marker], and is [Valid] elsewhere. *)
Record managed_ok (marker : TokenStatus) (p : StatusPurpose) (l : ManagedList) : Prop := {
  mo_sl : StatusList2021.wf (sl2021 l);
  mo_tsl : Tsl.wf (tsl l);
  mo_bits : Tsl.bits_per_status (tsl l) = 2;
  mo_size : StatusList2021.size (sl2021 l) = LIST_CAPACITY;
  mo_tcap : Tsl.capacity (tsl l) = LIST_CAPACITY;
  mo_cap : capacity l = LIST_CAPACITY;
  mo_purpose : purpose l = p;
  mo_agree i : 0 <= i < LIST_CAPACITY ->
    Tsl.entry (tsl l) i =
      status_u8 (if StatusList2021.bit (sl2021 l) i then marker else Valid);
  mo_alloc i : i ∈ allocated l -> 0 <= i < LIST_CAPACITY;
}.

Record mdoc_ok (l : MdocList) : Prop := {
  md_tsl : Tsl.wf (mdoc_tsl l);
  md_bits : Tsl.bits_per_status (mdoc_tsl l) = 1;
  md_cap : Tsl.capacity (mdoc_tsl l) = LIST_CAPACITY;
  md_alloc i : i ∈ mdoc_allocated l -> 0 <= i < LIST_CAPACITY;
}.

Definition marker (p : StatusPurpose) : TokenStatus :=
  match p with Revocation => Invalid | Suspension => Suspended end.

(** The list of a purpose, whatever the state of the lock. *)
Definition list_of `{UrlApi} (m : StatusManager) (p : StatusPurpose) : option ManagedList :=
  inner (lists m) !! purpose_to_string p.

Record inv `{UrlApi} (m : StatusManager) : Prop := {
  inv_lists p : exists l, list_of m p = Some l /\ managed_ok (marker p) p l;
  inv_mdoc : mdoc_ok (inner (mdoc m));
}.

Lemma capacity_pos : 0 < LIST_CAPACITY.
Proof. reflexivity. Qed.

Lemma new_list_ok p l : new_list p = Ok l -> managed_ok (marker p) p l.
Proof.
  unfold new_list. destruct (Tsl.new LIST_CAPACITY 2) as [t|e|] eqn:E; [|done..].
  intros [= <-]. pose proof (Tsl.tsl_new_wf LIST_CAPACITY _ t ltac:(done) E) as (Hwf & Hb & Hc).
  split; simpl; try done.
  - by apply StatusList2021.sl_new_wf.
  - intros i Hi. rewrite StatusList2021.sl_new_bit. simpl.
    apply (Tsl.tsl_new_entry _ _ t i E). lia.
Qed.

Lemma new_inv `{UrlApi} u m : new u = Ok m -> inv m.
Proof.
  unfold new. intros H0. inv_ok.
  apply new_list_ok in H1, H2. destruct (Tsl.new _ 1) as [t|e|] eqn:E; [|done..].
  simpl in H3. injection H3 as <-.
  pose proof (Tsl.tsl_new_wf LIST_CAPACITY _ t ltac:(done) E) as (Hwf & Hb & Hc). split.
  - intros []; unfold list_of; simpl; eexists; (split; [|eassumption]).
    + rewrite lookup_insert_ne by done. apply lookup_insert_eq.
    + apply lookup_insert_eq.
  - split; simpl; [done..|set_solver].
Qed.

(** Replacing one list by another that is in order keeps the invariant. *)
Lemma inv_insert `{UrlApi} m p l b :
  inv m -> managed_ok (marker p) p l ->
  inv (with_lists m (mkMutex b (<[purpose_to_string p := l]> (inner (lists m))))).
Proof.
  intros [Hl Hm] Hok. split; [|done]. intros q. unfold list_of; simpl.
  destruct (decide (p = q)) as [->|Hne].
  - exists l. split; [apply lookup_insert_eq|done].
  - rewrite lookup_insert_ne; [apply Hl|]. by destruct p, q.
Qed.

Lemma managed_ok_alloc mk p l a :
  managed_ok mk p l -> (forall i, i ∈ a -> 0 <= i < LIST_CAPACITY) ->
  managed_ok mk p (set_allocated l a).
Proof. intros [] ?. by split. Qed.

(** Writing the same bit and status keeps the two formats in agreement. *)
Lemma managed_ok_write mk p l i v :
  managed_ok mk p l -> 0 <= i < LIST_CAPACITY ->
  exists s t,
    StatusList2021.set (sl2021 l) i v = Ok s /\
    Tsl.set_status (tsl l) i (if v then mk else Valid) = Ok t /\
    managed_ok mk p (set_tsl (set_sl2021 l s) t) /\
    forall j, 0 <= j ->
      StatusList2021.bit s j = if decide (i = j) then v else StatusList2021.bit (sl2021 l) j.
Proof.
  intros [Hsl Ht Hb Hs Htc Hc Hp Ha Hal] Hi.
  destruct (StatusList2021.sl_set_in_range (sl2021 l) i v Hsl) as (s & Es & Hsl' & Hs' & Hbit); [lia|].
  pose proof (Tsl.status_u8_range (if v then mk else Valid)) as Hr.
  destruct (Tsl.tsl_set_in_range (tsl l) i (status_u8 (if v then mk else Valid)) Ht)
    as (t & Et & Ht' & Hb' & Htc' & Hent); [lia|rewrite Hb; lia|].
  exists s, t. split_and!; [done..| |done].
  split; simpl; try done; [congruence..|].
  intros j Hj. rewrite Hent, Hbit by lia. case_decide; [done|by apply Ha].
Qed.

(** ** Executions *)
Section Runs.
Context `{U : UrlApi, F : Flate2, B : Base64Url, C : Chrono}.

(** What an allocation hands out: the list and the index as published. *)
Definition entry_label (p : StatusPurpose) (r : res StatusList2021Entry ManagerError)
  : list (string * string) :=
  match r with Ok e => [(purpose_to_string p, status_list_index e)] | _ => [] end.
Definition mdoc_label (r : res Z ManagerError) : list (string * string) :=
  match r with Ok i => [("mdoc"%string, pretty i)] | _ => [] end.

(** One call of the manager, with any arguments and any random draws. *)
Inductive step : StatusManager -> list (string * string) -> StatusManager -> Prop :=
| step_allocate m p ds r m' ds' :
    allocate_entry m p ds = Some (r, m', ds') -> step m (entry_label p r) m'
| step_revoke m i r m' : 0 <= i -> revoke m i = (r, m') -> step m [] m'
| step_suspend m i r m' : 0 <= i -> suspend m i = (r, m') -> step m [] m'
| step_reinstate m i r m' : 0 <= i -> reinstate m i = (r, m') -> step m [] m'
| step_allocate_mdoc m ds r m' ds' :
    allocate_mdoc_index m ds = Some (r, m', ds') -> step m (mdoc_label r) m'
| step_revoke_mdoc m i r m' : 0 <= i -> revoke_mdoc m i = (r, m') -> step m [] m'
| step_publish m now id iss r m' :
    build_status_list_credential m now id iss = (r, m') -> step m [] m'.

Inductive steps : StatusManager -> list (string * string) -> StatusManager -> Prop :=
| steps_nil m : steps m [] m
| steps_snoc m1 tr m2 l m3 : steps m1 tr m2 -> step m2 l m3 -> steps m1 (tr ++ l) m3.

Lemma inv_with_mdoc m md b : inv m -> mdoc_ok md -> inv (with_mdoc m (mkMutex b md)).
Proof. intros [Hl Hm] ?. by split. Qed.

Lemma inv_poison m : inv m -> inv (with_lists m (poison (inner (lists m)))).
Proof. intros [Hl Hm]. by split. Qed.

Lemma token_status_marker p v :
  token_status (purpose_to_string p) v = if v then marker p else Valid.
Proof. by destruct p, v. Qed.

(** The whole behaviour of an update of one of the two lists. *)
Lemma update_status_spec m p i v :
  inv m -> 0 <= i ->
  (poisoned (lists m) = true ->
   update_status m (purpose_to_string p) i v = (Err LockPoisoned, m)) /\
  (poisoned (lists m) = false -> LIST_CAPACITY <= i ->
   update_status m (purpose_to_string p) i v =
     (Err (ListError (StatusList2021.to_string
                        (StatusList2021.IndexOutOfBounds i LIST_CAPACITY))), m)) /\
  (poisoned (lists m) = false -> i < LIST_CAPACITY ->
   exists l l',
     list_of m p = Some l /\
     update_status m (purpose_to_string p) i v =
       (Ok tt, with_lists m (Mutex_new (<[purpose_to_string p := l']> (inner (lists m))))) /\
     managed_ok (marker p) p l' /\ allocated l' = allocated l /\
     forall j, 0 <= j ->
       StatusList2021.bit (sl2021 l') j =
         if decide (i = j) then v else StatusList2021.bit (sl2021 l) j).
Proof.
  intros Hinv Hi. destruct (inv_lists _ Hinv p) as (l & Hl & Hok).
  unfold update_status. unfold list_of in Hl. rewrite Hl. split; [by intros ->|split].
  - intros -> Hge.
    by rewrite StatusList2021.sl_set_out_of_range; rewrite (mo_size _ _ _ Hok).
  - intros -> Hlt.
    destruct (managed_ok_write _ _ _ i v Hok) as (s & t & Es & Et & Hok' & Hb); [lia|].
    exists l, (set_tsl (set_sl2021 l s) t).
    rewrite Es, token_status_marker. simpl. rewrite Et.
    split_and!; try done. by rewrite insert_insert_eq.
Qed.

Lemma update_status_inv m p i v r m' :
  inv m -> 0 <= i -> update_status m (purpose_to_string p) i v = (r, m') -> inv m'.
Proof.
  intros Hinv Hi H. destruct (update_status_spec m p i v Hinv Hi) as (Hpo & Hge & Hgood).
  destruct (poisoned (lists m)) eqn:Hp; [rewrite Hpo in H by done; congruence|].
  destruct (Z.le_gt_cases LIST_CAPACITY i); [rewrite Hge in H by done; congruence|].
  destruct (Hgood eq_refl) as (l & l' & _ & E & Hok & _); [done|].
  rewrite E in H. injection H as <- <-. by apply inv_insert.
Qed.

Lemma allocate_entry_cases m p ds r m' ds' :
  inv m -> allocate_entry m p ds = Some (r, m', ds') ->
  (m' = m /\ (forall e, r <> Ok e)) \/
  exists l a b,
    list_of m p = Some l /\
    m' = with_lists m
      (mkMutex b (<[purpose_to_string p := set_allocated l a]> (inner (lists m)))) /\
    ((a = allocated l /\ forall e, r <> Ok e) \/
     exists i, 0 <= i < LIST_CAPACITY /\ (i ∉ allocated l) /\ a = {[i]} ∪ allocated l /\
       forall e, r = Ok e -> status_list_index e = pretty i).
Proof.
  intros Hinv. destruct (inv_lists _ Hinv p) as (l & Hl & Hok).
  unfold allocate_entry. unfold list_of in Hl. rewrite Hl.
  destruct (poisoned _); [intros [= <- <- <-]; by left|].
  destruct (draw_index _ _ _) as [[[d a] ds0]|] eqn:E; simpl; [|done].
  rewrite (mo_cap _ _ _ Hok) in E.
  apply draw_index_spec in E; [|done].
  intros H. right. destruct d as [i|e|]; [|destruct E as (-> & -> & _)|done].
  - destruct E as (Hi & Hn & -> & _).
    assert (Hidx : forall e, entry_for m p i = Ok e -> status_list_index e = pretty i).
    { unfold entry_for. intros e He. inv_ok. done. }
    exists l, ({[i]} ∪ allocated l).
    destruct (entry_for m p i) as [e|e|]; simpl in H; injection H as <- <- <-;
      (eexists; split; [done|]; split; [reflexivity|]; right; exists i;
       do 3 (split; [done|]); intros e' He'; by apply Hidx).
  - injection H as <- <- <-. exists l, (allocated l), false.
    split; [done|]. split; [done|]. by left.
Qed.

Lemma allocate_mdoc_cases m ds r m' ds' :
  allocate_mdoc_index m ds = Some (r, m', ds') ->
  (m' = m /\ (forall e, r <> Ok e)) \/
  exists i, r = Ok i /\ 0 <= i < LIST_CAPACITY /\ (i ∉ mdoc_allocated (inner (mdoc m))) /\
    m' = with_mdoc m (Mutex_new (mkMdoc (mdoc_tsl (inner (mdoc m)))
                                   ({[i]} ∪ mdoc_allocated (inner (mdoc m))))).
Proof.
  unfold allocate_mdoc_index. destruct (poisoned _) eqn:Hp; [intros [= <- <- <-]; by left|].
  destruct (draw_index _ _ _) as [[[d a] ds0]|] eqn:E; simpl; [|done].
  apply draw_index_spec in E; [|done]. intros [= <- <- <-].
  destruct d as [i|e|]; [|destruct E as (-> & -> & _)|done].
  - destruct E as (Hi & Hn & -> & _). right. exists i. split_and!; done || lia.
  - left. split; [|done]. destruct m as [ls [b [t a']] u]; simpl in *. by subst.
Qed.

Lemma revoke_mdoc_cases m i r m' :
  mdoc_ok (inner (mdoc m)) -> 0 <= i -> revoke_mdoc m i = (r, m') ->
  (m' = m /\ r <> Ok tt) \/
  exists t, 0 <= i < LIST_CAPACITY /\ r = Ok tt /\ Tsl.wf t /\
    Tsl.bits_per_status t = 1 /\ Tsl.capacity t = LIST_CAPACITY /\
    (forall j, 0 <= j -> Tsl.entry t j =
       if decide (i = j) then 1 else Tsl.entry (mdoc_tsl (inner (mdoc m))) j) /\
    m' = with_mdoc m (Mutex_new (mkMdoc t (mdoc_allocated (inner (mdoc m))))).
Proof.
  intros [Ht Hb Hc Ha] Hi. unfold revoke_mdoc. destruct (poisoned _).
  { intros [= <- <-]. by left. }
  destruct (Z.lt_ge_cases i LIST_CAPACITY).
  - destruct (Tsl.tsl_set_in_range (mdoc_tsl (inner (mdoc m))) i 1 Ht)
      as (t & -> & Ht' & Hb' & Hc' & He); [lia|rewrite Hb; lia|].
    intros [= <- <-]. right. exists t. split_and!; try done; congruence.
  - rewrite Tsl.tsl_set_out_of_range by lia. intros [= <- <-]. by left.
Qed.

Lemma step_inv m l m' : step m l m' -> inv m -> inv m'.
Proof.
  intros Hstep Hinv. destruct Hstep.
  - destruct (allocate_entry_cases _ _ _ _ _ _ Hinv H) as [[-> _]|(l & a & b & Hl & -> & Ha)];
      [done|].
    destruct (inv_lists _ Hinv p) as (l0 & Hl0 & Hok). assert (l0 = l) as -> by congruence.
    apply inv_insert; [done|]. apply managed_ok_alloc; [done|].
    destruct Ha as [[-> _]|(i & Hi & _ & -> & _)]; [apply Hok|].
    intros j [->%elem_of_singleton|Hj]%elem_of_union; [done|by eapply mo_alloc].
  - by eapply (update_status_inv _ Revocation).
  - by eapply (update_status_inv _ Suspension).
  - by eapply (update_status_inv _ Suspension).
  - destruct (allocate_mdoc_cases _ _ _ _ _ H) as [[-> _]|(i & _ & Hi & _ & ->)]; [done|].
    apply inv_with_mdoc; [done|]. destruct (inv_mdoc _ Hinv) as [? ? ? Ha].
    split; simpl; try done. intros j [->%elem_of_singleton|Hj]%elem_of_union; auto.
  - destruct (revoke_mdoc_cases _ _ _ _ (inv_mdoc _ Hinv) H H0)
      as [[-> _]|(t & Hi & _ & Ht & Hb & Hc & _ & ->)]; [done|].
    apply inv_with_mdoc; [done|]. destruct (inv_mdoc _ Hinv) as [? ? ? Ha].
    by split.
  - unfold build_status_list_credential in H.
    repeat case_match; simplify_eq; auto using inv_poison.
Qed.

Lemma steps_inv m tr m' : steps m tr m' -> inv m -> inv m'.
Proof. induction 1; eauto using step_inv. Qed.

(** ** Properties *)

(** Every index handed out so far is marked used in its list. *)
Definition recorded (m : StatusManager) (x : string * string) : Prop :=
  (exists p l i, x = (purpose_to_string p, pretty i) /\ list_of m p = Some l /\ i ∈ allocated l)
  \/ (exists i, x = ("mdoc"%string, pretty i) /\ i ∈ mdoc_allocated (inner (mdoc m))).

Lemma purpose_to_string_inj p q : purpose_to_string p = purpose_to_string q -> p = q.
Proof. by destruct p, q. Qed.

Lemma list_of_insert m p l b q :
  list_of (with_lists m (mkMutex b (<[purpose_to_string p := l]> (inner (lists m))))) q =
    if decide (p = q) then Some l else list_of m q.
Proof.
  unfold list_of; simpl. destruct (decide (p = q)) as [->|Hne].
  - apply lookup_insert_eq.
  - apply lookup_insert_ne. by intros ?%purpose_to_string_inj.
Qed.

Lemma update_used p m i v r m' :
  inv m -> 0 <= i -> update_status m (purpose_to_string p) i v = (r, m') ->
  (forall q r, list_of m q = Some r ->
     exists r', list_of m' q = Some r' /\ allocated r ⊆ allocated r') /\
  mdoc_allocated (inner (mdoc m)) ⊆ mdoc_allocated (inner (mdoc m')).
Proof.
  intros Hinv Hi H.
  destruct (update_status_spec m p i v Hinv Hi) as (Hpo & Hge & Hgood).
  destruct (poisoned (lists m)) eqn:Hp.
  { rewrite Hpo in H by done. simplify_eq. by eauto. }
  destruct (Z.le_gt_cases LIST_CAPACITY i).
  { rewrite Hge in H by done. simplify_eq. by eauto. }
  destruct (Hgood eq_refl) as (l & l' & Hl & E & _ & Ha & _); [done|].
  rewrite E in H. simplify_eq. split; [|done].
  intros q r0 Hq. unfold Mutex_new. rewrite list_of_insert. case_decide; [subst q|by eauto].
  eexists; split; [done|]. rewrite Ha. by simplify_eq.
Qed.

(** The used indices only grow, whatever is called. *)
Lemma step_used m l m' :
  inv m -> step m l m' ->
  (forall p r, list_of m p = Some r ->
     exists r', list_of m' p = Some r' /\ allocated r ⊆ allocated r') /\
  mdoc_allocated (inner (mdoc m)) ⊆ mdoc_allocated (inner (mdoc m')).
Proof.
  intros Hinv Hstep. destruct Hstep.
  - destruct (allocate_entry_cases _ _ _ _ _ _ Hinv H) as [[-> _]|(l & a & b & Hl & -> & Ha)].
    { split; [eauto|done]. }
    split; [|done]. intros q r0 Hq. rewrite list_of_insert. case_decide; [subst q|by eauto].
    eexists; split; [done|]. simpl. assert (r0 = l) as -> by congruence.
    destruct Ha as [[-> _]|(i & _ & _ & -> & _)]; set_solver.
  - eapply (update_used Revocation); eassumption.
  - eapply (update_used Suspension); eassumption.
  - eapply (update_used Suspension); eassumption.
  - destruct (allocate_mdoc_cases _ _ _ _ _ H) as [[-> _]|(i & _ & Hi & _ & ->)].
    { split; [eauto|done]. }
    split; [by eauto|simpl; set_solver].
  - destruct (revoke_mdoc_cases _ _ _ _ (inv_mdoc _ Hinv) H H0)
      as [[-> _]|(t & _ & _ & _ & _ & _ & _ & ->)]; by eauto.
  - unfold build_status_list_credential in H.
    repeat case_match; simplify_eq; by eauto.
Qed.
Lemma recorded_mono m l m' x : inv m -> step m l m' -> recorded m x -> recorded m' x.
Proof.
  intros Hinv Hstep. destruct (step_used _ _ _ Hinv Hstep) as [Hl Hm].
  intros [(p & r & i & -> & Hr & Hi)|(i & -> & Hi)].
  - destruct (Hl _ _ Hr) as (r' & Hr' & Hsub). left. exists p, r', i. set_solver.
  - right. exists i. set_solver.
Qed.

Lemma step_label_fresh m l m' :
  inv m -> step m l m' ->
  NoDup l /\ forall x, x ∈ l -> recorded m' x /\ ~ recorded m x.
Proof.
  intros Hinv Hstep.
  assert (Hnil : NoDup (@nil (string * string)) /\ forall x, x ∈ @nil (string * string) ->
    recorded m' x /\ ~ recorded m x) by (split; [constructor|by intros ? ?%elem_of_nil]).
  destruct Hstep; try done.
  - destruct r as [e|e|]; try done.
    destruct (allocate_entry_cases _ _ _ _ _ _ Hinv H)
      as [[_ Hne]|(r & a & b & Hr & -> & [[_ Hne]|(i & Hi & Hn & -> & He)])];
      [by destruct (Hne e)..|].
    simpl. rewrite (He e) by done. split; [apply NoDup_singleton|].
    intros x ->%list_elem_of_singleton. split.
    + left. exists p, (set_allocated r ({[i]} ∪ allocated r)), i.
      split; [done|]. rewrite list_of_insert, decide_True by done. set_solver.
    + intros [(q & r' & j & Heq & Hq & Hj)|(j & Heq & _)]; [|by destruct p].
      injection Heq as Hp Hz. apply purpose_to_string_inj in Hp. apply (inj pretty) in Hz.
      subst. by simplify_eq.
  - destruct r as [i|e|]; try done.
    destruct (allocate_mdoc_cases _ _ _ _ _ H) as [[_ Hne]|(j & [= <-] & Hi & Hn & ->)].
    { by destruct (Hne i). }
    simpl. split; [apply NoDup_singleton|]. intros x ->%list_elem_of_singleton. split.
    + right. exists i. set_solver.
    + intros [(q & r' & j & Heq & _)|(j & Heq & Hj)]; [by destruct q|].
      injection Heq as Hz. apply (inj pretty) in Hz. by subst.
Qed.

(** no index is handed out twice.  In every run of the manager from its
    initial state, whatever is called in between and whatever is drawn, the
    (list, index) pairs published by the allocations are pairwise distinct. *)
Theorem allocations_distinct (u : Url) (m0 m : StatusManager) (tr : list (string * string)) :
  new u = Ok m0 -> steps m0 tr m -> NoDup tr.
Proof.
  intros Hnew Hsteps. apply new_inv in Hnew.
  enough (NoDup tr /\ forall x, x ∈ tr -> recorded m x) by tauto.
  induction Hsteps as [m|m0 tr m l m' Hs IH Hstep].
  { split; [constructor|by intros ? ?%elem_of_nil]. }
  destruct (IH Hnew) as [Hnd Hrec]. pose proof (steps_inv _ _ _ Hs Hnew) as Hinv.
  destruct (step_label_fresh _ _ _ Hinv Hstep) as [Hl Hfresh]. split.
  - apply NoDup_app. split; [done|]. split; [|done].
    intros x Hx Hxl. by apply (Hfresh x Hxl), Hrec.
  - intros x [Hx|Hx]%elem_of_app; [eapply recorded_mono; eauto|by apply Hfresh].
Qed.

(** Revoked: the bit of the revocation list, or of the mdoc list, is set. *)
Definition revoked (m : StatusManager) (i : Z) : Prop :=
  exists l, list_of m Revocation = Some l /\ StatusList2021.bit (sl2021 l) i = true.
Definition mdoc_revoked (m : StatusManager) (i : Z) : Prop :=
  Tsl.entry (mdoc_tsl (inner (mdoc m))) i = 1.

Lemma update_revoked p m i v r m' j :
  inv m -> 0 <= i -> 0 <= j -> (p = Revocation -> v = true) ->
  update_status m (purpose_to_string p) i v = (r, m') ->
  (revoked m j -> revoked m' j) /\ (mdoc_revoked m j -> mdoc_revoked m' j).
Proof.
  intros Hinv Hi Hj Hv H.
  destruct (update_status_spec m p i v Hinv Hi) as (Hpo & Hge & Hgood).
  destruct (poisoned (lists m)) eqn:Hp.
  { rewrite Hpo in H by done. by simplify_eq. }
  destruct (Z.le_gt_cases LIST_CAPACITY i).
  { rewrite Hge in H by done. by simplify_eq. }
  destruct (Hgood eq_refl) as (l & l' & Hl & E & _ & _ & Hb); [done|].
  rewrite E in H. simplify_eq. split; [|done].
  intros (l0 & Hl0 & Hbit). unfold revoked, Mutex_new. rewrite list_of_insert.
  case_decide as Hq; [|by eauto]. subst p. eexists; split; [done|].
  rewrite Hb by done. case_decide; [by apply Hv|by simplify_eq].
Qed.

Lemma step_revoked m l m' j :
  inv m -> 0 <= j -> step m l m' ->
  (revoked m j -> revoked m' j) /\ (mdoc_revoked m j -> mdoc_revoked m' j).
Proof.
  intros Hinv Hj Hstep. destruct Hstep.
  - destruct (allocate_entry_cases _ _ _ _ _ _ Hinv H) as [[-> _]|(r0 & a & b & Hl & -> & Ha)];
      [done|]. split; [|done]. intros (l0 & Hl0 & Hbit). unfold revoked.
    rewrite list_of_insert. case_decide; [subst p|by eauto].
    eexists; split; [done|]. by simplify_eq.
  - by apply (update_revoked Revocation m i true r).
  - by apply (update_revoked Suspension m i true r).
  - by apply (update_revoked Suspension m i false r).
  - by destruct (allocate_mdoc_cases _ _ _ _ _ H) as [[-> _]|(i & _ & Hi & _ & ->)].
  - destruct (revoke_mdoc_cases _ _ _ _ (inv_mdoc _ Hinv) H H0)
      as [[-> _]|(t & _ & _ & _ & _ & _ & He & ->)]; [done|].
    split; [done|]. unfold mdoc_revoked; simpl. rewrite He by done. by case_decide.
  - unfold build_status_list_credential in H. by repeat case_match; simplify_eq.
Qed.

(** revocation is for good.  Once a credential's bit is set, in the
    revocation list or in the mdoc list, no sequence of calls clears it. *)
Theorem revocation_permanent (u : Url) (m0 m m' : StatusManager) tr tr' (j : Z) :
  new u = Ok m0 -> steps m0 tr m -> steps m tr' m' -> 0 <= j ->
  (revoked m j -> revoked m' j) /\ (mdoc_revoked m j -> mdoc_revoked m' j).
Proof.
  intros Hnew Hs Hs' Hj. apply new_inv in Hnew.
  pose proof (steps_inv _ _ _ Hs Hnew) as Hinv. clear Hs Hnew.
  induction Hs' as [m|m tr1 m1 l m2 Hs IH Hstep]; [done|].
  destruct (IH Hinv) as [IH1 IH2]. pose proof (steps_inv _ _ _ Hs Hinv) as Hinv1.
  destruct (step_revoked _ _ _ j Hinv1 Hj Hstep). tauto.
Qed.
(** What a relying party sees: the answers of the two published lists. *)
Definition published_status (m : StatusManager) (p : StatusPurpose) (i : Z)
  : option (res bool StatusList2021.StatusListError * res TokenStatus Tsl.TokenStatusListError) :=
  l ← list_of m p;
  Some (StatusList2021.get (sl2021 l) i, Tsl.get_status (tsl l) i).

Lemma published_status_inv m p i :
  inv m -> 0 <= i < LIST_CAPACITY ->
  exists l, list_of m p = Some l /\
    published_status m p i =
      Some (Ok (StatusList2021.bit (sl2021 l) i),
            Ok (if StatusList2021.bit (sl2021 l) i then marker p else Valid)).
Proof.
  intros Hinv Hi. destruct (inv_lists _ Hinv p) as (l & Hl & Hok). exists l.
  split; [done|]. unfold published_status. rewrite Hl. simpl.
  rewrite StatusList2021.sl_get_in_range by (apply Hok || rewrite (mo_size _ _ _ Hok); lia).
  unfold Tsl.get_status.
  rewrite Tsl.tsl_get_in_range by (apply Hok || rewrite (mo_tcap _ _ _ Hok); lia).
  simpl. rewrite (mo_agree _ _ _ Hok) by done. by rewrite Tsl.from_byte_status_u8.
Qed.

Definition update_of (p : StatusPurpose) (v : bool) (m : StatusManager) (i : Z) : res unit ManagerError * StatusManager :=
  match p, v with
  | Revocation, _ => revoke m i | Suspension, true => suspend m i
  | Suspension, false => reinstate m i
  end.

Lemma update_published m i p v :
  inv m -> poisoned (lists m) = false -> 0 <= i < LIST_CAPACITY -> (p = Revocation -> v = true) ->
  exists m', update_of p v m i = (Ok tt, m') /\ mdoc m' = mdoc m /\
    forall q j, 0 <= j < LIST_CAPACITY ->
      published_status m' q j =
        if decide (q = p /\ j = i)
        then Some (Ok v, Ok (if v then marker p else Valid))
        else published_status m q j.
Proof.
  intros Hinv Hp Hi Hv.
  destruct (update_status_spec m p i v Hinv) as (_ & _ & Hgood); [lia|].
  destruct (Hgood Hp) as (l & l' & Hl & E & Hok & _ & Hb); [lia|].
  eexists. split.
  { rewrite <- E. destruct p, v; try reflexivity. by specialize (Hv eq_refl). }
  split; [done|].
  intros q j Hj.
  assert (Hinv' : inv (with_lists m
    (Mutex_new (<[purpose_to_string p:=l']> (inner (lists m)))))) by by apply inv_insert.
  destruct (published_status_inv _ q j Hinv' Hj) as (lq & Hlq & ->).
  destruct (published_status_inv _ q j Hinv Hj) as (lq0 & Hlq0 & ->).
  unfold Mutex_new in Hlq. rewrite list_of_insert in Hlq.
  destruct (decide (p = q)) as [<-|Hne].
  - simplify_eq. rewrite Hb by lia.
    destruct (decide (i = j)) as [<-|Hij].
    + by rewrite decide_True.
    + rewrite decide_False; [done|]. naive_solver.
  - rewrite decide_False by naive_solver. by simplify_eq.
Qed.

Lemma mdoc_published m i :
  inv m -> poisoned (mdoc m) = false -> 0 <= i < LIST_CAPACITY ->
  exists m', revoke_mdoc m i = (Ok tt, m') /\ lists m' = lists m /\
    forall j, 0 <= j -> (mdoc_revoked m' j <-> j = i \/ mdoc_revoked m j).
Proof.
  intros Hinv Hp Hi. pose proof (inv_mdoc _ Hinv) as [Ht Hb Hc _]. unfold revoke_mdoc. rewrite Hp.
  destruct (Tsl.tsl_set_in_range (mdoc_tsl (inner (mdoc m))) i 1 Ht)
    as (t & -> & _ & _ & _ & He); [lia|rewrite Hb; lia|].
  eexists. split; [reflexivity|]. split; [done|]. intros j Hj. unfold mdoc_revoked. simpl. rewrite He by done.
  case_decide; naive_solver.
Qed.

(** an administrative update does exactly what it says.  In any reachable
    state with a healthy lock, [revoke], [suspend] and [reinstate] succeed
    on every index of the list; afterwards both published formats give that
    index the new status, and every other index, and the other list, what
    they gave before. *)
Theorem update_exact (u : Url) (m0 m : StatusManager) tr (i : Z) (p : StatusPurpose) (v : bool) :
  new u = Ok m0 -> steps m0 tr m -> poisoned (lists m) = false ->
  0 <= i < LIST_CAPACITY -> (p = Revocation -> v = true) ->
  exists m',
    match p, v with
    | Revocation, _ => revoke m i | Suspension, true => suspend m i
    | Suspension, false => reinstate m i
    end = (Ok tt, m') /\
    forall q j, 0 <= j < LIST_CAPACITY ->
      published_status m' q j =
        if decide (q = p /\ j = i)
        then Some (Ok v, Ok (if v then marker p else Valid))
        else published_status m q j.
Proof.
  intros Hnew Hs Hp Hi Hv. apply new_inv in Hnew.
  destruct (update_published m i p v (steps_inv _ _ _ Hs Hnew) Hp Hi Hv) as (m' & Hu & _ & Hpub). by exists m'.
Qed.

(** C39: the two published documents never disagree.  What a relying party
    decodes from the StatusList2021 credential and from the Token Status
    List of a reachable manager are lists in which, at every index, the
    status is the purpose's marker exactly where the bit is set and
    [Valid] elsewhere. *)
Theorem published_formats_agree (FL : Flate2Laws F) (BL : Base64UrlLaws B)
    (u : Url) (m0 m m' : StatusManager) tr p now iss cred tok :
  new u = Ok m0 -> steps m0 tr m ->
  build_status_list_credential m now (purpose_to_string p) iss = (Ok cred, m') ->
  build_token_status_list m (purpose_to_string p) = Ok tok ->
  m' = m /\
  exists s t,
    StatusList2021.decode (encoded_list (credential_subject cred)) LIST_CAPACITY = Ok s /\
    Tsl.decode (tsl_lst tok) LIST_CAPACITY (tsl_bits tok) = Ok t /\
    forall i, 0 <= i < LIST_CAPACITY ->
      exists b, StatusList2021.get s i = Ok b /\
        Tsl.get_status t i = Ok (if b then marker p else Valid).
Proof.
  intros Hnew Hs Hc Ht. apply new_inv in Hnew. pose proof (steps_inv _ _ _ Hs Hnew) as Hinv.
  destruct (inv_lists _ Hinv p) as (l & Hl & Hok). unfold list_of in Hl.
  unfold build_status_list_credential in Hc. unfold build_token_status_list in Ht.
  rewrite Hl in Hc, Ht. destruct (poisoned (lists m)); [done|]. simpl in Ht.
  destruct (StatusList2021.encode (sl2021 l)) as [e1| |] eqn:E1; [|done..].
  destruct (join m _) as [url| |]; [|done..]. injection Hc as <- <-. simpl.
  destruct (Tsl.encode (tsl l)) as [e2| |] eqn:E2; [|done..]. injection Ht as <-. simpl.
  split; [done|]. exists (sl2021 l), (tsl l).
  apply StatusList2021.sl_decode_encode in E1; [|apply Hok].
  apply Tsl.tsl_decode_encode in E2; [|apply Hok].
  rewrite (mo_size _ _ _ Hok) in E1. rewrite (mo_tcap _ _ _ Hok) in E2.
  split_and!; [done..|]. intros i Hi.
  destruct (published_status_inv _ p i Hinv Hi) as (l0 & Hl0 & Hpub).
  unfold published_status in Hpub. rewrite Hl0 in Hpub. simpl in Hpub.
  unfold list_of in Hl0. rewrite Hl in Hl0. simplify_eq. eexists. by split.
Qed.
End Runs.

(** C36: the drawing loop of [draw_index] ends.  When the list is not full some
    index is free; and on any draws that contain a value whose residue is free
    the loop stops at the first such value and takes that index.  A full list
    is an error at once. *)
Theorem draw_index_terminates (a : gset Z) (c : Z) (draws : list Z) :
  0 < c -> (forall i, i ∈ a -> 0 <= i < c) ->
  (Z.of_nat (size a) < c ->
   (exists i, 0 <= i < c /\ (i ∉ a)) /\
   forall pre r post,
     draws = pre ++ r :: post -> Forall (fun x => (x mod c) ∈ a) pre -> (r mod c ∉ a) ->
     draw_index a c draws = Some (Ok (r mod c), {[r mod c]} ∪ a, post)) /\
  (c <= Z.of_nat (size a) -> draw_index a c draws = Some (Err NoAvailableIndex, a, draws)).
Proof.
  intros Hc Ha. split.
  - intros Hs. split; [by apply free_index_exists; [lia|..]|].
    intros pre r post -> Hpre Hr. unfold draw_index.
    rewrite (proj2 (Z.leb_gt _ _)) by done.
    replace (draw_loop a c (pre ++ r :: post)) with (Some (r mod c, post)); [done|].
    induction Hpre as [|x pre Hx _ IH]; simpl.
    + by rewrite bool_decide_false.
    + by rewrite bool_decide_true.
  - intros Hs. unfold draw_index. by rewrite (proj2 (Z.leb_le _ _)).
Qed.

Lemma draw_index_terminates_witness :
  draw_index {[4]} 10 [14; 24; 7; 9] = Some (Ok 7, {[7]} ∪ {[4]}, [9]).
Proof.
  apply (draw_index_terminates {[4]} 10 [14; 24; 7; 9]) with (pre := [14; 24]) (r := 7).
  - lia.
  - intros i Hi. apply elem_of_singleton in Hi. lia.
  - vm_compute. reflexivity.
  - reflexivity.
  - repeat constructor; apply elem_of_singleton; reflexivity.
  - rewrite elem_of_singleton. vm_compute. discriminate.
Defined.

(** ** A run for the witnesses *)
Section Demo.
Import Toy.

Definition demo : StatusManager :=
  let l p := mkManaged (StatusList2021.new LIST_CAPACITY)
               (Tsl.mkTsl (replicate (Z.to_nat (div_ceil LIST_CAPACITY 4)) 0) 2 LIST_CAPACITY)
               p LIST_CAPACITY ∅ in
  mkManager
    (Mutex_new (<["suspension" := l Suspension]> (<["revocation" := l Revocation]> ∅)))
    (Mutex_new (mkMdoc (Tsl.mkTsl (replicate (Z.to_nat (div_ceil LIST_CAPACITY 8)) 0) 1
                          LIST_CAPACITY) ∅))
    "https://issuer.example.com".

Lemma demo_new : new (U := Toy.url) "https://issuer.example.com" = Ok demo.
Proof. reflexivity. Qed.

Lemma demo_allocates :
  exists m, steps demo [("revocation", "7")]%string m.
Proof.
  assert (H : exists e m ds, allocate_entry demo Revocation [100007] = Some (Ok e, m, ds) /\
    status_list_index e = "7"%string) by (do 3 eexists; split; reflexivity).
  destruct H as (e & m & ds & E & Hidx). exists m.
  apply (steps_snoc demo [] demo _ m (steps_nil demo)). rewrite <- Hidx.
  apply (step_allocate demo Revocation _ (Ok e) m ds E).
Qed.

Lemma allocations_distinct_witness :
  exists m tr, new (U := Toy.url) "https://issuer.example.com" = Ok demo /\
    steps demo tr m /\ tr = [("revocation", "7")]%string /\ NoDup tr.
Proof.
  destruct demo_allocates as [m Hm]. exists m, [("revocation", "7")]%string.
  split; [exact demo_new|]. split; [exact Hm|]. split; [reflexivity|].
  exact (allocations_distinct _ demo m _ demo_new Hm).
Defined.

Lemma revocation_permanent_witness :
  exists m m', steps demo [] m /\ steps m [] m' /\ revoked m 5 /\ revoked m' 5.
Proof.
  pose proof (new_inv _ _ demo_new) as Hinv.
  destruct (update_status_spec demo Revocation 5 true Hinv) as (_ & _ & Hgood); [lia|].
  destruct (Hgood eq_refl) as (l & l' & Hl & E & _ & _ & Hb); [reflexivity|].
  set (m := with_lists _ _) in E.
  assert (Hs : steps demo [] m).
  { change (@nil (string * string)) with (@nil (string * string) ++ []).
    eapply steps_snoc; [apply steps_nil|]. apply (step_revoke demo 5 (Ok tt)); [lia|exact E]. }
  assert (Hr : revoked m 5).
  { exists l'. unfold m, Mutex_new. rewrite list_of_insert, decide_True by done.
    split; [done|]. rewrite Hb by lia. by rewrite decide_True. }
  destruct (reinstate m 5) as [r m'] eqn:Er.
  assert (Hs' : steps m [] m').
  { change (@nil (string * string)) with (@nil (string * string) ++ []).
    eapply steps_snoc; [apply steps_nil|].
    apply (step_reinstate m 5 r m'); [lia|exact Er]. }
  exists m, m'. do 3 (split; [done|]).
  assert (H5 : 0 <= 5) by (apply Z.leb_le; reflexivity).
  destruct (revocation_permanent _ demo m m' [] [] 5 demo_new Hs Hs' H5) as [H _].
  exact (H Hr).
Defined.

Lemma update_exact_witness :
  exists m', revoke demo 5 = (Ok tt, m') /\
    published_status m' Revocation 5 = Some (Ok true, Ok Invalid) /\
    published_status m' Suspension 5 = published_status demo Suspension 5.
Proof.
  destruct (update_exact _ demo demo [] 5 Revocation true demo_new) as (m' & E & H).
  - apply steps_nil.
  - reflexivity.
  - split; [lia|reflexivity].
  - reflexivity.
  - exists m'. split; [exact E|]. split.
    + rewrite (H Revocation 5 ltac:(split; [lia|reflexivity])). reflexivity.
    + rewrite (H Suspension 5 ltac:(split; [lia|reflexivity])). reflexivity.
Defined.

Lemma published_formats_agree_witness :
  exists cred tok m',
    build_status_list_credential demo 0 "revocation" "iss" = (Ok cred, m') /\
    build_token_status_list demo "revocation" = Ok tok /\ m' = demo /\
    exists s t,
      StatusList2021.decode (encoded_list (credential_subject cred)) LIST_CAPACITY = Ok s /\
      Tsl.decode (tsl_lst tok) LIST_CAPACITY (tsl_bits tok) = Ok t /\
      forall i, 0 <= i < LIST_CAPACITY ->
        exists b, StatusList2021.get s i = Ok b /\
          Tsl.get_status t i = Ok (if b then marker Revocation else Valid).
Proof.
  eexists _, _, demo. split; [reflexivity|]. split; [reflexivity|].
  apply (published_formats_agree _ _ _ demo demo demo [] Revocation 0 "iss" _ _ demo_new).
  - apply steps_nil.
  - reflexivity.
  - reflexivity.
Defined.
End Demo.

End Manager.
