(* ===== verification/Effects.v ===== *)
(** * Effectful code: programs over an interface

    The protocol code calls a storage backend through a trait object
    ([&dyn IssuerState], [&dyn VerifierState]), reads the clock and draws
    random identifiers.  Such a function is a program over the signature of
    those calls: a tree whose nodes are calls and whose branches are their
    answers.  Running a program needs a handler, the implementation behind the
    trait object.  Two programs that run concurrently interleave at their
    calls, because every call of a backend is one critical section. *)
From S2P Require Import Prelude.

Inductive prog (E : Type -> Type) (A : Type) : Type :=
| Ret (a : A)
| Vis {X : Type} (e : E X) (k : X -> prog E A).
Arguments Ret {E A} a.
Arguments Vis {E A X} e k.

Fixpoint pbind {E A B} (p : prog E A) (f : A -> prog E B) : prog E B :=
  match p with
  | Ret a => f a
  | Vis e k => Vis e (fun x => pbind (k x) f)
  end.

(** The [?] operator inside a program. *)
Definition pbind_res {E A B Er} (p : prog E (res A Er)) (f : A -> prog E (res B Er))
  : prog E (res B Er) :=
  pbind p (fun r => match r with Ok a => f a | Err e => Ret (Err e) | Panic => Ret Panic end).

Definition pmap {E A B} (f : A -> B) (p : prog E A) : prog E B := pbind p (fun a => Ret (f a)).

(** A call that cannot be interrupted, then [?] on its converted error. *)
Definition pmap_err {E A Er Er'} (f : Er -> Er') (p : prog E (res A Er)) : prog E (res A Er') :=
  pmap (map_err f) p.

Notation "'do' x <- p ; k" := (pbind p (fun x => k))
  (at level 10, x name, p at level 100, k at level 200) : rust_scope.
Notation "'do?' x <- p ; k" := (pbind_res p (fun x => k))
  (at level 10, x name, p at level 100, k at level 200) : rust_scope.
Notation "'do?' ' x <- p ; k" := (pbind_res p (fun x => k))
  (at level 10, x strict pattern, p at level 100, k at level 200) : rust_scope.
(** [return Err(e)] when the condition holds. *)
Notation "'pfail?' c 'with' e ; k" := (if c then Ret (Err e) else k)
  (at level 10, c at level 100, e at level 100, k at level 200) : rust_scope.

(** One signature inside another. *)
Class Sub (E F : Type -> Type) := inj1 : forall X, E X -> F X.
Arguments inj1 {E F _ X} e.

Variant sumE (E F : Type -> Type) (X : Type) : Type :=
| inlE (e : E X)
| inrE (f : F X).
Arguments inlE {E F X} e.
Arguments inrE {E F X} f.

#[export] Instance Sub_refl E : Sub E E := fun X e => e.
#[export] Instance Sub_l E F : Sub E (sumE E F) := fun X e => inlE e.
#[export] Instance Sub_r E F : Sub F (sumE E F) := fun X f => inrE f.

Definition trigger {E F} `{Sub E F} {X} (e : E X) : prog F X := Vis (inj1 e) Ret.

(** A program over a part of a signature, as one over the whole. *)
Fixpoint embed {E F} `{Sub E F} {A} (p : prog E A) : prog F A :=
  match p with
  | Ret a => Ret a
  | Vis e k => Vis (inj1 e) (fun x => embed (k x))
  end.

(** ** The operating system: the clock and randomness *)
Inductive SysE : Type -> Type :=
| UtcNow : SysE DateTime
| NewV4 : SysE string
| RandomBytes (n : nat) : SysE bytes.

(** [chrono::Utc::now()], [Uuid::new_v4().to_string()], [rand::random()]. *)
Definition utc_now {F} `{Sub SysE F} : prog F DateTime := trigger UtcNow.
Definition new_v4 {F} `{Sub SysE F} : prog F string := trigger NewV4.
Definition random_bytes {F} `{Sub SysE F} (n : nat) : prog F bytes := trigger (RandomBytes n).

(** What the system will answer, and how many answers were used. *)
Record Sys := mkSys {
  clock : nat -> DateTime;
  ticks : nat;
  uuids : nat -> string;
  uuids_used : nat;
  noise : nat -> nat -> bytes;
  noise_used : nat;
}.

Definition read_clock (s : Sys) : DateTime * Sys :=
  (clock s (ticks s),
   mkSys (clock s) (S (ticks s)) (uuids s) (uuids_used s) (noise s) (noise_used s)).
Definition draw_uuid (s : Sys) : string * Sys :=
  (uuids s (uuids_used s),
   mkSys (clock s) (ticks s) (uuids s) (S (uuids_used s)) (noise s) (noise_used s)).
Definition draw_bytes (n : nat) (s : Sys) : bytes * Sys :=
  (noise s (noise_used s) n,
   mkSys (clock s) (ticks s) (uuids s) (uuids_used s) (noise s) (S (noise_used s))).

Definition handle_sys {X} (e : SysE X) (s : Sys) : X * Sys :=
  match e in SysE X return X * Sys with
  | UtcNow => read_clock s
  | NewV4 => draw_uuid s
  | RandomBytes n => draw_bytes n s
  end.

(** ** Sequential runs *)

(** The world of a program: the system and the backend's state. *)
Record World (S : Type) := mkWorld { sys : Sys; store : S }.
Arguments mkWorld {S} sys store.
Arguments sys {S} w.
Arguments store {S} w.

Definition handler (E : Type -> Type) (W : Type) := forall X, E X -> W -> X * W.

Fixpoint run {E W A} (h : handler E W) (p : prog E A) (w : W) : A * W :=
  match p with
  | Ret a => (a, w)
  | Vis e k => let '(x, w') := h _ e w in run h (k x) w'
  end.

Lemma run_bind {E W A B} (h : handler E W) (p : prog E A) (f : A -> prog E B) w :
  run h (pbind p f) w = let '(a, w') := run h p w in run h (f a) w'.
Proof.
  revert w. induction p as [a|X e k IH]; intros w; simpl; [done|].
  destruct (h X e w) as [x w']. apply IH.
Qed.

Lemma run_bind_res {E W A B Er} (h : handler E W) (p : prog E (res A Er))
    (f : A -> prog E (res B Er)) w :
  run h (pbind_res p f) w =
    let '(r, w') := run h p w in
    match r with
    | Ok a => run h (f a) w' | Err e => (Err e, w') | Panic => (Panic, w')
    end.
Proof.
  unfold pbind_res. rewrite run_bind. destruct (run h p w) as [[a|e|] w']; done.
Qed.

Lemma run_map_err {E W A Er Er'} (h : handler E W) (f : Er -> Er') (p : prog E (res A Er)) w :
  run h (pmap_err f p) w = let '(r, w') := run h p w in (map_err f r, w').
Proof. unfold pmap_err, pmap. rewrite run_bind. by destruct (run h p w). Qed.

Lemma run_trigger {E F W X} `{Sub E F} (h : handler F W) (e : E X) w :
  run h (trigger e) w = h X (inj1 e) w.
Proof. simpl. by destruct (h X (inj1 e) w). Qed.

(** A successful run, step by step. *)
Lemma run_bind_inv {E W A B} (h : handler E W) (p : prog E A) (f : A -> prog E B) w b w' :
  run h (pbind p f) w = (b, w') -> exists a w1, run h p w = (a, w1) /\ run h (f a) w1 = (b, w').
Proof. rewrite run_bind. destruct (run h p w) as [a w1]. eauto. Qed.

Lemma run_bind_res_Ok {E W A B Er} (h : handler E W) (p : prog E (res A Er)) (f : A -> prog E (res B Er)) w b w' :
  run h (pbind_res p f) w = (Ok b, w') -> exists a w1, run h p w = (Ok a, w1) /\ run h (f a) w1 = (Ok b, w').
Proof. rewrite run_bind_res. destruct (run h p w) as [[a|e|] w1]; [eauto|done..]. Qed.

Lemma run_ret_inv {E W A} (h : handler E W) (a b : A) w w' : run h (Ret a) w = (b, w') -> a = b /\ w' = w.
Proof. by intros [= <- <-]. Qed.

Lemma run_map_err_Ok {E W A Er Er'} (h : handler E W) (f : Er -> Er') (p : prog E (res A Er)) w a w' :
  run h (pmap_err f p) w = (Ok a, w') -> run h p w = (Ok a, w').
Proof. rewrite run_map_err. destruct (run h p w) as [[b|e|] w1]; simpl; by intros [= -> ->]. Qed.

(** Takes a successful run apart at its binds. *)
Ltac run_inv :=
  repeat match goal with
  | H : run _ (pbind_res _ _) _ = (Ok _, _) |- _ => apply run_bind_res_Ok in H as (? & ? & ? & H)
  | H : run _ (pmap_err _ _) _ = (Ok _, _) |- _ => apply run_map_err_Ok in H
  | H : run _ (pbind _ _) _ = (_, _) |- _ => apply run_bind_inv in H as (? & ? & ? & H)
  | H : run _ (Ret _) _ = (_, _) |- _ => apply run_ret_inv in H as [? ?]
  | H : run _ (let '(_, _) := ?x in _) _ = _ |- _ => destruct x
  | H : Ok _ = Ok _ |- _ => injection H as H
  | H : ?x = ?y |- _ => (is_var x || is_var y); subst
  end.

(** ** The world of a protocol program

    A backend is a function from a call, the time of the call and its state to
    an answer and a new state.  One tick of the clock is spent on every call of
    a backend, used or not: the clock is arbitrary, so nothing is lost. *)
Definition backend (E : Type -> Type) (S : Type) := forall X, E X -> DateTime -> S -> X * S.

Definition world_handler {E S} (op : backend E S) : handler (sumE SysE E) (World S) :=
  fun X e w =>
    match e with
    | inlE e => let '(x, s) := handle_sys e (sys w) in (x, mkWorld s (store w))
    | inrE e =>
        let '(now, s) := read_clock (sys w) in
        let '(x, st) := op X e now (store w) in (x, mkWorld s st)
    end.

(** The clock never goes back. *)
Definition monotone_clock (s : Sys) : Prop :=
  forall i j, (i <= j)%nat -> clock s i <= clock s j.

(** Every answer of the clock is an instant chrono can add a TTL to. *)
Definition clock_in_range (s : Sys) : Prop :=
  forall i, 0 <= clock s i <= 1000000000000 * NANOS.

(** The system after some calls: the same clock, further on. *)
Definition sys_after (s s' : Sys) : Prop :=
  clock s' = clock s /\ uuids s' = uuids s /\ noise s' = noise s /\ (ticks s <= ticks s')%nat
  /\ (uuids_used s <= uuids_used s')%nat.

Lemma sys_after_refl s : sys_after s s.
Proof. unfold sys_after. naive_solver lia. Qed.

Lemma sys_after_trans s1 s2 s3 : sys_after s1 s2 -> sys_after s2 s3 -> sys_after s1 s3.
Proof. unfold sys_after. intros (?&?&?&?&?) (?&?&?&?&?). repeat split; (congruence || lia). Qed.

Lemma handle_sys_after {X} (e : SysE X) s : sys_after s (handle_sys e s).2.
Proof. destruct e; unfold sys_after; simpl; repeat split; lia. Qed.

Lemma read_clock_after s : sys_after s (read_clock s).2.
Proof. apply (handle_sys_after UtcNow). Qed.

Lemma world_handler_after {E S} (op : backend E S) X (e : sumE SysE E X) w :
  sys_after (sys w) (sys (world_handler op X e w).2).
Proof.
  destruct e as [e|e]; simpl.
  - pose proof (handle_sys_after e (sys w)). by destruct (handle_sys e (sys w)).
  - pose proof (read_clock_after (sys w)). unfold read_clock in *. simpl in *.
    by destruct (op X e (clock (sys w) (ticks (sys w))) (store w)).
Qed.

Lemma run_after {E S A} (op : backend E S) (p : prog (sumE SysE E) A) w :
  sys_after (sys w) (sys (run (world_handler op) p w).2).
Proof.
  revert w. induction p as [a|X e k IH]; intros w; simpl; [apply sys_after_refl|].
  pose proof (world_handler_after op X e w) as H1.
  destruct (world_handler op X e w) as [x w1]. simpl in *.
  eapply sys_after_trans; [exact H1|apply IH].
Qed.

(** ** Programs all of whose calls satisfy a condition *)
Inductive calls_in {E A} (P : forall X, E X -> Prop) : prog E A -> Prop :=
| calls_ret a : calls_in P (Ret a)
| calls_vis X (e : E X) k : P X e -> (forall x, calls_in P (k x)) -> calls_in P (Vis e k).

Lemma calls_in_vis_inv {E A X} (P : forall X, E X -> Prop) (e : E X) (k : X -> prog E A) :
  calls_in P (Vis e k) -> P X e /\ forall x, calls_in P (k x).
Proof.
  intros Hc.
  refine (match Hc in calls_in _ q return
    match q with Ret _ => True | @Vis _ _ X e k => P X e /\ forall x, calls_in P (k x) end
  with calls_ret _ _ => Logic.I | calls_vis _ _ _ _ H1 H2 => conj H1 H2 end).
Qed.

Lemma calls_in_bind {E A B} (P : forall X, E X -> Prop) (p : prog E A) (f : A -> prog E B) :
  calls_in P p -> (forall a, calls_in P (f a)) -> calls_in P (pbind p f).
Proof. induction 1; simpl; intros; [done|]. constructor; auto. Qed.

Lemma calls_in_bind_res {E A B Er} (P : forall X, E X -> Prop) (p : prog E (res A Er))
    (f : A -> prog E (res B Er)) :
  calls_in P p -> (forall a, calls_in P (f a)) -> calls_in P (pbind_res p f).
Proof. intros. apply calls_in_bind; [done|]. intros []; [done|constructor..]. Qed.

Lemma calls_in_map_err {E A Er Er'} (P : forall X, E X -> Prop) (g : Er -> Er')
    (p : prog E (res A Er)) :
  calls_in P p -> calls_in P (pmap_err g p).
Proof. intros. apply calls_in_bind; [done|]. constructor. Qed.

Lemma calls_in_trigger {E F X} `{Sub E F} (P : forall X, F X -> Prop) (e : E X) :
  P X (inj1 e) -> calls_in P (trigger e).
Proof. intros. constructor; [done|constructor]. Qed.

Lemma calls_in_mono {E A} (P Q : forall X, E X -> Prop) (p : prog E A) :
  (forall X e, P X e -> Q X e) -> calls_in P p -> calls_in Q p.
Proof. intros HPQ Hp. induction Hp; constructor; auto. Qed.

(** An invariant of the allowed calls is an invariant of the programs. *)
Lemma run_invariant {E W A} (I : W -> Prop) (P : forall X, E X -> Prop) (h : handler E W) :
  (forall X (e : E X) w, P X e -> I w -> I (h X e w).2) ->
  forall (p : prog E A) w, calls_in P p -> I w -> I (run h p w).2.
Proof.
  intros Hs p. induction p as [a|X e k IH]; intros w Hc HI; simpl; [done|].
  apply calls_in_vis_inv in Hc as [HP Hk].
  pose proof (Hs X e w HP HI) as HI'. destruct (h X e w) as [x w1]. apply IH; [apply Hk|done].
Qed.

(** The calls a run makes, rather than those a program could make. *)
Fixpoint calls_made {E W A} (P : forall X, E X -> Prop) (h : handler E W) (p : prog E A) (w : W) : Prop :=
  match p with
  | Ret _ => True
  | Vis e k => P _ e /\ calls_made P h (k (h _ e w).1) (h _ e w).2
  end.

Lemma run_made_invariant {E W A} (I : W -> Prop) (P : forall X, E X -> Prop) (h : handler E W) :
  (forall X (e : E X) w, P X e -> I w -> I (h X e w).2) ->
  forall (p : prog E A) w, calls_made P h p w -> I w -> I (run h p w).2.
Proof.
  intros Hs p. induction p as [a|X e k IH]; intros w Hc HI; simpl; [done|]. destruct Hc as [HP Hk].
  pose proof (Hs X e w HP HI) as HI'. destruct (h X e w) as [x w1]. by apply IH.
Qed.

(** Discharges [calls_in] for a program written with the notations above. *)
Ltac solve_calls :=
  repeat first
    [ progress intros | apply calls_in_bind_res | apply calls_in_map_err | apply calls_in_trigger | apply calls_in_bind
    | apply calls_ret | apply calls_vis
    | match goal with |- calls_in _ (if ?c then _ else _) => destruct c end
    | match goal with |- calls_in _ (match ?x with _ => _ end) => destruct x end
    | done ].

(** ** Programs all of whose results satisfy a condition

    Given what the answers of the calls satisfy, whatever the calls do. *)
Fixpoint outcomes {E A} (post : forall X, E X -> X -> Prop) (Q : A -> Prop) (p : prog E A) : Prop :=
  match p with
  | Ret a => Q a
  | Vis e k => forall x, post _ e x -> outcomes post Q (k x)
  end.

Lemma outcomes_mono {E A} post (Q Q' : A -> Prop) (p : prog E A) :
  (forall a, Q a -> Q' a) -> outcomes post Q p -> outcomes post Q' p.
Proof. intros HQ. induction p; simpl; auto. Qed.

Lemma outcomes_bind {E A B} post (Q : B -> Prop) (p : prog E A) (f : A -> prog E B) :
  outcomes post (fun a => outcomes post Q (f a)) p -> outcomes post Q (pbind p f).
Proof. induction p; simpl; auto. Qed.

(** The continuation runs after a success only. *)
Definition on_res {A Er} (ok : A -> Prop) (err : Er -> Prop) (r : res A Er) : Prop :=
  match r with Ok a => ok a | Err e => err e | Panic => False end.

Lemma outcomes_bind_res {E A B Er} post (ok : B -> Prop) (err : Er -> Prop) (p : prog E (res A Er))
    (f : A -> prog E (res B Er)) :
  outcomes post (on_res (fun a => outcomes post (on_res ok err) (f a)) err) p ->
  outcomes post (on_res ok err) (pbind_res p f).
Proof. intros Hp. apply outcomes_bind. revert Hp. apply outcomes_mono. by intros [a|e|]. Qed.

Lemma outcomes_map_err {E A Er Er'} post (ok : A -> Prop) (err : Er' -> Prop) (g : Er -> Er') (p : prog E (res A Er)) :
  outcomes post (on_res ok (fun e => err (g e))) p -> outcomes post (on_res ok err) (pmap_err g p).
Proof. intros Hp. apply outcomes_bind. revert Hp. apply outcomes_mono. by intros [a|e|]. Qed.

Lemma outcomes_ret_np {E A Er} (post : forall X, E X -> X -> Prop) (r : res A Er) :
  r <> Panic -> outcomes post (on_res (fun _ => True) (fun _ => True)) (Ret r).
Proof. by destruct r. Qed.

(** ** Simulation between two handlers

    If every allowed call takes related worlds to equal answers and related
    worlds, so does every program made of allowed calls. *)
Definition simulates {E W V} (R : W -> V -> Prop) (P : forall X, E X -> Prop)
    (h : handler E W) (g : handler E V) : Prop :=
  forall X (e : E X) w v, P X e -> R w v ->
    (h X e w).1 = (g X e v).1 /\ R (h X e w).2 (g X e v).2.

Lemma simulates_mono {E W V} (R : W -> V -> Prop) (P Q : forall X, E X -> Prop) (h : handler E W) (g : handler E V) :
  (forall X e, Q X e -> P X e) -> simulates R P h g -> simulates R Q h g.
Proof. intros HQP Hs X e w v HQ. apply Hs. auto. Qed.

Lemma run_simulates {E W V A} (R : W -> V -> Prop) P (h : handler E W) (g : handler E V) :
  simulates R P h g -> forall (p : prog E A) w v, calls_in P p -> R w v ->
  (run h p w).1 = (run g p v).1 /\ R (run h p w).2 (run g p v).2.
Proof.
  intros Hs p. induction p as [a|X e k IH]; intros w v Hc HR; simpl; [done|].
  apply calls_in_vis_inv in Hc as [HP Hk].
  destruct (Hs X e w v HP HR) as [Hx HR'].
  destruct (h X e w) as [x w1], (g X e v) as [y v1]. simpl in *. subst. auto.
Qed.

Lemma calls_made_simulates {E W V A} (R : W -> V -> Prop) P (Q : forall X, E X -> Prop)
    (h : handler E W) (g : handler E V) :
  simulates R P h g -> forall (p : prog E A) w v, calls_in P p -> R w v ->
  calls_made Q h p w -> calls_made Q g p v.
Proof.
  intros Hs p. induction p as [a|X e k IH]; intros w v Hc HR; simpl; [done|].
  apply calls_in_vis_inv in Hc as [HP Hk]. intros [HQ Hm]. split; [done|].
  destruct (Hs X e w v HP HR) as [Hx HR']. rewrite <- Hx. by eapply IH.
Qed.

(** The same of the calls a run makes. *)
Lemma made_simulates {E W V A} (R : W -> V -> Prop) P (h : handler E W) (g : handler E V) :
  simulates R P h g -> forall (p : prog E A) w v, R w v -> calls_made P h p w ->
  (run h p w).1 = (run g p v).1 /\ R (run h p w).2 (run g p v).2 /\ calls_made P g p v.
Proof.
  intros Hs p. induction p as [a|X e k IH]; intros w v HR; simpl; [done|]. intros [HP Hm].
  destruct (Hs X e w v HP HR) as [Hx HR'].
  destruct (h X e w) as [x w1], (g X e v) as [y v1]. simpl in *. subst y.
  destruct (IH x w1 v1 HR' Hm) as (? & ? & ?). done.
Qed.

Lemma calls_made_mono {E W A} (P Q : forall X, E X -> Prop) (h : handler E W) (p : prog E A) w :
  (forall X e, P X e -> Q X e) -> calls_made P h p w -> calls_made Q h p w.
Proof. intros HPQ. revert w. induction p as [a|X e k IH]; intros w; simpl; [done|]. intros [? ?]. eauto. Qed.

(** ** Interleaved runs *)

(** One call of one of the programs. *)
Inductive cstep {E W A} (h : handler E W) : list (prog E A) * W -> list (prog E A) * W -> Prop :=
| cstep_call l1 l2 X (e : E X) k w x w' :
    h X e w = (x, w') ->
    cstep h (l1 ++ Vis e k :: l2, w) (l1 ++ k x :: l2, w').

Inductive csteps {E W A} (h : handler E W) : list (prog E A) * W -> list (prog E A) * W -> Prop :=
| csteps_refl c : csteps h c c
| csteps_step c1 c2 c3 : cstep h c1 c2 -> csteps h c2 c3 -> csteps h c1 c3.

(** A schedule names, call by call, the program that moves. *)
Fixpoint run_schedule {E W A} (h : handler E W) (sched : list nat) (ps : list (prog E A)) (w : W)
  : list (prog E A) * W :=
  match sched with
  | [] => (ps, w)
  | i :: sched' =>
      match ps !! i with
      | Some (Vis e k) => let '(x, w') := h _ e w in run_schedule h sched' (<[i := k x]> ps) w'
      | _ => run_schedule h sched' ps w
      end
  end.

Lemma run_schedule_csteps {E W A} (h : handler E W) sched (ps : list (prog E A)) w :
  csteps h (ps, w) (run_schedule h sched ps w).
Proof.
  revert ps w. induction sched as [|i sched IH]; intros ps w; simpl; [constructor|].
  destruct (ps !! i) as [[a|X e k]|] eqn:Hi; [apply IH| |apply IH].
  destruct (h X e w) as [x w'] eqn:Hx.
  eapply csteps_step; [|apply IH].
  assert (Hlen : (i < length ps)%nat) by (eapply lookup_lt_Some; eassumption).
  rewrite <- (take_drop_middle ps i _ Hi) at 1.
  rewrite insert_take_drop by done. by apply cstep_call.
Qed.

Lemma csteps_trans {E W A} (h : handler E W) (c1 c2 c3 : list (prog E A) * W) :
  csteps h c1 c2 -> csteps h c2 c3 -> csteps h c1 c3.
Proof. induction 1; intros; [done|]. econstructor; [eassumption|auto]. Qed.

(** One of the programs runs to its end. *)
Lemma csteps_run {E W A} (h : handler E W) l1 l2 (p : prog E A) w :
  csteps h (l1 ++ p :: l2, w) (l1 ++ Ret (run h p w).1 :: l2, (run h p w).2).
Proof.
  revert w. induction p as [a|X e k IH]; intros w; simpl; [constructor|].
  destruct (h X e w) as [x w'] eqn:Hx. econstructor; [by constructor|]. apply IH.
Qed.

(** All of the programs run to their ends. *)
Lemma csteps_finish {E W A} (h : handler E W) (ps : list (prog E A)) w :
  exists rs w', csteps h (ps, w) (map Ret rs, w').
Proof.
  assert (Hf : forall (ps : list (prog E A)) (done_ : list A) (w : W), exists (rs : list A) w', csteps h (map Ret done_ ++ ps, w) (map Ret rs, w')).
  { clear. induction ps as [|p ps IH]; intros done_ w.
    - exists done_, w. rewrite app_nil_r. constructor.
    - destruct (IH (done_ ++ [(run h p w).1]) (run h p w).2) as (rs & w' & Hc). exists rs, w'.
      eapply csteps_trans; [apply csteps_run|]. by rewrite map_app, <- app_assoc in Hc. }
  exact (Hf ps [] w).
Qed.

(** An interleaved run every call of which satisfies a condition in the world
    it is made in. *)
Inductive csteps_where {E W A} (P : forall X, E X -> W -> Prop) (h : handler E W)
  : list (prog E A) * W -> list (prog E A) * W -> Prop :=
| csteps_where_refl c : csteps_where P h c c
| csteps_where_step l1 l2 X (e : E X) k w c :
    P X e w -> csteps_where P h (l1 ++ k (h X e w).1 :: l2, (h X e w).2) c ->
    csteps_where P h (l1 ++ Vis e k :: l2, w) c.

Lemma csteps_where_csteps {E W A} P (h : handler E W) (c c' : list (prog E A) * W) :
  csteps_where P h c c' -> csteps h c c'.
Proof.
  induction 1 as [c|l1 l2 X e k w c HP _ IH]; [constructor|].
  eapply csteps_step; [|exact IH]. constructor. apply surjective_pairing.
Qed.

Lemma csteps_where_mono {E W A} P Q (h : handler E W) (c c' : list (prog E A) * W) :
  (forall X (e : E X) w, P X e w -> Q X e w) -> csteps_where P h c c' -> csteps_where Q h c c'.
Proof. intros HPQ. induction 1; constructor; auto. Qed.

(** For witnesses: the calls of a schedule. *)
Fixpoint schedule_where {E W A} (P : forall X, E X -> W -> Prop) (h : handler E W) (sched : list nat)
    (ps : list (prog E A)) (w : W) : Prop :=
  match sched with
  | [] => True
  | i :: sched' =>
      match ps !! i with
      | Some (Vis e k) => P _ e w /\ schedule_where P h sched' (<[i := k (h _ e w).1]> ps) (h _ e w).2
      | _ => schedule_where P h sched' ps w
      end
  end.

Lemma run_schedule_where {E W A} P (h : handler E W) sched (ps : list (prog E A)) w :
  schedule_where P h sched ps w -> csteps_where P h (ps, w) (run_schedule h sched ps w).
Proof.
  revert ps w. induction sched as [|i sched IH]; intros ps w; simpl; [constructor|].
  destruct (ps !! i) as [[a|X e k]|] eqn:Hi; [apply IH| |apply IH]. intros [HP Hs].
  rewrite (surjective_pairing (h X e w)). apply IH in Hs. revert Hs.
  assert (Hlen : (i < length ps)%nat) by (eapply lookup_lt_Some; eassumption).
  rewrite insert_take_drop by done. intros Hs.
  rewrite <- (take_drop_middle ps i _ Hi) at 1. by constructor.
Qed.

(** The calls of the programs are the calls of the run. *)
Lemma csteps_calls_where {E W A} (P : forall X, E X -> Prop) (h : handler E W) (c c' : list (prog E A) * W) :
  csteps h c c' -> Forall (calls_in P) c.1 -> csteps_where (fun X e _ => P X e) h c c'.
Proof.
  induction 1 as [c|c1 c2 c3 H12 _ IH]; intros Hp; [constructor|]. destruct H12 as [l1 l2 X e k w x w' Hx]. simpl in *.
  apply Forall_app in Hp as [Hp1 [He Hp2]%Forall_cons]. apply calls_in_vis_inv in He as [He Hk].
  constructor; [done|]. rewrite Hx. apply IH. simpl. apply Forall_app. split; [done|]. by constructor.
Qed.

Lemma csteps_where_and {E W A} P Q (h : handler E W) (c c' : list (prog E A) * W) :
  Forall (calls_in P) c.1 -> csteps_where Q h c c' -> csteps_where (fun X e w => P X e /\ Q X e w) h c c'.
Proof.
  intros Hp Hc. induction Hc as [c|l1 l2 X e k w c HQ _ IH]; [constructor|]. simpl in *.
  apply Forall_app in Hp as [Hp1 [He Hp2]%Forall_cons]. apply calls_in_vis_inv in He as [He Hk].
  constructor; [done|]. apply IH. apply Forall_app. split; [done|]. by constructor.
Qed.

Lemma csteps_where_simulates {E W V A} (R : W -> V -> Prop) (P : forall X, E X -> Prop) Q Q'
    (h : handler E W) (g : handler E V) (c c' : list (prog E A) * W) :
  simulates R P h g -> (forall X (e : E X) w v, R w v -> Q X e w -> P X e /\ Q' X e v) ->
  csteps_where Q h c c' -> forall v, R c.2 v ->
  exists v', csteps_where Q' g (c.1, v) (c'.1, v') /\ R c'.2 v'.
Proof.
  intros Hs HQ Hc. induction Hc as [c|l1 l2 X e k w c He _ IH]; intros v HR.
  - exists v. split; [|done]. constructor.
  - simpl in *. destruct (HQ _ _ _ _ HR He) as [HP He']. destruct (Hs X e w v HP HR) as [H1 H2].
    destruct (IH _ H2) as (v' & Hv & ?). exists v'. split; [|done]. constructor; [done|]. by rewrite <- H1.
Qed.

Lemma csteps_where_invariant {E W A} (I : W -> Prop) P (h : handler E W) (c c' : list (prog E A) * W) :
  (forall X (e : E X) w, P X e w -> I w -> I (h X e w).2) -> csteps_where P h c c' -> I c.2 -> I c'.2.
Proof. intros Hs. induction 1 as [c|l1 l2 X e k w c HP _ IH]; simpl in *; [done|]. intros ?. apply IH. by apply Hs. Qed.

(** ** What a program assures whatever runs beside it

    [R] is how the calls of all programs may change the world: then [assures]
    says that the program's result satisfies [Q] in the world it returns in. *)
Fixpoint assures {E W A} (R : W -> W -> Prop) (P : forall X, E X -> W -> Prop) (h : handler E W)
    (Q : A -> W -> Prop) (p : prog E A) (w : W) : Prop :=
  match p with
  | Ret a => Q a w
  | Vis e k => forall w', R w w' -> P _ e w' -> assures R P h Q (k (h _ e w').1) (h _ e w').2
  end.

Section Assures.
Context {E : Type -> Type} {W A : Type} (R : W -> W -> Prop) `{!PreOrder R} (P : forall X, E X -> W -> Prop).
Context (h : handler E W) (Hstep : forall X (e : E X) w, P X e w -> R w (h X e w).2).

(** A result that keeps being so. *)
Definition stable (Q : A -> W -> Prop) : Prop := forall a w w', R w w' -> Q a w -> Q a w'.

Lemma assures_later Q (p : prog E A) w w' : stable Q -> R w w' -> assures R P h Q p w -> assures R P h Q p w'.
Proof.
  intros HQ HR. destruct p as [a|X e k]; simpl; [by apply HQ|]. intros Hp w2 H2. apply Hp. by trans w'.
Qed.

Lemma csteps_where_assures Qs (c c' : list (prog E A) * W) :
  Forall stable Qs -> csteps_where P h c c' ->
  Forall2 (fun Q p => assures R P h Q p c.2) Qs c.1 ->
  R c.2 c'.2 /\ Forall2 (fun Q p => assures R P h Q p c'.2) Qs c'.1.
Proof.
  intros HQs Hc. induction Hc as [c|l1 l2 X e k w c HP _ IH]; intros Hp; [done|]. simpl in *.
  assert (HR : R w (h X e w).2) by auto.
  assert (Hlater : forall Qs l, Forall stable Qs -> Forall2 (fun Q p => assures R P h Q p w) Qs l ->
    Forall2 (fun Q p => assures R P h Q p (h X e w).2) Qs l).
  { intros Qs' l Hst Hl. induction Hl as [|Q p Qs' l Hq _ IHl]; constructor; apply Forall_cons in Hst as [? ?]; [|auto].
    by eapply assures_later. }
  apply Forall2_app_inv_r in Hp as (Q1 & Q2 & Hp1 & Hp2 & ->). apply Forall_app in HQs as [Hs1 Hs2].
  apply Forall2_cons_inv_r in Hp2 as (Q & Q3 & He & Hp3 & ->). pose proof Hs2 as [HsQ Hs3]%Forall_cons.
  destruct IH as [HR' Hend].
  - apply Forall2_app; [by apply Hlater|]. constructor; [|by apply Hlater]. by apply He.
  - split; [by trans (h X e w).2|done].
Qed.
End Assures.

(** A simulation carries over to interleaved runs. *)
Lemma csteps_simulates {E W V A} (R : W -> V -> Prop) P (h : handler E W) (g : handler E V)
    (c c' : list (prog E A) * W) :
  simulates R P h g -> csteps h c c' -> forall v, Forall (calls_in P) c.1 -> R c.2 v ->
  exists v', csteps g (c.1, v) (c'.1, v') /\ R c'.2 v' /\ Forall (calls_in P) c'.1.
Proof.
  intros Hs Hc. induction Hc as [c|c1 c2 c3 H12 _ IH]; intros v Hp HR.
  - exists v. split; [|done]. destruct c. constructor.
  - destruct H12 as [l1 l2 X e k w x w' Hx]. simpl in *.
    apply Forall_app in Hp as [Hp1 [He Hp2]%Forall_cons].
    apply calls_in_vis_inv in He as [He Hk].
    destruct (Hs X e w v He HR) as [H1 H2]. rewrite Hx in H1, H2. simpl in *.
    destruct (IH (g X e v).2) as (v' & Hv' & ? & ?).
    { apply Forall_app. split; [done|]. by constructor. }
    { done. }
    exists v'. split; [|done]. eapply csteps_step; [|exact Hv'].
    constructor. rewrite H1. apply surjective_pairing.
Qed.

(** What the calls answer decides what interleaved programs return.  [I] holds in
    every world of the run. *)
Lemma csteps_outcomes {E W A} (I : W -> Prop) post (Qs : list (A -> Prop)) (h : handler E W) (c c' : list (prog E A) * W) :
  (forall X (e : E X) w, I w -> post X e (h X e w).1 /\ I (h X e w).2) ->
  csteps h c c' -> I c.2 -> Forall2 (outcomes post) Qs c.1 -> Forall2 (outcomes post) Qs c'.1.
Proof.
  intros Hs Hc. induction Hc as [c|c1 c2 c3 H12 _ IH]; [done|]. destruct H12 as [l1 l2 X e k w x w' Hx]. simpl in *.
  intros HI Hp. destruct (Hs X e w HI) as [Ha HI']. rewrite Hx in Ha, HI'. apply IH; [done|].
  apply Forall2_app_inv_r in Hp as (Q1 & Q2 & Hp1 & Hp2 & ->).
  apply Forall2_cons_inv_r in Hp2 as (Q & Q3 & He & Hp3 & ->).
  apply Forall2_app; [done|]. constructor; [|done]. by apply He.
Qed.

(** A system for the witnesses: the clock starts 1000 seconds after the epoch
    and advances by a millisecond at every call, a thousand times. *)
Module SysDemo.
Definition demo_sys : Sys := {|
  clock i := 1000 * NANOS + Z.min (Z.of_nat i) 1000 * 1000000;
  ticks := 0;
  uuids i := "uuid-" +:+ pretty (N.of_nat i);
  uuids_used := 0;
  noise i n := replicate n (Z.of_nat i mod 256);
  noise_used := 0 |}.

Lemma demo_sys_clock : monotone_clock demo_sys /\ clock_in_range demo_sys.
Proof.
  split.
  - intros i j Hij. simpl. lia.
  - intros i. unfold NANOS. simpl. unfold NANOS. lia.
Qed.
End SysDemo.
