(* ===== verification/Threads.v ===== *)
(** * Threads over locks

    Operations written at the grain of their [lock()] calls, for a component
    whose state [S] is protected by mutexes named by [L]: how threads of such
    operations interleave, when they are deadlocked, and why threads that take
    their locks in one order never are. *)
From S2P Require Import Prelude Effects.

Section Threads.
Context {L St : Type} `{EqDecision L}.

(** What a thread does between two scheduling points. *)
Inductive LockE : Type -> Type :=
| Lock (l : L) : LockE unit
| Unlock (l : L) : LockE unit
| Touch {X} (f : St -> X * St) : LockE X.

Definition lock_ (l : L) : prog LockE unit := Vis (Lock l) Ret.
Definition unlock_ (l : L) : prog LockE unit := Vis (Unlock l) Ret.
Definition touch {X} (f : St -> X * St) : prog LockE X :=
  Vis (Touch f) Ret.

(** An operation that takes one lock and does all its work under it. *)
Definition under {X} (l : L) (f : St -> X * St)
  : prog LockE X :=
  do _ <- lock_ l; do x <- touch f; do _ <- unlock_ l; Ret x.

(** The guards are dropped. *)
Fixpoint unlock_all (ls : list L) : prog LockE unit :=
  match ls with [] => Ret tt | l :: ls' => do _ <- unlock_ l; unlock_all ls' end.

(** [lock().map_err(|_| e)?] under the guards [held]: a poisoned mutex is an
    error, which drops all of them. *)
Definition lock_or {A X Er} (e : Er) (l : L) (m : St -> Mutex A) (held : list L)
    (k : prog LockE (res X Er)) : prog LockE (res X Er) :=
  do _ <- lock_ l;
  do bad <- touch (fun st => (poisoned (m st), st));
  if bad : bool then do _ <- unlock_all (l :: held); Ret (Err e) else k.

(** ** Interleaving at the locks *)

(** The locks held by some thread, and the state they protect. *)
Definition Locked := (list L * St)%type.

(** One step of one thread; [None]: it has finished, or waits for a lock. *)
Definition thread_step {A} (p : prog LockE A) (c : Locked) : option (prog LockE A * Locked) :=
  match p with
  | Ret _ => None
  | Vis e k =>
      match e in LockE X return (X -> prog LockE A) -> option (prog LockE A * Locked) with
      | Lock l => fun k => if decide (l ∈ c.1) then None else Some (k tt, (l :: c.1, c.2))
      | Unlock l => fun k => Some (k tt, (filter (fun l' => l' <> l) c.1, c.2))
      | Touch f => fun k => let '(x, st) := f c.2 in Some (k x, (c.1, st))
      end k
  end.

Definition finished {A} (p : prog LockE A) : bool :=
  match p with Ret _ => true | Vis _ _ => false end.

Inductive pool_step {A} : list (prog LockE A) * Locked -> list (prog LockE A) * Locked -> Prop :=
| pool_step_at i ps c p p' c' :
    ps !! i = Some p -> thread_step p c = Some (p', c') ->
    pool_step (ps, c) (<[i := p']> ps, c').

(** Some thread has not finished, and no thread can move. *)
Definition deadlocked {A} (s : list (prog LockE A) * Locked) : Prop :=
  (exists p, p ∈ s.1 /\ finished p = false) /\ forall s', ~ pool_step s s'.

(** Run a schedule, for witnesses. *)
Fixpoint pool_run {A} (sched : list nat) (s : list (prog LockE A) * Locked)
  : list (prog LockE A) * Locked :=
  match sched with
  | [] => s
  | i :: sched' =>
      match s.1 !! i with
      | Some p => match thread_step p s.2 with
                  | Some (p', c') => pool_run sched' (<[i := p']> s.1, c')
                  | None => pool_run sched' s
                  end
      | None => pool_run sched' s
      end
  end.

Lemma pool_run_steps {A} sched (s : list (prog LockE A) * Locked) :
  rtc pool_step s (pool_run sched s).
Proof.
  revert s. induction sched as [|i sched IH]; intros [ps c]; simpl; [done|].
  destruct (ps !! i) as [p|] eqn:Hi; [|apply IH].
  destruct (thread_step p c) as [[p' c']|] eqn:Hp; [|apply IH].
  eapply rtc_l; [|apply IH]. by econstructor.
Qed.

(** ** A thread alone is the operation *)
Definition alone : handler LockE St := fun X e st =>
  match e in LockE X return X * St with
  | Lock _ | Unlock _ => (tt, st)
  | Touch f => f st
  end.

Lemma under_alone {X} l (f : St -> X * St) st :
  run alone (under l f) st = f st.
Proof. simpl. by destruct (f st). Qed.


(** ** Threads that take locks in one order *)
Section Order.
Context (rank : L -> Z).

Definition lock_cond {X} (e : LockE X) (c : X -> list L -> Prop) : list L -> Prop :=
  match e in LockE X return (X -> list L -> Prop) -> list L -> Prop with
  | Lock l => fun c H => (forall l', l' ∈ H -> rank l' < rank l) /\ c tt (l :: H)
  | Unlock l => fun c H => l ∈ H /\ c tt (filter (fun l' => l' <> l) H)
  | Touch f => fun c H => forall x, c x H
  end c.

(** [ordered p H]: holding [H], [p] only takes locks above those it holds and
    ends holding nothing. *)
Fixpoint ordered {A} (p : prog LockE A) : list L -> Prop :=
  match p with
  | Ret _ => fun H => H = []
  | Vis e k => lock_cond e (fun x => ordered (k x))
  end.

Lemma under_ordered {X} l (f : St -> X * St) :
  ordered (under l f) [].
Proof.
  simpl. split; [by intros ? ?%not_elem_of_nil|]. intros x.
  split; [by apply list_elem_of_singleton|]. by rewrite filter_cons_False by naive_solver.
Qed.

Lemma ordered_map {A B} (f : A -> B) (p : prog LockE A) H0 :
  ordered p H0 -> ordered (pmap f p) H0.
Proof.
  revert H0. induction p as [a|X e k IH]; intros H0; simpl; [done|].
  destruct e; simpl.
  - intros [? ?]. split; [done|]. by apply IH.
  - intros [? ?]. split; [done|]. by apply IH.
  - intros Ho x. by apply IH.
Qed.
(** Every thread is ordered from what it holds, the lock table is what the
    threads hold, and no lock has two holders. *)
Definition pool_inv {A} (s : list (prog LockE A) * Locked) : Prop :=
  exists Hs : list (list L),
    Forall2 ordered s.1 Hs /\
    (forall l, l ∈ s.2.1 <-> exists i H, Hs !! i = Some H /\ l ∈ H) /\
    (forall l i j H H', Hs !! i = Some H -> Hs !! j = Some H' -> l ∈ H -> l ∈ H' -> i = j).

Section PoolFacts.
Context {A : Type}.
Implicit Types s : list (prog LockE A) * Locked.

Lemma pool_inv_start (ps : list (prog LockE A)) st :
  Forall (fun p => ordered p []) ps -> pool_inv (ps, ([], st)).
Proof.
  intros Hp. exists (replicate (length ps) []). simpl. split; [|split].
  - apply Forall2_same_length_lookup_2; [by rewrite length_replicate|].
    intros i p H1 Hi [-> _]%lookup_replicate. by apply (Forall_lookup_1 _ _ _ _ Hp Hi).
  - intros l. split; [by intros ?%not_elem_of_nil|].
    by intros (i & H1 & [-> _]%lookup_replicate & ?%not_elem_of_nil).
  - by intros l i j H1 H2 [-> _]%lookup_replicate _ ?%not_elem_of_nil.
Qed.

(** The invariant after thread [i] moved and now holds [H']. *)
Lemma pool_inv_update (ps : list (prog LockE A)) (Hs : list (list L)) i p' H' held st :
  Forall2 ordered ps Hs -> is_Some (Hs !! i) -> ordered p' H' ->
  (forall l, l ∈ held <-> exists j H, <[i := H']> Hs !! j = Some H /\ l ∈ H) ->
  (forall l j H, Hs !! j = Some H -> j <> i -> l ∈ H -> l ∈ H' -> False) ->
  (forall l i j H H', Hs !! i = Some H -> Hs !! j = Some H' -> l ∈ H -> l ∈ H' -> i = j) ->
  pool_inv (<[i := p']> ps, (held, st)).
Proof.
  intros HF [Hi Hlook] Hp' Hheld Hdis Hone. exists (<[i := H']> Hs). simpl.
  split; [by apply Forall2_insert|]. split; [done|].
  assert (i < length Hs)%nat as Hlt by (by eapply lookup_lt_Some).
  intros l a b Ha Hb. rewrite !list_lookup_insert_Some.
  intros [(<- & <- & _)|[? ?]] [(<- & <- & _)|[? ?]] ? ?; [done| | |by eapply Hone].
  - exfalso. by eapply (Hdis l b Hb).
  - exfalso. by eapply (Hdis l a Ha).
Qed.

Lemma pool_inv_step s s' : pool_inv s -> pool_step s s' -> pool_inv s'.
Proof.
  intros (Hs & HF & Hheld & Hone) Hstep. destruct Hstep as [i ps c p p' c' Hi Hp].
  destruct (Forall2_lookup_l _ _ _ _ _ HF Hi) as (H0 & HH & Ho). simpl in *.
  assert (i < length Hs)%nat as Hlt by (by eapply lookup_lt_Some).
  destruct p as [a|X e k]; [discriminate Hp|]. destruct c as [held st].
  destruct e as [l|l|X f]; simpl in *.
  - destruct (decide (l ∈ held)) as [|Hl]; [discriminate Hp|]. injection Hp as <- <-.
    destruct Ho as [_ Ho]. eapply pool_inv_update; eauto.
    + intros l'. rewrite elem_of_cons, Hheld. split.
      * intros [->|(j & H1 & Hj & ?)].
        -- exists i, (l :: H0). rewrite list_lookup_insert_eq by done. split; [done|set_solver].
        -- destruct (decide (j = i)) as [->|].
           ++ exists i, (l :: H0). rewrite list_lookup_insert_eq by done.
              assert (H1 = H0) as -> by congruence. split; [done|set_solver].
           ++ exists j, H1. by rewrite list_lookup_insert_ne.
      * intros (j & H1 & Hj & ?). apply list_lookup_insert_Some in Hj as [(<- & <- & _)|[? ?]].
        -- set_solver.
        -- right. eauto.
    + intros l' j H1 Hj ? ? [->|?]%elem_of_cons.
      * apply Hl, Hheld. eauto.
      * assert (j = i) by (by eapply Hone). done.
  - injection Hp as <- <-. destruct Ho as [Hin Ho]. eapply pool_inv_update; eauto.
    + intros l'. rewrite list_elem_of_filter, Hheld. split.
      * intros (Hne & j & H1 & Hj & ?). destruct (decide (j = i)) as [->|].
        -- exists i, (filter (fun l0 => l0 <> l) H0). rewrite list_lookup_insert_eq by done.
           assert (H1 = H0) as -> by congruence. split; [done|]. by apply list_elem_of_filter.
        -- exists j, H1. by rewrite list_lookup_insert_ne.
      * intros (j & H1 & Hj & Hl'). apply list_lookup_insert_Some in Hj as [(<- & <- & _)|[? ?]].
        -- apply list_elem_of_filter in Hl' as [? ?]. eauto.
        -- split; [|eauto]. intros ->. assert (i = j) by (by eapply Hone). done.
    + intros l' j H1 Hj ? ? [_ ?]%list_elem_of_filter.
      assert (j = i) by (by eapply Hone). done.
  - destruct (f st) as [x st'] eqn:Hf. injection Hp as <- <-. eapply pool_inv_update; eauto.
    intros l. by rewrite Hheld, list_insert_id.
Qed.

Lemma pool_inv_steps s s' : pool_inv s -> rtc pool_step s s' -> pool_inv s'.
Proof. intros Hi Hr. induction Hr; eauto using pool_inv_step. Qed.

Lemma stuck_waits i (ps : list (prog LockE A)) c p :
  (forall s', ~ pool_step (ps, c) s') -> ps !! i = Some p -> finished p = false ->
  exists l k, p = Vis (Lock l) k /\ l ∈ c.1.
Proof.
  intros Hno Hi Hf. assert (thread_step p c = None) as Hs.
  { destruct (thread_step p c) as [[p' c']|] eqn:Hp; [|done].
    exfalso. eapply Hno. by econstructor. }
  destruct p as [a|X e k]; [discriminate Hf|]. destruct e as [l|l|X f]; simpl in Hs.
  - destruct (decide (l ∈ c.1)); [eauto|discriminate Hs].
  - discriminate Hs.
  - by destruct (f c.2).
Qed.

(** Nobody is deadlocked: a held lock has a holder that waits for a higher one,
    and the ranks are bounded. *)
Lemma pool_inv_live (top : Z) s :
  (forall l, rank l <= top) -> pool_inv s -> ~ deadlocked s.
Proof.
  intros Htop (Hs & HF & Hheld & Hone) [(p & Hp & Hf) Hno]. destruct s as [ps c]. simpl in *.
  assert (Hup : forall l, l ∈ c.1 -> exists l', l' ∈ c.1 /\ rank l < rank l').
  { intros l (i & H0 & Hi & Hl)%Hheld.
    destruct (Forall2_lookup_r _ _ _ _ _ HF Hi) as (q & Hq & Ho).
    assert (finished q = false) as Hfq.
    { destruct q; [|done]. simpl in Ho. subst. by apply not_elem_of_nil in Hl. }
    destruct (stuck_waits _ _ _ _ Hno Hq Hfq) as (l' & k & -> & Hl').
    exists l'. split; [done|]. by apply Ho. }
  assert (Hnone : forall n l, l ∈ c.1 -> top - rank l < Z.of_nat n -> False).
  { induction n as [|n IH]; intros l Hl Hn; [specialize (Htop l); lia|].
    destruct (Hup l Hl) as (l' & Hl' & ?). apply (IH l' Hl'). lia. }
  apply list_elem_of_lookup in Hp as [i Hi].
  destruct (stuck_waits _ _ _ _ Hno Hi Hf) as (l & k & _ & Hl).
  apply (Hnone (Z.to_nat (top - rank l + 1)) l Hl). specialize (Htop l). lia.
Qed.
End PoolFacts.

Lemma ordered_bind {A B} (p : prog LockE A) (f : A -> prog LockE B) H0 :
  ordered p H0 -> (forall a, ordered (f a) []) -> ordered (pbind p f) H0.
Proof.
  intros Hp Hf. revert H0 Hp. induction p as [a|X e k IH]; intros H0; simpl.
  - intros ->. apply Hf.
  - destruct e; simpl.
    + intros [? ?]. split; [done|]. by apply IH.
    + intros [? ?]. split; [done|]. by apply IH.
    + intros Ho x. by apply IH.
Qed.
End Order.
End Threads.

(** Solves [ordered] for a thread that holds at most two locks. *)
Ltac held :=
  repeat first
    [ progress intros | done | set_solver
    | match goal with
      | |- _ /\ _ => split
      | |- ordered _ (if ?b then _ else _) _ => destruct b; simpl
      | |- ordered _ (match ?o with _ => _ end) _ => destruct o; simpl
      | H : _ ∈ [] |- _ => by apply not_elem_of_nil in H
      | H : _ ∈ [_] |- _ => apply list_elem_of_singleton in H as ->; simpl; lia
      end ].
