(* ===== verification/Json.v ===== *)
(** * JSON values

    The data of [serde_json::Value], the enum the sources build and match on,
    with the accessors they call.  A number is an integer or a float, an
    object is the list of its entries in key order, as [serde_json]'s map
    keeps them.  Parsing and printing are third-party code: they are the
    functions of the class [SerdeJson]. *)
From stdpp Require Import countable.
From S2P Require Import Prelude.

Inductive Number :=
| NInt (z : Z)
| NFloat (bits : Z).

Inductive Value :=
| VNull
| VBool (b : bool)
| VNumber (n : Number)
| VString (s : string)
| VArray (l : list Value)
| VObject (m : list (string * Value)).

Section ValueInd.
Variable P : Value -> Prop.
Hypothesis Hnull : P VNull.
Hypothesis Hbool : forall b, P (VBool b).
Hypothesis Hnumber : forall n, P (VNumber n).
Hypothesis Hstring : forall s, P (VString s).
Hypothesis Harray : forall l, Forall P l -> P (VArray l).
Hypothesis Hobject : forall m, Forall (fun kv => P kv.2) m -> P (VObject m).

Fixpoint value_ind (v : Value) : P v :=
  match v with
  | VNull => Hnull
  | VBool b => Hbool b
  | VNumber n => Hnumber n
  | VString s => Hstring s
  | VArray l =>
      Harray l ((fix go l := match l return Forall P l with
                 | [] => Forall_nil_2 _ | x :: l' => Forall_cons_2 _ _ _ (value_ind x) (go l')
                 end) l)
  | VObject m =>
      Hobject m ((fix go m := match m return Forall (fun kv => P kv.2) m with
                  | [] => Forall_nil_2 _
                  | kv :: m' => Forall_cons_2 _ _ _ (value_ind kv.2) (go m')
                  end) m)
  end.
End ValueInd.

#[export] Instance Number_eq_dec : EqDecision Number.
Proof. solve_decision. Defined.

(** [PartialEq for Value]. *)
Fixpoint value_eqb (v w : Value) : bool :=
  match v, w with
  | VNull, VNull => true
  | VBool b, VBool c => Bool.eqb b c
  | VNumber n, VNumber m => bool_decide (n = m)
  | VString s, VString t => bool_decide (s = t)
  | VArray l, VArray k =>
      (fix go l k := match l, k with
         | [], [] => true | x :: l', y :: k' => value_eqb x y && go l' k' | _, _ => false end) l k
  | VObject m, VObject n =>
      (fix go m n := match m, n with
         | [], [] => true
         | (s, x) :: m', (t, y) :: n' => bool_decide (s = t) && value_eqb x y && go m' n'
         | _, _ => false end) m n
  | _, _ => false
  end.

Lemma value_eqb_spec v w : value_eqb v w = true <-> v = w.
Proof.
  revert w. induction v as [|b|n|s|l IH|m IH] using value_ind; intros w; destruct w; simpl;
    try (split; congruence).
  - rewrite Bool.eqb_true_iff. split; congruence.
  - rewrite bool_decide_eq_true. split; congruence.
  - rewrite bool_decide_eq_true. split; congruence.
  - revert l0. induction IH as [|x l Hx _ IH]; intros [|y k]; try (split; congruence).
    rewrite andb_true_iff, Hx, IH. split; [intros [-> [= ->]]; done|intros [= -> ->]; done].
  - revert m0. induction IH as [|[s x] m Hx _ IH]; intros [|[t y] k]; try (split; congruence).
    rewrite !andb_true_iff, bool_decide_eq_true, IH. simpl in Hx. rewrite Hx.
    split; [intros [[-> ->] [= ->]]; done|intros [= -> -> ->]; done].
Qed.

#[export] Instance Value_eq_dec : EqDecision Value.
Proof.
  intros v w. destruct (value_eqb v w) eqn:E.
  - left. by apply value_eqb_spec.
  - right. intros ?%value_eqb_spec. congruence.
Defined.

(** ** Accessors *)

Fixpoint obj_get (m : list (string * Value)) (key : string) : option Value :=
  match m with
  | [] => None
  | (k, v) :: m' => if bool_decide (k = key) then Some v else obj_get m' key
  end.

(** [value.get(key)] with a string key. *)
Definition get (v : Value) (key : string) : option Value :=
  match v with VObject m => obj_get m key | _ => None end.

Definition as_str (v : Value) : option string :=
  match v with VString s => Some s | _ => None end.

Definition as_i64 (v : Value) : option Z :=
  match v with VNumber (NInt z) => if in_i64 z then Some z else None | _ => None end.

Definition as_array (v : Value) : option (list Value) :=
  match v with VArray l => Some l | _ => None end.

Definition as_object (v : Value) : option (list (string * Value)) :=
  match v with VObject m => Some m | _ => None end.

(** [value.get(key).and_then(|v| v.as_str())] and the like. *)
Definition get_str (v : Value) (key : string) : option string := get v key ≫= as_str.
Definition get_i64 (v : Value) (key : string) : option Z := get v key ≫= as_i64.

(** [value.pointer("/a/b")] for two names that are not array indices. *)
Definition pointer2 (v : Value) (a b : string) : option Value := get v a ≫= fun w => get w b.

(** Insertion in a map kept in key order. *)
Fixpoint obj_insert (key : string) (v : Value) (m : list (string * Value))
  : list (string * Value) :=
  match m with
  | [] => [(key, v)]
  | (k, x) :: m' =>
      match String.compare key k with
      | Lt => (key, v) :: (k, x) :: m'
      | Eq => (key, v) :: m'
      | Gt => (k, x) :: obj_insert key v m'
      end
  end.

(** [json!({ ... })]: the entries inserted in turn. *)
Definition json_obj (entries : list (string * Value)) : Value :=
  VObject (fold_left (fun m kv => obj_insert kv.1 kv.2 m) entries []).

Lemma compare_refl (s : string) : String.compare s s = Eq.
Proof.
  pose proof (String.compare_antisym s s) as H. destruct (String.compare s s); simpl in H; congruence.
Qed.

Lemma obj_get_insert key v m k :
  obj_get (obj_insert key v m) k = if decide (key = k) then Some v else obj_get m k.
Proof.
  induction m as [|[k' x] m IH]; simpl.
  - by repeat (case_bool_decide || case_decide).
  - destruct (String.compare key k') eqn:E; simpl.
    + apply String.compare_eq_iff in E as ->. by repeat (case_bool_decide || case_decide).
    + by repeat (case_bool_decide || case_decide).
    + rewrite IH. assert (key <> k').
      { intros ->. rewrite compare_refl in E. congruence. }
      repeat (case_bool_decide || case_decide); congruence.
Qed.

Lemma get_i64_range v key z : get_i64 v key = Some z -> in_i64 z = true.
Proof.
  unfold get_i64. destruct (get v key) as [w|]; simpl; [|done].
  destruct w as [| |[z'|]| | |]; simpl; try done. destruct (in_i64 z') eqn:E; naive_solver.
Qed.

(** ** [serde_json] *)
Class SerdeJson := {
  (** [serde_json::from_slice::<Value>] and [serde_json::to_vec] *)
  value_from_slice : bytes -> Value + string;
  value_to_vec : Value -> bytes + string;
  (** The error of deserializing a value into a type it does not have. *)
  type_error : string -> Value -> string;
}.

(** The documents whose printed form parses back to themselves: integers of 64
    bits, no float, objects in key order, at most 127 levels deep (the
    parser's recursion limit). *)
Fixpoint ascending (keys : list string) : bool :=
  match keys with
  | a :: (b :: _) as l => match String.compare a b with Lt => ascending l | _ => false end
  | _ => true
  end.

Fixpoint fits (depth : nat) (v : Value) : bool :=
  match v, depth with
  | VNull, _ | VBool _, _ | VString _, _ => true
  | VNumber (NInt z), _ => (i64_min <=? z) && (z <? 2 ^ 64)
  | VNumber (NFloat _), _ => false
  | VArray l, S d => forallb (fits d) l
  | VObject m, S d => ascending (map fst m) && forallb (fun kv => fits d kv.2) m
  | _, O => false
  end.

Lemma fits_array d l : fits (S d) (VArray l) = forallb (fits d) l.
Proof. done. Qed.

Lemma fits_object d m :
  fits (S d) (VObject m) = ascending (map fst m) && forallb (fun kv => fits d kv.2) m.
Proof. done. Qed.

Lemma fits_string d s : fits d (VString s) = true.
Proof. by destruct d. Qed.

(** What is printed parses back. *)
Class SerdeJsonLaws (J : SerdeJson) : Prop := {
  value_to_vec_total v : fits 127 v = true -> exists b, value_to_vec v = inl b;
  value_roundtrip v b :
    fits 127 v = true -> value_to_vec v = inl b -> Forall is_u8 b /\ value_from_slice b = inl v;
  value_to_vec_nonempty v : value_to_vec v <> inl [];
}.

(** ** Concrete codecs

    A printer and parser for any countable type, one bit to a byte.  They only
    show that the laws of the serializers can hold. *)
Module ToyCodec.

(** The bits of a positive, packed in bytes, the lowest first. *)
Fixpoint pack (acc w : Z) (p : positive) : bytes :=
  match p with
  | xH => [acc + w]
  | xO q => if w =? 128 then acc :: pack 0 1 q else pack acc (2 * w) q
  | xI q => if w =? 128 then acc + w :: pack 0 1 q else pack (acc + w) (2 * w) q
  end.

Definition unpack (b : bytes) : Z := fold_right (fun d acc => d + 256 * acc) 0 b.

Lemma unpack_pack acc w p : unpack (pack acc w p) = acc + w * Z.pos p.
Proof.
  revert acc w. induction p as [q IH|q IH|]; intros acc w; simpl; [..|lia];
    destruct (Z.eqb_spec w 128) as [->|]; simpl; try fold (unpack (pack 0 1 q)); rewrite IH; lia.
Qed.

Lemma pack_u8 acc k p :
  0 <= k <= 7 -> 0 <= acc < 2 ^ k -> Forall is_u8 (pack acc (2 ^ k) p).
Proof.
  revert acc k. induction p as [q IH|q IH|]; intros acc k Hk Ha; simpl;
    (assert (2 ^ k <= 2 ^ 7) by (apply Z.pow_le_mono_r; lia); change (2 ^ 7) with 128 in *);
    [..|constructor; [unfold is_u8; lia|done]];
    (destruct (Z.eqb_spec (2 ^ k) 128);
     [constructor; [unfold is_u8; lia|apply (IH 0 0); lia]|]);
    (assert (k <> 7) by (intros ->; done); rewrite <- (Z.pow_succ_r 2 k) by lia; apply IH;
     [lia|rewrite Z.pow_succ_r by lia; lia]).
Qed.

Definition to_vec {A} `{Countable A} (a : A) : bytes + string := inl (0 :: pack 0 1 (encode a)).
Definition from_slice {A} `{Countable A} (b : bytes) : A + string :=
  match decode (Z.to_pos (unpack (tail b))) with
  | Some a => inl a
  | None => inr "expected value"%string
  end.

Lemma codec_roundtrip {A} `{Countable A} (a : A) b :
  to_vec a = inl b -> Forall is_u8 b /\ from_slice b = inl a.
Proof.
  intros [= <-]. split; [constructor; [unfold is_u8; lia|apply (pack_u8 0 0); lia]|].
  unfold from_slice. simpl tail. rewrite unpack_pack.
  replace (0 + 1 * Z.pos (encode a)) with (Z.pos (encode a)) by lia.
  cbn [Z.to_pos]. by rewrite decode_encode.
Qed.

#[export] Instance Number_countable : Countable Number.
Proof.
  refine (inj_countable' (fun n => match n with NInt z => inl z | NFloat b => inr b end)
    (fun s => match s with inl z => NInt z | inr b => NFloat b end) _).
  by intros [].
Defined.

(** A value as a generic tree: its constructor is the node's label. *)
Fixpoint to_tree (v : Value) : gen_tree (bool + Number + string) :=
  match v with
  | VNull => GenNode 0 []
  | VBool b => GenLeaf (inl (inl b))
  | VNumber n => GenLeaf (inl (inr n))
  | VString s => GenLeaf (inr s)
  | VArray l => GenNode 1 (map to_tree l)
  | VObject m => GenNode 2 (map (fun kv => GenNode 3 [GenLeaf (inr kv.1); to_tree kv.2]) m)
  end.

Fixpoint of_tree (t : gen_tree (bool + Number + string)) : Value :=
  match t with
  | GenLeaf (inl (inl b)) => VBool b
  | GenLeaf (inl (inr n)) => VNumber n
  | GenLeaf (inr s) => VString s
  | GenNode 1%nat l => VArray (map of_tree l)
  | GenNode 2%nat l =>
      VObject (map (fun t => match t with
        | GenNode 3%nat [GenLeaf (inr k); u] => (k, of_tree u) | _ => (EmptyString, VNull) end) l)
  | GenNode _ _ => VNull
  end.

Lemma of_to_tree v : of_tree (to_tree v) = v.
Proof.
  induction v as [| | | |l IH|m IH] using value_ind; simpl; try done.
  - f_equal. induction IH as [|v l Hv _ IHl]; simpl; congruence.
  - f_equal. induction IH as [|[k v] m Hv _ IHm]; simpl in *; [done|]. by rewrite Hv, IHm.
Qed.

#[export] Instance Value_countable : Countable Value := inj_countable' to_tree of_tree of_to_tree.

#[export] Instance json : SerdeJson := {|
  value_from_slice := from_slice; value_to_vec := to_vec;
  type_error expected _ := "invalid type, expected " +:+ expected |}.

#[export] Instance json_laws : SerdeJsonLaws json.
Proof.
  split.
  - intros v _. by eexists.
  - intros v b _ Hb. by apply codec_roundtrip.
  - done.
Qed.
End ToyCodec.

(** ** Objects built in turn *)
Section Objects.

Lemma compare_lt_trans a b c :
  String.compare a b = Lt -> String.compare b c = Lt -> String.compare a c = Lt.
Proof.
  intros Hab Hbc.
  assert (String.le a c) as Hle.
  { transitivity b; unfold String.le, String.leb; [by rewrite Hab|by rewrite Hbc]. }
  unfold String.le, String.leb in Hle.
  destruct (String.compare a c) eqn:E; [|done|done].
  apply String.compare_eq_iff in E as ->. rewrite String.compare_antisym, Hab in Hbc. discriminate.
Qed.

Lemma ascending_cons a l :
  ascending (a :: l) = true <-> (forall b, b ∈ l -> String.compare a b = Lt) /\ ascending l = true.
Proof.
  revert a. induction l as [|b l IH]; intros a.
  - split; [|done]. intros _. split; [|done]. by intros b ?%not_elem_of_nil.
  - change (ascending (a :: b :: l)) with
      (match String.compare a b with Lt => ascending (b :: l) | _ => false end).
    destruct (String.compare a b) eqn:E.
    + split; [done|]. intros [Hb _]. rewrite Hb in E; [done|left].
    + split; [|by intros [_ ?]]. intros Hl. split; [|done].
      intros c [->|Hc]%elem_of_cons; [done|].
      apply IH in Hl as [Hl _]. eapply compare_lt_trans; eauto.
    + split; [done|]. intros [Hb _]. rewrite Hb in E; [done|left].
Qed.

Lemma ascending_NoDup l : ascending l = true -> NoDup l.
Proof.
  induction l as [|a l IH]; [constructor|]. intros [Ha Hl]%ascending_cons.
  constructor; [|auto]. intros Hin. specialize (Ha a Hin). by rewrite compare_refl in Ha.
Qed.

Lemma obj_get_NoDup m k v : NoDup m.*1 -> (obj_get m k = Some v <-> (k, v) ∈ m).
Proof.
  induction m as [|[k' v'] m IH]; simpl.
  - intros _. split; [done|]. by intros ?%not_elem_of_nil.
  - intros [Hn Hd]%NoDup_cons. rewrite elem_of_cons. case_bool_decide as Hk.
    + subst. split; [intros [= ->]; by left|]. intros [[= ->]|Hin]; [done|].
      exfalso. apply Hn, list_elem_of_fmap. by exists (k, v).
    + rewrite IH by done. naive_solver.
Qed.

Lemma obj_get_None m k : k ∉ m.*1 -> obj_get m k = None.
Proof.
  induction m as [|[k' v] m IH]; simpl; [done|]. rewrite not_elem_of_cons. intros [? ?].
  rewrite bool_decide_eq_false_2 by congruence. auto.
Qed.

Lemma obj_get_fold l m k :
  NoDup l.*1 ->
  obj_get (fold_left (fun m kv => obj_insert kv.1 kv.2 m) l m) k =
    match obj_get l k with Some v => Some v | None => obj_get m k end.
Proof.
  revert m. induction l as [|[k' v] l IH]; intros m; simpl; [done|].
  intros [Hn Hd]%NoDup_cons. rewrite IH by done. simpl. rewrite obj_get_insert.
  case_bool_decide as Hk.
  - subst. rewrite obj_get_None by done. by rewrite decide_True.
  - by rewrite decide_False by done.
Qed.

(** The members of an object built from distinct names. *)
Lemma json_obj_get l k : NoDup l.*1 -> get (json_obj l) k = obj_get l k.
Proof. intros Hd. simpl. rewrite obj_get_fold by done. by destruct (obj_get l k). Qed.

(** Building an object keeps its names in order. *)
Lemma obj_insert_keys key v m k : k ∈ (obj_insert key v m).*1 -> k = key \/ k ∈ m.*1.
Proof.
  induction m as [|[k' x] m IH]; simpl; [set_solver|].
  destruct (String.compare key k'); rewrite ?elem_of_cons; simpl; rewrite ?elem_of_cons; naive_solver.
Qed.

Lemma obj_insert_fits d key v m :
  ascending (map fst m) = true -> forallb (fun kv => fits d kv.2) m = true -> fits d v = true ->
  ascending (map fst (obj_insert key v m)) = true /\
  forallb (fun kv => fits d kv.2) (obj_insert key v m) = true.
Proof.
  intros Ha Hf Hv. induction m as [|[k x] m IH]; [simpl; by rewrite Hv|].
  simpl in Hf. apply andb_true_iff in Hf as [Hx Hf]. cbn [map fst] in Ha.
  pose proof Ha as [Hk Ha']%ascending_cons. specialize (IH Ha' Hf).
  cbn [obj_insert]. destruct (String.compare key k) eqn:E; cbn [map fst forallb snd].
  - apply String.compare_eq_iff in E as ->. by rewrite Hv, Hf.
  - rewrite Hv, Hx, Hf. split; [|done]. apply ascending_cons. split; [|done].
    intros b [->|Hb]%elem_of_cons; [done|]. eapply compare_lt_trans; [exact E|by apply Hk].
  - rewrite Hx. split; [|apply IH]. apply ascending_cons. split; [|apply IH].
    intros b [->|Hb]%obj_insert_keys; [by rewrite String.compare_antisym, E|by apply Hk].
Qed.

Lemma json_obj_fits d l : Forall (fun kv => fits d kv.2 = true) l -> fits (S d) (json_obj l) = true.
Proof.
  intros Hl. unfold json_obj. rewrite fits_object. apply andb_true_iff.
  assert (Hgen : forall m, ascending (map fst m) = true -> forallb (fun kv => fits d kv.2) m = true ->
    let m' := fold_left (fun m kv => obj_insert kv.1 kv.2 m) l m in
    ascending (map fst m') = true /\ forallb (fun kv => fits d kv.2) m' = true); [|by apply Hgen].
  induction Hl as [|[k v] l Hv _ IH]; intros m Ha Hf; [done|]. simpl.
  destruct (obj_insert_fits d k v m Ha Hf Hv). by apply IH.
Qed.
End Objects.
