(* ===== verification/Serde.v ===== *)
(** * Derived JSON forms

    What [#[derive(Serialize, Deserialize)]] makes of a struct: a codec between
    a type and [serde_json::Value].  A struct is described by its fields, in
    the order of the source and under their JSON names, and every attribute by
    the kind of its member; the laws are proved once, for every description.
    The texts of errors are third-party code: reading gives an option. *)
From S2P Require Import Prelude Externals Json.

(** [typed] is what the Rust type promises of a value and its model does not:
    a [u64] is below [2^64], a [Url] is the text of a URL. *)
Record codec (A : Type) := mkCodec {
  ser : A -> Value;
  de : Value -> option A;
  typed : A -> Prop;
}.
Arguments ser {A} c a.
Arguments de {A} c v.
Arguments typed {A} c a.

(** What is written reads back; what is read is typed; and only [null] is read
    as what is written as [null], so that an [Option] is not ambiguous. *)
Class Lawful {A} (c : codec A) : Prop := {
  read_written a : typed c a -> de c (ser c a) = Some a;
  read_typed v a : de c v = Some a -> typed c a;
  read_null v a : de c v = Some a -> ser c a = VNull -> v = VNull;
}.

(** A member that may be left out. *)
Definition present {A} (c : codec A) (o : option A) : Prop :=
  forall a, o = Some a -> typed c a /\ ser c a <> VNull.

(** ** Base types *)
Definition text : codec string := mkCodec _ VString as_str (fun _ => True).
Definition boolean : codec bool :=
  mkCodec _ VBool (fun v => match v with VBool b => Some b | _ => None end) (fun _ => True).
(** The integers from [lo] up to [hi], which is not one of them. *)
Definition integer (lo hi : Z) : codec Z :=
  mkCodec _ (fun z => VNumber (NInt z))
    (fun v => match v with VNumber (NInt z) => if (lo <=? z) && (z <? hi) then Some z else None | _ => None end)
    (fun z => lo <= z < hi).
(** [u32], [u64] and [usize]; [i64] *)
Definition uint (width : Z) : codec Z := integer 0 (2 ^ width).
Definition i64 : codec Z := integer (- 2 ^ 63) (2 ^ 63).
Definition value : codec Value := mkCodec _ id Some (fun _ => True).

(** [Vec<T>] *)
Definition list_of {A} (c : codec A) : codec (list A) :=
  mkCodec _ (fun l => VArray (map (ser c) l)) (fun v => as_array v ≫= mapM (de c)) (Forall (typed c)).

(** [Option<T>], where it is written out. *)
Definition nullable {A} (c : codec A) : codec (option A) :=
  mkCodec _ (from_option (ser c) VNull) (fun v => if bool_decide (v = VNull) then Some None else Some <$> de c v) (present c).

(** [HashMap<String, T>]; of two entries with one name the later one counts. *)
Definition map_entries {A} (c : codec A) (m : gmap string A) : list (string * Value) := prod_map id (ser c) <$> map_to_list m.
Definition read_entry {A} (c : codec A) (kv : string * Value) : option (string * A) := pair kv.1 <$> de c kv.2.
Definition read_map {A} (c : codec A) (ms : list (string * Value)) : option (gmap string A) :=
  (fun l => list_to_map (reverse l)) <$> mapM (read_entry c) ms.
Definition map_of {A} (c : codec A) : codec (gmap string A) :=
  mkCodec _ (fun m => json_obj (map_entries c m)) (fun v => as_object v ≫= read_map c)
    (map_Forall (fun _ => typed c)).

(** ** Structs *)

(** How a field is written, if it is, and read from its entry, if there is
    one. *)
Record member (A : Type) := mkMember {
  m_put : A -> option Value;
  m_get : option Value -> option A;
  m_typed : A -> Prop;
}.
Arguments m_put {A} m a.
Arguments m_get {A} m v.
Arguments m_typed {A} m a.

Definition required {A} (c : codec A) : member A :=
  mkMember _ (fun a => Some (ser c a)) (fun o => o ≫= de c) (typed c).
(** A missing [Option] is [None], whatever the attributes. *)
Definition read_option {A} (c : codec A) (o : option Value) : option (option A) :=
  match o with None => Some None | Some v => de (nullable c) v end.
Definition optional {A} (c : codec A) : member (option A) :=
  mkMember _ (fun o => Some (ser (nullable c) o)) (read_option c) (present c).
(** [skip_serializing_if = Option::is_none] *)
Definition skip_none {A} (c : codec A) : member (option A) :=
  mkMember _ (fmap (ser c)) (read_option c) (present c).

(** A member that reads back. *)
Class LawfulMember {A} (m : member A) : Prop := {
  get_put a : m_typed m a -> m_get m (m_put m a) = Some a;
  get_typed o a : m_get m o = Some a -> m_typed m a;
}.

(** The fields of a struct, as a description of the tuple of their values. *)
Inductive fields : Type -> Type :=
| no_fields : fields unit
| field {A T} (name : string) (m : member A) (fs : fields T) : fields (A * T).
Declare Scope serde_scope.
Delimit Scope serde_scope with serde.
Notation "n ~> m |> fs" := (field n m fs) (at level 68, m at level 67, right associativity) : serde_scope.

Fixpoint names {T} (fs : fields T) : list string :=
  match fs with no_fields => [] | field n _ fs => n :: names fs end.

Fixpoint put {T} (fs : fields T) : T -> list (string * Value) :=
  match fs in fields T return T -> list (string * Value) with
  | no_fields => fun _ => []
  | field n m fs => fun t => from_option (fun v => [(n, v)]) [] (m_put m t.1) ++ put fs t.2
  end.

Fixpoint take_fields {T} (fs : fields T) (ms : list (string * Value)) : option T :=
  match fs in fields T return option T with
  | no_fields => Some tt
  | field n m fs => a ← m_get m (obj_get ms n); t ← take_fields fs ms; Some (a, t)
  end.

Fixpoint all_typed {T} (fs : fields T) : T -> Prop :=
  match fs in fields T return T -> Prop with
  | no_fields => fun _ => True
  | field _ m fs => fun t => m_typed m t.1 /\ all_typed fs t.2
  end.

(** A struct is read from an object in which no field occurs twice, or from an
    array with a value for every field, in their order. *)
Definition once (ms : list (string * Value)) (name : string) : bool :=
  (length (filter (fun kv => kv.1 = name) ms) <=? 1)%nat.
Definition entries_of (ns : list string) (v : Value) : option (list (string * Value)) :=
  match v with
  | VObject ms => if forallb (once ms) ns then Some ms else None
  | VArray l => if (length l =? length ns)%nat then Some (zip ns l) else None
  | _ => None
  end.

Definition struct {R T} (fs : fields T) (to : R -> T) (make : T -> R) : codec R :=
  mkCodec _ (fun r => json_obj (put fs (to r)))
    (fun v => ms ← entries_of (names fs) v; make <$> take_fields fs ms)
    (fun r => all_typed fs (to r)).

(** A struct with a [flatten]ed map: the entries no field takes, objects
    only. *)
Definition others (ns : list string) (ms : list (string * Value)) : list (string * Value) := filter (fun kv => kv.1 ∉ ns) ms.
Definition flattened {R T A} (fs : fields T) (c : codec A) (to : R -> T * gmap string A) (make : T * gmap string A -> R)
    : codec R :=
  mkCodec _ (fun r => json_obj (put fs (to r).1 ++ map_entries c (to r).2))
    (fun v => ms ← as_object v;
       if forallb (once ms) (names fs) then
         t ← take_fields fs ms; m ← read_map c (others (names fs) ms); Some (make (t, m))
       else None)
    (fun r => all_typed fs (to r).1 /\ map_Forall (fun _ => typed c) (to r).2 /\ Forall (fun n => (to r).2 !! n = None) (names fs)).

(** ** Laws of the base types *)
#[export] Instance text_lawful : Lawful text.
Proof. split; [done|done|]. by intros [] a. Qed.

#[export] Instance boolean_lawful : Lawful boolean.
Proof. split; [done|done|]. by intros [] a. Qed.

#[export] Instance value_lawful : Lawful value.
Proof. split; [done|done|]. by intros v a [= ->]. Qed.

#[export] Instance integer_lawful lo hi : Lawful (integer lo hi).
Proof.
  split; simpl.
  - intros z [H0 H1]. by rewrite (proj2 (Z.leb_le _ _) H0), (proj2 (Z.ltb_lt _ _) H1).
  - intros v z. destruct v as [| |[z'|]| | |]; try done. destruct (_ && _) eqn:E; [|done]. intros [= <-]. b2p. lia.
  - done.
Qed.

Lemma mapM_read {A} (c : codec A) `{!Lawful c} l : Forall (typed c) l -> mapM (de c) (map (ser c) l) = Some l.
Proof. induction 1 as [|a l Ha _ IH]; simpl; [done|]. by rewrite read_written, IH. Qed.

Lemma mapM_typed {A} (c : codec A) `{!Lawful c} vs l : mapM (de c) vs = Some l -> Forall (typed c) l.
Proof. intros Hm%mapM_Some. induction Hm; constructor; [by eapply read_typed|done]. Qed.

#[export] Instance list_lawful {A} (c : codec A) `{!Lawful c} : Lawful (list_of c).
Proof.
  split; simpl; [intros l; by apply mapM_read| |done].
  intros v l. destruct v; try done. simpl. by apply mapM_typed.
Qed.

#[export] Instance nullable_lawful {A} (c : codec A) `{!Lawful c} : Lawful (nullable c).
Proof.
  split; simpl.
  - intros [a|] Ho; simpl; [|done]. destruct (Ho a eq_refl) as [Ha Hn].
    rewrite bool_decide_eq_false_2 by done. by rewrite read_written.
  - intros v o. case_bool_decide as Hv; [by intros [= <-] ?|].
    destruct (de c v) as [a|] eqn:E; simpl; [|done]. intros [= <-] ? [= <-].
    split; [by eapply read_typed|]. intros Hn. by eapply Hv, read_null.
  - intros v o. case_bool_decide as Hv; [done|].
    destruct (de c v) as [a|] eqn:E; simpl; [|done]. intros [= <-]. by eapply read_null.
Qed.

(** ** Objects *)
Lemma obj_insert_ascending key v m :
  ascending (map fst m) = true -> ascending (map fst (obj_insert key v m)) = true.
Proof.
  intros Ha. induction m as [|[k x] m IH]; [done|]. cbn [map fst] in Ha. pose proof Ha as [Hk Ha']%ascending_cons.
  cbn [obj_insert]. destruct (String.compare key k) eqn:E; cbn [map fst].
  - by apply String.compare_eq_iff in E as ->.
  - apply ascending_cons. split; [|done].
    intros b [->|Hb]%elem_of_cons; [done|]. eapply compare_lt_trans; [exact E|by apply Hk].
  - apply ascending_cons. split; [|by apply IH].
    intros b [->|Hb]%obj_insert_keys; [by rewrite String.compare_antisym, E|by apply Hk].
Qed.

Definition obj_entries (l : list (string * Value)) : list (string * Value) :=
  fold_left (fun m kv => obj_insert kv.1 kv.2 m) l [].

Lemma json_obj_entries l : json_obj l = VObject (obj_entries l).
Proof. done. Qed.

Lemma obj_entries_NoDup l : NoDup (obj_entries l).*1.
Proof.
  apply ascending_NoDup. unfold obj_entries. assert (ascending (map fst (@nil (string * Value))) = true) as Ha by done. revert Ha.
  generalize (@nil (string * Value)). induction l as [|[k v] l IH]; intros m Ha; simpl; [done|].
  by apply IH, obj_insert_ascending.
Qed.

Lemma obj_entries_get l k : NoDup l.*1 -> obj_get (obj_entries l) k = obj_get l k.
Proof. apply (json_obj_get l k). Qed.

Lemma obj_entries_elem l k v : NoDup l.*1 -> (k, v) ∈ obj_entries l <-> (k, v) ∈ l.
Proof.
  intros Hd. rewrite <- (obj_get_NoDup l), <- (obj_get_NoDup (obj_entries l)) by (done || apply obj_entries_NoDup).
  by rewrite obj_entries_get.
Qed.

Lemma filter_none {A} (P : A -> Prop) `{!forall x, Decision (P x)} (l : list A) : (forall x, x ∈ l -> ~ P x) -> filter P l = [].
Proof.
  induction l as [|x l IH]; [done|]. intros Hl. rewrite filter_cons_False by (apply Hl; left). apply IH.
  intros y Hy. apply Hl. by right.
Qed.

Lemma filter_every {A} (P : A -> Prop) `{!forall x, Decision (P x)} (l : list A) : (forall x, x ∈ l -> P x) -> filter P l = l.
Proof.
  induction l as [|x l IH]; [done|]. intros Hl. rewrite filter_cons_True by (apply Hl; left). f_equal. apply IH.
  intros y Hy. apply Hl. by right.
Qed.

Lemma once_NoDup ms k : NoDup ms.*1 -> once ms k = true.
Proof.
  intros Hd. apply Nat.leb_le. induction ms as [|kv ms IH]; simpl; [lia|]. apply NoDup_cons in Hd as [Hn Hd].
  rewrite filter_cons. destruct (decide _) as [<-|]; [|by apply IH]. rewrite filter_none; [simpl; lia|]. intros kv' Hin Heq. apply Hn, list_elem_of_fmap. by exists kv'.
Qed.

Lemma entries_of_obj ns l : entries_of ns (json_obj l) = Some (obj_entries l).
Proof.
  rewrite json_obj_entries. simpl. assert (Hall : forallb (once (obj_entries l)) ns = true); [|by rewrite Hall].
  apply forallb_forall. intros n _. apply once_NoDup, obj_entries_NoDup.
Qed.

(** *** Maps *)
Lemma map_entries_keys {A} (c : codec A) m : (map_entries c m).*1 = (map_to_list m).*1.
Proof. unfold map_entries. rewrite <- list_fmap_compose. by apply list_fmap_ext. Qed.

Lemma read_entries {A} (c : codec A) `{!Lawful c} ms l :
  mapM (read_entry c) ms = Some l -> ms.*1 = l.*1 /\ Forall (fun kv => typed c kv.2) l.
Proof.
  intros Hm%mapM_Some. induction Hm as [|[k v] [k' a] ms l Hr _ [IHk IHt]]; [done|].
  unfold read_entry in Hr. simpl in Hr. destruct (de c v) eqn:E; simplify_eq/=. rewrite IHk. split; [done|].
  constructor; [by eapply read_typed|done].
Qed.

Lemma obj_entries_perm l : NoDup l.*1 -> obj_entries l ≡ₚ l.
Proof.
  intros Hd. apply NoDup_Permutation; [eapply NoDup_fmap_1, obj_entries_NoDup|by eapply NoDup_fmap_1|].
  intros [k v]. by apply obj_entries_elem.
Qed.

(** The entries of a map, in any order, are read as the map. *)
Lemma read_map_perm {A} (c : codec A) `{!Lawful c} ms (m : gmap string A) :
  ms ≡ₚ map_entries c m -> map_Forall (fun _ => typed c) m -> read_map c ms = Some m.
Proof.
  intros Hp Hm. apply Permutation_map_inv in Hp as (l & -> & Hl).
  assert (Hread : mapM (read_entry c) (map (prod_map id (ser c)) l) = Some l).
  { assert (Ht : Forall (fun kv => typed c kv.2) l).
    { rewrite <- Hl. apply Forall_forall. intros [k a] Hin%elem_of_map_to_list. by eapply Hm. }
    clear -Ht Lawful0. induction Ht as [|[k a] l Ha _ IH]; [done|].
    assert (Hr : read_entry c (k, ser c a) = Some (k, a)) by (unfold read_entry; cbn; by rewrite read_written).
    cbn [map prod_map fst snd id mapM]. rewrite Hr. cbn [mbind option_bind]. by rewrite IH. }
  unfold read_map. rewrite Hread. simpl. f_equal. symmetry. apply list_to_map_flip. by rewrite reverse_Permutation.
Qed.

Lemma read_map_typed {A} (c : codec A) `{!Lawful c} ms m :
  read_map c ms = Some m -> map_Forall (fun _ => typed c) m /\ forall k, is_Some (m !! k) -> k ∈ ms.*1.
Proof.
  unfold read_map. destruct (mapM _ _) as [l|] eqn:E; simpl; [|done]. intros [= <-]. apply (read_entries c) in E as [Hk Hl].
  rewrite Forall_forall in Hl. split.
  - intros k a Ha%elem_of_list_to_map_2. rewrite elem_of_reverse in Ha. exact (Hl (k, a) Ha).
  - intros k [a Ha%elem_of_list_to_map_2]. rewrite elem_of_reverse in Ha. rewrite Hk. apply list_elem_of_fmap. by exists (k, a).
Qed.

Lemma map_entries_NoDup {A} (c : codec A) m : NoDup (map_entries c m).*1.
Proof. rewrite map_entries_keys. apply NoDup_fst_map_to_list. Qed.

#[export] Instance map_lawful {A} (c : codec A) `{!Lawful c} : Lawful (map_of c).
Proof.
  split; simpl; [| |done].
  - intros m Hm. apply read_map_perm; [done|apply obj_entries_perm, map_entries_NoDup|done].
  - intros v m. destruct v; try done. simpl. by intros [Ht _]%read_map_typed.
Qed.

(** *** Structs *)
#[export] Instance required_lawful {A} (c : codec A) `{!Lawful c} : LawfulMember (required c).
Proof. split; simpl; [intros a; apply read_written|]. intros [v|] a; simpl; [apply read_typed|done]. Qed.

Lemma read_option_typed {A} (c : codec A) `{!Lawful c} o a : read_option c o = Some a -> present c a.
Proof. destruct o as [v|]; simpl; [apply (read_typed (c := nullable c))|]. by intros [= <-] ?. Qed.

#[export] Instance optional_lawful {A} (c : codec A) `{!Lawful c} : LawfulMember (optional c).
Proof. split; [intros o; apply (read_written (c := nullable c))|apply (read_option_typed c)]. Qed.

#[export] Instance skip_none_lawful {A} (c : codec A) `{!Lawful c} : LawfulMember (skip_none c).
Proof.
  split; [|apply (read_option_typed c)]. intros [a|] Ho; [|done]. exact (read_written (c := nullable c) (Some a) Ho).
Qed.

Lemma put_names {T} (fs : fields T) t k : k ∈ (put fs t).*1 -> k ∈ names fs.
Proof.
  induction fs as [|A T n m fs IH]; simpl; [done|]. rewrite fmap_app, elem_of_app, elem_of_cons.
  intros [Hk|Hk]; [|right; by eapply IH]. destruct (m_put m t.1); simpl in Hk; [|by apply not_elem_of_nil in Hk].
  rewrite list_elem_of_singleton in Hk. by left.
Qed.

Lemma put_NoDup {T} (fs : fields T) t : NoDup (names fs) -> NoDup (put fs t).*1.
Proof.
  induction fs as [|A T n m fs IH]; simpl; [constructor|]. intros [Hn Hd]%NoDup_cons. rewrite fmap_app. apply NoDup_app.
  split; [|split; [|by apply IH]].
  - destruct (m_put m t.1); simpl; [apply NoDup_singleton|constructor].
  - intros k Hk Hin%put_names. destruct (m_put m t.1); simpl in Hk; [|by apply not_elem_of_nil in Hk].
    apply list_elem_of_singleton in Hk. congruence.
Qed.

(** What is taken depends on the entries under the names only. *)
Lemma take_fields_ext {T} (fs : fields T) ms ms' :
  (forall k, k ∈ names fs -> obj_get ms k = obj_get ms' k) -> take_fields fs ms = take_fields fs ms'.
Proof.
  induction fs as [|A T n m fs IH]; simpl; [done|]. intros Hg. rewrite (Hg n) by left.
  rewrite IH; [done|]. intros k Hk. apply Hg. by right.
Qed.

(** The fields written and read again, one by one. *)
Fixpoint again {T} (fs : fields T) : T -> option T :=
  match fs in fields T return T -> option T with
  | no_fields => fun t => Some t
  | field _ m fs => fun t => a ← m_get m (m_put m t.1); t' ← again fs t.2; Some (a, t')
  end.

Lemma take_put {T} (fs : fields T) t : NoDup (names fs) -> take_fields fs (put fs t) = again fs t.
Proof.
  induction fs as [|A T n m fs IH]; simpl; [by destruct t|]. intros [Hn Hd]%NoDup_cons. destruct t as [a t]. simpl in *.
  assert (Hget : obj_get (from_option (fun v => [(n, v)]) [] (m_put m a) ++ put fs t) n = m_put m a).
  { destruct (m_put m a); simpl; [by rewrite bool_decide_eq_true_2|]. apply obj_get_None. intros Hk. by apply put_names in Hk. }
  rewrite Hget, (take_fields_ext fs _ (put fs t)), IH; [done|done|]. intros k Hk. destruct (m_put m a); simpl; [|done].
  by rewrite bool_decide_eq_false_2 by congruence.
Qed.

(** The fields are lawful, under distinct names. *)
Inductive lawful_fields : forall {T}, fields T -> Prop :=
| lawful_nil : lawful_fields no_fields
| lawful_cons {A T} n (m : member A) (fs : fields T) :
    LawfulMember m -> lawful_fields fs -> lawful_fields (field n m fs).

Lemma again_typed {T} (fs : fields T) t : lawful_fields fs -> all_typed fs t -> again fs t = Some t.
Proof.
  intros Hf. induction Hf as [|A T n m fs Hm Hf IH]; simpl; [done|]. intros [Ha Ht].
  rewrite get_put by done. simpl. rewrite IH by done. by destruct t.
Qed.

Lemma take_typed {T} (fs : fields T) ms t : lawful_fields fs -> take_fields fs ms = Some t -> all_typed fs t.
Proof.
  intros Hf. revert t. induction Hf as [|A T n m fs Hm Hf IH]; simpl; [done|]. intros t.
  destruct (m_get m _) as [a|] eqn:E; simpl; [|done]. destruct (take_fields fs ms) as [t'|]; simpl; [|done].
  intros [= <-]. simpl. split; [by eapply get_typed|by apply IH].
Qed.

(** A struct written and read again. *)
Lemma struct_again {R T} (fs : fields T) (to : R -> T) (make : T -> R) r :
  NoDup (names fs) -> de (struct fs to make) (ser (struct fs to make) r) = make <$> again fs (to r).
Proof.
  intros Hd. cbn [ser de struct]. rewrite entries_of_obj. simpl.
  by rewrite (take_fields_ext fs _ (put fs (to r))), take_put by (done || (intros k _; by apply obj_entries_get, put_NoDup)).
Qed.

Lemma struct_lawful {R T} (fs : fields T) (to : R -> T) (make : T -> R) :
  NoDup (names fs) -> lawful_fields fs -> (forall r, make (to r) = r) -> (forall t, to (make t) = t) ->
  Lawful (struct fs to make).
Proof.
  intros Hd Hf Hr Ht. split.
  - intros r Hty. rewrite struct_again, again_typed by done. simpl. by rewrite Hr.
  - cbn. intros v r. destruct (entries_of _ v) as [ms|]; simpl; [|done]. destruct (take_fields fs ms) as [t|] eqn:E; simpl; [|done].
    intros [= <-]. rewrite Ht. by eapply take_typed.
  - done.
Qed.

(** *** Flattened maps *)
Lemma flat_NoDup {T A} (fs : fields T) (c : codec A) t m :
  NoDup (names fs) -> Forall (fun n => m !! n = None) (names fs) -> NoDup (put fs t ++ map_entries c m).*1.
Proof.
  intros Hd Hm. rewrite fmap_app. apply NoDup_app. split; [by apply put_NoDup|]. split; [|apply map_entries_NoDup].
  intros k Hk%put_names. rewrite map_entries_keys. intros ([k' a] & -> & Hin%elem_of_map_to_list)%list_elem_of_fmap.
  rewrite Forall_forall in Hm. specialize (Hm _ Hk). simpl in Hm. congruence.
Qed.

Lemma others_flat {T A} (fs : fields T) (c : codec A) t (m : gmap string A) :
  NoDup (names fs) -> Forall (fun n => m !! n = None) (names fs) ->
  others (names fs) (obj_entries (put fs t ++ map_entries c m)) ≡ₚ map_entries c m.
Proof.
  intros Hd Hm. unfold others. rewrite obj_entries_perm, filter_app by (by apply flat_NoDup).
  assert (Hput : filter (fun kv => kv.1 ∉ names fs) (put fs t) = []).
  { apply filter_none. intros kv Hkv Hn. apply Hn, (put_names fs t), list_elem_of_fmap. eauto. }
  rewrite Hput. simpl. rewrite filter_every; [done|].
  intros [k v] Hkv Hn. rewrite Forall_forall in Hm. specialize (Hm _ Hn).
  assert (Hk : k ∈ (map_entries c m).*1) by (apply list_elem_of_fmap; by exists (k, v)).
  rewrite map_entries_keys in Hk. apply list_elem_of_fmap in Hk as ([k' a] & -> & Hin%elem_of_map_to_list). simpl in Hm. congruence.
Qed.

Lemma flattened_again {R T A} (fs : fields T) (c : codec A) `{!Lawful c} (to : R -> T * gmap string A) make r :
  NoDup (names fs) -> Forall (fun n => (to r).2 !! n = None) (names fs) -> map_Forall (fun _ => typed c) (to r).2 ->
  de (flattened fs c to make) (ser (flattened fs c to make) r) = (fun t => make (t, (to r).2)) <$> again fs (to r).1.
Proof.
  intros Hd Hm Ht. cbn [ser de flattened]. destruct (to r) as [t m]. cbn [fst snd] in *.
  rewrite json_obj_entries. cbn [as_object mbind option_bind]. set (ms := obj_entries _).
  assert (Hall : forallb (once ms) (names fs) = true).
  { apply forallb_forall. intros n _. apply once_NoDup, obj_entries_NoDup. }
  rewrite Hall, (take_fields_ext fs ms (put fs t)), take_put; [|done|].
  - destruct (again fs t) as [t'|]; simpl; [|done]. rewrite (read_map_perm c _ m); [done|by apply others_flat|done].
  - intros k Hk. unfold ms. rewrite obj_entries_get by (by apply flat_NoDup).
    assert (Hnone : obj_get (map_entries c m) k = None).
    { apply obj_get_None. rewrite map_entries_keys. intros ([k' a] & -> & Hin%elem_of_map_to_list)%list_elem_of_fmap.
      rewrite Forall_forall in Hm. specialize (Hm _ Hk). simpl in Hm. congruence. }
    clear -Hnone. induction (put fs t) as [|[k' v] l IH]; simpl; [done|]. case_bool_decide; [done|exact IH].
Qed.

Lemma flattened_lawful {R T A} (fs : fields T) (c : codec A) `{!Lawful c} (to : R -> T * gmap string A) make :
  NoDup (names fs) -> lawful_fields fs -> (forall r, make (to r) = r) -> (forall t, to (make t) = t) ->
  Lawful (flattened fs c to make).
Proof.
  intros Hd Hf Hr Ht. split.
  - intros r (Hty & Hm & Hn). rewrite flattened_again, again_typed by done. simpl. f_equal. rewrite <- (Hr r) at 3. by destruct (to r).
  - cbn. intros v r. destruct v as [| | | | |ms]; try done. simpl. destruct (forallb _ _); [|done].
    destruct (take_fields fs ms) as [t|] eqn:E; simpl; [|done]. destruct (read_map c _) as [m|] eqn:Em; simpl; [|done].
    intros [= <-]. rewrite Ht. simpl. apply (read_map_typed c) in Em as [Hty Hk]. split; [by eapply take_typed|]. split; [done|].
    apply Forall_forall. intros n Hn. apply eq_None_not_Some. intros Hs%Hk.
    apply list_elem_of_fmap in Hs as (kv & -> & [Hkv _]%list_elem_of_filter). done.
  - done.
Qed.

(** A struct written out field by field. *)
Ltac solve_fields :=
  repeat (apply lawful_cons; [typeclasses eauto|]); apply lawful_nil.
Ltac solve_tuples :=
  intros; repeat match goal with t : (_ * _)%type |- _ => destruct t | t : unit |- _ => destruct t end; reflexivity.
Ltac solve_struct :=
  first [apply struct_lawful|apply flattened_lawful; [typeclasses eauto|..]];
  [by apply (bool_decide_unpack _)|solve_fields|by intros []|solve_tuples].

(** ** Printable values

    Typed values of these types print as JSON text that parses back: they are
    not nested too deeply, and their integers are of 64 bits. *)
Class Fits {A} (d : nat) (c : codec A) : Prop := fits_typed a : typed c a -> fits d (ser c a) = true.
Class MemberFits {A} (d : nat) (m : member A) : Prop := fits_put a v : m_typed m a -> m_put m a = Some v -> fits d v = true.

#[export] Instance text_fits d : Fits d text.
Proof. intros s _. apply fits_string. Qed.
#[export] Instance boolean_fits d : Fits d boolean.
Proof. intros b _. by destruct d. Qed.
Lemma integer_fits d lo hi : i64_min <= lo -> hi <= 2 ^ 64 -> Fits d (integer lo hi).
Proof.
  intros Hlo Hhi z Hz. simpl in Hz. assert (Hf : (i64_min <=? z) && (z <? 2 ^ 64) = true); [|by destruct d].
  apply andb_true_iff. rewrite Z.leb_le, Z.ltb_lt. lia.
Qed.
#[export] Instance uint64_fits d : Fits d (uint 64).
Proof. apply integer_fits; [by apply Z.leb_le|done]. Qed.
#[export] Instance uint32_fits d : Fits d (uint 32).
Proof. apply integer_fits; by apply Z.leb_le. Qed.

#[export] Instance list_fits {A} d (c : codec A) `{!Fits d c} : Fits (S d) (list_of c).
Proof.
  intros l Hl. cbn [ser list_of]. rewrite fits_array. apply forallb_forall. intros v (a & <- & Ha)%in_map_iff.
  apply Fits0. cbn [typed list_of] in Hl. rewrite Forall_forall in Hl. by apply Hl, list_elem_of_In.
Qed.
#[export] Instance map_fits {A} d (c : codec A) `{!Fits d c} : Fits (S d) (map_of c).
Proof.
  intros m Hm. apply json_obj_fits, Forall_forall. intros kv ([k a] & -> & Hin%elem_of_map_to_list)%list_elem_of_fmap.
  apply Fits0. by eapply Hm.
Qed.

#[export] Instance required_fits {A} d (c : codec A) `{!Fits d c} : MemberFits d (required c).
Proof. intros a v Ha [= <-]. by apply Fits0. Qed.
#[export] Instance skip_none_fits {A} d (c : codec A) `{!Fits d c} : MemberFits d (skip_none c).
Proof. intros [a|] v Ha; [|done]. intros [= <-]. by apply Fits0, Ha. Qed.
#[export] Instance optional_fits {A} d (c : codec A) `{!Fits d c} : MemberFits d (optional c).
Proof. intros [a|] v Ha [= <-]; [by apply Fits0, Ha|by destruct d]. Qed.

Inductive fields_fit (d : nat) : forall {T}, fields T -> Prop :=
| fit_nil : fields_fit d no_fields
| fit_cons {A T} n (m : member A) (fs : fields T) : MemberFits d m -> fields_fit d fs -> fields_fit d (field n m fs).

Lemma put_fits {T} d (fs : fields T) t : fields_fit d fs -> all_typed fs t -> Forall (fun kv => fits d kv.2 = true) (put fs t).
Proof.
  intros Hf. induction Hf as [|A T n m fs Hm Hf IH]; simpl; [done|]. intros [Ha Ht]. apply Forall_app. split; [|by apply IH].
  destruct (m_put m t.1) eqn:E; simpl; [|done]. repeat constructor. by eapply fits_put.
Qed.

Lemma struct_fits {R T} d (fs : fields T) (to : R -> T) make : fields_fit d fs -> Fits (S d) (struct fs to make).
Proof. intros Hf r Hr. by apply json_obj_fits, put_fits. Qed.

Ltac solve_fits := apply struct_fits; repeat (apply fit_cons; [typeclasses eauto|]); apply fit_nil.

(** What is printed as text is read from it. *)
Lemma read_printed `{J : SerdeJson} `{JL : !SerdeJsonLaws J} {A} (c : codec A) `{!Lawful c} a :
  typed c a -> fits 127 (ser c a) = true ->
  exists b v, value_to_vec (ser c a) = inl b /\ value_from_slice b = inl v /\ de c v = Some a.
Proof.
  intros Ha Hf. destruct (value_to_vec_total (ser c a) Hf) as [b Hb]. exists b, (ser c a). split; [done|].
  split; [by eapply value_roundtrip|by apply read_written].
Qed.
