(* ===== verification/Keys.v ===== *)
(** * Keys

    JSON Web Keys, key pairs and verification from a public JWK
    (crates/crypto/src/jwk.rs, crates/crypto/src/keys.rs).  The curve
    arithmetic of [p256] and [ed25519_dalek] is a parameter; a key pair is a
    record of the trait's methods with the laws the rest of the code relies
    on, which both implementations are shown to keep. *)
From S2P Require Import Prelude Externals Strings.

(** ** The curves *)

(** [p256]. *)
Class P256 := {
  P256SigningKey : Type;
  P256VerifyingKey : Type;
  P256Signature : Type;
  p256_verifying_key : P256SigningKey -> P256VerifyingKey;
  (** [to_encoded_point(false)]: its [x()] and [y()], and its bytes *)
  p256_x : P256VerifyingKey -> option bytes;
  p256_y : P256VerifyingKey -> option bytes;
  p256_sec1 : P256VerifyingKey -> bytes;
  (** [EncodedPoint::from_affine_coordinates] then [from_encoded_point] *)
  p256_from_affine : bytes -> bytes -> P256VerifyingKey + string;
  p256_try_sign : P256SigningKey -> bytes -> P256Signature + string;
  p256_sig_to_bytes : P256Signature -> bytes;
  p256_sig_from_slice : bytes -> P256Signature + string;
  p256_verify : P256VerifyingKey -> bytes -> P256Signature -> unit + string;
  (** [VerifyingKey::from_sec1_bytes] and [Signature::from_der] *)
  p256_from_sec1 : bytes -> P256VerifyingKey + string;
  p256_sig_from_der : bytes -> P256Signature + string;
  p256_from_pkcs8_pem : string -> P256SigningKey + string;
  p256_to_pkcs8_pem : P256SigningKey -> string + string;
}.

Class P256Laws (C : P256) : Prop := {
  p256_coordinates k : exists x y, p256_x k = Some x /\ p256_y k = Some y /\
    length x = 32%nat /\ length y = 32%nat /\ Forall is_u8 x /\ Forall is_u8 y /\
    p256_from_affine x y = inl k;
  p256_sig_roundtrip s : Forall is_u8 (p256_sig_to_bytes s) /\
    p256_sig_from_slice (p256_sig_to_bytes s) = inl s;
  p256_sign_verifies k m s : p256_try_sign k m = inl s -> p256_verify (p256_verifying_key k) m s = inl tt;
  p256_sec1_roundtrip k : p256_from_sec1 (p256_sec1 k) = inl k;
  p256_pem_roundtrip k p : p256_to_pkcs8_pem k = inl p -> p256_from_pkcs8_pem p = inl k;
}.

(** [ed25519_dalek]. *)
Class Ed25519 := {
  EdSigningKey : Type;
  EdVerifyingKey : Type;
  EdSignature : Type;
  ed_verifying_key : EdSigningKey -> EdVerifyingKey;
  ed_as_bytes : EdVerifyingKey -> bytes;
  ed_from_bytes : bytes -> EdVerifyingKey + string;
  ed_try_sign : EdSigningKey -> bytes -> EdSignature + string;
  ed_sig_to_bytes : EdSignature -> bytes;
  ed_sig_from_bytes : bytes -> EdSignature;
  ed_verify : EdVerifyingKey -> bytes -> EdSignature -> unit + string;
  ed_from_pkcs8_pem : string -> EdSigningKey + string;
  ed_to_pkcs8_pem : EdSigningKey -> string + string;
}.

Class Ed25519Laws (C : Ed25519) : Prop := {
  ed_key_roundtrip k : length (ed_as_bytes k) = 32%nat /\ Forall is_u8 (ed_as_bytes k) /\
    ed_from_bytes (ed_as_bytes k) = inl k;
  ed_sig_roundtrip s : length (ed_sig_to_bytes s) = 64%nat /\ Forall is_u8 (ed_sig_to_bytes s) /\
    ed_sig_from_bytes (ed_sig_to_bytes s) = s;
  ed_sign_verifies k m s : ed_try_sign k m = inl s -> ed_verify (ed_verifying_key k) m s = inl tt;
  ed_pem_roundtrip k p : ed_to_pkcs8_pem k = inl p -> ed_from_pkcs8_pem p = inl k;
}.

(** ** JWK *)
Record Jwk := mkJwk {
  jwk_kty : string;
  jwk_crv : option string;
  jwk_x : option string;
  jwk_y : option string;
  jwk_d : option string;
  jwk_alg : option string;
  jwk_kid : option string;
  jwk_use : option string;
}.

#[export] Instance Jwk_eq_dec : EqDecision Jwk.
Proof. solve_decision. Defined.

Record Jwks := mkJwks { keys : list Jwk }.

Module JwksOps.
Definition new (ks : list Jwk) : Jwks := mkJwks ks.

(** The first key with this ID. *)
Definition find_by_kid (s : Jwks) (id : string) : option Jwk :=
  snd <$> list_find (fun k => jwk_kid k = Some id) (keys s).
End JwksOps.

(** ** Errors and algorithms *)
Inductive KeyError :=
| KE_GenerationFailed (msg : string)
| KE_SigningFailed (msg : string)
| KE_VerificationFailed (msg : string)
| KE_InvalidKeyMaterial (msg : string).

Definition key_error_to_string (e : KeyError) : string :=
  match e with
  | KE_GenerationFailed m => "key generation failed: " +:+ m
  | KE_SigningFailed m => "signing failed: " +:+ m
  | KE_VerificationFailed m => "verification failed: " +:+ m
  | KE_InvalidKeyMaterial m => "invalid key material: " +:+ m
  end.

Inductive Algorithm := ES256 | EdDSA.

#[export] Instance Algorithm_eq_dec : EqDecision Algorithm.
Proof. solve_decision. Defined.

(** [Algorithm::as_str], which [Display] prints. *)
Definition alg_as_str (a : Algorithm) : string :=
  match a with ES256 => "ES256" | EdDSA => "EdDSA" end.

(** ** The trait [KeyPair] *)
Record KeyPair := mkKeyPair {
  kp_algorithm : Algorithm;
  kp_key_id : string;
  kp_sign : bytes -> res bytes KeyError;
  kp_verify : bytes -> bytes -> res unit KeyError;
  kp_public_jwk : res Jwk KeyError;
}.

(** The double quote. *)
Definition DQ : string := String (chr 34) EmptyString.
Definition quoted (s : string) : string := DQ +:+ s +:+ DQ.

Section Keys.
Context `{Sha2} `{Base64Url} `{P256} `{Ed25519}.

(** *** Thumbprints (RFC 7638) *)
Definition canonical (k : Jwk) : string :=
  if bool_decide (jwk_kty k = "EC"%string) then
    "{" +:+ quoted "crv" +:+ ":" +:+ quoted (default EmptyString (jwk_crv k)) +:+ "," +:+
    quoted "kty" +:+ ":" +:+ quoted "EC" +:+ "," +:+
    quoted "x" +:+ ":" +:+ quoted (default EmptyString (jwk_x k)) +:+ "," +:+
    quoted "y" +:+ ":" +:+ quoted (default EmptyString (jwk_y k)) +:+ "}"
  else if bool_decide (jwk_kty k = "OKP"%string) then
    "{" +:+ quoted "crv" +:+ ":" +:+ quoted (default EmptyString (jwk_crv k)) +:+ "," +:+
    quoted "kty" +:+ ":" +:+ quoted "OKP" +:+ "," +:+
    quoted "x" +:+ ":" +:+ quoted (default EmptyString (jwk_x k)) +:+ "}"
  else "{" +:+ quoted "kty" +:+ ":" +:+ quoted (jwk_kty k) +:+ "}".

Definition compute_thumbprint (k : Jwk) : string :=
  b64url_encode (sha256 (as_bytes (canonical k))).

(** *** ECDSA P-256 *)
Record EcdsaP256KeyPair := mkEcdsaP256KeyPair {
  ec_signing_key : P256SigningKey;
  ec_verifying_key : P256VerifyingKey;
  ec_key_id : string;
}.

(** [point.x().unwrap()]: panics on the point at infinity. *)
Definition ec_build_public_jwk {E} (key : P256VerifyingKey) (id : string) : res Jwk E :=
  match p256_x key, p256_y key with
  | Some px, Some py => Ok (mkJwk "EC" (Some "P-256"%string) (Some (b64url_encode px))
      (Some (b64url_encode py)) None (Some "ES256"%string) (Some id) (Some "sig"%string))
  | _, _ => Panic
  end.

(** [generate] with the key the random generator produced. *)
Definition ec_generate (signing_key : P256SigningKey) : res EcdsaP256KeyPair KeyError :=
  let verifying_key := p256_verifying_key signing_key in
  let? jwk := ec_build_public_jwk verifying_key EmptyString in
  Ok (mkEcdsaP256KeyPair signing_key verifying_key (compute_thumbprint jwk)).

Definition ec_from_pkcs8_pem (pem : string) : res EcdsaP256KeyPair KeyError :=
  let? signing_key := map_err KE_InvalidKeyMaterial (from_ext (p256_from_pkcs8_pem pem)) in
  let verifying_key := p256_verifying_key signing_key in
  let? jwk := ec_build_public_jwk verifying_key EmptyString in
  Ok (mkEcdsaP256KeyPair signing_key verifying_key (compute_thumbprint jwk)).

Definition ec_public_key_sec1 (k : EcdsaP256KeyPair) : bytes := p256_sec1 (ec_verifying_key k).

Definition ec_to_pkcs8_pem (k : EcdsaP256KeyPair) : res string KeyError :=
  map_err KE_InvalidKeyMaterial (from_ext (p256_to_pkcs8_pem (ec_signing_key k))).

Definition ec_sign (k : EcdsaP256KeyPair) (message : bytes) : res bytes KeyError :=
  let? signature := map_err KE_SigningFailed (from_ext (p256_try_sign (ec_signing_key k) message)) in
  Ok (p256_sig_to_bytes signature).

Definition ec_verify (k : EcdsaP256KeyPair) (message signature : bytes) : res unit KeyError :=
  let? sig := map_err KE_VerificationFailed (from_ext (p256_sig_from_slice signature)) in
  map_err KE_VerificationFailed (from_ext (p256_verify (ec_verifying_key k) message sig)).

(** [impl KeyPair for EcdsaP256KeyPair] *)
Definition ec_key_pair (k : EcdsaP256KeyPair) : KeyPair := {|
  kp_algorithm := ES256;
  kp_key_id := ec_key_id k;
  kp_sign := ec_sign k;
  kp_verify := ec_verify k;
  kp_public_jwk := ec_build_public_jwk (ec_verifying_key k) (ec_key_id k) |}.

(** *** Ed25519 *)
Record Ed25519KeyPair := mkEd25519KeyPair {
  edk_signing_key : EdSigningKey;
  edk_verifying_key : EdVerifyingKey;
  edk_key_id : string;
}.

Definition ed_build_public_jwk (key : EdVerifyingKey) (id : string) : Jwk :=
  mkJwk "OKP" (Some "Ed25519"%string) (Some (b64url_encode (ed_as_bytes key))) None None
    (Some "EdDSA"%string) (Some id) (Some "sig"%string).

Definition ed_generate (signing_key : EdSigningKey) : res Ed25519KeyPair KeyError :=
  let verifying_key := ed_verifying_key signing_key in
  Ok (mkEd25519KeyPair signing_key verifying_key
        (compute_thumbprint (ed_build_public_jwk verifying_key EmptyString))).

Definition edk_from_pkcs8_pem (pem : string) : res Ed25519KeyPair KeyError :=
  let? signing_key := map_err KE_InvalidKeyMaterial (from_ext (ed_from_pkcs8_pem pem)) in
  let verifying_key := ed_verifying_key signing_key in
  Ok (mkEd25519KeyPair signing_key verifying_key
        (compute_thumbprint (ed_build_public_jwk verifying_key EmptyString))).

Definition edk_to_pkcs8_pem (k : Ed25519KeyPair) : res string KeyError :=
  map_err KE_InvalidKeyMaterial (from_ext (ed_to_pkcs8_pem (edk_signing_key k))).

Definition edk_sign (k : Ed25519KeyPair) (message : bytes) : res bytes KeyError :=
  let? signature := map_err KE_SigningFailed (from_ext (ed_try_sign (edk_signing_key k) message)) in
  Ok (ed_sig_to_bytes signature).

(** [signature.try_into()]: an array of 64 bytes. *)
Definition ed_signature_of (signature : bytes) : res EdSignature KeyError :=
  fail? bool_decide (length signature <> 64%nat) with KE_VerificationFailed "invalid signature length";
  Ok (ed_sig_from_bytes signature).

Definition edk_verify (k : Ed25519KeyPair) (message signature : bytes) : res unit KeyError :=
  let? sig := ed_signature_of signature in
  map_err KE_VerificationFailed (from_ext (ed_verify (edk_verifying_key k) message sig)).

(** [impl KeyPair for Ed25519KeyPair] *)
Definition ed_key_pair (k : Ed25519KeyPair) : KeyPair := {|
  kp_algorithm := EdDSA;
  kp_key_id := edk_key_id k;
  kp_sign := edk_sign k;
  kp_verify := edk_verify k;
  kp_public_jwk := Ok (ed_build_public_jwk (edk_verifying_key k) (edk_key_id k)) |}.

(** *** Verification from a bare JWK *)
Definition decode_coordinate (value : option string) (name : string) : res bytes KeyError :=
  let? encoded := ok_or value (KE_InvalidKeyMaterial ("JWK is missing '" +:+ name +:+ "'")) in
  map_err (fun e => KE_InvalidKeyMaterial ("invalid '" +:+ name +:+ "': " +:+ e))
    (from_ext (b64url_decode encoded)).

(** What [(kty, crv)] selects. *)
Definition key_type (jwk : Jwk) : option Algorithm :=
  if bool_decide (jwk_kty jwk = "EC"%string) && bool_decide (jwk_crv jwk = Some "P-256"%string) then Some ES256
  else if bool_decide (jwk_kty jwk = "OKP"%string) && bool_decide (jwk_crv jwk = Some "Ed25519"%string)
  then Some EdDSA
  else None.

Definition unsupported_key (jwk : Jwk) : KeyError :=
  KE_InvalidKeyMaterial ("unsupported JWK key type: kty=" +:+ jwk_kty jwk +:+ ", crv="
    +:+ default "none"%string (jwk_crv jwk)).

Definition verify_with_jwk (jwk : Jwk) (message signature : bytes) : res unit KeyError :=
  match key_type jwk with
  | Some ES256 =>
      let? px := decode_coordinate (jwk_x jwk) "x" in
      let? py := decode_coordinate (jwk_y jwk) "y" in
      fail? bool_decide (length px <> 32%nat) || bool_decide (length py <> 32%nat) with
        KE_InvalidKeyMaterial "P-256 coordinates must be 32 bytes";
      let? verifying_key := map_err KE_InvalidKeyMaterial (from_ext (p256_from_affine px py)) in
      let? sig := map_err KE_VerificationFailed (from_ext (p256_sig_from_slice signature)) in
      map_err KE_VerificationFailed (from_ext (p256_verify verifying_key message sig))
  | Some EdDSA =>
      let? px := decode_coordinate (jwk_x jwk) "x" in
      fail? bool_decide (length px <> 32%nat) with
        KE_InvalidKeyMaterial "Ed25519 public key must be 32 bytes";
      let? verifying_key := map_err KE_InvalidKeyMaterial (from_ext (ed_from_bytes px)) in
      let? sig := ed_signature_of signature in
      map_err KE_VerificationFailed (from_ext (ed_verify verifying_key message sig))
  | None => Err (unsupported_key jwk)
  end.

Definition algorithm_for_jwk (jwk : Jwk) : res Algorithm KeyError :=
  match key_type jwk with Some a => Ok a | None => Err (unsupported_key jwk) end.

(** *** The contract of a key pair

    What signing, verifying and publishing promise to the code that uses a key
    pair through the trait. *)
Class KeyPairLaws (k : KeyPair) : Prop := {
  kp_sign_bytes m s : kp_sign k m = Ok s -> Forall is_u8 s;
  kp_sign_verify m s : kp_sign k m = Ok s -> kp_verify k m s = Ok tt;
  kp_sign_no_panic m : kp_sign k m <> Panic;
  kp_jwk : exists jwk, kp_public_jwk k = Ok jwk /\
    jwk_d jwk = None /\ jwk_kid jwk = Some (kp_key_id k) /\
    kp_key_id k = compute_thumbprint jwk /\
    algorithm_for_jwk jwk = Ok (kp_algorithm k) /\
    forall m s, verify_with_jwk jwk m s = kp_verify k m s;
}.

End Keys.

Arguments EcdsaP256KeyPair {_}.
Arguments Ed25519KeyPair {_}.

Section KeyFacts.
Context `{S2 : Sha2} `{B64 : Base64Url} `{BL : !Base64UrlLaws B64} `{C : P256} `{CL : !P256Laws C}
  `{D : Ed25519} `{DL : !Ed25519Laws D}.

Lemma ec_jwk_Ok {E} vk id : exists jwk, ec_build_public_jwk (E := E) vk id = Ok jwk.
Proof.
  unfold ec_build_public_jwk. destruct (p256_coordinates vk) as (px & py & -> & -> & _). eauto.
Qed.

(** The canonical form leaves the key ID out. *)
Lemma ec_thumbprint_kid {E} vk id id' (a b : Jwk) :
  ec_build_public_jwk (E := E) vk id = Ok a -> ec_build_public_jwk (E := E) vk id' = Ok b ->
  compute_thumbprint a = compute_thumbprint b.
Proof.
  unfold ec_build_public_jwk. destruct (p256_x vk), (p256_y vk); try done.
  intros [= <-] [= <-]. done.
Qed.

Lemma ec_verify_public {E} vk id jwk m s sk kid :
  ec_build_public_jwk (E := E) vk id = Ok jwk ->
  verify_with_jwk jwk m s = ec_verify (mkEcdsaP256KeyPair sk vk kid) m s.
Proof.
  unfold ec_build_public_jwk, verify_with_jwk, ec_verify.
  destruct (p256_coordinates vk) as (px & py & -> & -> & Hlx & Hly & Hx & Hy & Hvk).
  intros [= <-]. simpl. unfold decode_coordinate. simpl.
  rewrite !b64url_roundtrip by done. simpl. rewrite Hlx, Hly. simpl. by rewrite Hvk.
Qed.

Lemma ec_lawful sk k id :
  (exists jwk, ec_build_public_jwk (E := KeyError) (p256_verifying_key sk) id = Ok jwk /\
     k = mkEcdsaP256KeyPair sk (p256_verifying_key sk) (compute_thumbprint jwk)) ->
  KeyPairLaws (ec_key_pair k).
Proof.
  intros (jwk & Hjwk & ->).
  split; simpl; unfold ec_sign; simpl.
  - intros m s Hs. inv_ok. apply (proj1 (p256_sig_roundtrip _)).
  - intros m s Hs. inv_ok. unfold ec_verify. rewrite (proj2 (p256_sig_roundtrip _)). simpl.
    by rewrite (p256_sign_verifies _ _ _ Hs0).
  - intros m. by destruct (p256_try_sign sk m).
  - destruct (ec_jwk_Ok (E := KeyError) (p256_verifying_key sk) (compute_thumbprint jwk)) as [j Hj].
    exists j. split; [done|].
    assert (jwk_d j = None /\ jwk_kid j = Some (compute_thumbprint jwk)
            /\ algorithm_for_jwk j = Ok ES256) as (? & ? & ?).
    { unfold ec_build_public_jwk in Hj. destruct (p256_x (p256_verifying_key sk)), (p256_y (p256_verifying_key sk)); try done.
      by injection Hj as <-. }
    repeat (split; [done|]). split; [by eapply ec_thumbprint_kid|]. split; [done|].
    intros m s. by eapply ec_verify_public.
Qed.

Lemma ed_lawful sk :
  let vk := ed_verifying_key sk in
  KeyPairLaws (ed_key_pair (mkEd25519KeyPair sk vk
    (compute_thumbprint (ed_build_public_jwk vk EmptyString)))).
Proof.
  split; simpl; unfold edk_sign; simpl.
  - intros m s Hs. inv_ok. apply (ed_sig_roundtrip a).
  - intros m s Hs. inv_ok. unfold edk_verify, ed_signature_of.
    destruct (ed_sig_roundtrip a) as (Hl & _ & ->). rewrite Hl. simpl.
    by rewrite (ed_sign_verifies _ _ _ Hs0).
  - intros m. by destruct (ed_try_sign sk m).
  - eexists. split; [done|]. repeat (split; [done|]). intros m s.
    destruct (ed_key_roundtrip (ed_verifying_key sk)) as (Hl & Hu & Hr).
    unfold verify_with_jwk, edk_verify, decode_coordinate. simpl.
    rewrite b64url_roundtrip by done. simpl. rewrite Hl. simpl. by rewrite Hr.
Qed.

(** Every key pair that [generate] or [from_pkcs8_pem] builds, of either
    algorithm, keeps the contract of the trait: signatures are bytes that
    verify; the public JWK carries no private part, is published under its own
    thumbprint as key ID, and makes [verify_with_jwk] agree with [verify] on
    every message and every signature. *)
Theorem built_keys_lawful k :
  ((exists sk, ec_generate sk = Ok k) \/ (exists pem, ec_from_pkcs8_pem pem = Ok k) ->
   KeyPairLaws (ec_key_pair k)) /\
  forall e, (exists sk, ed_generate sk = Ok e) \/ (exists pem, edk_from_pkcs8_pem pem = Ok e) ->
   KeyPairLaws (ed_key_pair e).
Proof.
  split; [intros [[sk Hk]|[pem Hk]]|intros e [[sk Hk]|[pem Hk]]].
  - unfold ec_generate in Hk. inv_ok. eapply ec_lawful. eauto.
  - unfold ec_from_pkcs8_pem in Hk. inv_ok. eapply ec_lawful. eauto.
  - injection Hk as <-. apply ed_lawful.
  - unfold edk_from_pkcs8_pem in Hk. inv_ok. apply ed_lawful.
Qed.

(** A key pair saved as PEM and loaded again is the same key pair, key ID
    included. *)
Theorem pem_roundtrip sk k pem esk ek epem :
  ec_generate sk = Ok k -> ec_to_pkcs8_pem k = Ok pem ->
  ed_generate esk = Ok ek -> edk_to_pkcs8_pem ek = Ok epem ->
  ec_from_pkcs8_pem pem = Ok k /\ edk_from_pkcs8_pem epem = Ok ek.
Proof.
  unfold ec_generate, ec_to_pkcs8_pem, ed_generate, edk_to_pkcs8_pem, ec_from_pkcs8_pem,
    edk_from_pkcs8_pem.
  intros Hk Hp He Hq. inv_ok. simpl in *.
  apply p256_pem_roundtrip in Hp. apply ed_pem_roundtrip in Hq.
  rewrite Hp, Hq. simpl. by rewrite Hk0.
Qed.

(** Strings without quotes are read back from their quoted form. *)
Lemma quoted_inj s t u v :
  has_char (chr 34) s = false -> has_char (chr 34) t = false ->
  s +:+ DQ +:+ u = t +:+ DQ +:+ v -> s = t /\ u = v.
Proof.
  intros Hs Ht Heq. pose proof (split_once_app (chr 34) s u Hs) as H1.
  pose proof (split_once_app (chr 34) t v Ht) as H2.
  change (String (chr 34) u) with (DQ +:+ u) in H1. change (String (chr 34) v) with (DQ +:+ v) in H2.
  rewrite Heq in H1. rewrite H1 in H2. by injection H2 as -> ->.
Qed.

Lemma b64_no_quote s d : b64url_decode s = inl d -> has_char (chr 34) s = false.
Proof.
  intros Hd. pose proof (fun c => b64url_decode_alphabet s d c Hd) as Hc. clear Hd.
  induction s as [|a s IH]; simpl in *; [done|]. rewrite IH by auto.
  rewrite bool_decide_eq_false_2; [done|]. intros ->. by specialize (Hc _ (or_introl eq_refl)).
Qed.

(** What [verify_with_jwk] reads of a key it accepts a signature for. *)
Lemma verify_with_jwk_usable jwk m s :
  verify_with_jwk jwk m s = Ok tt ->
  (jwk_kty jwk = "EC"%string /\ jwk_crv jwk = Some "P-256"%string /\ exists px py, jwk_x jwk = Some px /\
     jwk_y jwk = Some py /\ has_char (chr 34) px = false /\ has_char (chr 34) py = false) \/
  (jwk_kty jwk = "OKP"%string /\ jwk_crv jwk = Some "Ed25519"%string /\ exists px, jwk_x jwk = Some px /\
     has_char (chr 34) px = false).
Proof.
  unfold verify_with_jwk, key_type, decode_coordinate. intros Ho.
  destruct (bool_decide (jwk_kty jwk = "EC"%string) && bool_decide (jwk_crv jwk = Some "P-256"%string)) eqn:E1.
  { b2p. left. split; [done|]. split; [done|]. inv_ok.
    do 2 eexists. eauto 10 using b64_no_quote. }
  destruct (bool_decide (jwk_kty jwk = "OKP"%string) && bool_decide (jwk_crv jwk = Some "Ed25519"%string)) eqn:E2;
    [|done].
  b2p. right. split; [done|]. split; [done|]. inv_ok. eexists. eauto using b64_no_quote.
Qed.

Lemma canonical_inj a b m s m' s' :
  verify_with_jwk a m s = Ok tt -> verify_with_jwk b m' s' = Ok tt -> canonical a = canonical b ->
  jwk_kty a = jwk_kty b /\ jwk_crv a = jwk_crv b /\ jwk_x a = jwk_x b /\
  (jwk_kty a = "EC"%string -> jwk_y a = jwk_y b).
Proof.
  intros Ha%verify_with_jwk_usable Hb%verify_with_jwk_usable. unfold canonical.
  destruct Ha as [(-> & -> & ax & ay & -> & -> & ? & ?)|(-> & -> & ax & -> & ?)],
    Hb as [(-> & -> & bx & by_ & -> & -> & ? & ?)|(-> & -> & bx & -> & ?)]; simpl; intros Heq;
    try discriminate Heq.
  - unfold quoted in Heq. rewrite !string_app_assoc in Heq. simpl in Heq. injection Heq as Heq.
    apply quoted_inj in Heq as [<- Heq]; [|done..]. injection Heq as Heq.
    apply quoted_inj in Heq as [<- _]; done.
  - unfold quoted in Heq. rewrite !string_app_assoc in Heq. simpl in Heq. injection Heq as Heq.
    apply quoted_inj in Heq as [<- Heq]; done.
Qed.

Lemma b64url_encode_inj u v :
  Forall is_u8 u -> Forall is_u8 v -> b64url_encode u = b64url_encode v -> u = v.
Proof.
  intros Hu Hv Heq. pose proof (b64url_roundtrip u Hu) as H1.
  rewrite Heq, b64url_roundtrip in H1 by done. by injection H1.
Qed.

Context `{SL : !Sha2Laws S2}.

(** A thumbprint names one key: two JWKs that each accept some signature, and
    have the same thumbprint without a SHA-256 collision between their
    canonical forms, accept the same signatures on every message.  No value of
    a JWK's members can imitate the canonical form of another key. *)
Theorem thumbprint_binds a b m s m' s' :
  verify_with_jwk a m s = Ok tt -> verify_with_jwk b m' s' = Ok tt ->
  compute_thumbprint a = compute_thumbprint b ->
  (sha256 (as_bytes (canonical a)) = sha256 (as_bytes (canonical b)) ->
   as_bytes (canonical a) = as_bytes (canonical b)) ->
  forall message signature, verify_with_jwk a message signature = verify_with_jwk b message signature.
Proof.
  intros Ha Hb Ht Hcoll message signature. unfold compute_thumbprint in Ht.
  apply b64url_encode_inj in Ht; [|apply sha256_u8..].
  apply Hcoll, as_bytes_inj in Ht.
  destruct (canonical_inj a b _ _ _ _ Ha Hb Ht) as (Hk & Hc & Hx & Hy).
  unfold verify_with_jwk, key_type, unsupported_key. rewrite <- Hk, <- Hc, <- Hx.
  destruct (bool_decide (jwk_kty a = "EC"%string)) eqn:E; simpl.
  - b2p. by rewrite (Hy E).
  - by destruct (bool_decide (jwk_kty a = "OKP"%string) && _).
Qed.
End KeyFacts.

(** ** Concrete curves

    They stand for nothing but the consistency of the laws: a key is one of
    two, a signature is the key and a checksum of the message. *)
Module ToyCurves.
Import Toy.

Definition checksum (m : bytes) : Z := fold_right Z.add 0 m mod 256.
Definition point (k : bool) : bytes := replicate 32 (if k then 1 else 0).
Definition of_point (p : bytes) : bool + string :=
  if decide (p = point true) then inl true
  else if decide (p = point false) then inl false else inr "invalid point"%string.

(** A signature: the key, and the checksum as a character. *)
Definition sig : Type := bool * ascii.
Definition sign (k : bool) (m : bytes) : sig := (k, chr (Z.to_N (checksum m))).
Definition sig_bytes (s : sig) : bytes :=
  (if s.1 then 1 else 0) :: Z.of_N (Ascii.N_of_ascii s.2) :: replicate 62 0.
Definition of_sig_bytes (b : bytes) : sig :=
  (bool_decide (nth 0 b 0 = 1), chr (Z.to_N (nth 1 b 0))).
Definition verify (k : bool) (m : bytes) (s : sig) : unit + string :=
  if decide (s = sign k m) then inl tt else inr "signature error"%string.

Lemma sig_bytes_roundtrip s :
  length (sig_bytes s) = 64%nat /\ Forall is_u8 (sig_bytes s) /\ of_sig_bytes (sig_bytes s) = s.
Proof.
  destruct s as [k c]. split; [done|]. split.
  - pose proof (Ascii.N_ascii_bounded c). unfold sig_bytes, is_u8.
    constructor; [destruct k; simpl; lia|]. constructor; [simpl; lia|].
    apply Forall_replicate. lia.
  - unfold of_sig_bytes, sig_bytes. simpl. rewrite N2Z.id, Ascii.ascii_N_embedding.
    by destruct k.
Qed.

Lemma point_spec k : length (point k) = 32%nat /\ Forall is_u8 (point k) /\ of_point (point k) = inl k.
Proof.
  split; [done|]. split; [|by destruct k]. apply Forall_replicate. unfold is_u8.
  destruct k; lia.
Qed.

#[export] Instance p256 : P256 := {|
  P256SigningKey := bool; P256VerifyingKey := bool; P256Signature := sig;
  p256_verifying_key := id; p256_x k := Some (point k); p256_y k := Some (point k);
  p256_sec1 k := 4 :: point k ++ point k;
  p256_from_affine px py := if decide (px = py) then of_point px else inr "invalid point"%string;
  p256_try_sign k m := inl (sign k m); p256_sig_to_bytes := sig_bytes;
  p256_sig_from_slice b := inl (of_sig_bytes b); p256_verify := verify;
  p256_from_sec1 b := of_point (take 32 (tail b)); p256_sig_from_der b := inl (of_sig_bytes b);
  p256_from_pkcs8_pem s := inl (bool_decide (s = "1"%string));
  p256_to_pkcs8_pem k := inl (if k : bool then "1"%string else "0"%string) |}.

#[export] Instance ed25519 : Ed25519 := {|
  EdSigningKey := bool; EdVerifyingKey := bool; EdSignature := sig;
  ed_verifying_key := id; ed_as_bytes := point; ed_from_bytes := of_point;
  ed_try_sign k m := inl (sign k m); ed_sig_to_bytes := sig_bytes;
  ed_sig_from_bytes := of_sig_bytes; ed_verify := verify;
  ed_from_pkcs8_pem s := inl (bool_decide (s = "1"%string));
  ed_to_pkcs8_pem k := inl (if k : bool then "1"%string else "0"%string) |}.

Lemma verify_sign k m : verify k m (sign k m) = inl tt.
Proof. unfold verify. by rewrite decide_True. Qed.

#[export] Instance p256_laws : P256Laws p256.
Proof.
  split; simpl.
  - intros k. exists (point k), (point k). destruct (point_spec k) as (? & ? & ?).
    by rewrite decide_True.
  - intros s. destruct (sig_bytes_roundtrip s) as (? & ? & ->). done.
  - intros k m s [= <-]. apply verify_sign.
  - by intros [|].
  - by intros [|] p [= <-].
Qed.

#[export] Instance ed25519_laws : Ed25519Laws ed25519.
Proof.
  split; simpl.
  - apply point_spec.
  - apply sig_bytes_roundtrip.
  - intros k m s [= <-]. apply verify_sign.
  - by intros [|] p [= <-].
Qed.

(** *** Witnesses *)
Definition unwrap_or {A E} (dflt : A) (r : res A E) : A := match r with Ok a => a | _ => dflt end.

Definition sk1 : @P256SigningKey p256 := true.
Definition esk0 : @EdSigningKey ed25519 := false.
Definition ec1 : EcdsaP256KeyPair :=
  unwrap_or (mkEcdsaP256KeyPair sk1 (p256_verifying_key sk1) EmptyString) (ec_generate sk1).
Definition ed0 : Ed25519KeyPair :=
  unwrap_or (mkEd25519KeyPair esk0 (ed_verifying_key esk0) EmptyString) (ed_generate esk0).
Definition ec1_jwk : Jwk :=
  unwrap_or (mkJwk EmptyString None None None None None None None) (kp_public_jwk (ec_key_pair ec1)).

#[export] Instance ec1_laws : KeyPairLaws (ec_key_pair ec1).
Proof. apply (ec_lawful sk1 _ EmptyString). eexists. split; reflexivity. Qed.

#[export] Instance ed0_laws : KeyPairLaws (ed_key_pair ed0).
Proof. apply (ed_lawful esk0). Qed.

Lemma built_keys_lawful_witness :
  KeyPairLaws (ec_key_pair ec1) /\ KeyPairLaws (ed_key_pair ed0).
Proof.
  split.
  - apply (built_keys_lawful ec1). left. exists sk1. reflexivity.
  - apply (built_keys_lawful ec1). left. exists esk0. reflexivity.
Defined.

Lemma pem_roundtrip_witness :
  ec_from_pkcs8_pem "1" = Ok ec1 /\ edk_from_pkcs8_pem "0" = Ok ed0.
Proof. apply (pem_roundtrip sk1 ec1 "1" esk0 ed0 "0"); reflexivity. Defined.

Lemma thumbprint_binds_witness :
  verify_with_jwk ec1_jwk [7] (sig_bytes (sign true [7])) = Ok tt /\
  verify_with_jwk ec1_jwk [9] (sig_bytes (sign true [9]))
  = verify_with_jwk ec1_jwk [9] (sig_bytes (sign true [9])).
Proof.
  assert (H : verify_with_jwk ec1_jwk [7] (sig_bytes (sign true [7])) = Ok tt) by (vm_compute; reflexivity).
  split; [exact H|]. apply (thumbprint_binds ec1_jwk ec1_jwk _ _ _ _ H H); reflexivity.
Defined.
End ToyCurves.
