(* ===== verification/Jws.v ===== *)
(** * JWS compact serialization

    crates/crypto/src/jws.rs: signing, decoding and the two ways of
    verifying.  The derived serialization of the header is a parameter; a
    payload comes as the result of [serde_json::to_vec]. *)
From S2P Require Import Prelude Externals Strings Json Keys.

Inductive JwsError :=
| JE_Serialization (msg : string)
| JE_Deserialization (msg : string)
| JE_Signing (msg : string)
| JE_Verification (msg : string)
| JE_InvalidFormat (msg : string)
| JE_Base64Error (msg : string).

Definition jws_error_to_string (e : JwsError) : string :=
  match e with
  | JE_Serialization m => "serialization error: " +:+ m
  | JE_Deserialization m => "deserialization error: " +:+ m
  | JE_Signing m => "signing error: " +:+ m
  | JE_Verification m => "verification error: " +:+ m
  | JE_InvalidFormat m => "invalid JWS format: " +:+ m
  | JE_Base64Error m => "base64 decode error: " +:+ m
  end.

Record JwsHeader := mkJwsHeader {
  hdr_alg : string;
  hdr_typ : option string;
  hdr_kid : option string;
  hdr_jwk : option Jwk;
  hdr_x5c : option (list string);
}.

#[export] Instance JwsHeader_eq_dec : EqDecision JwsHeader.
Proof. solve_decision. Defined.

(** [header.x5c = x5c] *)
Definition with_x5c (h : JwsHeader) (x5c : option (list string)) : JwsHeader :=
  mkJwsHeader (hdr_alg h) (hdr_typ h) (hdr_kid h) (hdr_jwk h) x5c.

(** The derived [Serialize] and [Deserialize] of the header. *)
Class HeaderSerde := {
  header_to_vec : JwsHeader -> bytes + string;
  header_from_slice : bytes -> JwsHeader + string;
}.

Class HeaderSerdeLaws (S : HeaderSerde) : Prop := {
  header_roundtrip h b : header_to_vec h = inl b -> Forall is_u8 b /\ header_from_slice b = inl h;
}.

Record DecodedJws := mkDecodedJws {
  dj_header : JwsHeader;
  dj_payload : bytes;
  dj_signature : bytes;
  dj_signing_input : string;
}.

(** The separator of the three parts. *)
Abbreviation dot := (chr 46) (only parsing).
Definition DOT : string := String dot EmptyString.

Section Jws.
Context `{Sha2} `{Base64Url} `{P256} `{Ed25519} `{HeaderSerde}.

Definition sign_compact (key : KeyPair) (header : JwsHeader) (payload : bytes + string)
    : res string JwsError :=
  let? header_json := map_err JE_Serialization (from_ext (header_to_vec header)) in
  let? payload_json := map_err JE_Serialization (from_ext payload) in
  let header_b64 := b64url_encode header_json in
  let payload_b64 := b64url_encode payload_json in
  let signing_input := header_b64 +:+ DOT +:+ payload_b64 in
  let? signature := map_err (fun e => JE_Signing (key_error_to_string e))
                      (kp_sign key (as_bytes signing_input)) in
  let signature_b64 := b64url_encode signature in
  Ok (header_b64 +:+ DOT +:+ payload_b64 +:+ DOT +:+ signature_b64).

Definition decode_compact (jws : string) : res DecodedJws JwsError :=
  match splitn 3 dot jws with
  | [p0; p1; p2] =>
      let? header_bytes := map_err JE_Base64Error (from_ext (b64url_decode p0)) in
      let? payload := map_err JE_Base64Error (from_ext (b64url_decode p1)) in
      let? signature := map_err JE_Base64Error (from_ext (b64url_decode p2)) in
      let? header := map_err JE_Deserialization (from_ext (header_from_slice header_bytes)) in
      Ok (mkDecodedJws header payload signature (p0 +:+ DOT +:+ p1))
  | _ => Err (JE_InvalidFormat "JWS must have exactly 3 dot-separated parts")
  end.

Definition verify_compact (jws : string) (key : KeyPair) : res DecodedJws JwsError :=
  let? decoded := decode_compact jws in
  let? _ := map_err (fun e => JE_Verification (key_error_to_string e))
    (kp_verify key (as_bytes (dj_signing_input decoded)) (dj_signature decoded)) in
  Ok decoded.

Definition verify_with_public_jwk (jws : string) (jwk : Jwk) : res DecodedJws JwsError :=
  let? decoded := decode_compact jws in
  let? expected := map_err (fun e => JE_Verification (key_error_to_string e)) (algorithm_for_jwk jwk) in
  fail? bool_decide (hdr_alg (dj_header decoded) <> alg_as_str expected) with
    JE_Verification ("alg '" +:+ hdr_alg (dj_header decoded) +:+ "' does not match the key ("
      +:+ alg_as_str expected +:+ ")");
  let? _ := map_err (fun e => JE_Verification (key_error_to_string e))
    (verify_with_jwk jwk (as_bytes (dj_signing_input decoded)) (dj_signature decoded)) in
  Ok decoded.

Definition build_header (key : KeyPair) (typ : option string) : JwsHeader :=
  mkJwsHeader (alg_as_str (kp_algorithm key)) typ (Some (kp_key_id key)) None None.

Definition build_header_with_jwk {E} (key : KeyPair) (typ : option string) : res JwsHeader E :=
  match kp_public_jwk key with
  | Ok jwk => Ok (mkJwsHeader (alg_as_str (kp_algorithm key)) typ None (Some jwk) None)
  | _ => Panic
  end.
End Jws.

(** Nothing a sender puts in a JWS makes its decoding or its verification from
    a JWK panic. *)
Section JwsTotal.
Context `{Base64Url} `{P256} `{Ed25519} `{HeaderSerde}.

Lemma decode_coordinate_np v n : decode_coordinate v n <> Panic.
Proof. unfold decode_coordinate. solve_np. Qed.

Lemma verify_with_jwk_np jwk m s : verify_with_jwk jwk m s <> Panic.
Proof.
  unfold verify_with_jwk, ed_signature_of.
  destruct (key_type jwk) as [[|]|]; repeat (apply np_bind; [|intros]); try apply decode_coordinate_np;
    solve_np; apply decode_coordinate_np.
Qed.

Lemma algorithm_for_jwk_np jwk : algorithm_for_jwk jwk <> Panic.
Proof. unfold algorithm_for_jwk. solve_np. Qed.

Lemma decode_compact_np jws : decode_compact jws <> Panic.
Proof. unfold decode_compact. solve_np. Qed.

Lemma verify_with_public_jwk_np jws jwk : verify_with_public_jwk jws jwk <> Panic.
Proof.
  unfold verify_with_public_jwk.
  pose proof decode_compact_np. pose proof algorithm_for_jwk_np. pose proof verify_with_jwk_np. solve_np.
Qed.
End JwsTotal.

#[export] Hint Resolve verify_with_jwk_np algorithm_for_jwk_np decode_compact_np
  verify_with_public_jwk_np : no_panic.

Section JwsFacts.
Context `{S2 : Sha2} `{B64 : Base64Url} `{BL : !Base64UrlLaws B64} `{C : P256} `{D : Ed25519}.
Context `{HS : HeaderSerde} `{HL : !HeaderSerdeLaws HS}.

Lemma b64_no_char c d :
  Forall is_u8 d -> b64url_char c = false -> has_char c (b64url_encode d) = false.
Proof.
  intros Hd Hc. pose proof (fun a => b64url_alphabet d a) as Ha. clear Hd.
  induction (b64url_encode d) as [|a s IH]; simpl in *; [done|].
  rewrite IH by auto. rewrite bool_decide_eq_false_2; [done|].
  intros ->. rewrite (Ha c (or_introl eq_refl)) in Hc. done.
Qed.

Lemma b64_decoded_no_char c s d :
  b64url_decode s = inl d -> b64url_char c = false -> has_char c s = false.
Proof.
  intros Hd Hc. pose proof (fun a => b64url_decode_alphabet s d a Hd) as Ha. clear Hd.
  induction s as [|a s IH]; simpl in *; [done|].
  rewrite IH by auto. rewrite bool_decide_eq_false_2; [done|].
  intros ->. rewrite (Ha c (or_introl eq_refl)) in Hc. done.
Qed.

(** The parts of a compact serialization. *)
Lemma decode_parts h p s hb header :
  Forall is_u8 h -> Forall is_u8 p -> Forall is_u8 s ->
  header_from_slice h = inl header -> hb = b64url_encode h ->
  decode_compact (hb +:+ DOT +:+ b64url_encode p +:+ DOT +:+ b64url_encode s)
  = Ok (mkDecodedJws header p s (hb +:+ DOT +:+ b64url_encode p)).
Proof.
  intros Hh Hp Hs Hhdr ->. unfold decode_compact.
  change (b64url_encode h +:+ DOT +:+ b64url_encode p +:+ DOT +:+ b64url_encode s)
    with (b64url_encode h +:+ String dot (b64url_encode p +:+ String dot (b64url_encode s))).
  rewrite splitn3_app by (apply b64_no_char; done).
  rewrite !b64url_roundtrip by done. simpl. by rewrite Hhdr.
Qed.

(** What [sign_compact] produced, decoded. *)
Lemma sign_decode `{KL : !KeyPairLaws key} header payload jws :
  Forall is_u8 payload ->
  sign_compact key header (inl payload) = Ok jws ->
  exists d, decode_compact jws = Ok d /\ dj_header d = header /\ dj_payload d = payload /\
    kp_verify key (as_bytes (dj_signing_input d)) (dj_signature d) = Ok tt /\
    Forall is_u8 (dj_signature d) /\
    exists hb, jws = hb +:+ DOT +:+ b64url_encode payload +:+ DOT +:+ b64url_encode (dj_signature d).
Proof.
  unfold sign_compact. intros Hp Ho. inv_ok. simplify_eq.
  match goal with H : header_to_vec _ = inl ?b |- _ =>
    destruct (header_roundtrip _ _ H) as [Hb Hr]; pose proof (decode_parts b) as Hdec end.
  match goal with H : kp_sign _ _ = Ok ?s |- _ =>
    pose proof (kp_sign_bytes _ _ H); pose proof (kp_sign_verify _ _ H) end.
  eexists. split; [by apply (Hdec _ _ _ header)|]. simpl. eauto 10.
Qed.

Lemma verify_decodes jws jwk d : verify_with_public_jwk jws jwk = Ok d -> decode_compact jws = Ok d.
Proof. unfold verify_with_public_jwk. intros Ho. inv_ok. by simplify_eq. Qed.

(** Signing then verifying, with the key pair or with its public JWK alone,
    gives back the header and the payload; for the JWK the header must name
    the key's algorithm, as [build_header] and [build_header_with_jwk] do. *)
Theorem jws_sign_verify `{KL : !KeyPairLaws key} header payload jws jwk :
  Forall is_u8 payload ->
  sign_compact key header (inl payload) = Ok jws ->
  kp_public_jwk key = Ok jwk -> hdr_alg header = alg_as_str (kp_algorithm key) ->
  exists d, verify_compact jws key = Ok d /\ verify_with_public_jwk jws jwk = Ok d /\
    dj_header d = header /\ dj_payload d = payload.
Proof.
  intros Hp Hs Hj Ha. destruct (sign_decode header payload jws Hp Hs) as (d & Hd & Hh & Hpd & Hv & _).
  exists d. destruct kp_jwk as (j & Hj' & _ & _ & _ & Halg & Hver).
  assert (j = jwk) as -> by congruence.
  unfold verify_compact, verify_with_public_jwk. rewrite Hd. simpl. rewrite Halg, Hver, Hv. simpl.
  rewrite bool_decide_eq_false_2 by (rewrite Hh, Ha; auto). done.
Qed.

(** Verification from a JWK accepts exactly the strings that are three
    base64url parts, whose header names the algorithm of the key's type (so
    neither the sender nor the value [none] chooses it), and whose third part
    is a signature of the key over the first two as they were sent. *)
Theorem verify_with_public_jwk_exact jws jwk d :
  verify_with_public_jwk jws jwk = Ok d <->
  exists p0 p1 p2 hb a,
    jws = p0 +:+ DOT +:+ p1 +:+ DOT +:+ p2 /\
    b64url_decode p0 = inl hb /\ header_from_slice hb = inl (dj_header d) /\
    b64url_decode p1 = inl (dj_payload d) /\ b64url_decode p2 = inl (dj_signature d) /\
    dj_signing_input d = p0 +:+ DOT +:+ p1 /\
    key_type jwk = Some a /\ hdr_alg (dj_header d) = alg_as_str a /\
    verify_with_jwk jwk (as_bytes (p0 +:+ DOT +:+ p1)) (dj_signature d) = Ok tt.
Proof.
  unfold verify_with_public_jwk, algorithm_for_jwk, decode_compact. split.
  - intros Ho. inv_ok. b2p.
    destruct (splitn 3 dot jws) as [|p0 [|p1 [|p2 [|]]]] eqn:Hsp; try discriminate Ho0.
    apply splitn3_inv in Hsp as (-> & _ & _). inv_ok. simpl in *.
    destruct (key_type jwk) as [alg|] eqn:Hk; [|discriminate]. inv_ok.
    match goal with H : ~ (_ <> _) |- _ => apply dec_stable in H end.
    match goal with u : () |- _ => destruct u end.
    do 5 eexists. eauto 15.
  - intros (p0 & p1 & p2 & hb & a & -> & H0 & Hh & H1 & H2 & Hsi & Hk & Ha & Hv).
    change (p0 +:+ DOT +:+ p1 +:+ DOT +:+ p2) with (p0 +:+ String dot (p1 +:+ String dot p2)).
    rewrite splitn3_app by (by eapply b64_decoded_no_char).
    rewrite H0, H1, H2. simpl. rewrite Hh. simpl. rewrite Hk. simpl.
    rewrite bool_decide_eq_false_2 by auto. rewrite Hv. simpl.
    destruct d. simpl in *. by subst.
Qed.
End JwsFacts.

(** ** A concrete run *)
Module JwsDemo.
Import Toy ToyCurves ToyCodec.

(** Headers are printed through a JSON value. *)
Definition opt_value (o : option string) : Value := from_option VString VNull o.
Definition opt_of (v : Value) : option string := as_str v.

Definition jwk_value (k : Jwk) : Value :=
  VArray [VString (jwk_kty k); opt_value (jwk_crv k); opt_value (jwk_x k); opt_value (jwk_y k);
    opt_value (jwk_d k); opt_value (jwk_alg k); opt_value (jwk_kid k); opt_value (jwk_use k)].
Definition jwk_of (v : Value) : option Jwk :=
  match v with
  | VArray [VString a; b; c; d; e; f; g; h] =>
      Some (mkJwk a (opt_of b) (opt_of c) (opt_of d) (opt_of e) (opt_of f) (opt_of g) (opt_of h))
  | _ => None
  end.

Definition strings_value (o : option (list string)) : Value :=
  from_option (fun l => VArray (map VString l)) VNull o.
Definition strings_of_value (v : Value) : option (list string) := as_array v ≫= mapM as_str.

Definition header_value (h : JwsHeader) : Value :=
  VArray [VString (hdr_alg h); opt_value (hdr_typ h); opt_value (hdr_kid h);
    from_option jwk_value VNull (hdr_jwk h); strings_value (hdr_x5c h)].
Definition header_of (v : Value) : option JwsHeader :=
  match v with
  | VArray [VString a; b; c; d; e] =>
      Some (mkJwsHeader a (opt_of b) (opt_of c) (jwk_of d) (strings_of_value e))
  | _ => None
  end.

Lemma strings_of_strings l : mapM as_str (map VString l) = Some l.
Proof. induction l as [|a l IH]; simpl; [done|]. by rewrite IH. Qed.

#[export] Instance header_countable : Countable JwsHeader.
Proof.
  apply (inj_countable header_value header_of).
  intros [a b c d e]. unfold header_value, header_of. simpl. f_equal.
  f_equal; [by destruct b|by destruct c| |destruct e; [apply strings_of_strings|done]].
  destruct d as [[k ? ? ? ? ? ? ?]|]; [|done]. unfold jwk_value. simpl.
  by repeat match goal with o : option string |- _ => destruct o end.
Defined.

#[export] Instance header_serde : HeaderSerde :=
  {| header_to_vec := to_vec; header_from_slice := from_slice |}.

#[export] Instance header_laws : HeaderSerdeLaws header_serde.
Proof. split. intros h b Hb. by apply codec_roundtrip. Qed.

Definition header : JwsHeader := build_header (ec_key_pair ec1) (Some "JWT"%string).
Definition jws : string := unwrap_or EmptyString (sign_compact (ec_key_pair ec1) header (inl [1; 2; 3])).

Lemma jws_sign_verify_witness :
  exists d, verify_compact jws (ec_key_pair ec1) = Ok d /\ verify_with_public_jwk jws ec1_jwk = Ok d /\
    dj_header d = header /\ dj_payload d = [1; 2; 3].
Proof.
  apply (jws_sign_verify (key := ec_key_pair ec1) header [1; 2; 3] jws ec1_jwk).
  - repeat constructor; unfold is_u8; lia.
  - vm_compute. reflexivity.
  - vm_compute. reflexivity.
  - reflexivity.
Defined.

Definition decoded : DecodedJws :=
  unwrap_or (mkDecodedJws header [] [] EmptyString) (decode_compact jws).

Lemma verify_with_public_jwk_exact_witness :
  exists p0 p1 p2 hb a,
    jws = p0 +:+ DOT +:+ p1 +:+ DOT +:+ p2 /\
    b64url_decode p0 = inl hb /\ header_from_slice hb = inl (dj_header decoded) /\
    b64url_decode p1 = inl (dj_payload decoded) /\ b64url_decode p2 = inl (dj_signature decoded) /\
    dj_signing_input decoded = p0 +:+ DOT +:+ p1 /\
    key_type ec1_jwk = Some a /\ hdr_alg (dj_header decoded) = alg_as_str a /\
    verify_with_jwk ec1_jwk (as_bytes (p0 +:+ DOT +:+ p1)) (dj_signature decoded) = Ok tt.
Proof. apply (verify_with_public_jwk_exact jws ec1_jwk decoded). vm_compute. reflexivity. Defined.
End JwsDemo.
