(* ===== verification/Credentials.v ===== *)
(** * Credential formats

    crates/types/src/credentials.rs: the format identifiers, the compact form
    of an SD-JWT VC with its parser, and the containers of the other formats. *)
From S2P Require Import Prelude Externals Strings.

Inductive CredentialFormat := CF_SdJwtVc | CF_Mdoc | CF_JwtVc.

Definition format_as_str (f : CredentialFormat) : string :=
  match f with
  | CF_SdJwtVc => "dc+sd-jwt"
  | CF_Mdoc => "mso_mdoc"
  | CF_JwtVc => "jwt_vc_json"
  end.

Record MdocCredential := mkMdocCredential {
  mc_doc_type : string;
  mc_issuer_signed : bytes;
  mc_device_signed : option bytes;
}.

Record JwtVc := mkJwtVc { jv_jwt : string }.

(** The base64url form of a byte field, and of an optional one. *)
Section BytesSerde.
Context `{Base64Url}.
Definition bytes_serialize (b : bytes) : string := b64url_encode b.
Definition bytes_deserialize (s : string) : res bytes string := from_ext (b64url_decode s).
Definition option_bytes_serialize (b : option bytes) : option string := b64url_encode <$> b.
Definition option_bytes_deserialize (s : option string) : res (option bytes) string :=
  match s with
  | Some s => res_map Some (from_ext (b64url_decode s))
  | None => Ok None
  end.
End BytesSerde.

(** ** SD-JWT VC *)
Record SdJwtVc := mkSdJwtVc {
  issuer_jwt : string;
  disclosures : list string;
  key_binding_jwt : option string;
}.

Inductive SdJwtParseError := SPE_Empty | SPE_MissingIssuerJwt.

Definition parse_error_to_string (e : SdJwtParseError) : string :=
  match e with
  | SPE_Empty => "input is empty"
  | SPE_MissingIssuerJwt => "missing issuer JWT"
  end.

Abbreviation tilde := (chr 126) (only parsing).
Definition TILDE : string := String tilde EmptyString.

(** The loop over the parts after the issuer JWT. *)
Fixpoint parse_parts (parts : list string) : list string * option string :=
  match parts with
  | [] => ([], None)
  | part :: rest =>
      let '(ds, kb) := parse_parts rest in
      if bool_decide (part = EmptyString) then (ds, kb)
      else if bool_decide (rest = []) && (count_char (chr 46) part =? 2) then (ds, Some part)
      else (part :: ds, kb)
  end.

Definition parse (compact : string) : res SdJwtVc SdJwtParseError :=
  match split tilde compact with
  | [] => Err SPE_Empty
  | jwt :: rest =>
      fail? bool_decide (jwt = EmptyString) with SPE_MissingIssuerJwt;
      let '(ds, kb) := parse_parts rest in
      Ok (mkSdJwtVc jwt ds kb)
  end.

Definition to_compact (c : SdJwtVc) : string :=
  join TILDE (issuer_jwt c :: disclosures c ++ [default EmptyString (key_binding_jwt c)]).

(** What a serialized credential must not contain. *)
Definition part_ok (p : string) : Prop := p <> EmptyString /\ has_char tilde p = false.

Record compact_ok (c : SdJwtVc) : Prop := {
  co_jwt : part_ok (issuer_jwt c);
  co_disclosures : Forall part_ok (disclosures c);
  co_kb k : key_binding_jwt c = Some k -> has_char tilde k = false /\ count_char (chr 46) k = 2;
}.

Lemma parse_parts_app ds last kb :
  Forall part_ok ds -> last <> [] -> parse_parts last = ([], kb) ->
  parse_parts (ds ++ last) = (ds, kb).
Proof.
  intros Hds Hl Hp. induction Hds as [|d ds [Hne _] _ IH]; simpl; [done|]. rewrite IH.
  rewrite bool_decide_eq_false_2 by done.
  rewrite (bool_decide_eq_false_2 (ds ++ last = [])); [done|].
  intros [_ ->]%app_nil. done.
Qed.

Lemma parse_no_panic s : parse s = Err SPE_MissingIssuerJwt \/ exists c, parse s = Ok c.
Proof.
  unfold parse. pose proof (split_nonempty tilde s). destruct (split tilde s) as [|j rest]; [done|].
  case_bool_decide; [by left|]. destruct (parse_parts rest). right. eauto.
Qed.

Lemma parse_compact_parts j ds tail :
  part_ok j -> Forall part_ok ds -> has_char tilde tail = false ->
  parse (join TILDE (j :: ds ++ [tail])) =
    Ok (if bool_decide (tail = EmptyString) then mkSdJwtVc j ds None
        else if count_char (chr 46) tail =? 2 then mkSdJwtVc j ds (Some tail)
        else mkSdJwtVc j (ds ++ [tail]) None).
Proof.
  intros [Hj1 Hj2] Hds Ht. unfold parse, TILDE. rewrite split_join; [|done|].
  2:{ constructor; [done|]. apply Forall_app. split; [|by constructor].
      eapply Forall_impl; [exact Hds|]. by intros ? []. }
  rewrite bool_decide_eq_false_2 by done.
  destruct (decide (tail = EmptyString)) as [->|Hne].
  - rewrite bool_decide_eq_true_2 by done. by rewrite (parse_parts_app ds [EmptyString] None).
  - rewrite (bool_decide_eq_false_2 (tail = EmptyString)) by done.
    destruct (count_char (chr 46) tail =? 2) eqn:E.
    + rewrite (parse_parts_app ds [tail] (Some tail)); [done..|]. cbn [parse_parts].
      rewrite bool_decide_eq_false_2 by done. by rewrite E.
    + assert (parse_parts (ds ++ [tail]) = (ds ++ [tail], None)) as ->; [|done].
      clear -Hds Hne E. induction Hds as [|d ds [? _] _ IH]; cbn [parse_parts app].
      * rewrite bool_decide_eq_false_2 by done. by rewrite E.
      * rewrite IH. rewrite bool_decide_eq_false_2 by done.
        rewrite (bool_decide_eq_false_2 (ds ++ [tail] = [])); [done|]. by intros [_ ?]%app_nil.
Qed.

(** Parsing what was serialized: a credential whose issuer JWT and disclosures
    are not empty, whose parts hold no tilde, and whose key binding JWT, if
    any, has the three parts of a JWT, is read back as it was. *)
Theorem sd_jwt_roundtrip c : compact_ok c -> parse (to_compact c) = Ok c.
Proof.
  intros [Hj Hds Hkb]. unfold to_compact. destruct c as [j ds kb]. cbn [issuer_jwt disclosures key_binding_jwt] in *.
  rewrite parse_compact_parts; [|done..|].
  - destruct kb as [k|]; [|done]. change (default EmptyString (Some k)) with k.
    destruct (Hkb k eq_refl) as [_ Hc].
    rewrite bool_decide_eq_false_2 by (intros ->; discriminate Hc). by rewrite Hc.
  - destruct kb as [k|]; [|done]. by destruct (Hkb k eq_refl).
Qed.

Lemma sd_jwt_roundtrip_witness :
  parse (to_compact (mkSdJwtVc "a.b.c" ["d1"; "d2"] (Some "k.b.j")))%string
  = Ok (mkSdJwtVc "a.b.c" ["d1"; "d2"] (Some "k.b.j"))%string.
Proof.
  apply sd_jwt_roundtrip. split; simpl.
  - by split.
  - by repeat constructor.
  - by intros k [= <-].
Defined.

(** The error [Empty] is never reported: the empty input has an empty issuer
    JWT. *)
Theorem parse_never_empty s : parse s <> Err SPE_Empty /\ parse EmptyString = Err SPE_MissingIssuerJwt.
Proof. split; [|done]. destruct (parse_no_panic s) as [->|[c ->]]; done. Qed.
