(* ===== verification/SdJwt.v ===== *)
(** * SD-JWT VC issuance and verification

    crates/crypto/src/sd_jwt.rs: disclosures, issuance with selectively
    disclosable claims, verification of a presentation, and the key binding
    JWT. *)
From S2P Require Import Prelude Externals Strings Json Effects.
From S2P Require Import Keys Jws Credentials.

Inductive SdJwtError :=
| SJ_Serialization (msg : string)
| SJ_Signing (msg : string)
| SJ_InvalidDisclosure (msg : string)
| SJ_Verification (msg : string)
| SJ_MissingClaim (msg : string)
| SJ_KeyBinding (msg : string).

Definition sd_jwt_error_to_string (e : SdJwtError) : string :=
  match e with
  | SJ_Serialization m => "serialization error: " +:+ m
  | SJ_Signing m => "signing error: " +:+ m
  | SJ_InvalidDisclosure m => "invalid disclosure: " +:+ m
  | SJ_Verification m => "verification error: " +:+ m
  | SJ_MissingClaim m => "missing required claim: " +:+ m
  | SJ_KeyBinding m => "key binding error: " +:+ m
  end.

Record Disclosure := mkDisclosure {
  di_salt : string;
  di_claim_name : string;
  di_claim_value : Value;
  di_encoded : string;
  di_hash : string;
}.

Record SdJwtVcClaims := mkSdJwtVcClaims {
  sc_iss : string;
  sc_sub : option string;
  sc_iat : Z;
  sc_exp : option Z;
  sc_nbf : option Z;
  sc_vct : string;
  sc_sd : list string;
  sc_sd_alg : option string;
  sc_cnf : option Value;
  sc_status : option Value;
  sc_plain_claims : gmap string Value;
}.

(** The JSON object the derived [Serialize] writes, as a parser reads it: the
    struct's members in order, absent ones left out, then the flattened plain
    claims, a repeated member overwriting the earlier one. *)
Definition opt_member {A} (name : string) (f : A -> Value) (o : option A) : list (string * Value) :=
  match o with Some a => [(name, f a)] | None => [] end.

Definition VInt (z : Z) : Value := VNumber (NInt z).

Definition claims_members (c : SdJwtVcClaims) : list (string * Value) :=
  [("iss"%string, VString (sc_iss c))] ++
  opt_member "sub" VString (sc_sub c) ++
  [("iat"%string, VInt (sc_iat c))] ++
  opt_member "exp" VInt (sc_exp c) ++
  opt_member "nbf" VInt (sc_nbf c) ++
  [("vct"%string, VString (sc_vct c))] ++
  (if bool_decide (sc_sd c = []) then [] else [("_sd"%string, VArray (map VString (sc_sd c)))]) ++
  opt_member "_sd_alg" VString (sc_sd_alg c) ++
  opt_member "cnf" id (sc_cnf c) ++
  opt_member "status" id (sc_status c) ++
  map_to_list (sc_plain_claims c).

Definition claims_value (c : SdJwtVcClaims) : Value := json_obj (claims_members c).

(** The derived serialization of the claims and the deserialization of a JWK. *)
Class ClaimsSerde := {
  claims_to_vec : SdJwtVcClaims -> bytes + string;
  jwk_from_value : Value -> Jwk + string;
}.

Class ClaimsSerdeLaws (S : ClaimsSerde) (J : SerdeJson) : Prop := {
  claims_roundtrip c b : claims_to_vec c = inl b -> fits 127 (claims_value c) = true ->
    Forall is_u8 b /\ value_from_slice b = inl (claims_value c);
}.

Definition DAY_SECS : Z := 86400.

Record VerifiedSdJwtVc := mkVerifiedSdJwtVc {
  vs_claims : gmap string Value;
  vs_payload : Value;
}.

(** [serde_json::from_value::<Vec<String>>(v).ok()] *)
Definition strings_of (v : Value) : option (list string) := as_array v ≫= mapM as_str.

(** The payload members that are not reported as claims. *)
Definition reserved (key : string) : bool :=
  starts_with "_" key
  || bool_decide (key ∈ ["iss"; "iat"; "exp"; "nbf"; "vct"; "cnf"; "status"]%string).

Section SdJwt.
Context `{Sha2} `{Base64Url} `{P256} `{Ed25519} `{HeaderSerde} `{SerdeJson} `{ClaimsSerde} `{Chrono}.
Context {F : Type -> Type} `{Sub SysE F}.

Definition hash_of (encoded : string) : string := b64url_encode (sha256 (as_bytes encoded)).

(** [Disclosure::new] *)
Definition disclosure_new {E} (claim_name : string) (claim_value : Value)
    : prog F (res Disclosure E) :=
  do salt_bytes <- random_bytes 16;
  let salt := b64url_encode salt_bytes in
  do? disclosure_json <- Ret (unwrap (from_ext
    (value_to_vec (VArray [VString salt; VString claim_name; claim_value]))));
  let encoded := b64url_encode disclosure_json in
  Ret (Ok (mkDisclosure salt claim_name claim_value encoded (hash_of encoded))).

(** [Disclosure::from_encoded] *)
Definition from_encoded (encoded : string) : res Disclosure SdJwtError :=
  let? b := map_err SJ_InvalidDisclosure (from_ext (b64url_decode encoded)) in
  let? v := map_err SJ_InvalidDisclosure (from_ext (value_from_slice b)) in
  let? array := ok_or (as_array v) (SJ_InvalidDisclosure (type_error "a sequence" v)) in
  match array with
  | [a0; a1; a2] =>
      let? salt := ok_or (as_str a0) (SJ_InvalidDisclosure "salt must be a string") in
      let? claim_name := ok_or (as_str a1) (SJ_InvalidDisclosure "claim name must be a string") in
      Ok (mkDisclosure salt claim_name a2 encoded (hash_of encoded))
  | _ => Err (SJ_InvalidDisclosure "disclosure must have exactly 3 elements")
  end.

(** The disclosures of the claims, in the order their map is iterated. *)
Fixpoint make_disclosures {E} (entries : list (string * Value)) : prog F (res (list Disclosure) E) :=
  match entries with
  | [] => Ret (Ok [])
  | (name, value) :: entries' =>
      do? disclosure <- disclosure_new name value;
      do? disclosures <- make_disclosures entries';
      Ret (Ok (disclosure :: disclosures))
  end.

(** The claims of a credential issued at a Unix time. *)
Definition issued_claims (issuer_url vct : string) (plain_claims : gmap string Value)
    (sd_hashes : list string) (holder_jwk status : option Value) (now : Z) : SdJwtVcClaims :=
  let issued := now - now mod DAY_SECS in {|
    sc_iss := issuer_url; sc_sub := None; sc_iat := issued;
    sc_exp := Some (issued + DAY_SECS * 365); sc_nbf := Some issued; sc_vct := vct;
    sc_sd := sd_hashes; sc_sd_alg := Some "sha-256"%string; sc_cnf := holder_jwk;
    sc_status := status; sc_plain_claims := plain_claims |}.

(** [disclosable_claims]: the entries of the map in the order it is iterated. *)
Definition issue_sd_jwt_vc_with_x5c (issuer_key : KeyPair) (issuer_url vct : string)
    (plain_claims : gmap string Value) (disclosable_claims : list (string * Value))
    (holder_jwk status : option Value) (x5c : option (list string))
    : prog F (res (string * list Disclosure) SdJwtError) :=
  do? disclosures <- make_disclosures disclosable_claims;
  do t <- utc_now;
  let claims := issued_claims issuer_url vct plain_claims (map di_hash disclosures)
                  holder_jwk status (timestamp t) in
  let header := with_x5c (build_header issuer_key (Some "dc+sd-jwt"%string)) x5c in
  do? issuer_jwt <- Ret (map_err (fun e => SJ_Signing (jws_error_to_string e))
    (sign_compact issuer_key header (claims_to_vec claims)));
  Ret (Ok (join TILDE (issuer_jwt :: map di_encoded disclosures ++ [EmptyString]), disclosures)).

Definition issue_sd_jwt_vc (issuer_key : KeyPair) (issuer_url vct : string)
    (plain_claims : gmap string Value) (disclosable_claims : list (string * Value))
    (holder_jwk status : option Value) : prog F (res (string * list Disclosure) SdJwtError) :=
  issue_sd_jwt_vc_with_x5c issuer_key issuer_url vct plain_claims disclosable_claims
    holder_jwk status None.

(** *** Verification *)

(** The validity window at a Unix time. *)
Definition check_window (payload : Value) (now : Z) : res unit SdJwtError :=
  fail? match get_i64 payload "exp" with Some exp => exp <=? now | None => false end with
    SJ_Verification "credential has expired";
  fail? match get_i64 payload "nbf" with Some nbf => now <? nbf | None => false end with
    SJ_Verification "credential is not yet valid";
  Ok tt.

(** The loop over the presented disclosures. *)
Fixpoint check_disclosures (encoded : list string) (sd_array : list string) (seen_hashes : gset string)
    (disclosed_claims : gmap string Value) : res (gmap string Value) SdJwtError :=
  match encoded with
  | [] => Ok disclosed_claims
  | disclosure_str :: encoded' =>
      let? disclosure := from_encoded disclosure_str in
      fail? bool_decide (di_hash disclosure ∈ seen_hashes) with
        SJ_Verification "duplicate disclosure detected";
      fail? bool_decide (di_hash disclosure ∉ sd_array) with
        SJ_Verification ("disclosure hash not found in _sd array for claim '"
          +:+ di_claim_name disclosure +:+ "'");
      check_disclosures encoded' sd_array ({[di_hash disclosure]} ∪ seen_hashes)
        (<[di_claim_name disclosure := di_claim_value disclosure]> disclosed_claims)
  end.

(** The plain claims of the payload, over the disclosed ones. *)
Definition merge_plain (payload : Value) (disclosed_claims : gmap string Value) : gmap string Value :=
  match payload with
  | VObject m => fold_left (fun acc kv => if reserved kv.1 then acc else <[kv.1 := kv.2]> acc) m
                   disclosed_claims
  | _ => disclosed_claims
  end.

Definition sd_array_of (payload : Value) : list string :=
  default [] (get payload "_sd" ≫= strings_of).

(** What is checked once the time is known. *)
Definition verify_payload (parsed : SdJwtVc) (payload : Value) (now : Z)
    : res VerifiedSdJwtVc SdJwtError :=
  let? _ := check_window payload now in
  let? disclosed := check_disclosures (disclosures parsed) (sd_array_of payload) ∅ ∅ in
  Ok (mkVerifiedSdJwtVc (merge_plain payload disclosed) payload).

(** What is checked before. *)
Definition verify_issuer (sd_jwt : string) (issuer_key : KeyPair)
    : res (SdJwtVc * Value) SdJwtError :=
  let? parsed := map_err (fun e => SJ_Verification (parse_error_to_string e)) (parse sd_jwt) in
  let? decoded := map_err (fun e => SJ_Verification (jws_error_to_string e))
    (verify_compact (issuer_jwt parsed) issuer_key) in
  let? payload := map_err SJ_Verification (from_ext (value_from_slice (dj_payload decoded))) in
  Ok (parsed, payload).

Definition verify_sd_jwt_vc (sd_jwt : string) (issuer_key : KeyPair)
    : prog F (res VerifiedSdJwtVc SdJwtError) :=
  do? ' (parsed, payload) <- Ret (verify_issuer sd_jwt issuer_key);
  do t <- utc_now;
  Ret (verify_payload parsed payload (timestamp t)).

Definition holder_jwk (v : VerifiedSdJwtVc) : option Jwk :=
  get (vs_payload v) "cnf" ≫= fun cnf => get cnf "jwk" ≫= fun jwk =>
  match jwk_from_value jwk with inl k => Some k | inr _ => None end.

Definition verified_vct (v : VerifiedSdJwtVc) : option string := get_str (vs_payload v) "vct".

(** *** Key binding *)
Definition compute_sd_hash (presentation_without_kb : string) : string :=
  let base := default presentation_without_kb (up_to_last tilde presentation_without_kb) in
  b64url_encode (sha256 (as_bytes base)).

(** A string member of the KB-JWT that must have the expected value. *)
Definition kb_member (payload : Value) (name expected mismatch : string) : res unit SdJwtError :=
  match get_str payload name with
  | Some v => if bool_decide (v = expected) then Ok tt else Err (SJ_KeyBinding mismatch)
  | None => Err (SJ_KeyBinding ("key binding JWT is missing '" +:+ name +:+ "'"))
  end.

Definition verify_key_binding (presentation : string) (holder : Jwk)
    (expected_nonce expected_audience : string) : res unit SdJwtError :=
  let? parsed := map_err (fun e => SJ_KeyBinding (parse_error_to_string e)) (parse presentation) in
  let? kb_jwt := ok_or (key_binding_jwt parsed)
    (SJ_KeyBinding "presentation is missing the key binding JWT") in
  let? decoded := map_err (fun e => SJ_KeyBinding (jws_error_to_string e)) (decode_compact kb_jwt) in
  let? expected_alg := map_err (fun e => SJ_KeyBinding (key_error_to_string e))
    (algorithm_for_jwk holder) in
  fail? bool_decide (hdr_alg (dj_header decoded) <> alg_as_str expected_alg) with
    SJ_KeyBinding ("key binding JWT alg '" +:+ hdr_alg (dj_header decoded)
      +:+ "' does not match the confirmation key (" +:+ alg_as_str expected_alg +:+ ")");
  fail? bool_decide (hdr_typ (dj_header decoded) <> Some "kb+jwt"%string) with
    SJ_KeyBinding "key binding JWT must have typ 'kb+jwt'";
  let? _ := map_err (fun e => SJ_KeyBinding ("key binding signature invalid: " +:+ key_error_to_string e))
    (verify_with_jwk holder (as_bytes (dj_signing_input decoded)) (dj_signature decoded)) in
  let? payload := map_err SJ_KeyBinding (from_ext (value_from_slice (dj_payload decoded))) in
  let? _ := kb_member payload "nonce" expected_nonce "nonce mismatch" in
  let? _ := kb_member payload "aud" expected_audience "audience mismatch" in
  let? presentation_without_kb := ok_or (strip_suffix kb_jwt presentation)
    (SJ_KeyBinding "malformed presentation") in
  kb_member payload "sd_hash" (compute_sd_hash presentation_without_kb)
    "sd_hash does not cover the presented disclosures".

Definition create_key_binding_jwt (holder_key : KeyPair) (nonce audience sd_jwt_hash : string)
    : prog F (res string SdJwtError) :=
  do? header <- Ret (build_header_with_jwk holder_key (Some "kb+jwt"%string));
  do t <- utc_now;
  let payload := json_obj [("nonce"%string, VString nonce); ("aud"%string, VString audience);
    ("iat"%string, VInt (timestamp t)); ("sd_hash"%string, VString sd_jwt_hash)] in
  Ret (map_err (fun e => SJ_Signing (jws_error_to_string e))
    (sign_compact holder_key header (value_to_vec payload))).

End SdJwt.

(** ** Verification is sound *)
Section VerifyFacts.
Context `{Sha2} `{Base64Url} `{P256} `{Ed25519} `{HeaderSerde} `{SerdeJson}.

Lemma check_window_Ok payload now :
  check_window payload now = Ok tt <->
  (forall exp, get_i64 payload "exp" = Some exp -> now < exp) /\
  (forall nbf, get_i64 payload "nbf" = Some nbf -> nbf <= now).
Proof.
  unfold check_window. split.
  - intros Ho. inv_ok. split; intros z Hz; rewrite Hz in *; b2p; lia.
  - intros [He Hn].
    destruct (get_i64 payload "exp") as [exp|];
      [rewrite (proj2 (Z.leb_gt exp now)) by auto|];
      (destruct (get_i64 payload "nbf") as [nbf|]; [rewrite (proj2 (Z.ltb_ge now nbf)) by auto|]); done.
Qed.

(** The claims a list of encoded disclosures stands for, later ones over
    earlier ones; [None] when one does not decode. *)
Fixpoint decode_all (encoded : list string) : option (list Disclosure) :=
  match encoded with
  | [] => Some []
  | e :: encoded' =>
      match from_encoded e, decode_all encoded' with Ok d, Some ds => Some (d :: ds) | _, _ => None end
  end.

Definition claims_of (ds : list Disclosure) (acc : gmap string Value) : gmap string Value :=
  fold_left (fun m d => <[di_claim_name d := di_claim_value d]> m) ds acc.

Lemma check_disclosures_Ok encoded sd seen acc claims :
  check_disclosures encoded sd seen acc = Ok claims <->
  exists ds, decode_all encoded = Some ds /\
    Forall (fun d => di_hash d ∈ sd /\ di_hash d ∉ seen) ds /\ NoDup (map di_hash ds) /\
    claims = claims_of ds acc.
Proof.
  revert seen acc claims. induction encoded as [|e encoded IH]; intros seen acc claims; simpl.
  - split; [intros [= <-]; exists []; repeat split; constructor|]. intros (ds & [= <-] & _ & _ & ->). done.
  - split.
    + intros Ho. inv_ok. b2p.
      match goal with Hf : from_encoded e = Ok ?d |- _ => rename d into disc; rename Hf into Hdisc end.
      rewrite Hdisc. apply IH in Ho as (ds & Hds & Hf & Hn & ->). rewrite Hds.
      exists (disc :: ds). split; [done|]. split; [|split; [|done]].
      * constructor; [split; [by apply dec_stable|done]|]. eapply Forall_impl; [exact Hf|].
        simpl. set_solver.
      * simpl. constructor; [|done]. intros (d & Hd & Hin)%list_elem_of_fmap.
        rewrite list.Forall_forall in Hf. destruct (Hf d Hin). set_solver.
    + intros (ds & Hds & Hf & Hn & ->).
      destruct (from_encoded e) as [d| |] eqn:He; [|done|done].
      destruct (decode_all encoded) as [ds'|] eqn:Hd; [|done]. injection Hds as <-.
      apply Forall_cons in Hf as [[Hin Hns] Hf]. simpl in Hn. apply NoDup_cons in Hn as [Hnd Hn].
      simpl. rewrite !bool_decide_eq_false_2 by naive_solver. apply IH. exists ds'.
      split; [done|]. split; [|done]. rewrite list.Forall_forall in *. intros d' Hd'.
      destruct (Hf d' Hd'). split; [done|]. apply not_elem_of_union. split; [|done].
      intros Heq%elem_of_singleton. apply Hnd. rewrite <- Heq. apply list_elem_of_fmap. eauto.
Qed.

Lemma decode_all_Forall2 encoded ds :
  decode_all encoded = Some ds <-> Forall2 (fun e d => from_encoded e = Ok d) encoded ds.
Proof.
  revert ds. induction encoded as [|e encoded IH]; intros ds; simpl.
  - split; [intros [= <-]; constructor|]. by intros ->%Forall2_nil_inv_l.
  - split.
    + destruct (from_encoded e) as [d| |] eqn:He; [|done|done].
      destruct (decode_all encoded) as [ds'|]; [|done]. intros [= <-]. constructor; [done|].
      by apply IH.
    + intros (d & ds' & Hd & Hf & ->)%Forall2_cons_inv_l. apply IH in Hf. by rewrite Hd, Hf.
Qed.

Lemma claims_of_lookup ds acc k v :
  claims_of ds acc !! k = Some v ->
  (exists d, d ∈ ds /\ di_claim_name d = k /\ di_claim_value d = v) \/ acc !! k = Some v.
Proof.
  unfold claims_of. revert acc. induction ds as [|d ds IH]; simpl; intros acc Hk; [by right|].
  apply IH in Hk as [(d' & ? & ?)|Hk].
  - left. exists d'. split; [by right|done].
  - apply lookup_insert_Some in Hk as [[? ?]|[_ ?]]; [|by right].
    left. exists d. split; [left|done].
Qed.

Lemma merge_plain_lookup m disclosed k v :
  merge_plain (VObject m) disclosed !! k = Some v ->
  ((k, v) ∈ m /\ reserved k = false) \/ disclosed !! k = Some v.
Proof.
  simpl. revert disclosed. induction m as [|[k' v'] m IH]; simpl; intros acc Hk; [by right|].
  apply IH in Hk as [[? ?]|Hk]; [left; split; [by right|done]|].
  destruct (reserved k') eqn:E; [by right|].
  apply lookup_insert_Some in Hk as [[-> ->]|[_ ?]]; [|by right].
  left. split; [left|done].
Qed.

(** With distinct members, a plain claim wins over a disclosed one. *)
Lemma merge_plain_get m disclosed k :
  NoDup m.*1 ->
  merge_plain (VObject m) disclosed !! k =
    if reserved k then disclosed !! k
    else match obj_get m k with Some v => Some v | None => disclosed !! k end.
Proof.
  simpl. revert disclosed. induction m as [|[k' v'] m IH]; simpl; intros acc.
  - by destruct (reserved k).
  - intros [Hn Hd]%NoDup_cons. rewrite IH by done. destruct (reserved k') eqn:E.
    + destruct (reserved k) eqn:Ek; [done|]. rewrite bool_decide_eq_false_2 by congruence. done.
    + destruct (reserved k) eqn:Ek.
      * rewrite lookup_insert_ne by congruence. done.
      * case_bool_decide as Hk.
        -- subst. rewrite obj_get_None by done. by rewrite lookup_insert_eq.
        -- rewrite lookup_insert_ne by done. done.
Qed.

Context `{Chrono} {E : Type -> Type} {S : Type} (op : backend E S).

Lemma verify_sd_jwt_vc_run sd_jwt key w :
  run (world_handler op) (verify_sd_jwt_vc sd_jwt key) w =
    match verify_issuer sd_jwt key with
    | Ok (parsed, payload) =>
        (verify_payload parsed payload (timestamp (clock (sys w) (ticks (sys w)))),
         mkWorld (read_clock (sys w)).2 (store w))
    | Err e => (Err e, w)
    | Panic => (Panic, w)
    end.
Proof.
  unfold verify_sd_jwt_vc. rewrite run_bind_res. simpl.
  by destruct (verify_issuer sd_jwt key) as [[parsed payload]|e|].
Qed.

(** C14: What a verified SD-JWT VC guarantees: the issuer's key signed the payload
    as it was sent; the time is within [nbf] and [exp]; every presented
    disclosure decodes, is listed by its digest in the signed [_sd] array, and
    is presented once; and each reported claim is a plain member of the signed
    payload or comes from one of those disclosures.  No claim gets in that the
    issuer did not sign for. *)
Theorem verify_sd_jwt_vc_sound sd_jwt key w v w' :
  run (world_handler op) (verify_sd_jwt_vc sd_jwt key) w = (Ok v, w') ->
  exists parsed d ds,
    parse sd_jwt = Ok parsed /\ decode_compact (issuer_jwt parsed) = Ok d /\
    kp_verify key (as_bytes (dj_signing_input d)) (dj_signature d) = Ok tt /\
    value_from_slice (dj_payload d) = inl (vs_payload v) /\
    (let now := timestamp (clock (sys w) (ticks (sys w))) in
     (forall exp, get_i64 (vs_payload v) "exp" = Some exp -> now < exp) /\
     (forall nbf, get_i64 (vs_payload v) "nbf" = Some nbf -> nbf <= now)) /\
    Forall2 (fun e d => from_encoded e = Ok d) (disclosures parsed) ds /\
    Forall (fun d => di_hash d ∈ sd_array_of (vs_payload v)) ds /\ NoDup (map di_hash ds) /\
    forall name value, vs_claims v !! name = Some value ->
      (exists m, vs_payload v = VObject m /\ (name, value) ∈ m /\ reserved name = false) \/
      (exists d, d ∈ ds /\ di_claim_name d = name /\ di_claim_value d = value).
Proof.
  rewrite verify_sd_jwt_vc_run. destruct (verify_issuer sd_jwt key) as [[parsed payload]| |] eqn:Hi; [|done|done].
  intros [= Hv _]. unfold verify_issuer, verify_compact in Hi. inv_ok. simplify_eq.
  unfold verify_payload in Hv. inv_ok.
  repeat match goal with u : () |- _ => destruct u end.
  match goal with Hw : check_window _ _ = _ |- _ => apply check_window_Ok in Hw as [Hexp Hnbf] end.
  match goal with Hc : check_disclosures _ _ _ _ = _ |- _ =>
    apply check_disclosures_Ok in Hc as (ds & Hds & Hf & Hn & ->) end.
  match goal with Hd : decode_compact _ = Ok ?d |- _ => exists parsed, d, ds end. simpl. repeat (split; [done|]).
  split; [by apply decode_all_Forall2|]. split; [by eapply Forall_impl; [exact Hf|]; intros ? []|].
  split; [done|]. intros name value Hc. destruct payload as [| | | | |m]; simpl in Hc;
    try (apply claims_of_lookup in Hc as [?|Hc]; [by right|by apply lookup_empty_Some in Hc]).
  apply (merge_plain_lookup m) in Hc as [[? ?]|Hc]; [left; eauto|].
  apply claims_of_lookup in Hc as [?|Hc]; [by right|by apply lookup_empty_Some in Hc].
Qed.

(** The members a key binding JWT must have. *)
Lemma kb_member_Ok payload name expected mismatch :
  kb_member payload name expected mismatch = Ok tt <-> get_str payload name = Some expected.
Proof.
  unfold kb_member. destruct (get_str payload name) as [v|]; [|done].
  case_bool_decide; [|naive_solver]. naive_solver.
Qed.

Lemma verify_key_binding_parts presentation holder nonce audience parsed kb d a payload base :
  parse presentation = Ok parsed -> key_binding_jwt parsed = Some kb ->
  decode_compact kb = Ok d -> key_type holder = Some a ->
  hdr_alg (dj_header d) = alg_as_str a -> hdr_typ (dj_header d) = Some "kb+jwt"%string ->
  verify_with_jwk holder (as_bytes (dj_signing_input d)) (dj_signature d) = Ok tt ->
  value_from_slice (dj_payload d) = inl payload ->
  get_str payload "nonce" = Some nonce -> get_str payload "aud" = Some audience ->
  presentation = base +:+ kb -> get_str payload "sd_hash" = Some (compute_sd_hash base) ->
  verify_key_binding presentation holder nonce audience = Ok tt.
Proof.
  intros Hparse Hkb Hd Hk Ha Ht Hv Hp Hn Hau Heq Hs. unfold verify_key_binding, algorithm_for_jwk.
  rewrite Hparse. simpl. rewrite Hkb. simpl. rewrite Hd. simpl. rewrite Hk. simpl.
  rewrite !bool_decide_eq_false_2 by (rewrite ?Ha, ?Ht; auto).
  rewrite Hv. simpl. rewrite Hp. simpl.
  rewrite (proj2 (kb_member_Ok payload "nonce" nonce _) Hn). simpl.
  rewrite (proj2 (kb_member_Ok payload "aud" audience _) Hau). simpl.
  rewrite (proj2 (strip_suffix_spec _ _ _) Heq). simpl. by apply kb_member_Ok.
Qed.

End VerifyFacts.

(** ** Issuing, then presenting a selection of the claims *)
Section SelectiveDisclosure.
Context `{S2 : Sha2} `{B64 : Base64Url} `{BL : !Base64UrlLaws B64} `{P : P256} `{D : Ed25519}.
Context `{HS : HeaderSerde} `{HL : !HeaderSerdeLaws HS} `{J : SerdeJson} `{JL : !SerdeJsonLaws J}.
Context `{CS : ClaimsSerde} `{CSL : !ClaimsSerdeLaws CS J} `{CH : Chrono}.
Context {E : Type -> Type} {S : Type} (op : backend E S).

(** The disclosure of an entry of the claims: it decodes to itself. *)
Definition discloses (entry : string * Value) (d : Disclosure) : Prop :=
  di_claim_name d = entry.1 /\ di_claim_value d = entry.2 /\
  from_encoded (di_encoded d) = Ok d /\ part_ok (di_encoded d).

Lemma disclosure_new_run {Er} name value w r w' :
  fits 126 value = true ->
  run (world_handler op) (disclosure_new (E := Er) name value) w = (r, w') ->
  match r with Ok d => discloses (name, value) d | _ => True end.
Proof.
  intros Hfit. unfold disclosure_new, random_bytes. rewrite run_bind.
  simpl (run _ (trigger _) _). cbv beta iota zeta.
  set (salt := b64url_encode _). rewrite run_bind_res. simpl.
  set (doc := VArray [VString salt; VString name; value]).
  assert (Hdoc : fits 127 doc = true).
  { unfold doc. rewrite (fits_array 126). cbn [forallb]. by rewrite !fits_string, Hfit. }
  destruct (value_to_vec doc) as [b|e] eqn:Hb; simpl; intros [= <- _]; [|done].
  destruct (value_roundtrip doc b Hdoc Hb) as [Hu Hr].
  split; [done|]. split; [done|]. split; [|split].
  - unfold from_encoded. simpl. rewrite b64url_roundtrip by done. simpl. rewrite Hr. done.
  - simpl. intros Hn%b64url_nonempty. subst. by apply value_to_vec_nonempty in Hb.
  - by apply b64_no_char.
Qed.

Lemma make_disclosures_run {Er} entries w r w' :
  Forall (fun e => fits 126 e.2 = true) entries ->
  run (world_handler op) (make_disclosures (E := Er) entries) w = (r, w') ->
  match r with Ok ds => Forall2 discloses entries ds | _ => True end.
Proof.
  intros Hfit. revert w r w'. induction Hfit as [|[name value] entries He _ IH]; intros w r w'.
  - simpl. by intros [= <- _].
  - cbn [make_disclosures]. rewrite run_bind_res.
    destruct (run _ (disclosure_new name value) w) as [r1 w1] eqn:H1.
    pose proof (disclosure_new_run name value w r1 w1 He H1) as Hd.
    destruct r1 as [d|e|]; [|by intros [= <- _]|by intros [= <- _]].
    rewrite run_bind_res. destruct (run _ (make_disclosures entries) w1) as [r2 w2] eqn:H2.
    apply IH in H2. destruct r2 as [ds|e|]; intros [= <- _]; [by constructor|done|done].
Qed.

(** *** The members of the payload *)
Lemma obj_get_app l1 l2 k :
  obj_get (l1 ++ l2) k = match obj_get l1 k with Some v => Some v | None => obj_get l2 k end.
Proof. induction l1 as [|[k' v] l1 IH]; simpl; [done|]. by case_bool_decide. Qed.

Lemma obj_get_map_to_list (m : gmap string Value) k : obj_get (map_to_list m) k = m !! k.
Proof.
  apply option_eq. intros v. rewrite obj_get_NoDup by apply NoDup_fst_map_to_list.
  apply elem_of_map_to_list.
Qed.

(** The members the issuer always writes itself. *)
Definition fixed_members (c : SdJwtVcClaims) : list (string * Value) :=
  [("iss"%string, VString (sc_iss c))] ++
  [("iat"%string, VInt (sc_iat c))] ++
  opt_member "exp" VInt (sc_exp c) ++
  opt_member "nbf" VInt (sc_nbf c) ++
  [("vct"%string, VString (sc_vct c))] ++
  (if bool_decide (sc_sd c = []) then [] else [("_sd"%string, VArray (map VString (sc_sd c)))]) ++
  opt_member "_sd_alg" VString (sc_sd_alg c) ++
  opt_member "cnf" id (sc_cnf c) ++
  opt_member "status" id (sc_status c).

Lemma claims_members_split c :
  sc_sub c = None -> claims_members c = fixed_members c ++ map_to_list (sc_plain_claims c).
Proof. intros Hs. unfold claims_members, fixed_members. rewrite Hs. by rewrite <- !app_assoc. Qed.

Lemma fixed_members_reserved c k : k ∈ (fixed_members c).*1 -> reserved k = true.
Proof.
  unfold fixed_members, opt_member.
  intros Hk. apply list_elem_of_fmap in Hk as ([k' v] & -> & Hk). simpl.
  repeat (apply elem_of_app in Hk as [Hk|Hk]);
    match type of Hk with
    | _ ∈ match ?o with _ => _ end => destruct o
    | _ ∈ [_] => idtac
    end;
    first [by apply not_elem_of_nil in Hk | apply list_elem_of_singleton in Hk; by simplify_eq].
Qed.

Lemma fixed_members_NoDup c : NoDup (fixed_members c).*1.
Proof.
  apply (sublist_NoDup _ ["iss"; "iat"; "exp"; "nbf"; "vct"; "_sd"; "_sd_alg"; "cnf"; "status"]%string).
  - apply (bool_decide_unpack _). vm_compute. exact I.
  - unfold fixed_members, opt_member.
    destruct (sc_exp c), (sc_nbf c), (bool_decide (sc_sd c = [])), (sc_sd_alg c), (sc_cnf c), (sc_status c);
      simpl; repeat constructor.
Qed.

Lemma claims_members_NoDup c :
  sc_sub c = None -> (forall k, is_Some (sc_plain_claims c !! k) -> reserved k = false) ->
  NoDup (claims_members c).*1.
Proof.
  intros Hs Hp. rewrite claims_members_split, fmap_app by done. apply NoDup_app.
  split; [apply fixed_members_NoDup|]. split; [|apply NoDup_fst_map_to_list].
  intros k Hk%fixed_members_reserved Hin. apply list_elem_of_fmap in Hin as ([k' v] & -> & Hin).
  apply elem_of_map_to_list in Hin. simpl in Hk. rewrite Hp in Hk; [done|by eexists].
Qed.

Lemma claims_get c k :
  sc_sub c = None -> (forall k, is_Some (sc_plain_claims c !! k) -> reserved k = false) ->
  get (claims_value c) k =
    match obj_get (fixed_members c) k with Some v => Some v | None => sc_plain_claims c !! k end.
Proof.
  intros Hs Hp. unfold claims_value. rewrite json_obj_get by (by apply claims_members_NoDup).
  rewrite claims_members_split, obj_get_app by done. by rewrite obj_get_map_to_list.
Qed.

Lemma decode_all_shown ds :
  Forall (fun d => from_encoded (di_encoded d) = Ok d) ds -> decode_all (map di_encoded ds) = Some ds.
Proof. induction 1 as [|d ds Hd _ IH]; simpl; [done|]. by rewrite Hd, IH. Qed.

Lemma sublist_fmap_mono {A B} (f : A -> B) l k : l `sublist_of` k -> map f l `sublist_of` map f k.
Proof. induction 1; simpl; constructor; done. Qed.

(** *** What a selection of the disclosures verifies to *)
Definition shown_claims (shown : list Disclosure) : gmap string Value :=
  list_to_map (map (fun d => (di_claim_name d, di_claim_value d)) shown).

Lemma shown_claims_of shown :
  NoDup (map di_claim_name shown) -> claims_of shown ∅ = shown_claims shown.
Proof.
  intros Hn. apply map_eq. intros k. apply option_eq. intros v. unfold shown_claims.
  rewrite <- elem_of_list_to_map by (by rewrite <- list_fmap_compose).
  assert (Hgen : forall acc, (forall d, d ∈ shown -> acc !! di_claim_name d = None) ->
    claims_of shown acc !! k = Some v <->
    (k, v) ∈ map (fun d => (di_claim_name d, di_claim_value d)) shown \/ acc !! k = Some v).
  { clear -Hn. induction shown as [|d shown IH]; intros acc Hacc; simpl.
    - rewrite elem_of_nil. naive_solver.
    - simpl in Hn. apply NoDup_cons in Hn as [Hd Hn].
      change (claims_of (d :: shown) acc)
        with (claims_of shown (<[di_claim_name d := di_claim_value d]> acc)).
      rewrite IH; [|done|].
      + rewrite elem_of_cons, lookup_insert_Some. split.
        * intros [?|[[-> ->]|[? ?]]]; auto.
        * intros [[[= -> ->]|?]|Hk]; auto. right. right. split; [|done].
          intros <-. rewrite Hacc in Hk; [done|left].
      + intros d' Hd'. rewrite lookup_insert_ne; [apply Hacc; by right|].
        intros Heq. apply Hd. rewrite Heq. apply list_elem_of_fmap. eauto. }
  rewrite Hgen by (intros; apply lookup_empty). rewrite lookup_empty. naive_solver.
Qed.

Lemma sd_array_issued c :
  sc_sub c = None -> (forall k, is_Some (sc_plain_claims c !! k) -> reserved k = false) ->
  sd_array_of (claims_value c) = sc_sd c.
Proof.
  intros Hs Hp. unfold sd_array_of. rewrite claims_get by done.
  assert (Hstr : forall l, strings_of (VArray (map VString l)) = Some l).
  { intros l. unfold strings_of. simpl. induction l as [|x l IH]; simpl; [done|].
    unfold as_array in IH. simpl in IH. by rewrite IH. }
  assert (Hnone : sc_plain_claims c !! "_sd"%string = None).
  { destruct (sc_plain_claims c !! "_sd"%string) eqn:E1; [|done].
    assert (reserved "_sd" = false) as Hr by (apply Hp; by eexists). discriminate Hr. }
  destruct (sc_sd c) as [|h l] eqn:Hsd.
  - assert (obj_get (fixed_members c) "_sd" = None) as ->; [|by rewrite Hnone].
    unfold fixed_members, opt_member. rewrite Hsd.
    destruct (sc_exp c), (sc_nbf c), (sc_sd_alg c), (sc_cnf c), (sc_status c); reflexivity.
  - assert (obj_get (fixed_members c) "_sd" = Some (VArray (map VString (h :: l)))) as ->.
    { unfold fixed_members, opt_member. rewrite Hsd.
      destruct (sc_exp c), (sc_nbf c); reflexivity. }
    cbn [mbind option_bind]. by rewrite Hstr.
Qed.

(** The payload member [k] of the credential, when it is an instant. *)
Lemma issued_window iss vct plain hashes cnf status t now :
  (forall k, is_Some (plain !! k) -> reserved k = false) ->
  0 <= t <= 1000000000000 ->
  t - t mod DAY_SECS <= now < t - t mod DAY_SECS + DAY_SECS * 365 ->
  check_window (claims_value (issued_claims iss vct plain hashes cnf status t)) now = Ok tt.
Proof.
  intros Hp Ht Hnow. apply check_window_Ok. unfold get_i64.
  rewrite !claims_get by done. simpl. unfold as_i64, VInt.
  assert (0 <= t mod DAY_SECS < DAY_SECS) by (apply Z.mod_pos_bound; unfold DAY_SECS; lia).
  unfold DAY_SECS in *.
  assert (t mod 86400 <= t) by (apply Z.mod_le; lia).
  assert (Hin : forall z, 0 <= z <= 2000000000000 -> in_i64 z = true).
  { intros z ?. apply in_i64_spec. unfold i64_min, i64_max. lia. }
  cbn [mbind option_bind]. rewrite !Hin by lia.
  split; intros z [= <-]; lia.
Qed.

Lemma issued_merge c shown m :
  claims_value c = VObject m -> ascending m.*1 = true ->
  sc_sub c = None -> (forall k, is_Some (sc_plain_claims c !! k) -> reserved k = false) ->
  merge_plain (claims_value c) shown = sc_plain_claims c ∪ shown.
Proof.
  intros Hm Hasc Hs Hp. apply map_eq. intros k. rewrite Hm.
  rewrite merge_plain_get by (by apply ascending_NoDup).
  change (obj_get m k) with (get (VObject m) k). rewrite <- Hm, claims_get by done.
  rewrite lookup_union. destruct (reserved k) eqn:Er.
  - assert (sc_plain_claims c !! k = None) as ->.
    { destruct (sc_plain_claims c !! k) eqn:Ek; [|done].
      rewrite Hp in Er; [done|by eexists]. }
    by rewrite option_union_left_id || by destruct (shown !! k).
  - assert (obj_get (fixed_members c) k = None) as ->.
    { apply obj_get_None. intros Hk%fixed_members_reserved. congruence. }
    by destruct (sc_plain_claims c !! k), (shown !! k).
Qed.

(** What an issuance that succeeds produced. *)
Lemma issue_run `{KL : !KeyPairLaws key} iss vct plain entries cnf status x5c w sd_jwt ds w' :
  Forall (fun e => fits 126 e.2 = true) entries ->
  run (world_handler op) (issue_sd_jwt_vc_with_x5c key iss vct plain entries cnf status x5c) w
    = (Ok (sd_jwt, ds), w') ->
  exists jwt now,
    let claims := issued_claims iss vct plain (map di_hash ds) cnf status (timestamp now) in
    sd_jwt = join TILDE (jwt :: map di_encoded ds ++ [EmptyString]) /\
    Forall2 discloses entries ds /\
    sign_compact key (with_x5c (build_header key (Some "dc+sd-jwt"%string)) x5c) (claims_to_vec claims)
      = Ok jwt /\
    exists n, now = clock (sys w) n.
Proof.
  intros Hfit. unfold issue_sd_jwt_vc_with_x5c. rewrite run_bind_res.
  destruct (run _ (make_disclosures entries) w) as [r1 w1] eqn:H1.
  pose proof (make_disclosures_run entries w r1 w1 Hfit H1) as Hd.
  pose proof (run_after op (make_disclosures (E := SdJwtError) entries) w) as (Hclk & _).
  rewrite H1 in Hclk. destruct r1 as [ds1|e|]; [|done|done]. rewrite run_bind. simpl.
  destruct (sign_compact _ _ _) as [jwt|e|] eqn:Hsign; simpl; [|done|done].
  intros [= <- <- _]. exists jwt, (clock (sys w1) (ticks (sys w1))).
  split; [done|]. split; [done|]. split; [done|]. exists (ticks (sys w1)).
  simpl in Hclk. by rewrite Hclk.
Qed.

(** A compact JWS is one part of a credential. *)
Lemma signed_part_ok `{KL : !KeyPairLaws key} header payload jwt :
  Forall is_u8 payload -> sign_compact key header (inl payload) = Ok jwt -> part_ok jwt.
Proof.
  intros Hp Hs. unfold sign_compact in Hs. inv_ok. simplify_eq.
  match goal with Hk : header_to_vec _ = inl ?b |- _ => destruct (header_roundtrip _ _ Hk) as [Hb _] end.
  match goal with Hk : kp_sign _ _ = Ok _ |- _ => pose proof (kp_sign_bytes _ _ Hk) end.
  split.
  - unfold DOT. by destruct (b64url_encode _).
  - rewrite !has_char_app, !b64_no_char by done. done.
Qed.

(** What ends a presentation: nothing, or a key binding JWT. *)
Definition last_ok (last : string) : Prop :=
  last = EmptyString \/ part_ok last /\ count_char (chr 46) last = 2.

(** A selection of the disclosures of an issued credential verifies. *)
Lemma issued_verifies `{KL : !KeyPairLaws key} iss vct plain entries cnf status header t ds jwt shown last v :
  let claims := issued_claims iss vct plain (map di_hash ds) cnf status t in
  sign_compact key header (claims_to_vec claims) = Ok jwt ->
  Forall2 discloses entries ds -> NoDup entries.*1 ->
  (forall k, is_Some (plain !! k) -> reserved k = false) ->
  NoDup (map di_hash ds) -> 0 <= t <= 1000000000000 -> fits 127 (claims_value claims) = true ->
  shown `sublist_of` ds ->
  (let now := timestamp (clock (sys v) (ticks (sys v))) in
   t - t mod DAY_SECS <= now < t - t mod DAY_SECS + DAY_SECS * 365) ->
  last_ok last ->
  (run (world_handler op)
     (verify_sd_jwt_vc (join TILDE (jwt :: map di_encoded shown ++ [last])) key) v).1
  = Ok (mkVerifiedSdJwtVc (plain ∪ shown_claims shown) (claims_value claims)).
Proof.
  intros claims Hsign Hds Hnames Hplain Hhash Htime Hdoc Hsub Hwin Hlast.
  destruct (claims_to_vec claims) as [payload|e] eqn:Hvec.
  2:{ unfold sign_compact in Hsign. inv_ok. discriminate. }
  destruct (claims_roundtrip claims payload Hvec Hdoc) as [Hu Hparse].
  destruct (sign_decode _ _ _ Hu Hsign) as (d & Hdec & _ & Hpd & Hver & _).
  assert (Hshown : Forall (fun d => from_encoded (di_encoded d) = Ok d /\ part_ok (di_encoded d)) shown).
  { apply list.Forall_forall. intros x Hx.
    assert (x ∈ ds) as Hin by (by eapply elem_of_sublist).
    apply list_elem_of_lookup in Hin as [i Hi].
    by destruct (Forall2_lookup_r _ _ _ _ _ Hds Hi) as ([] & _ & _ & _ & ? & ?). }
  rewrite verify_sd_jwt_vc_run. unfold verify_issuer, verify_compact.
  assert (Hparse0 : exists kb, parse (join TILDE (jwt :: map di_encoded shown ++ [last]))
    = Ok (mkSdJwtVc jwt (map di_encoded shown) kb)).
  { rewrite (parse_compact_parts jwt (map di_encoded shown) last);
      [|by eapply signed_part_ok| |by destruct Hlast as [->|[[_ ?] _]]].
    2:{ apply Forall_fmap. eapply Forall_impl; [exact Hshown|]. by intros ? []. }
    destruct Hlast as [->|[[? _] Hdots]]; [by rewrite bool_decide_eq_true_2 by done; eexists|].
    rewrite bool_decide_eq_false_2 by done. rewrite Hdots. by eexists. }
  destruct Hparse0 as [kb Hparse0]. rewrite Hparse0. simpl. rewrite Hdec. simpl. rewrite Hver. simpl.
  rewrite Hpd, Hparse. simpl. unfold verify_payload. simpl.
  subst claims. rewrite issued_window by done. cbn [res_bind].
  rewrite sd_array_issued by done.
  assert (NoDup (map di_claim_name shown)) as Hnd.
  { eapply sublist_NoDup; [|by apply sublist_fmap_mono].
    assert (map di_claim_name ds = entries.*1) as ->; [|done]. clear -Hds.
    induction Hds as [|e d' l k [Hname _] _ IH]; [done|].
    cbn [map]. by rewrite fmap_cons, Hname, IH. }
  rewrite (proj2 (check_disclosures_Ok _ _ _ _ (claims_of shown ∅))).
  2:{ exists shown. split; [|split; [|split; [|done]]].
      - apply decode_all_shown. eapply Forall_impl; [exact Hshown|]. by intros ? [].
      - apply list.Forall_forall. intros x Hx. split; [|apply not_elem_of_empty].
        apply list_elem_of_fmap. exists x. split; [done|]. by eapply elem_of_sublist.
      - eapply sublist_NoDup; [exact Hhash|]. by apply sublist_fmap_mono. }
  simpl. rewrite shown_claims_of by done. do 2 f_equal.
  apply (issued_merge (issued_claims iss vct plain (map di_hash ds) cnf status t)
    (shown_claims shown) _ eq_refl); [|done..].
  unfold claims_value, json_obj in Hdoc. rewrite (fits_object 126) in Hdoc. by b2p.
Qed.

(** Issued claims are a document the parser accepts. *)
Lemma issued_fits iss vct plain hashes cnf status t :
  0 <= t <= 1000000000000 ->
  (forall k v, plain !! k = Some v -> fits 126 v = true) ->
  (forall v, cnf = Some v -> fits 126 v = true) -> (forall v, status = Some v -> fits 126 v = true) ->
  fits 127 (claims_value (issued_claims iss vct plain hashes cnf status t)) = true.
Proof.
  intros Ht Hp Hc Hs. apply (json_obj_fits 126).
  assert (0 <= t mod DAY_SECS < DAY_SECS) by (apply Z.mod_pos_bound; unfold DAY_SECS; lia).
  unfold DAY_SECS in *. assert (t mod 86400 <= t) by (apply Z.mod_le; lia).
  assert (Hint : forall z, 0 <= z <= 2000000000000 -> fits 126 (VInt z) = true).
  { intros z ?. change (fits 126 (VInt z)) with ((i64_min <=? z) && (z <? 2 ^ 64)). unfold i64_min.
    rewrite (proj2 (Z.leb_le _ _)), (proj2 (Z.ltb_lt _ _)) by lia. done. }
  assert (Hopt : forall k (o : option Value), (forall v, o = Some v -> fits 126 v = true) ->
    Forall (fun kv => fits 126 kv.2 = true) (opt_member k id o)).
  { intros k [v|] Hv; constructor; [by apply Hv|constructor]. }
  unfold claims_members. cbn [issued_claims sc_iss sc_sub sc_iat sc_exp sc_nbf sc_vct sc_sd sc_sd_alg sc_cnf
    sc_status sc_plain_claims opt_member].
  repeat (apply Forall_app; split); try (apply Hopt; done);
    try (constructor; [simpl snd; first [apply fits_string|apply Hint; unfold DAY_SECS; lia]|constructor]);
    try constructor.
  - case_bool_decide; constructor; [|constructor]. simpl snd. rewrite (fits_array 125).
    apply forallb_forall. intros x (h & <- & _)%in_map_iff. apply fits_string.
  - apply list.Forall_forall. intros [k v] Hin%elem_of_map_to_list. by eapply Hp.
Qed.

(** C13: Selective disclosure.  A credential that was issued can be presented with
    any selection of its disclosures.  During its year of validity the
    presentation verifies under the issuer's key, with the payload that was
    signed, and reports the plain claims and the selected ones, and no other
    claim, with the values they were issued with. *)
Theorem selective_disclosure `{KL : !KeyPairLaws key}
    iss vct plain entries cnf status x5c w sd_jwt ds w' :
  run (world_handler op) (issue_sd_jwt_vc_with_x5c key iss vct plain entries cnf status x5c) w
    = (Ok (sd_jwt, ds), w') ->
  Forall (fun e => fits 126 e.2 = true) entries -> NoDup entries.*1 ->
  (forall k, is_Some (plain !! k) -> reserved k = false) ->
  NoDup (map di_hash ds) ->
  (forall n, 0 <= timestamp (clock (sys w) n) <= 1000000000000) ->
  (forall n, fits 127 (claims_value (issued_claims iss vct plain (map di_hash ds) cnf status
                         (timestamp (clock (sys w) n)))) = true) ->
  exists jwt issued_at,
    sd_jwt = join TILDE (jwt :: map di_encoded ds ++ [EmptyString]) /\
    Forall2 discloses entries ds /\
    forall shown v,
      shown `sublist_of` ds ->
      (let now := timestamp (clock (sys v) (ticks (sys v))) in
       issued_at - issued_at mod DAY_SECS <= now < issued_at - issued_at mod DAY_SECS + DAY_SECS * 365) ->
      (run (world_handler op)
         (verify_sd_jwt_vc (join TILDE (jwt :: map di_encoded shown ++ [EmptyString])) key) v).1
      = Ok (mkVerifiedSdJwtVc (plain ∪ shown_claims shown)
             (claims_value (issued_claims iss vct plain (map di_hash ds) cnf status issued_at))).
Proof.
  intros Hrun Hfit Hnames Hplain Hhash Htime Hdoc.
  destruct (issue_run iss vct plain entries cnf status x5c w sd_jwt ds w' Hfit Hrun)
    as (jwt & now & Hsd & Hds & Hsign & n & ->).
  exists jwt, (timestamp (clock (sys w) n)). split; [done|]. split; [done|].
  intros shown v Hsub Hwin. eapply issued_verifies; try done. by left.
Qed.


(** *** Key binding *)
Lemma signed_dots `{KL : !KeyPairLaws key} header payload jwt :
  Forall is_u8 payload -> sign_compact key header (inl payload) = Ok jwt ->
  count_char (chr 46) jwt = 2.
Proof.
  intros Hp Hs. unfold sign_compact in Hs. inv_ok. simplify_eq.
  match goal with Hk : header_to_vec _ = inl ?b |- _ => destruct (header_roundtrip _ _ Hk) as [Hb _] end.
  match goal with Hk : kp_sign _ _ = Ok _ |- _ => pose proof (kp_sign_bytes _ _ Hk) end.
  assert (Hz : forall u, Forall is_u8 u -> count_char (chr 46) (b64url_encode u) = 0).
  { intros u Hu. by apply count_char_none, b64_no_char. }
  rewrite !count_char_app, !Hz by done. done.
Qed.

Lemma join_last (ps : list string) last :
  join TILDE (ps ++ [EmptyString]) +:+ last = join TILDE (ps ++ [last]).
Proof.
  induction ps as [|p ps IH]; [done|].
  assert (Hc : forall t, join TILDE ((p :: ps) ++ [t]) = p +:+ TILDE +:+ join TILDE (ps ++ [t])).
  { intros t. simpl. by destruct (ps ++ [t]) eqn:E0; [destruct ps|]. }
  by rewrite !Hc, !string_app_assoc, IH.
Qed.

(** The key binding JWT of a holder is accepted, and ends a presentation. *)
Lemma key_binding_made `{KL : !KeyPairLaws holder} jwk jwt encoded nonce audience w kb w' :
  part_ok jwt -> Forall part_ok encoded -> kp_public_jwk holder = Ok jwk ->
  0 <= timestamp (clock (sys w) (ticks (sys w))) <= 1000000000000 ->
  let base := join TILDE (jwt :: encoded ++ [EmptyString]) in
  run (world_handler op) (create_key_binding_jwt holder nonce audience (compute_sd_hash base)) w
    = (Ok kb, w') ->
  verify_key_binding (base +:+ kb) jwk nonce audience = Ok tt /\ last_ok kb /\
  base +:+ kb = join TILDE (jwt :: encoded ++ [kb]).
Proof.
  intros Hj Henc Hjwk Htime base Hrun. unfold create_key_binding_jwt, build_header_with_jwk in Hrun.
  rewrite Hjwk in Hrun. simpl in Hrun. injection Hrun as Hkb _.
  rewrite map_err_Ok in Hkb.
  set (doc := json_obj _) in Hkb.
  assert (Hfit : fits 127 doc = true).
  { unfold doc. clear -Htime. generalize (compute_sd_hash base) as h. intros h.
    set (t := VInt _).
    assert (json_obj [("nonce"%string, VString nonce); ("aud"%string, VString audience);
        ("iat"%string, t); ("sd_hash"%string, VString h)]
      = VObject [("aud"%string, VString audience); ("iat"%string, t);
          ("nonce"%string, VString nonce); ("sd_hash"%string, VString h)]) as -> by reflexivity.
    rewrite (fits_object 126). cbn [map fst forallb snd]. rewrite !fits_string.
    assert (fits 126 t = true) as ->; [|reflexivity].
    unfold t, VInt. change (fits 126 (VNumber (NInt ?z))) with ((i64_min <=? z) && (z <? 2 ^ 64)).
    unfold i64_min.
    rewrite (proj2 (Z.leb_le _ _)), (proj2 (Z.ltb_lt _ _)) by lia. done. }
  destruct (value_to_vec doc) as [payload|e] eqn:Hv.
  2:{ unfold sign_compact in Hkb. inv_ok. discriminate. }
  destruct (value_roundtrip doc payload Hfit Hv) as [Hu Hp].
  destruct (sign_decode _ _ _ Hu Hkb) as (d & Hd & Hh & Hpd & Hver & _).
  destruct (kp_jwk (k := holder)) as (j & Hj' & _ & _ & _ & Halg & Hagree).
  assert (j = jwk) as -> by congruence. unfold algorithm_for_jwk in Halg.
  destruct (key_type jwk) as [a|] eqn:Hkt; [|done]. injection Halg as ->.
  pose proof (signed_dots _ _ _ Hu Hkb) as Hdots.
  pose proof (signed_part_ok _ _ _ Hu Hkb) as [Hne Htl].
  assert (Hbase : base +:+ kb = join TILDE (jwt :: encoded ++ [kb])).
  { apply (join_last (jwt :: encoded) kb). }
  split; [|split; [by right|done]]. apply (verify_key_binding_parts _ _ _ _
    (mkSdJwtVc jwt encoded (Some kb)) kb d (kp_algorithm holder) doc base); rewrite ?Hh, ?Hpd; try done.
  - rewrite Hbase, parse_compact_parts by done. rewrite bool_decide_eq_false_2 by done. by rewrite Hdots.
  - by rewrite Hagree.
Qed.
(** A holder who binds a presentation to a nonce and an audience is accepted
    by the verifier that expects them, with the holder's public JWK. *)
Theorem key_binding_roundtrip `{KL : !KeyPairLaws holder} jwk jwt encoded nonce audience w kb w' :
  part_ok jwt -> Forall part_ok encoded -> kp_public_jwk holder = Ok jwk ->
  0 <= timestamp (clock (sys w) (ticks (sys w))) <= 1000000000000 ->
  let base := join TILDE (jwt :: encoded ++ [EmptyString]) in
  run (world_handler op) (create_key_binding_jwt holder nonce audience (compute_sd_hash base)) w
    = (Ok kb, w') ->
  verify_key_binding (base +:+ kb) jwk nonce audience = Ok tt.
Proof. intros. by eapply key_binding_made. Qed.
End SelectiveDisclosure.

(** ** A concrete credential *)
Module SdJwtDemo.
Import Toy ToyCurves ToyCodec JwsDemo SysDemo.

(** No backend: the only calls are those of the system. *)
Definition NoE : Type -> Type := fun _ => Empty_set.
Definition no_backend : backend NoE unit := fun X e => match e with end.
Definition world : World unit := mkWorld demo_sys tt.

#[export] Instance claims_serde : ClaimsSerde := {|
  claims_to_vec c := to_vec (claims_value c);
  jwk_from_value v :=
    match get_str v "kty" with
    | Some k => inl (mkJwk k (get_str v "crv") (get_str v "x") (get_str v "y") (get_str v "d")
                       (get_str v "alg") (get_str v "kid") (get_str v "use"))
    | None => inr "missing field kty"%string
    end |}.

#[export] Instance claims_laws : ClaimsSerdeLaws claims_serde json.
Proof. split. intros c b Hb _. by apply codec_roundtrip. Qed.

Definition key : KeyPair := ec_key_pair ec1.
Definition plain : gmap string Value := {["country"%string := VString "NL"]}.
Definition entries : list (string * Value) :=
  [("given_name"%string, VString "Ada"); ("birth_date"%string, VString "1815-12-10")].

Definition issued := run (world_handler no_backend)
  (issue_sd_jwt_vc key "https://i" "https://i/vct" plain entries None None) world.
Definition credential : string * list Disclosure := unwrap_or (EmptyString, []) issued.1.
Definition cred_str : string := Eval vm_compute in credential.1.
Definition cred_ds : list Disclosure := Eval vm_compute in credential.2.

Lemma issued_eq : issued = (Ok (cred_str, cred_ds), issued.2).
Proof. apply pair_eq_fst. vm_compute. reflexivity. Qed.

Lemma demo_timestamps n :
  timestamp (clock (sys world) n) = 1000 \/ timestamp (clock (sys world) n) = 1001.
Proof.
  simpl. unfold NANOS.
  assert (0 <= Z.min (Z.of_nat n) 1000 <= 1000) as Hz by lia.
  remember (Z.min (Z.of_nat n) 1000) as z.
  destruct (decide (z = 1000)) as [->|]; [by right|left].
  symmetry. apply (Z.div_unique _ _ _ (z * 1000000)); lia.
Qed.

Lemma selective_disclosure_witness :
  exists jwt issued_at,
    cred_str = join TILDE (jwt :: map di_encoded cred_ds ++ [EmptyString]) /\
    Forall2 discloses entries cred_ds /\
    forall shown v,
      shown `sublist_of` cred_ds ->
      (let now := timestamp (clock (sys v) (ticks (sys v))) in
       issued_at - issued_at mod DAY_SECS <= now < issued_at - issued_at mod DAY_SECS + DAY_SECS * 365) ->
      (run (world_handler no_backend)
         (verify_sd_jwt_vc (join TILDE (jwt :: map di_encoded shown ++ [EmptyString])) key) v).1
      = Ok (mkVerifiedSdJwtVc (plain ∪ shown_claims shown)
             (claims_value (issued_claims "https://i" "https://i/vct" plain (map di_hash cred_ds)
                None None issued_at))).
Proof.
  apply (selective_disclosure no_backend "https://i" "https://i/vct" plain entries None None None
    world cred_str cred_ds issued.2).
  - apply issued_eq.
  - by repeat constructor.
  - apply (bool_decide_unpack _). vm_compute. exact I.
  - intros k [v Hk]. unfold plain in Hk. apply lookup_singleton_Some in Hk as [<- _]. reflexivity.
  - apply (bool_decide_unpack _). vm_compute. exact I.
  - intros n. destruct (demo_timestamps n) as [-> | ->]; lia.
  - intros n. destruct (demo_timestamps n) as [-> | ->]; vm_compute; reflexivity.
Defined.

(** The presentation of one of the two claims, bound by the holder's key. *)
Definition cred_jwt : string := Eval vm_compute in match split tilde cred_str with j :: _ => j | [] => EmptyString end.
Definition presented : string :=
  join TILDE (cred_jwt :: map di_encoded (take 1 cred_ds) ++ [EmptyString]).
Definition shown_only : VerifiedSdJwtVc :=
  mkVerifiedSdJwtVc {["country"%string := VString "NL"; "given_name"%string := VString "Ada"]}
    (claims_value (issued_claims "https://i" "https://i/vct" plain (map di_hash cred_ds) None None 1000)).

Definition verified := run (world_handler no_backend) (verify_sd_jwt_vc presented key) world.

Lemma verified_eq : verified = (Ok shown_only, verified.2).
Proof. apply pair_eq_fst. vm_compute. reflexivity. Qed.

Lemma verify_sd_jwt_vc_sound_witness :
  exists parsed d ds,
    parse presented = Ok parsed /\ decode_compact (issuer_jwt parsed) = Ok d /\
    kp_verify key (as_bytes (dj_signing_input d)) (dj_signature d) = Ok tt /\
    value_from_slice (dj_payload d) = inl (vs_payload shown_only) /\
    (let now := timestamp (clock (sys world) (ticks (sys world))) in
     (forall exp, get_i64 (vs_payload shown_only) "exp" = Some exp -> now < exp) /\
     (forall nbf, get_i64 (vs_payload shown_only) "nbf" = Some nbf -> nbf <= now)) /\
    Forall2 (fun e d => from_encoded e = Ok d) (disclosures parsed) ds /\
    Forall (fun d => di_hash d ∈ sd_array_of (vs_payload shown_only)) ds /\ NoDup (map di_hash ds) /\
    forall name value, vs_claims shown_only !! name = Some value ->
      (exists m, vs_payload shown_only = VObject m /\ (name, value) ∈ m /\ reserved name = false) \/
      (exists d, d ∈ ds /\ di_claim_name d = name /\ di_claim_value d = value).
Proof.
  apply (verify_sd_jwt_vc_sound no_backend presented key world shown_only verified.2).
  apply verified_eq.
Defined.

(** A short presentation, bound by the holder's key. *)
Definition bare : string := join TILDE ("i.j.w"%string :: [] ++ [EmptyString]).
Definition binding := run (world_handler no_backend)
  (create_key_binding_jwt (ed_key_pair ed0) "n" "v" (compute_sd_hash bare)) world.
Definition kb : string := Eval vm_compute in unwrap_or EmptyString binding.1.
Definition holder : Jwk := ed_build_public_jwk (edk_verifying_key ed0) (edk_key_id ed0).

Lemma key_binding_roundtrip_witness : verify_key_binding (bare +:+ kb) holder "n" "v" = Ok tt.
Proof.
  apply (key_binding_roundtrip no_backend (holder := ed_key_pair ed0) _ "i.j.w" []
    "n" "v" world kb binding.2).
  - split; [done|reflexivity].
  - constructor.
  - reflexivity.
  - vm_compute. split; discriminate.
  - apply pair_eq_fst. vm_compute. reflexivity.
Defined.

End SdJwtDemo.
