(* ===== verification/X509.v ===== *)
(** * X.509 certificates

    crates/crypto/src/x509.rs: the issuer's certificates as PEM, and the
    validation of a certificate chain against trust anchors.  Parsing DER and
    reading a certificate's fields is [x509_cert]'s work, a parameter here. *)
From S2P Require Import Prelude Externals Strings Json Effects Keys.

(** ** [x509_cert] *)
Class X509Api := {
  Certificate : Type;
  cert_from_der : bytes -> Certificate + string;
  (** [validity.not_before.to_unix_duration().as_secs()], and [not_after] *)
  cert_not_before : Certificate -> Z;
  cert_not_after : Certificate -> Z;
  (** [subject.to_string()]; the names as [to_der().unwrap_or_default()] *)
  cert_subject_text : Certificate -> string;
  cert_subject_name : Certificate -> bytes;
  cert_issuer_name : Certificate -> bytes;
  (** The subject's attributes: an OID, and the value as a PrintableString *)
  cert_subject : Certificate -> list (list (string * option string));
  cert_signature_oid : Certificate -> string;
  cert_signature : Certificate -> bytes;
  cert_tbs_der : Certificate -> bytes + string;
  (** The subject public key: its bits, algorithm and named curve *)
  cert_public_key : Certificate -> bytes;
  cert_key_oid : Certificate -> string;
  cert_key_curve : Certificate -> option string;
  cert_extensions : Certificate -> list (string * bytes);
  (** [BasicConstraints::from_der(v)], its [ca] *)
  basic_constraints_ca : bytes -> bool + string;
}.

Definition COUNTRY_NAME : string := "2.5.4.6".
Definition ID_CE_BASIC_CONSTRAINTS : string := "2.5.29.19".
Definition ECDSA_WITH_SHA_256 : string := "1.2.840.10045.4.3.2".
Definition ID_EC_PUBLIC_KEY : string := "1.2.840.10045.2.1".
Definition SECP_256_R_1 : string := "1.2.840.10045.3.1.7".

Inductive X509Error :=
| X5_Generation (what : string)
| X5_InvalidPem (what : string)
| X5_InvalidCertificate (what : string)
| X5_KeyMismatch
| X5_Untrusted (what : string).

Definition x509_error_to_string (e : X509Error) : string :=
  match e with
  | X5_Generation s => "certificate generation failed: " +:+ s
  | X5_InvalidPem s => "invalid PEM: " +:+ s
  | X5_InvalidCertificate s => "invalid certificate: " +:+ s
  | X5_KeyMismatch => "the certificate does not certify the issuer's signing key"
  | X5_Untrusted s => "certificate chain is not trusted: " +:+ s
  end.

Record IssuerCertificate := mkIssuerCertificate { icert_der : bytes }.

Record IssuerPki := mkIssuerPki {
  pki_trust_anchor : bytes;
  pki_leaf : IssuerCertificate;
  pki_mdoc_signer : IssuerCertificate;
  pki_mdoc_status_signer : IssuerCertificate;
  pki_crl : bytes;
}.

Definition CRL_PATH : string := "/iaca.crl".

(** ** PEM *)
Definition begin_line (label : string) : string := "-----BEGIN " +:+ label +:+ "-----".
Definition end_line (label : string) : string := "-----END " +:+ label +:+ "-----".

Section Pem.
Context `{Base64Std}.

(** The loop over the lines; [body] is the text of the open block. *)
Fixpoint pem_scan (label : string) (ls : list string) (body : option string) : list bytes :=
  match ls with
  | [] => []
  | line :: ls' =>
      if bool_decide (line = begin_line label) then pem_scan label ls' (Some EmptyString)
      else if bool_decide (line = end_line label) then
        match body with
        | Some b64 =>
            match b64_decode b64 with
            | inl der => der :: pem_scan label ls' None
            | inr _ => pem_scan label ls' None
            end
        | None => pem_scan label ls' None
        end
      else pem_scan label ls' (match body with Some b64 => Some (b64 +:+ line) | None => None end)
  end.

Definition pem_blocks (pem label : string) : list bytes := pem_scan label (map trim (lines pem)) None.

Definition der_to_pem (der : bytes) (label : string) : string :=
  let b64 := b64_encode der in
  begin_line label +:+ String LF EmptyString
  +:+ concat (map (fun chunk => chunk +:+ String LF EmptyString) (chunks 64 b64))
  +:+ end_line label +:+ String LF EmptyString.
End Pem.

(** ** Certificates *)
Section X509.
Context `{X509Api} `{Base64Std} `{Base64Url} `{P256} `{Chrono}.

Definition parse_cert (der : bytes) : res Certificate X509Error :=
  map_err X5_InvalidCertificate (from_ext (cert_from_der der)).

(** [unwrap_or_default] is the epoch. *)
Definition to_datetime (secs : Z) : DateTime := default 0 (from_timestamp (Prelude.as_i64 secs)).

Definition check_validity (cert : Certificate) (at_time : DateTime) : res unit X509Error :=
  fail? (at_time <? to_datetime (cert_not_before cert))
        || (to_datetime (cert_not_after cert) <? at_time) with
    X5_Untrusted ("certificate '" +:+ cert_subject_text cert +:+ "' is not valid at "
      +:+ datetime_to_string at_time);
  Ok tt.

Definition is_ca (cert : Certificate) : bool :=
  match find (fun ext => bool_decide (ext.1 = ID_CE_BASIC_CONSTRAINTS)) (cert_extensions cert) with
  | Some ext => match basic_constraints_ca ext.2 with inl ca => ca | inr _ => false end
  | None => false
  end.

Definition p256_verifying_key_of (cert : Certificate) : res P256VerifyingKey X509Error :=
  fail? bool_decide (cert_key_oid cert <> ID_EC_PUBLIC_KEY)
        || bool_decide (cert_key_curve cert <> Some SECP_256_R_1) with
    X5_Untrusted "only P-256 keys are supported";
  map_err X5_InvalidCertificate (from_ext (p256_from_sec1 (cert_public_key cert))).

Definition verify_issued_by (cert issuer : Certificate) : res unit X509Error :=
  fail? bool_decide (cert_issuer_name cert <> cert_subject_name issuer) with
    X5_Untrusted "issuer name does not match the issuing certificate";
  fail? bool_decide (cert_signature_oid cert <> ECDSA_WITH_SHA_256) with
    X5_Untrusted "only ecdsa-with-SHA256 certificate signatures are supported";
  let? key := p256_verifying_key_of issuer in
  let? signature := map_err (fun _ => X5_Untrusted "malformed certificate signature")
    (from_ext (p256_sig_from_der (cert_signature cert))) in
  let? tbs := map_err X5_InvalidCertificate (from_ext (cert_tbs_der cert)) in
  map_err (fun _ => X5_Untrusted "certificate signature does not verify")
    (from_ext (p256_verify key tbs signature)).

Definition p256_jwk (point : bytes) : res Jwk X509Error :=
  let? key := map_err X5_InvalidCertificate (from_ext (p256_from_sec1 point)) in
  Ok (mkJwk "EC" (Some "P-256"%string) (b64url_encode <$> p256_x key) (b64url_encode <$> p256_y key)
        None None None None).

Fixpoint parse_all (ders : list bytes) : res (list Certificate) X509Error :=
  match ders with
  | [] => Ok []
  | der :: ders' =>
      let? cert := parse_cert der in
      let? certs := parse_all ders' in
      Ok (cert :: certs)
  end.

(** The loop over the chain: [i] is the index of the first certificate. *)
Fixpoint check_links (i : nat) (certs : list Certificate) (at_time : DateTime) : res unit X509Error :=
  match certs with
  | [] => Ok tt
  | cert :: certs' =>
      let? _ := check_validity cert at_time in
      let? _ := match certs' with
                | issuer :: _ =>
                    fail? negb (is_ca issuer) with
                      X5_Untrusted ("certificate " +:+ pretty (S i) +:+ " issued certificate "
                        +:+ pretty i +:+ " but is not a CA");
                    verify_issued_by cert issuer
                | [] => Ok tt
                end in
      check_links (S i) certs' at_time
  end.

(** Whether one anchor vouches for the top of the chain. *)
Definition anchors (top_der : bytes) (top : Certificate) (at_time : DateTime) (anchor_der : bytes) : bool :=
  bool_decide (anchor_der = top_der)
  || match parse_cert anchor_der with
     | Ok anchor => is_ok (check_validity anchor at_time) && is_ok (verify_issued_by top anchor)
     | _ => false
     end.

Definition validate_chain (chain trust_anchors : list bytes) (at_time : DateTime) : res Jwk X509Error :=
  let? certs := parse_all chain in
  let? leaf := ok_or (head certs) (X5_Untrusted "the chain is empty") in
  let? _ := check_links 0 certs at_time in
  match last certs, last chain with
  | Some top, Some top_der =>
      fail? negb (existsb (anchors top_der top at_time) trust_anchors) with
        X5_Untrusted "no trust anchor issued the chain's top certificate";
      p256_jwk (cert_public_key leaf)
  | _, _ => Panic
  end.

(** *** The issuer's certificates *)
Definition issuer_cert_from_der (der public_key : bytes) : res IssuerCertificate X509Error :=
  let? cert := parse_cert der in
  fail? bool_decide (cert_public_key cert <> public_key) with X5_KeyMismatch;
  Ok (mkIssuerCertificate der).

Definition issuer_cert_from_pem (pem : string) (public_key : bytes) : res IssuerCertificate X509Error :=
  let? der := ok_or (head (pem_blocks pem "CERTIFICATE")) (X5_InvalidPem "no CERTIFICATE block") in
  issuer_cert_from_der der public_key.

Definition x5c (c : IssuerCertificate) : list string := [b64_encode (icert_der c)].

Definition issuer_cert_to_pem (c : IssuerCertificate) : string := der_to_pem (icert_der c) "CERTIFICATE".

Definition not_after {E} (c : IssuerCertificate) : res DateTime E :=
  let? cert := unwrap (parse_cert (icert_der c)) in
  Ok (to_datetime (cert_not_after cert)).

Definition find_map {A B} (f : A -> option B) (l : list A) : option B := head (omap f l).

Definition subject_country (c : IssuerCertificate) : option string :=
  match parse_cert (icert_der c) with
  | Ok cert =>
      find_map (find_map (fun atv => if bool_decide (atv.1 = COUNTRY_NAME) then atv.2 else None))
        (cert_subject cert)
  | _ => None
  end.

Definition trust_anchor_pem (p : IssuerPki) : string := der_to_pem (pki_trust_anchor p) "CERTIFICATE".

Definition pki_to_pem (p : IssuerPki) : string :=
  concat [issuer_cert_to_pem (pki_leaf p); issuer_cert_to_pem (pki_mdoc_signer p);
    issuer_cert_to_pem (pki_mdoc_status_signer p); trust_anchor_pem p;
    der_to_pem (pki_crl p) "X509 CRL"].

(** The bundle as it is read, before its leaves are validated. *)
Definition pki_parse (pem : string) (public_key : bytes) : res IssuerPki X509Error :=
  let certs := pem_blocks pem "CERTIFICATE" in
  match certs with
  | [leaf; mdoc_signer; mdoc_status_signer; trust_anchor] =>
      let? crl := ok_or (head (pem_blocks pem "X509 CRL")) (X5_InvalidPem "no X509 CRL block") in
      let? leaf := issuer_cert_from_der leaf public_key in
      let? mdoc_signer := issuer_cert_from_der mdoc_signer public_key in
      let? mdoc_status_signer := issuer_cert_from_der mdoc_status_signer public_key in
      Ok (mkIssuerPki trust_anchor leaf mdoc_signer mdoc_status_signer crl)
  | _ => Err (X5_InvalidPem ("expected 4 certificates (leaf, mdoc signer, mdoc status signer, trust anchor), found "
           +:+ pretty (length certs)))
  end.

Section Load.
Context {F : Type -> Type} `{Sub SysE F}.

(** Each leaf is validated at its own reading of the clock. *)
Fixpoint validate_each (certs : list IssuerCertificate) (anchor_list : list bytes)
    : prog F (res unit X509Error) :=
  match certs with
  | [] => Ret (Ok tt)
  | cert :: certs' =>
      do now <- utc_now;
      do? _ <- Ret (validate_chain [icert_der cert] anchor_list now);
      validate_each certs' anchor_list
  end.

Definition pki_from_pem (pem : string) (public_key : bytes) : prog F (res IssuerPki X509Error) :=
  do? pki <- Ret (pki_parse pem public_key);
  do? _ <- validate_each [pki_leaf pki; pki_mdoc_signer pki; pki_mdoc_status_signer pki]
    [pki_trust_anchor pki];
  Ret (Ok pki).
End Load.
End X509.

(** ** What a validated chain is *)
Section ChainFacts.
Context `{X509Api} `{Base64Url} `{P256} `{Chrono}.

Definition valid_at (t : DateTime) (c : Certificate) : Prop :=
  to_datetime (cert_not_before c) <= t <= to_datetime (cert_not_after c).

(** [issuer]'s P-256 key signed [c], and [c] names it. *)
Definition issued_by (c issuer : Certificate) : Prop :=
  cert_issuer_name c = cert_subject_name issuer /\
  cert_signature_oid c = ECDSA_WITH_SHA_256 /\
  cert_key_oid issuer = ID_EC_PUBLIC_KEY /\ cert_key_curve issuer = Some SECP_256_R_1 /\
  exists key signature tbs,
    p256_from_sec1 (cert_public_key issuer) = inl key /\
    p256_sig_from_der (cert_signature c) = inl signature /\
    cert_tbs_der c = inl tbs /\ p256_verify key tbs signature = inl tt.

(** Every certificate but the last is issued by the next, a CA. *)
Fixpoint linked (certs : list Certificate) : Prop :=
  match certs with
  | c :: (issuer :: _) as certs' => is_ca issuer = true /\ issued_by c issuer /\ linked certs'
  | _ => True
  end.

Definition anchored (t : DateTime) (top_der : bytes) (top : Certificate) (anchor_der : bytes) : Prop :=
  anchor_der = top_der \/
  exists anchor, cert_from_der anchor_der = inl anchor /\ valid_at t anchor /\ issued_by top anchor.

Lemma check_validity_Ok c t : check_validity c t = Ok tt <-> valid_at t c.
Proof.
  unfold check_validity, valid_at.
  destruct (Z.ltb_spec t (to_datetime (cert_not_before c))),
    (Z.ltb_spec (to_datetime (cert_not_after c)) t); simpl; split; (done || lia).
Qed.

Lemma verify_issued_by_Ok c issuer : verify_issued_by c issuer = Ok tt <-> issued_by c issuer.
Proof.
  unfold verify_issued_by, p256_verifying_key_of, issued_by. split.
  - intros Ho. inv_ok. b2p. subst.
    repeat match goal with
    | Hn : ~ (_ <> _) |- _ => apply dec_stable in Hn
    | u : () |- _ => destruct u
    end.
    repeat (split; [done|]). eauto 10.
  - intros (-> & -> & -> & -> & key & sig & tbs & -> & -> & -> & Hv).
    rewrite !bool_decide_eq_false_2 by auto. simpl. by rewrite Hv.
Qed.

Lemma parse_all_Ok ders certs :
  parse_all ders = Ok certs <-> Forall2 (fun der c => cert_from_der der = inl c) ders certs.
Proof.
  revert certs. induction ders as [|der ders IH]; intros certs; simpl.
  - split; [by intros [= <-]|]. intros Hf. by apply Forall2_nil_inv_l in Hf as ->.
  - unfold parse_cert. split.
    + intros Ho. inv_ok. subst. constructor; [done|]. by apply IH.
    + intros (c & cs & Hc & Hcs & ->)%Forall2_cons_inv_l. rewrite Hc. simpl.
      by rewrite (proj2 (IH _) Hcs).
Qed.

Lemma check_links_Ok i certs t :
  check_links i certs t = Ok tt <-> Forall (valid_at t) certs /\ linked certs.
Proof.
  revert i. induction certs as [|c certs IH]; intros i; simpl; [by split|].
  rewrite Forall_cons. split.
  - intros Ho. inv_ok. repeat match goal with u : () |- _ => destruct u end.
    apply IH in Ho as [? ?].
    match goal with Hv : check_validity _ _ = Ok _ |- _ => apply check_validity_Ok in Hv end.
    split; [done|]. destruct certs as [|issuer certs]; [done|].
    match goal with Hi : (if _ then _ else _) = Ok _ |- _ => rename Hi into Hc end.
    inv_ok. b2p. split; [done|]. split; [by apply verify_issued_by_Ok|done].
  - intros [[Hv Hvs] Hl]. rewrite (proj2 (check_validity_Ok c t) Hv). simpl.
    destruct certs as [|issuer certs]; [by apply IH|]. destruct Hl as (Hca & Hi & Hl).
    rewrite Hca. simpl. rewrite (proj2 (verify_issued_by_Ok c issuer) Hi). simpl. by apply IH.
Qed.

Lemma anchors_spec top_der top t a : anchors top_der top t a = true <-> anchored t top_der top a.
Proof.
  unfold anchors, anchored, parse_cert. rewrite orb_true_iff, bool_decide_eq_true.
  apply or_iff_compat_l. destruct (cert_from_der a) as [c|e]; simpl; [|naive_solver].
  rewrite andb_true_iff. split.
  - intros [Hv Hi]. exists c. split; [done|]. split.
    + apply check_validity_Ok. by destruct (check_validity c t) as [[]| |].
    + apply verify_issued_by_Ok. by destruct (verify_issued_by top c) as [[]| |].
  - intros (c' & [= <-] & Hv & Hi).
    by rewrite (proj2 (check_validity_Ok _ _) Hv), (proj2 (verify_issued_by_Ok _ _) Hi).
Qed.

Lemma validate_chain_complete chain trust_anchors t jwk :
  (exists leaf certs top top_der,
    Forall2 (fun der c => cert_from_der der = inl c) chain (leaf :: certs) /\
    Forall (valid_at t) (leaf :: certs) /\ linked (leaf :: certs) /\
    last (leaf :: certs) = Some top /\ last chain = Some top_der /\
    (exists a, a ∈ trust_anchors /\ anchored t top_der top a) /\
    p256_jwk (cert_public_key leaf) = Ok jwk) ->
  validate_chain chain trust_anchors t = Ok jwk.
Proof.
  unfold validate_chain.
  intros (leaf & certs & top & top_der & Hp & Hv & Hl & Ht & Hd & (a & Ha & Hanc) & Hj).
  rewrite (proj2 (parse_all_Ok _ _) Hp). cbn [res_bind ok_or head].
  rewrite (proj2 (check_links_Ok 0 _ _) (conj Hv Hl)). cbn [res_bind]. rewrite Ht, Hd.
  assert (existsb (anchors top_der top t) trust_anchors = true) as ->; [|done].
  apply existsb_exists. exists a. split; [by apply list_elem_of_In|]. by apply anchors_spec.
Qed.

(** C33: A chain validates exactly when it is not empty, every certificate
    parses and is inside its validity period, each but the last is signed by
    the P-256 key of the next, which it names and which is a CA, and the last
    is a trust anchor or is signed by one that is itself inside its period;
    the answer is the public key of the first.  The anchor need not be a CA. *)
Theorem validate_chain_exact chain trust_anchors t jwk :
  validate_chain chain trust_anchors t = Ok jwk <->
  exists leaf certs top top_der,
    Forall2 (fun der c => cert_from_der der = inl c) chain (leaf :: certs) /\
    Forall (valid_at t) (leaf :: certs) /\ linked (leaf :: certs) /\
    last (leaf :: certs) = Some top /\ last chain = Some top_der /\
    (exists a, a ∈ trust_anchors /\ anchored t top_der top a) /\
    p256_jwk (cert_public_key leaf) = Ok jwk.
Proof.
  split.
  - unfold validate_chain. intros Ho. inv_ok. repeat match goal with u : () |- _ => destruct u end.
    match goal with Hp : parse_all _ = Ok ?cs |- _ => apply parse_all_Ok in Hp; destruct cs as [|leaf certs]; [done|] end.
    match goal with Hh : head _ = Some _ |- _ => injection Hh as <- end.
    match goal with Hl : check_links _ _ _ = Ok _ |- _ => apply check_links_Ok in Hl as [? ?] end.
    destruct (last (leaf :: certs)) as [top|] eqn:Ht; [|discriminate Ho].
    destruct (last chain) as [top_der|] eqn:Hd; [|discriminate Ho]. inv_ok. b2p.
    exists leaf, certs, top, top_der. repeat (split; [done|]). split; [|done].
    match goal with Hx : existsb _ _ = true |- _ => apply existsb_exists in Hx as (a & Ha & Hanc) end.
    exists a. split; [by apply list_elem_of_In|]. by apply anchors_spec.
  - apply validate_chain_complete.
Qed.

(** The code behind the signature checks never panics. *)
Lemma parse_all_np ders : parse_all ders <> Panic.
Proof. induction ders; simpl; unfold parse_cert; solve_np. Qed.

Lemma check_links_np i certs t : check_links i certs t <> Panic.
Proof.
  revert i. induction certs as [|c certs IH]; intros i; simpl; [done|].
  unfold check_validity, verify_issued_by, p256_verifying_key_of. solve_np.
Qed.

Lemma validate_chain_np chain trust_anchors t : validate_chain chain trust_anchors t <> Panic.
Proof.
  unfold validate_chain. pose proof (parse_all_np chain) as Hnp.
  destruct (parse_all chain) as [certs| |] eqn:Hp; simpl; [|done..].
  apply parse_all_Ok in Hp. destruct certs as [|leaf certs]; simpl; [done|].
  apply np_bind; [apply (check_links_np 0 (leaf :: certs))|intros _].
  destruct (last (leaf :: certs)) as [top|] eqn:Ht.
  - destruct (last chain) as [d|] eqn:Hd.
    + unfold p256_jwk. solve_np.
    + apply last_None in Hd as ->. by apply Forall2_nil_inv_l in Hp.
  - by apply last_None in Ht.
Qed.
End ChainFacts.

#[export] Hint Resolve validate_chain_np : no_panic.

(** ** PEM bundles *)
Section PemFacts.
Context `{B64S : Base64Std} `{B64SL : !Base64StdLaws B64S}.

Definition block_lines (der : bytes) (label : string) : list string :=
  begin_line label :: chunks 64 (b64_encode der) ++ [end_line label].

(** A label, and a line made of base64 characters. *)
Definition label_ok (label : string) : Prop := one_line label.
Definition b64_line (l : string) : Prop := all_chars b64_char l = true.

Lemma b64_char_plain c : b64_char c = true -> plain c = true /\ c <> chr 45.
Proof.
  unfold b64_char, plain. intros Hc.
  assert (33 <= Z.of_N (Ascii.N_of_ascii c) <= 126 /\ Z.of_N (Ascii.N_of_ascii c) <> 45) as [? Hn].
  { repeat match goal with Hx : _ || _ = true |- _ => apply orb_true_iff in Hx as [Hx|Hx] end; b2p; lia. }
  split; [apply andb_true_iff; rewrite !N.leb_le; lia|]. intros ->. by apply Hn.
Qed.

Lemma all_chars_impl (P Q : ascii -> bool) s :
  (forall c, P c = true -> Q c = true) -> all_chars P s = true -> all_chars Q s = true.
Proof.
  intros HPQ. unfold all_chars. rewrite !forallb_forall. eauto.
Qed.

Lemma b64_line_ok l : b64_line l -> one_line l /\ trimmed l.
Proof.
  intros Hl. assert (all_chars plain l = true) as Hp.
  { apply (all_chars_impl b64_char); [|done]. intros c Hc. by apply b64_char_plain. }
  split; [split; by eapply all_chars_no|]. by apply plain_trimmed.
Qed.

Lemma dashes_ok (label kind : string) :
  label_ok label -> one_line kind ->
  let l := "-----" +:+ kind +:+ label +:+ "-----" in one_line l /\ trimmed l.
Proof.
  intros [Hl1 Hl2] [Hk1 Hk2]. split.
  - split; rewrite !has_char_app; rewrite ?Hl1, ?Hl2, ?Hk1, ?Hk2; reflexivity.
  - right. split; [eexists _, _; split; [reflexivity|reflexivity]|].
    rewrite <- (string_app_assoc kind), <- (string_app_assoc "-----"), string_rev_app.
    eexists _, _. split; reflexivity.
Qed.

Lemma block_lines_ok der label :
  label_ok label -> Forall (fun l => one_line l /\ trimmed l) (block_lines der label).
Proof.
  intros Hl. unfold block_lines. constructor; [by apply (dashes_ok label "BEGIN ")|].
  apply Forall_app. split; [|apply Forall_singleton; by apply (dashes_ok label "END ")].
  eapply Forall_impl; [|apply b64_line_ok].
  apply chunks_go_chars; [done|]. unfold all_chars. apply forallb_forall. intros c. apply b64_alphabet.
Qed.

Lemma der_to_pem_lines der label : der_to_pem der label = text_of (block_lines der label).
Proof.
  unfold der_to_pem, block_lines.
  change (text_of (begin_line label :: chunks 64 (b64_encode der) ++ [end_line label]))
    with ((begin_line label +:+ String LF EmptyString)
          +:+ text_of (chunks 64 (b64_encode der) ++ [end_line label])).
  rewrite text_of_app, string_app_assoc. unfold text_of at 2. simpl. rewrite string_app_nil_r.
  done.
Qed.

(** The scan reads the lines of the blocks, whatever their number. *)
Lemma pem_blocks_text ls label :
  Forall (fun l => one_line l /\ trimmed l) ls -> pem_blocks (text_of ls) label = pem_scan label ls None.
Proof.
  intros Hls. unfold pem_blocks. rewrite lines_text_of by (eapply Forall_impl; [done|by intros ? []]).
  f_equal. induction Hls as [|l ls [_ Hl] _ IH]; simpl; [done|]. by rewrite IH, trim_id.
Qed.

Lemma b64_line_not_dash (l : string) (t : string) : b64_line l -> l <> String (chr 45) t.
Proof.
  intros Hl ->. unfold b64_line, all_chars in Hl. simpl in Hl. done.
Qed.

Lemma pem_scan_body label ls body rest :
  Forall b64_line ls ->
  pem_scan label (ls ++ rest) body =
    pem_scan label rest (match body with Some b => Some (b +:+ concat ls) | None => None end).
Proof.
  intros Hls. revert body. induction Hls as [|l ls Hl _ IH]; intros body; simpl.
  - destruct body; [|done]. by rewrite string_app_nil_r.
  - rewrite !bool_decide_eq_false_2 by (by apply b64_line_not_dash). rewrite IH.
    destruct body; [|done]. by rewrite string_app_assoc.
Qed.

Lemma block_b64 der : Forall b64_line (chunks 64 (b64_encode der)).
Proof.
  apply chunks_go_chars; [done|]. unfold all_chars. apply forallb_forall. intros c. apply b64_alphabet.
Qed.

Lemma begin_not_end label label' : begin_line label <> end_line label'.
Proof. discriminate. Qed.

Lemma pem_scan_block label der rest :
  Forall is_u8 der ->
  pem_scan label (block_lines der label ++ rest) None = der :: pem_scan label rest None.
Proof.
  intros Hd. unfold block_lines. cbn [app pem_scan].
  rewrite bool_decide_eq_true_2 by done. rewrite <- app_assoc, pem_scan_body by apply block_b64.
  cbn [app pem_scan]. rewrite bool_decide_eq_false_2 by (intros Hx; symmetry in Hx; by apply begin_not_end in Hx).
  rewrite bool_decide_eq_true_2 by done. rewrite chunks_concat, string_app_nil_l.
  by rewrite b64_roundtrip.
Qed.

Lemma pem_scan_skip label label' der rest :
  begin_line label' <> begin_line label -> end_line label' <> end_line label ->
  pem_scan label (block_lines der label' ++ rest) None = pem_scan label rest None.
Proof.
  intros Hb He. unfold block_lines. cbn [app pem_scan].
  rewrite (bool_decide_eq_false_2 _ Hb), (bool_decide_eq_false_2 _ (begin_not_end _ _)).
  rewrite <- app_assoc, pem_scan_body by apply block_b64.
  cbn [app pem_scan]. rewrite bool_decide_eq_false_2 by (intros Hx; symmetry in Hx; by apply begin_not_end in Hx).
  by rewrite (bool_decide_eq_false_2 _ He).
Qed.

(** The lines of a bundle of labelled blocks. *)
Definition bundle_lines (blocks : list (bytes * string)) : list string :=
  flat_map (fun b => block_lines b.1 b.2) blocks.

Lemma bundle_text blocks :
  concat (map (fun b => der_to_pem b.1 b.2) blocks) = text_of (bundle_lines blocks).
Proof.
  induction blocks as [|[der label] blocks IH]; [done|].
  change (bundle_lines ((der, label) :: blocks)) with (block_lines der label ++ bundle_lines blocks).
  rewrite text_of_app, <- IH. simpl. by rewrite der_to_pem_lines.
Qed.

Lemma bundle_lines_ok blocks :
  Forall (fun b => label_ok b.2) blocks ->
  Forall (fun l => one_line l /\ trimmed l) (bundle_lines blocks).
Proof.
  induction 1 as [|[der label] blocks Hl _ IH]; [constructor|].
  apply Forall_app. split; [by apply block_lines_ok|done].
Qed.
End PemFacts.

Section BundleFacts.
Context `{X : X509Api} `{B64S : Base64Std} `{B64SL : !Base64StdLaws B64S} `{Base64Url} `{P256} `{Chrono}.

(** The certificate is one for the key. *)
Definition certifies (public_key : bytes) (c : IssuerCertificate) : Prop :=
  Forall is_u8 (icert_der c) /\
  exists cert, cert_from_der (icert_der c) = inl cert /\ cert_public_key cert = public_key.

Lemma issuer_cert_from_der_ok public_key c :
  certifies public_key c -> issuer_cert_from_der (icert_der c) public_key = Ok c.
Proof.
  intros (_ & cert & Hc & Hk). unfold issuer_cert_from_der, parse_cert. rewrite Hc. simpl.
  rewrite bool_decide_eq_false_2 by auto. by destruct c.
Qed.

Lemma pki_parse_to_pem p public_key :
  certifies public_key (pki_leaf p) -> certifies public_key (pki_mdoc_signer p) ->
  certifies public_key (pki_mdoc_status_signer p) ->
  Forall is_u8 (pki_trust_anchor p) -> Forall is_u8 (pki_crl p) ->
  pki_parse (pki_to_pem p) public_key = Ok p.
Proof.
  intros Hl Hm Hs Ha Hcrl.
  set (C := "CERTIFICATE"%string). set (R := "X509 CRL"%string).
  set (blocks := [(icert_der (pki_leaf p), C); (icert_der (pki_mdoc_signer p), C);
    (icert_der (pki_mdoc_status_signer p), C); (pki_trust_anchor p, C); (pki_crl p, R)]).
  assert (Ht : pki_to_pem p = text_of (bundle_lines blocks)) by (rewrite <- bundle_text; done).
  assert (Hok : Forall (fun b => label_ok b.2) blocks) by (repeat constructor).
  pose proof (bundle_lines_ok blocks Hok) as Hls.
  unfold pki_parse. rewrite Ht, !pem_blocks_text by done.
  unfold bundle_lines, blocks. cbn [flat_map fst snd].
  rewrite !pem_scan_block by (done || by apply Hl || by apply Hm || by apply Hs).
  rewrite pem_scan_skip by discriminate.
  rewrite (pem_scan_skip R C), (pem_scan_skip R C), (pem_scan_skip R C), (pem_scan_skip R C) by discriminate.
  rewrite pem_scan_block by done. cbn [pem_scan head ok_or res_bind].
  rewrite !issuer_cert_from_der_ok by done. simpl. by destruct p.
Qed.

Context {E : Type -> Type} {St : Type} (op : backend E St).

(** A bundle of the issuer's certificates survives being written to PEM and
    read back: when the three leaves certify the key and chain to the bundled
    anchor whenever they are checked, loading the text gives the bundle. *)
Theorem pki_bundle_roundtrip p public_key w :
  certifies public_key (pki_leaf p) -> certifies public_key (pki_mdoc_signer p) ->
  certifies public_key (pki_mdoc_status_signer p) ->
  Forall is_u8 (pki_trust_anchor p) -> Forall is_u8 (pki_crl p) ->
  (forall n c, c ∈ [pki_leaf p; pki_mdoc_signer p; pki_mdoc_status_signer p] ->
     is_ok (validate_chain [icert_der c] [pki_trust_anchor p] (clock (sys w) n)) = true) ->
  (run (world_handler op) (pki_from_pem (pki_to_pem p) public_key) w).1 = Ok p.
Proof.
  intros Hl Hm Hs Ha Hcrl Hv. unfold pki_from_pem.
  rewrite pki_parse_to_pem by done. unfold pbind_res. simpl.
  assert (Hok : forall n c, c ∈ [pki_leaf p; pki_mdoc_signer p; pki_mdoc_status_signer p] ->
    exists k, validate_chain [icert_der c] [pki_trust_anchor p] (clock (sys w) n) = Ok k).
  { intros n c Hc. specialize (Hv n c Hc). destruct (validate_chain _ _ _); try done. eauto. }
  destruct (Hok (ticks (sys w)) (pki_leaf p)) as [k1 ->]; [set_solver|]. simpl.
  destruct (Hok (S (ticks (sys w))) (pki_mdoc_signer p)) as [k2 ->]; [set_solver|]. simpl.
  by destruct (Hok (S (S (ticks (sys w)))) (pki_mdoc_status_signer p)) as [k3 ->]; [set_solver|].
Qed.
End BundleFacts.

(** ** A concrete certificate format

    A certificate printed through a JSON value, its issuer's signature over
    the rest.  It only shows that the hypotheses above can hold. *)
Module ToyX509.
Import Json Toy ToyCurves ToyCodec SysDemo.

Record Cert := mkCert {
  tc_from : Z; tc_to : Z; tc_issuer : string; tc_subject : string; tc_key : bytes; tc_ca : bool;
  tc_country : option string; tc_signature : bytes;
}.

Definition bytes_value (b : bytes) : Value := VString (enc b).
Definition tbs_value (c : Cert) : Value :=
  VArray [VNumber (NInt (tc_from c)); VNumber (NInt (tc_to c)); VString (tc_issuer c);
    VString (tc_subject c); bytes_value (tc_key c); VBool (tc_ca c);
    from_option VString VNull (tc_country c)].
Definition of_values (v w : Value) : Cert + string :=
  match v, w with
  | VArray [VNumber (NInt a); VNumber (NInt b); VString i; VString s; VString k; VBool ca; co], VString g =>
      match dec k, dec g with
      | inl k, inl g => inl (mkCert a b i s k ca (as_str co) g)
      | _, _ => inr "malformed"%string
      end
  | _, _ => inr "malformed"%string
  end.

Definition cert_der (c : Cert) : bytes :=
  match to_vec (VArray [tbs_value c; bytes_value (tc_signature c)]) with inl b => b | inr _ => [] end.

#[export] Instance toy_x509 : X509Api := {|
  Certificate := Cert;
  cert_from_der b := match from_slice b with
    | inl (VArray [v; w]) => of_values v w | _ => inr "malformed"%string end;
  cert_not_before := tc_from; cert_not_after := tc_to; cert_subject_text := tc_subject;
  cert_subject_name c := as_bytes (tc_subject c); cert_issuer_name c := as_bytes (tc_issuer c);
  cert_subject c := [[(COUNTRY_NAME, tc_country c)]];
  cert_signature_oid _ := ECDSA_WITH_SHA_256; cert_signature := tc_signature;
  cert_tbs_der c := to_vec (tbs_value c);
  cert_public_key := tc_key; cert_key_oid _ := ID_EC_PUBLIC_KEY; cert_key_curve _ := Some SECP_256_R_1;
  cert_extensions c := if tc_ca c then [(ID_CE_BASIC_CONSTRAINTS, [1])] else [];
  basic_constraints_ca b := inl (bool_decide (b = [1])) |}.

(** A certificate for a key, signed by a key. *)
Definition mint (signer key : bool) (issuer subject : string) (ca : bool) : Cert :=
  let c := mkCert 0 2000 issuer subject (@p256_sec1 p256 key) ca (Some "ZZ"%string) [] in
  let tbs := match to_vec (tbs_value c) with inl b => b | inr _ => [] end in
  mkCert 0 2000 issuer subject (@p256_sec1 p256 key) ca (Some "ZZ"%string) (sig_bytes (sign signer tbs)).

(** The root holds the other key, and is not marked as a CA. *)
Definition root_cert : Cert := Eval vm_compute in mint false false "R" "R" false.
Definition leaf_cert : Cert := Eval vm_compute in mint false true "R" "L" false.
Definition root : bytes := Eval vm_compute in cert_der root_cert.
Definition leaf_der : bytes := Eval vm_compute in cert_der leaf_cert.
Definition leaf : IssuerCertificate := mkIssuerCertificate leaf_der.
Definition pki : IssuerPki := mkIssuerPki root leaf leaf leaf [1; 2; 3].
Definition leaf_jwk : Jwk := Eval vm_compute in
  unwrap_or (mkJwk EmptyString None None None None None None None)
    (p256_jwk (@p256_sec1 p256 true)).

Lemma validate_leaf t :
  0 <= t <= 2000 * NANOS -> validate_chain [leaf_der] [root] t = Ok leaf_jwk.
Proof.
  intros Ht. apply validate_chain_complete.
  exists leaf_cert, [], leaf_cert, leaf_der.
  assert (Hv : forall c, tc_from c = 0 -> tc_to c = 2000 -> valid_at t c).
  { intros c Hf Hto. unfold valid_at, cert_not_before, cert_not_after, toy_x509. rewrite Hf, Hto.
    change (to_datetime 0) with 0. change (to_datetime 2000) with (2000 * NANOS). done. }
  split; [constructor; [vm_compute; reflexivity|constructor]|].
  split; [constructor; [by apply Hv|constructor]|].
  repeat (split; [done|]). split; [|vm_compute; reflexivity].
  exists root. split; [constructor|]. right. exists root_cert.
  split; [vm_compute; reflexivity|]. split; [by apply Hv|].
  repeat (split; [reflexivity|]). do 3 eexists. repeat (split; [vm_compute; reflexivity|]).
  vm_compute. reflexivity.
Qed.

Lemma demo_clock_near n : 0 <= clock demo_sys n <= 2000 * NANOS.
Proof. unfold NANOS. simpl. unfold NANOS. lia. Qed.

Lemma bytes_u8 b : forallb (fun x => (0 <=? x) && (x <? 256)) b = true -> Forall is_u8 b.
Proof.
  intros Hb. apply list.Forall_forall. intros x Hx. rewrite forallb_forall in Hb.
  apply list_elem_of_In, Hb in Hx. b2p. unfold is_u8. lia.
Qed.

Lemma leaf_certifies : certifies (@p256_sec1 p256 true) leaf.
Proof.
  split; [apply bytes_u8; vm_compute; reflexivity|].
  exists leaf_cert. split; vm_compute; reflexivity.
Qed.

Definition NoE : Type -> Type := fun _ => Empty_set.
Definition no_op : backend NoE unit := fun X e => match e with end.

Lemma pki_bundle_roundtrip_witness :
  (run (world_handler no_op) (pki_from_pem (pki_to_pem pki) (@p256_sec1 p256 true))
     (mkWorld demo_sys tt)).1 = Ok pki.
Proof.
  apply (pki_bundle_roundtrip no_op pki (@p256_sec1 p256 true) (mkWorld demo_sys tt)).
  - apply leaf_certifies.
  - apply leaf_certifies.
  - apply leaf_certifies.
  - apply bytes_u8. vm_compute. reflexivity.
  - apply bytes_u8. vm_compute. reflexivity.
  - intros n c Hc. assert (icert_der c = leaf_der) as ->.
    { change (c ∈ [leaf; leaf; leaf]) in Hc. set_solver. }
    change (pki_trust_anchor pki) with root. by rewrite validate_leaf by apply demo_clock_near.
Defined.
End ToyX509.
