(* ===== verification/X509Mint.v ===== *)
(** * The development certificates

    crates/crypto/src/x509.rs: [IssuerPki::mint_development], the parameters of
    the certificates it makes and what a bundle of them is good for.  Encoding
    and signing certificates is [rcgen]'s work, a parameter here. *)
From S2P Require Import Prelude Externals Strings Json Effects Keys X509.

(** ** [rcgen] *)
Inductive IsCa := NoCa | ExplicitNoCa | Ca (path_len_constraint : Z).
Inductive KeyUsagePurpose := DigitalSignature | KeyCertSign | CrlSign.
Inductive DnType := DnCountryName | DnCommonName.
(** The default is the SHA-256 of the key. *)
Inductive KeyIdMethod := KeyIdSha256 | PreSpecified (id : bytes).

Record CustomExtension := mkCustomExtension {
  ce_oid : list Z;
  ce_content : bytes;
  ce_critical : bool;
}.

(** The types of the crate that the sources only pass on. *)
Class RcgenTypes := {
  DistinguishedName : Type;
  (** The fields of the parameters that the sources leave as they are *)
  ParamsRest : Type;
  RcgenKeyPair : Type;
}.

Record CertificateParams `{RcgenTypes} := mkCertificateParams {
  cp_distinguished_name : DistinguishedName;
  cp_serial_number : option bytes;
  cp_not_before : DateTime;
  cp_not_after : DateTime;
  cp_is_ca : IsCa;
  cp_key_usages : list KeyUsagePurpose;
  cp_key_identifier_method : KeyIdMethod;
  cp_use_authority_key_identifier_extension : bool;
  cp_custom_extensions : list CustomExtension;
  cp_crl_distribution_points : list (list string);
  cp_rest : ParamsRest;
}.

Record CertificateRevocationListParams := mkCrlParams {
  crl_this_update : DateTime;
  crl_next_update : DateTime;
  crl_number : Z;
  crl_revoked_certs : list bytes;
  crl_key_identifier_method : KeyIdMethod;
}.

(** Key generation and signing take the random bytes they use; an error is its
    text. *)
Class Rcgen `{RcgenTypes} := {
  params_default : CertificateParams;
  params_new : list string -> CertificateParams + string;
  dn_new : DistinguishedName;
  (** [push] of a UTF-8 value, and of a PrintableString made from the text *)
  dn_push : DistinguishedName -> DnType -> string -> DistinguishedName;
  dn_push_printable : DistinguishedName -> DnType -> string -> DistinguishedName + string;
  key_generate : bytes -> RcgenKeyPair + string;
  key_from_pem : string -> RcgenKeyPair + string;
  key_public_raw : RcgenKeyPair -> bytes;
  (** [params.self_signed(key)], [params.signed_by(key, issuer)] for the issuer
      with these parameters and key, and the same of a CRL: the DER *)
  self_signed : CertificateParams -> RcgenKeyPair -> bytes -> bytes + string;
  signed_by : CertificateParams -> RcgenKeyPair -> CertificateParams * RcgenKeyPair -> bytes -> bytes + string;
  crl_signed_by : CertificateRevocationListParams -> CertificateParams * RcgenKeyPair -> bytes -> bytes + string;
  (** [x509_cert]'s encodings of a SubjectKeyIdentifier, an ExtendedKeyUsage and
      an IssuerAltName with one URI *)
  ski_der : bytes -> bytes + string;
  eku_der : list string -> bytes + string;
  ian_der : string -> bytes + string;
  sha1 : bytes -> bytes;
  (** [OffsetDateTime + Duration::days(n)]; it panics ([None]) out of range *)
  add_days : DateTime -> Z -> option DateTime;
}.

Definition OID_MDL_DS : string := "1.0.18013.5.1.2".
Definition DEVELOPMENT_COUNTRY : string := "ZZ".

Record DevelopmentPkiParams := mkDevelopmentPkiParams {
  dp_key_pkcs8_pem : string;
  dp_host : string;
  dp_issuer_url : string;
}.

(** The random bytes one signature or key takes. *)
Definition SEED : nat := 32.

(** ** Minting *)
Section Mint.
Context `{Base64Std} `{RT : RcgenTypes} `{!Rcgen}.

Definition gen {A} (r : A + string) : res A X509Error := map_err X5_Generation (from_ext r).

Definition subject (common_name : string) : res DistinguishedName X509Error :=
  let? name := gen (dn_push_printable dn_new DnCountryName DEVELOPMENT_COUNTRY) in
  Ok (dn_push name DnCommonName common_name).

Definition sha1_key_id (public_key : bytes) : bytes := sha1 public_key.

(** [bytes[0] &= 0x7f; bytes[0] |= 0x01] *)
Definition serial_of (random : bytes) : bytes :=
  match random with
  | b :: rest => Z.lor (Z.land b 127) 1 :: rest
  | [] => []
  end.

Definition extension (oid : list Z) (value : bytes + string) (critical : bool) : res CustomExtension X509Error :=
  let? der := gen value in
  Ok (mkCustomExtension oid der critical).

Definition subject_key_identifier (key_id : bytes) : res CustomExtension X509Error :=
  extension [2; 5; 29; 14] (ski_der key_id) false.
Definition mdl_ds_eku : res CustomExtension X509Error := extension [2; 5; 29; 37] (eku_der [OID_MDL_DS]) true.
Definition issuer_alt_name (uri : string) : res CustomExtension X509Error :=
  extension [2; 5; 29; 18] (ian_der uri) false.

Definition plus_days (t : DateTime) (days : Z) : res DateTime X509Error :=
  match add_days t days with Some t' => Ok t' | None => Panic end.

Definition root_params (name : DistinguishedName) (serial : bytes) (not_before not_after : DateTime) (ski : bytes)
    (ian : CustomExtension) : CertificateParams := {|
  cp_distinguished_name := name;
  cp_serial_number := Some serial;
  cp_not_before := not_before;
  cp_not_after := not_after;
  cp_is_ca := Ca 0;
  cp_key_usages := [KeyCertSign; CrlSign];
  cp_key_identifier_method := PreSpecified ski;
  cp_use_authority_key_identifier_extension := cp_use_authority_key_identifier_extension params_default;
  cp_custom_extensions := [ian];
  cp_crl_distribution_points := cp_crl_distribution_points params_default;
  cp_rest := cp_rest params_default |}.

(** The leaf for [x5c], over the parameters made from the host. *)
Definition x5c_params (p : CertificateParams) (host : string) (serial : bytes) (not_before not_after : DateTime)
    (key_id : bytes) : CertificateParams := {|
  cp_distinguished_name := dn_push (cp_distinguished_name p) DnCommonName host;
  cp_serial_number := Some serial;
  cp_not_before := not_before;
  cp_not_after := not_after;
  cp_is_ca := ExplicitNoCa;
  cp_key_usages := [DigitalSignature];
  cp_key_identifier_method := PreSpecified key_id;
  cp_use_authority_key_identifier_extension := true;
  cp_custom_extensions := cp_custom_extensions p;
  cp_crl_distribution_points := cp_crl_distribution_points p;
  cp_rest := cp_rest p |}.

Definition leaf_params (name : DistinguishedName) (serial : bytes) (not_before not_after : DateTime)
    (extensions : list CustomExtension) (crl : list (list string)) : CertificateParams := {|
  cp_distinguished_name := name;
  cp_serial_number := Some serial;
  cp_not_before := not_before;
  cp_not_after := not_after;
  cp_is_ca := NoCa;
  cp_key_usages := [DigitalSignature];
  cp_key_identifier_method := cp_key_identifier_method params_default;
  cp_use_authority_key_identifier_extension := true;
  cp_custom_extensions := extensions;
  cp_crl_distribution_points := crl;
  cp_rest := cp_rest params_default |}.

Context {F : Type -> Type} `{Sub SysE F}.

Definition random_serial : prog F bytes := pmap serial_of (random_bytes 16).

(** The closure [leaf]; the distribution points are set after it returns. *)
Definition leaf_certificate (common_name : string) (extra : list CustomExtension) (not_before not_after : DateTime)
    (key_id : bytes) (crl : list (list string)) : prog F (res CertificateParams X509Error) :=
  do? name <- Ret (subject common_name);
  do serial <- random_serial;
  do? ski <- Ret (subject_key_identifier key_id);
  Ret (Ok (leaf_params name serial not_before not_after (extra ++ [ski]) crl)).

(** The closure [sign]. *)
Definition sign_leaf (key : RcgenKeyPair) (issuer : CertificateParams * RcgenKeyPair) (params : CertificateParams)
    : prog F (res IssuerCertificate X509Error) :=
  do seed <- random_bytes SEED;
  do? der <- Ret (gen (signed_by params key issuer seed));
  Ret (Ok (mkIssuerCertificate der)).

(** The root: its DER, and the issuer with its parameters and key. *)
Definition mint_root (ian : CustomExtension) (now not_before : DateTime)
    : prog F (res (bytes * (CertificateParams * RcgenKeyPair)) X509Error) :=
  do seed <- random_bytes SEED;
  do? root_key <- Ret (gen (key_generate seed));
  do? name <- Ret (subject "oid4vc-rs Development IACA");
  do serial <- random_serial;
  do? not_after <- Ret (plus_days now (9 * 365));
  let root := root_params name serial not_before not_after (sha1_key_id (key_public_raw root_key)) ian in
  do seed <- random_bytes SEED;
  do? der <- Ret (gen (self_signed root root_key seed));
  Ret (Ok (der, (root, root_key))).

Definition mint_development (params : DevelopmentPkiParams) : prog F (res IssuerPki X509Error) :=
  do now <- utc_now;
  do? not_before <- Ret (plus_days now (-1));
  do? leaf_not_after <- Ret (plus_days now 400);
  let crl_uri := trim_end_matches slash (dp_issuer_url params) +:+ CRL_PATH in
  do? ian <- Ret (issuer_alt_name (dp_issuer_url params));
  do? ' (root_der, issuer) <- mint_root ian now not_before;
  do? key <- Ret (gen (key_from_pem (dp_key_pkcs8_pem params)));
  let key_id := sha1_key_id (key_public_raw key) in
  do? host_params <- Ret (gen (params_new [dp_host params]));
  do serial <- random_serial;
  let x5c_leaf := x5c_params host_params (dp_host params) serial not_before leaf_not_after key_id in
  do? eku <- Ret mdl_ds_eku;
  do? ds <- leaf_certificate "oid4vc-rs Development Document Signer" [eku; ian] not_before leaf_not_after key_id [[crl_uri]];
  do? status_signer <- leaf_certificate "oid4vc-rs Development Status List Signer" [] not_before leaf_not_after key_id
    (cp_crl_distribution_points params_default);
  do seed <- random_bytes SEED;
  do? crl <- Ret (gen (crl_signed_by
    (mkCrlParams not_before leaf_not_after 1 [] (PreSpecified (sha1_key_id (key_public_raw issuer.2)))) issuer seed));
  do? leaf <- sign_leaf key issuer x5c_leaf;
  do? mdoc_signer <- sign_leaf key issuer ds;
  do? mdoc_status_signer <- sign_leaf key issuer status_signer;
  Ret (Ok (mkIssuerPki root_der leaf mdoc_signer mdoc_status_signer crl)).

Record DevelopmentChain := mkDevelopmentChain {
  dc_trust_anchor_pem : string;
  dc_leaf : IssuerCertificate;
}.

Definition issue_development_chain (key_pkcs8_pem host : string) : prog F (res DevelopmentChain X509Error) :=
  do? pki <- mint_development (mkDevelopmentPkiParams key_pkcs8_pem host ("https://" +:+ host));
  Ret (Ok (mkDevelopmentChain (trust_anchor_pem pki) (pki_leaf pki))).
End Mint.

(** What the documentation of [rcgen] says of the certificates it makes, as
    [x509_cert] reads them. *)
Class RcgenLaws `{X509Api} `{P256} `{RT : RcgenTypes} `{!Rcgen} (name_der : DistinguishedName -> bytes) : Prop := {
  add_days_spec t d t' : add_days t d = Some t' -> t' = t + d * DAY_NANOS;
  generated_point s k : key_generate s = inl k -> exists vk, p256_from_sec1 (key_public_raw k) = inl vk;
  key_from_pem_spec pem k sk : key_from_pem pem = inl k -> p256_from_pkcs8_pem pem = inl sk ->
    key_public_raw k = p256_sec1 (p256_verifying_key sk);
  self_signed_spec s p k r der : key_generate s = inl k -> self_signed p k r = inl der ->
    Forall is_u8 der /\ exists c, cert_from_der der = inl c /\
      cert_not_before c = cp_not_before p / NANOS /\ cert_not_after c = cp_not_after p / NANOS /\
      cert_subject_name c = name_der (cp_distinguished_name p) /\ cert_public_key c = key_public_raw k /\
      cert_key_oid c = ID_EC_PUBLIC_KEY /\ cert_key_curve c = Some SECP_256_R_1;
  signed_by_spec s p k root root_key r der : key_generate s = inl root_key -> signed_by p k (root, root_key) r = inl der ->
    Forall is_u8 der /\ exists c, cert_from_der der = inl c /\
      cert_not_before c = cp_not_before p / NANOS /\ cert_not_after c = cp_not_after p / NANOS /\
      cert_issuer_name c = name_der (cp_distinguished_name root) /\ cert_public_key c = key_public_raw k /\
      cert_signature_oid c = ECDSA_WITH_SHA_256 /\
      exists vk signature tbs, p256_from_sec1 (key_public_raw root_key) = inl vk /\
        p256_sig_from_der (cert_signature c) = inl signature /\ cert_tbs_der c = inl tbs /\
        p256_verify vk tbs signature = inl tt;
  crl_signed_by_spec p i r der : crl_signed_by p i r = inl der -> Forall is_u8 der;
}.

(** ** The lifetime of a minted bundle *)
Section MintFacts.
Context `{X : X509Api} `{B64S : Base64Std} `{B64SL : !Base64StdLaws B64S} `{Base64Url} `{P : P256} `{PL : !P256Laws P}.
Context `{CH : Chrono} `{CHL : !ChronoLaws CH} `{RT : RcgenTypes} `{R : !Rcgen}.
Context (name_der : DistinguishedName -> bytes) `{RL : !RcgenLaws name_der}.

Definition leaves (p : IssuerPki) : list IssuerCertificate := [pki_leaf p; pki_mdoc_signer p; pki_mdoc_status_signer p].

(** A bundle minted at [now] for the key: a root of nine years, and three
    certificates it issued for 400 days. *)
Definition minted (now : DateTime) (pem : string) (p : IssuerPki) : Prop :=
  exists root root_key key s0 s1,
    key_generate s0 = inl root_key /\ self_signed root root_key s1 = inl (pki_trust_anchor p) /\
    cp_not_before root = now - DAY_NANOS /\ cp_not_after root = now + 3285 * DAY_NANOS /\
    key_from_pem pem = inl key /\
    Forall (fun c => exists params s, signed_by params key (root, root_key) s = inl (icert_der c) /\
      cp_not_before params = now - DAY_NANOS /\ cp_not_after params = now + 400 * DAY_NANOS) (leaves p) /\
    exists params s, crl_signed_by params (root, root_key) s = inl (pki_crl p).

Context {E : Type -> Type} {St : Type} (op : backend E St).

Lemma plus_days_Ok t d t' : plus_days t d = Ok t' -> t' = t + d * DAY_NANOS.
Proof. unfold plus_days. destruct (add_days t d) as [t''|] eqn:Ht; [|done]. intros [= <-]. by apply add_days_spec. Qed.

Lemma gen_Ok {A} (r : A + string) a : gen r = Ok a -> r = inl a.
Proof. unfold gen. intros Hr. by inv_ok. Qed.

Lemma leaf_certificate_Ok name extra nb na key_id crl (w w' : World St) p :
  run (world_handler op) (leaf_certificate name extra nb na key_id crl) w = (Ok p, w') ->
  cp_not_before p = nb /\ cp_not_after p = na.
Proof. unfold leaf_certificate. intros Hr. run_inv. done. Qed.

Lemma sign_leaf_Ok key issuer p (w w' : World St) c :
  run (world_handler op) (sign_leaf key issuer p) w = (Ok c, w') ->
  exists s, signed_by p key issuer s = inl (icert_der c).
Proof.
  unfold sign_leaf. intros Hr. run_inv. eexists. simpl. by apply gen_Ok.
Qed.

Lemma mint_shape params (w w' : World St) p :
  run (world_handler op) (mint_development params) w = (Ok p, w') ->
  minted (clock (sys w) (ticks (sys w))) (dp_key_pkcs8_pem params) p.
Proof.
  unfold mint_development, mint_root. intros Hr.
  run_inv. match goal with Hn : run _ utc_now _ = _ |- _ => injection Hn as <- _ end.
  repeat match goal with
  | Hx : gen _ = Ok _ |- _ => apply gen_Ok in Hx
  | Hx : plus_days _ _ = Ok _ |- _ => apply plus_days_Ok in Hx; subst
  | Hx : run _ (sign_leaf _ _ _) _ = _ |- _ => apply sign_leaf_Ok in Hx
  | Hx : run _ (leaf_certificate _ _ _ _ _ _) _ = _ |- _ => apply leaf_certificate_Ok in Hx as [? ?]
  end.
  do 5 eexists. split; [eassumption|]. split; [eassumption|]. split; [simpl; lia|]. split; [simpl; lia|].
  split; [eassumption|]. split; [|eauto].
  assert (Hl : forall params key root c nb na, (exists s, signed_by params key root s = inl (icert_der c)) ->
    cp_not_before params = nb -> cp_not_after params = na ->
    exists params s, signed_by params key root s = inl (icert_der c) /\ cp_not_before params = nb /\ cp_not_after params = na).
  { intros ? ? ? ? ? ? [? ?]. eauto. }
  repeat constructor; (eapply Hl; [eassumption|simpl; lia..]).
Qed.

(** The instants a certificate's seconds stand for. *)
Lemma to_datetime_secs t : 0 <= t <= 1000000000000 * NANOS -> to_datetime (t / NANOS) = t - t mod NANOS.
Proof.
  intros Ht. assert (0 <= t / NANOS <= 1000000000000) as Hs.
  { split; [apply Z.div_pos; unfold NANOS; lia|]. apply Z.div_le_upper_bound; unfold NANOS in *; lia. }
  unfold to_datetime. rewrite as_i64_id by (apply in_i64_spec; unfold i64_min, i64_max; lia).
  destruct (from_timestamp_total (t / NANOS) ltac:(lia)) as [t' Hf]. rewrite Hf. simpl. apply from_timestamp_spec in Hf as ->.
  rewrite Z.mod_eq by (unfold NANOS; lia). lia.
Qed.

(** A time the certificates can hold: from the second day to the year 30,000. *)
Definition mintable (now : DateTime) : Prop := DAY_NANOS <= now <= 900000000000 * NANOS.

Lemma mintable_datetime now d :
  mintable now -> -1 <= d <= 3285 -> let t := now + d * DAY_NANOS in t - NANOS < to_datetime (t / NANOS) <= t.
Proof.
  intros Hn Hd t. unfold mintable, DAY_NANOS in Hn. rewrite to_datetime_secs.
  - pose proof (Z.mod_pos_bound t NANOS ltac:(done)). lia.
  - unfold t, DAY_NANOS, NANOS in *. lia.
Qed.

(** The certificate of a minted leaf. *)
Lemma minted_leaf now pem sk p c :
  minted now pem p -> p256_from_pkcs8_pem pem = inl sk -> c ∈ leaves p ->
  Forall is_u8 (icert_der c) /\ Forall is_u8 (pki_trust_anchor p) /\
  exists cert anchor, cert_from_der (icert_der c) = inl cert /\ cert_from_der (pki_trust_anchor p) = inl anchor /\
    cert_public_key cert = p256_sec1 (p256_verifying_key sk) /\ issued_by cert anchor /\
    cert_not_before cert = (now - DAY_NANOS) / NANOS /\ cert_not_after cert = (now + 400 * DAY_NANOS) / NANOS /\
    cert_not_before anchor = (now - DAY_NANOS) / NANOS /\ cert_not_after anchor = (now + 3285 * DAY_NANOS) / NANOS.
Proof.
  intros (root & root_key & key & s0 & s1 & Hg & Hroot & Hrb & Hra & Hkey & Hls & _) Hsk Hc.
  destruct (proj1 (list.Forall_forall _ _) Hls c Hc) as (params & s & Hsign & Hb & Ha).
  destruct (self_signed_spec _ _ _ _ _ Hg Hroot) as (Hu & anchor & Hpa & Hab & Haa & Has & Hak & Hao & Hac).
  destruct (signed_by_spec _ _ _ _ _ _ _ Hg Hsign) as (Hu' & cert & Hp & Hcb & Hca & Hci & Hck & Hco & Hsig).
  split; [done|]. split; [done|]. exists cert, anchor. split; [done|]. split; [done|].
  split; [by rewrite Hck; eapply key_from_pem_spec|].
  split; [unfold issued_by; rewrite Hci, Has, Hak; done|]. by rewrite Hcb, Hca, Hab, Haa, Hrb, Hra, Hb, Ha.
Qed.

Lemma minted_certifies now pem sk p c :
  minted now pem p -> p256_from_pkcs8_pem pem = inl sk -> c ∈ leaves p ->
  certifies (p256_sec1 (p256_verifying_key sk)) c.
Proof.
  intros Hm Hsk Hc. destruct (minted_leaf _ _ _ _ _ Hm Hsk Hc) as (? & _ & cert & _ & ? & _ & ? & _).
  split; [done|]. by exists cert.
Qed.

Lemma minted_validates now pem sk p c t :
  minted now pem p -> p256_from_pkcs8_pem pem = inl sk -> mintable now -> c ∈ leaves p ->
  now <= t <= now + 400 * DAY_NANOS - NANOS ->
  is_ok (validate_chain [icert_der c] [pki_trust_anchor p] t) = true.
Proof.
  intros Hm Hsk Hn Hc Ht.
  destruct (minted_leaf _ _ _ _ _ Hm Hsk Hc) as (_ & _ & cert & anchor & Hp & Hpa & Hk & Hi & Hb & Ha & Hab & Haa).
  pose proof (mintable_datetime now (-1) Hn ltac:(lia)) as Hlo. pose proof (mintable_datetime now 400 Hn ltac:(lia)) as Hhi.
  pose proof (mintable_datetime now 3285 Hn ltac:(lia)) as Hroot. simpl in Hlo, Hhi, Hroot.
  replace (now - DAY_NANOS) with (now + -1 * DAY_NANOS) in * by lia.
  assert (Hd : 0 < NANOS < DAY_NANOS) by done.
  destruct (p256_jwk (cert_public_key cert)) as [jwk|e|] eqn:Hj; [|unfold p256_jwk in Hj; rewrite Hk, p256_sec1_roundtrip in Hj; done..].
  rewrite (validate_chain_complete _ _ _ jwk); [done|].
  exists cert, [], cert, (icert_der c). split; [by repeat constructor|].
  split; [constructor; [|constructor]; unfold valid_at; rewrite Hb, Ha; lia|].
  repeat (split; [done|]). split; [|done]. exists (pki_trust_anchor p). split; [set_solver|]. right. exists anchor.
  split; [done|]. split; [|done]. unfold valid_at. rewrite Hab, Haa. lia.
Qed.

Lemma minted_expires now pem sk p c t :
  minted now pem p -> p256_from_pkcs8_pem pem = inl sk -> mintable now -> c ∈ leaves p ->
  now + 400 * DAY_NANOS < t -> exists what, validate_chain [icert_der c] [pki_trust_anchor p] t = Err (X5_Untrusted what).
Proof.
  intros Hm Hsk Hn Hc Ht. destruct (minted_leaf _ _ _ _ _ Hm Hsk Hc) as (_ & _ & cert & _ & Hp & _ & _ & _ & _ & Ha & _).
  pose proof (mintable_datetime now 400 Hn ltac:(lia)) as Hhi. simpl in Hhi.
  eexists. unfold validate_chain. simpl. unfold parse_cert. rewrite Hp. simpl. unfold check_validity. rewrite Ha.
  assert ((to_datetime ((now + 400 * DAY_NANOS) / NANOS) <? t) = true) as -> by (apply Z.ltb_lt; lia).
  rewrite orb_true_r. done.
Qed.

(** The text of a minted bundle is one. *)
Lemma minted_parses now pem sk p :
  minted now pem p -> p256_from_pkcs8_pem pem = inl sk ->
  Forall is_u8 (pki_trust_anchor p) /\ Forall is_u8 (pki_crl p) /\
  pki_parse (pki_to_pem p) (p256_sec1 (p256_verifying_key sk)) = Ok p.
Proof.
  intros Hr Hsk.
  assert (Hc : forall c, c ∈ leaves p -> certifies (p256_sec1 (p256_verifying_key sk)) c) by (intros; by eapply minted_certifies).
  assert (Hleaf : pki_leaf p ∈ leaves p) by (unfold leaves; set_solver).
  destruct (minted_leaf _ _ _ _ _ Hr Hsk Hleaf) as (_ & Hanchor & _).
  assert (Hcrl : Forall is_u8 (pki_crl p)).
  { destruct Hr as (? & ? & ? & ? & ? & _ & _ & _ & _ & _ & _ & ? & ? & Hcrl). by eapply crl_signed_by_spec. }
  unfold leaves in Hc. split; [done|]. split; [done|]. apply pki_parse_to_pem; [apply Hc; set_solver..|done|done].
Qed.

(** C38: The development certificates.  A bundle minted for a key is written to
    PEM and read back unchanged, with the same key, at every time from its
    minting to the last second of its 400 days; after them it never loads
    again, so that a server which keeps its bundle must replace it. *)
Theorem minted_bundle_lifetime params (w w' : World St) p sk (v : World St) :
  let now := clock (sys w) (ticks (sys w)) in
  let loaded := (run (world_handler op) (pki_from_pem (pki_to_pem p) (p256_sec1 (p256_verifying_key sk))) v).1 in
  mintable now -> p256_from_pkcs8_pem (dp_key_pkcs8_pem params) = inl sk ->
  run (world_handler op) (mint_development params) w = (Ok p, w') ->
  ((forall n, now <= clock (sys v) n <= now + 400 * DAY_NANOS - NANOS) -> loaded = Ok p) /\
  ((forall n, now + 400 * DAY_NANOS < clock (sys v) n) -> exists what, loaded = Err (X5_Untrusted what)).
Proof.
  intros now loaded Hn Hsk Hr. apply mint_shape in Hr. fold now in Hr.
  destruct (minted_parses _ _ _ _ Hr Hsk) as (Hanchor & Hcrl & Hparse). split; intros Hv.
  - apply pki_bundle_roundtrip;
      [apply (minted_certifies now _ sk p _ Hr Hsk); unfold leaves; set_solver..|done|done|].
    intros n c Hin. by eapply minted_validates.
  - unfold loaded, pki_from_pem. rewrite Hparse.
    destruct (minted_expires now _ sk p (pki_leaf p) _ Hr Hsk Hn ltac:(unfold leaves; set_solver) (Hv (ticks (sys v)))) as [what He].
    exists what. simpl. by rewrite He.
Qed.
End MintFacts.

(** ** A concrete certificate maker, for the witnesses *)
Module ToyRcgen.
Import Toy ToyCurves ToyCodec SysDemo ToyX509.

#[export] Instance types : RcgenTypes := {| DistinguishedName := string; ParamsRest := unit; RcgenKeyPair := bool |}.

Definition blank : CertificateParams :=
  mkCertificateParams types "rcgen self signed cert"%string None 0 0 NoCa [] KeyIdSha256 false [] [] tt.

(** A certificate with the fields of the parameters, signed by a key. *)
Definition unsigned (p : CertificateParams) (k : bool) (issuer : string) : Cert :=
  mkCert (cp_not_before p / NANOS) (cp_not_after p / NANOS) issuer (cp_distinguished_name p) (@p256_sec1 p256 k)
    (match cp_is_ca p with Ca _ => true | _ => false end) (Some DEVELOPMENT_COUNTRY) [].
Definition signed (p : CertificateParams) (k : bool) (issuer : string) (by_ : bool) : Cert :=
  let c := unsigned p k issuer in
  let tbs := match to_vec (tbs_value c) with inl b => b | inr _ => [] end in
  mkCert (tc_from c) (tc_to c) (tc_issuer c) (tc_subject c) (tc_key c) (tc_ca c) (tc_country c) (sig_bytes (sign by_ tbs)).

#[export] Instance rcgen : Rcgen := {|
  params_default := blank;
  params_new _ := inl blank;
  dn_new := EmptyString;
  dn_push n _ s := n +:+ "/" +:+ s;
  dn_push_printable n _ s := inl (n +:+ "/" +:+ s);
  key_generate s := inl (bool_decide (head s = Some 1));
  key_from_pem s := inl (bool_decide (s = "1"%string));
  key_public_raw k := @p256_sec1 p256 k;
  self_signed p k _ := inl (cert_der (signed p k (cp_distinguished_name p) k));
  signed_by p k i _ := inl (cert_der (signed p k (cp_distinguished_name i.1) i.2));
  crl_signed_by p i _ := inl [1; 2; 3];
  ski_der b := inl b; eku_der _ := inl [1]; ian_der s := inl (as_bytes s);
  sha1 b := take 20 b;
  add_days t d := Some (t + d * DAY_NANOS) |}.

Lemma sec1_u8 k : Forall is_u8 (@p256_sec1 p256 k).
Proof. destruct k; apply bytes_u8; reflexivity. Qed.

Lemma cert_der_parses c :
  Forall is_u8 (tc_key c) -> Forall is_u8 (tc_signature c) ->
  Forall is_u8 (cert_der c) /\ cert_from_der (cert_der c) = inl c.
Proof.
  intros Hk Hs. unfold cert_der. set (v := VArray [tbs_value c; bytes_value (tc_signature c)]).
  destruct (codec_roundtrip v _ eq_refl) as [Hu Hr]. split; [exact Hu|]. simpl. unfold to_vec in *. rewrite Hr.
  unfold v, tbs_value, bytes_value, of_values. rewrite !dec_enc by done. by destruct c as [? ? ? ? ? ? []].
Qed.

Lemma signed_parses p k i b :
  Forall is_u8 (cert_der (signed p k i b)) /\ cert_from_der (cert_der (signed p k i b)) = inl (signed p k i b).
Proof. apply cert_der_parses; [apply sec1_u8|apply sig_bytes_roundtrip]. Qed.

#[export] Instance rcgen_laws : RcgenLaws (as_bytes : DistinguishedName -> bytes).
Proof.
  split.
  - by intros t d t' [= <-].
  - intros s k [= <-]. eexists. apply p256_sec1_roundtrip.
  - intros pem k sk [= <-] [= <-]. done.
  - intros s p k r der _ [= <-]. destruct (signed_parses p k (cp_distinguished_name p) k) as [Hu Hp]. split; [done|].
    eexists. split; [exact Hp|]. done.
  - intros s p k root root_key r der _ [= <-]. simpl fst. simpl snd.
    destruct (signed_parses p k (cp_distinguished_name root) root_key) as [Hu Hp]. split; [done|].
    eexists. split; [exact Hp|]. repeat (split; [done|]).
    eexists root_key, (sign root_key _), _. split; [apply (p256_sec1_roundtrip (C := p256))|].
    split; [simpl; f_equal; apply sig_bytes_roundtrip|]. split; [reflexivity|]. apply verify_sign.
  - intros p i r der [= <-]. apply bytes_u8. reflexivity.
Qed.

(** The second of January 1970, and the day after. *)
Definition early (days : Z) : Sys := {|
  clock _ := days * DAY_NANOS; ticks := 0; uuids := uuids demo_sys; uuids_used := 0;
  noise := noise demo_sys; noise_used := 0 |}.

Definition mint_params : DevelopmentPkiParams := mkDevelopmentPkiParams "1" "i" "https://i".
Definition minting := run (world_handler no_op) (mint_development mint_params) (mkWorld (early 1) tt).
Definition minted_pki : IssuerPki := Eval vm_compute in
  match minting.1 with Ok p => p | _ => pki end.

#[local] Strategy expand [minting].

Lemma minted_bundle_lifetime_witness :
  (run (world_handler no_op) (pki_from_pem (pki_to_pem minted_pki) (@p256_sec1 p256 true)) (mkWorld (early 2) tt)).1
    = Ok minted_pki /\
  exists what, (run (world_handler no_op) (pki_from_pem (pki_to_pem minted_pki) (@p256_sec1 p256 true))
    (mkWorld (early 500) tt)).1 = Err (X5_Untrusted what).
Proof.
  assert (Hr : run (world_handler no_op) (mint_development mint_params) (mkWorld (early 1) tt) = (Ok minted_pki, minting.2))
    by (change (minting = (Ok minted_pki, minting.2)); apply pair_eq_fst; vm_compute; reflexivity).
  assert (Hn : mintable (clock (early 1) 0)) by (split; apply Z.leb_le; reflexivity).
  assert (Hsk : p256_from_pkcs8_pem (dp_key_pkcs8_pem mint_params) = inl (true : @P256SigningKey p256)) by (vm_compute; reflexivity).
  split.
  - refine (proj1 (minted_bundle_lifetime _ no_op mint_params (mkWorld (early 1) tt) minting.2 minted_pki
      (true : @P256SigningKey p256) (mkWorld (early 2) tt) Hn Hsk Hr) _). intros n. split; apply Z.leb_le; reflexivity.
  - refine (proj2 (minted_bundle_lifetime _ no_op mint_params (mkWorld (early 1) tt) minting.2 minted_pki
      (true : @P256SigningKey p256) (mkWorld (early 500) tt) Hn Hsk Hr) _). intros n. apply Z.ltb_lt. reflexivity.
Defined.
End ToyRcgen.
