(* ===== verification/Cbor.v ===== *)
(** * CBOR values

    The data of [ciborium::Value], the enum the sources build and match on.
    Printing and parsing are third-party code, the functions of the class
    [Ciborium]. *)
From S2P Require Import Prelude Externals Strings.

Inductive Cbor :=
| CInt (z : Z)
| CBytes (b : bytes)
| CFloat (bits : Z)
| CText (s : string)
| CBool (b : bool)
| CNull
| CTag (n : Z) (v : Cbor)
| CArray (l : list Cbor)
| CMap (m : list (Cbor * Cbor)).

Section CborInd.
Variable P : Cbor -> Prop.
Hypothesis Hint : forall z, P (CInt z).
Hypothesis Hbytes : forall b, P (CBytes b).
Hypothesis Hfloat : forall b, P (CFloat b).
Hypothesis Htext : forall s, P (CText s).
Hypothesis Hbool : forall b, P (CBool b).
Hypothesis Hnull : P CNull.
Hypothesis Htag : forall n v, P v -> P (CTag n v).
Hypothesis Harray : forall l, Forall P l -> P (CArray l).
Hypothesis Hmap : forall m, Forall (fun kv => P kv.1 /\ P kv.2) m -> P (CMap m).

Fixpoint cbor_ind (v : Cbor) : P v :=
  match v with
  | CInt z => Hint z | CBytes b => Hbytes b | CFloat b => Hfloat b | CText s => Htext s
  | CBool b => Hbool b | CNull => Hnull
  | CTag n v => Htag n v (cbor_ind v)
  | CArray l =>
      Harray l ((fix go l := match l return Forall P l with
        | [] => Forall_nil_2 _ | x :: l' => Forall_cons_2 _ _ _ (cbor_ind x) (go l') end) l)
  | CMap m =>
      Hmap m ((fix go m := match m return Forall (fun kv => P kv.1 /\ P kv.2) m with
        | [] => Forall_nil_2 _
        | kv :: m' => Forall_cons_2 _ _ _ (conj (cbor_ind kv.1) (cbor_ind kv.2)) (go m') end) m)
  end.
End CborInd.

(** ** Accessors *)
Definition as_map (v : Cbor) : option (list (Cbor * Cbor)) := match v with CMap m => Some m | _ => None end.
Definition as_text (v : Cbor) : option string := match v with CText s => Some s | _ => None end.
Definition as_items (v : Cbor) : option (list Cbor) := match v with CArray l => Some l | _ => None end.
Definition as_integer (v : Cbor) : option Z := match v with CInt z => Some z | _ => None end.
Definition as_byte_string (v : Cbor) : option bytes := match v with CBytes b => Some b | _ => None end.

(** The first entry of a map whose key satisfies a test. *)
Fixpoint map_find (p : Cbor -> bool) (m : list (Cbor * Cbor)) : option Cbor :=
  match m with
  | [] => None
  | (k, v) :: m' => if p k then Some v else map_find p m'
  end.

Definition text_key (key : string) (k : Cbor) : bool := bool_decide (as_text k = Some key).
Definition int_key (label : Z) (k : Cbor) : bool := bool_decide (as_integer k = Some label).

(** ** [ciborium] *)
Class Ciborium := {
  (** [into_writer] to a vector, and [from_reader] of a slice *)
  cbor_encode : Cbor -> bytes + string;
  cbor_decode : bytes -> Cbor + string;
}.

(** What is printed parses back: integers of 65 bits, no float, no bignum tag,
    bytes that are bytes, bounded nesting (the parser stops at 256 levels). *)
Fixpoint cbor_fits (depth : nat) (v : Cbor) : bool :=
  match v, depth with
  | CInt z, _ => (- 2 ^ 64 <=? z) && (z <? 2 ^ 64)
  | CBytes b, _ => forallb (fun x => (0 <=? x) && (x <? 256)) b
  | CText _, _ | CBool _, _ | CNull, _ => true
  | CTag n w, S d => (0 <=? n) && (n <? 2 ^ 64) && negb (n =? 2) && negb (n =? 3) && cbor_fits d w
  | CArray l, S d => forallb (cbor_fits d) l
  | CMap m, S d => forallb (fun kv => cbor_fits d kv.1 && cbor_fits d kv.2) m
  | _, _ => false
  end.

Class CiboriumLaws (C : Ciborium) : Prop := {
  cbor_total v : cbor_fits 128 v = true -> exists b, cbor_encode v = inl b;
  cbor_roundtrip v b :
    cbor_fits 128 v = true -> cbor_encode v = inl b -> Forall is_u8 b /\ cbor_decode b = inl v;
}.

Lemma u8_fits (b : bytes) : Forall is_u8 b <-> forallb (fun x => (0 <=? x) && (x <? 256)) b = true.
Proof.
  rewrite list.Forall_forall, forallb_forall. apply forall_proper. intros x.
  rewrite list_elem_of_In. apply imp_iff_compat_l. unfold is_u8.
  rewrite andb_true_iff, Z.leb_le, Z.ltb_lt. done.
Qed.

(** More depth only allows more. *)
Lemma cbor_fits_mono d d' v : (d <= d')%nat -> cbor_fits d v = true -> cbor_fits d' v = true.
Proof.
  revert d d'. induction v as [| | | | | |n v IH|l IH|m IH] using cbor_ind; intros d d' Hd;
    destruct d, d'; try done; try lia; cbn [cbor_fits].
  - rewrite !andb_true_iff. intros [? ?]. split; [done|]. apply (IH d); [lia|done].
  - rewrite !forallb_forall. intros Hf x Hx. rewrite list.Forall_forall in IH.
    apply (IH x) with (d := d); [by apply list_elem_of_In|lia|auto].
  - rewrite !forallb_forall. intros Hf x Hx. rewrite list.Forall_forall in IH.
    destruct (IH x) as [H1 H2]; [by apply list_elem_of_In|]. specialize (Hf x Hx).
    apply andb_true_iff in Hf as [? ?]. apply andb_true_iff.
    split; [apply (H1 d)|apply (H2 d)]; (lia || done).
Qed.

(** One level at a time, without computing a depth. *)
Lemma cbor_fits_tag d n v :
  0 <= n < 2 ^ 64 -> n <> 2 -> n <> 3 -> cbor_fits d v = true -> cbor_fits (S d) (CTag n v) = true.
Proof.
  intros [? ?] ? ? Hv. cbn [cbor_fits].
  rewrite Hv, (proj2 (Z.leb_le 0 n)), (proj2 (Z.ltb_lt n (2 ^ 64))) by done.
  by rewrite (proj2 (Z.eqb_neq n 2)), (proj2 (Z.eqb_neq n 3)).
Qed.

Lemma cbor_fits_array d l : Forall (fun v => cbor_fits d v = true) l -> cbor_fits (S d) (CArray l) = true.
Proof.
  intros Hl. cbn [cbor_fits]. apply forallb_forall. intros v Hv.
  apply (proj1 (list.Forall_forall _ _) Hl). by apply list_elem_of_In.
Qed.

Lemma cbor_fits_map d m :
  Forall (fun kv => cbor_fits d kv.1 = true /\ cbor_fits d kv.2 = true) m -> cbor_fits (S d) (CMap m) = true.
Proof.
  intros Hm. cbn [cbor_fits]. apply forallb_forall. intros kv Hkv.
  destruct (proj1 (list.Forall_forall _ _) Hm kv) as [H1 H2]; [by apply list_elem_of_In|].
  by rewrite H1, H2.
Qed.

(** ** A concrete codec *)
Module ToyCbor.
Import Toy.

(** A run of bytes, each marked, with an end mark. *)
Fixpoint esc (b : bytes) : bytes := match b with [] => [0] | x :: b' => 1 :: x :: esc b' end.
Fixpoint unesc (b : bytes) : option (bytes * bytes) :=
  match b with
  | 1 :: x :: b' => '(d, r) ← unesc b'; Some (x :: d, r)
  | 0 :: r => Some ([], r)
  | _ => None
  end.

Fixpoint enc (v : Cbor) : bytes :=
  match v with
  | CInt z => (if z <? 0 then 1 else 0) :: digits 9 (Z.abs z)
  | CBytes b => 2 :: esc b
  | CText s => 3 :: esc (as_bytes s)
  | CBool false => [4]
  | CBool true => [5]
  | CNull => [6]
  | CTag n w => 7 :: digits 9 n ++ enc w
  | CArray l => 8 :: fold_right (fun x b => 1 :: enc x ++ b) [0] l
  | CMap m => 9 :: fold_right (fun kv b => 1 :: enc kv.1 ++ enc kv.2 ++ b) [0] m
  | CFloat _ => [10]
  end.

Definition text (b : bytes) : string :=
  String.string_of_list_ascii (map (fun z => Ascii.ascii_of_N (Z.to_N z)) b).

Lemma text_as_bytes s : text (as_bytes s) = s.
Proof.
  unfold text, as_bytes. rewrite map_map. rewrite <- (String.string_of_list_ascii_of_string s) at 2.
  f_equal. rewrite <- (map_id (String.list_ascii_of_string s)) at 2. apply map_ext. intros c.
  by rewrite N2Z.id, Ascii.ascii_N_embedding.
Qed.

(** Items up to the end mark, read by [f]. *)
Fixpoint dec_items {A} (f : bytes -> option (A * bytes)) (k : nat) (b : bytes) : option (list A * bytes) :=
  match k, b with
  | S k, 1 :: b => '(x, b) ← f b; '(l, b) ← dec_items f k b; Some (x :: l, b)
  | S _, 0 :: b => Some ([], b)
  | _, _ => None
  end.

Fixpoint dec (n : nat) (b : bytes) : option (Cbor * bytes) :=
  match n, b with
  | S n, t :: b =>
      match t with
      | 0 => Some (CInt (undigits (take 9 b)), drop 9 b)
      | 1 => Some (CInt (- undigits (take 9 b)), drop 9 b)
      | 2 => '(d, b) ← unesc b; Some (CBytes d, b)
      | 3 => '(d, b) ← unesc b; Some (CText (text d), b)
      | 4 => Some (CBool false, b)
      | 5 => Some (CBool true, b)
      | 6 => Some (CNull, b)
      | 7 => '(v, r) ← dec n (drop 9 b); Some (CTag (undigits (take 9 b)) v, r)
      | 8 => '(l, b) ← dec_items (dec n) (length b) b; Some (CArray l, b)
      | 9 =>
          '(m, b) ← dec_items (fun b => '(k, b) ← dec n b; '(v, b) ← dec n b; Some ((k, v), b)) (length b) b;
          Some (CMap m, b)
      | _ => None
      end
  | _, _ => None
  end.

Lemma unesc_esc b r : unesc (esc b ++ r) = Some (b, r).
Proof. induction b as [|x b IH]; simpl; [done|]. by rewrite IH. Qed.

Lemma esc_u8 b : Forall is_u8 b -> Forall is_u8 (esc b).
Proof. induction 1; simpl; repeat constructor; unfold is_u8 in *; (done || lia). Qed.

Lemma digits_length n z : length (digits n z) = n.
Proof. revert z. induction n as [|n IH]; intros z; simpl; [done|]. by rewrite IH. Qed.

Lemma digits_back z r :
  0 <= z <= 2 ^ 64 ->
  undigits (take 9 (digits 9 z ++ r)) = z /\ drop 9 (digits 9 z ++ r) = r.
Proof.
  intros ?. rewrite take_app_length', drop_app_length' by by rewrite digits_length.
  split; [|done]. apply undigits_digits. change (256 ^ Z.of_nat 9) with (2 ^ 72). lia.
Qed.

Lemma dec_items_back {A} (f : bytes -> option (A * bytes)) (e : A -> bytes) l k r :
  (forall x r, x ∈ l -> f (e x ++ r) = Some (x, r)) -> (length l < k)%nat ->
  dec_items f k (fold_right (fun x b => 1 :: e x ++ b) [0] l ++ r) = Some (l, r).
Proof.
  revert k. induction l as [|x l IH]; intros k Hf Hk; destruct k as [|k]; try (simpl in Hk; lia); simpl; [done|].
  rewrite <- app_assoc, Hf by left. simpl. rewrite IH; [done| |simpl in Hk; lia].
  intros y r' Hy. apply Hf. by right.
Qed.

Lemma items_length {A} (e : A -> bytes) l r :
  (length l < length (fold_right (fun x b => 1 :: e x ++ b) [0] l ++ r)%Z)%nat.
Proof. induction l as [|x l IH]; simpl; [lia|]. rewrite !length_app in *. simpl in *. lia. Qed.

Lemma cbor_dec_enc d v r : cbor_fits d v = true -> dec (S d) (enc v ++ r) = Some (v, r).
Proof.
  revert d r. induction v as [z|b|b|s|[|]| |n v IH|l IH|m IH] using cbor_ind; intros d r Hf;
    try done; try (by destruct d); cbn [enc app].
  - destruct d; cbn [cbor_fits] in Hf; b2p; destruct (Z.ltb_spec z 0); cbn [dec];
      (destruct (digits_back (Z.abs z) r) as [-> ->]; [lia|]); do 3 f_equal; lia.
  - cbn [dec]. by rewrite unesc_esc.
  - cbn [dec]. rewrite unesc_esc. simpl. by rewrite text_as_bytes.
  - destruct d as [|d]; [done|]. cbn [cbor_fits] in Hf. b2p.
    assert (Hv : dec (S d) (enc v ++ r) = Some (v, r)) by auto. revert Hv. generalize (S d). intros k Hv.
    cbn [dec]. rewrite <- app_assoc. destruct (digits_back n (enc v ++ r)) as [-> ->]; [lia|]. by rewrite Hv.
  - destruct d as [|d]; [done|]. cbn [cbor_fits] in Hf. rewrite forallb_forall in Hf.
    rewrite list.Forall_forall in IH.
    assert (Hl : forall x r, x ∈ l -> dec (S d) (enc x ++ r) = Some (x, r)).
    { intros x r' Hx. apply IH; [done|]. apply Hf. by apply list_elem_of_In. }
    revert Hl. generalize (S d). intros k Hl. cbn [dec].
    rewrite (dec_items_back (dec k) enc); [done|apply Hl|apply (items_length enc)].
  - destruct d as [|d]; [done|]. cbn [cbor_fits] in Hf. rewrite forallb_forall in Hf.
    rewrite list.Forall_forall in IH. set (e := fun kv : Cbor * Cbor => enc kv.1 ++ enc kv.2).
    assert (He : fold_right (fun kv b => 1 :: enc kv.1 ++ enc kv.2 ++ b) [0] m
                 = fold_right (fun x b => 1 :: e x ++ b) [0] m).
    { clear. induction m as [|kv m IHm]; simpl; [done|]. unfold e at 1. by rewrite IHm, <- app_assoc. }
    rewrite He.
    assert (Hl : forall k v r, (k, v) ∈ m ->
      dec (S d) (enc k ++ r) = Some (k, r) /\ dec (S d) (enc v ++ r) = Some (v, r)).
    { intros k v r' Hx. destruct (IH _ Hx) as [H1 H2].
      specialize (Hf (k, v) ltac:(by apply list_elem_of_In)). simpl in *. b2p. auto. }
    clear He IH Hf. revert Hl. generalize (S d). intros n Hl. cbn [dec].
    rewrite (dec_items_back _ e); [done| |apply (items_length e)].
    intros [k v] r' Hx. unfold e. simpl fst. simpl snd. rewrite <- app_assoc.
    rewrite (proj1 (Hl k v _ Hx)). simpl. by rewrite (proj2 (Hl k v _ Hx)).
Qed.

Lemma enc_u8 d v : cbor_fits d v = true -> Forall is_u8 (enc v).
Proof.
  assert (Ht : forall t, is_u8 t -> forall b, Forall is_u8 b -> Forall is_u8 (t :: b)) by by constructor.
  revert d. induction v as [z|b|b|s|[|]| |n v IH|l IH|m IH] using cbor_ind; intros d Hf; cbn [enc];
    (apply Ht; [unfold is_u8; repeat case_match; lia|]); try (by constructor).
  - apply digits_u8.
  - apply esc_u8, u8_fits. by destruct d.
  - apply esc_u8, as_bytes_u8.
  - destruct d as [|d]; [done|]. cbn [cbor_fits] in Hf. b2p.
    apply Forall_app_2; [apply digits_u8|eauto].
  - destruct d as [|d]; [done|]. cbn [cbor_fits] in Hf. rewrite forallb_forall in Hf.
    induction IH as [|x l Hx _ IHl]; simpl; [by repeat constructor|].
    constructor; [done|]. apply Forall_app_2; [apply (Hx d), Hf; by left|].
    apply IHl. intros y Hy. apply Hf. by right.
  - destruct d as [|d]; [done|]. cbn [cbor_fits] in Hf. rewrite forallb_forall in Hf.
    induction IH as [|[k x] m [Hk Hx] _ IHl]; simpl; [by repeat constructor|].
    pose proof (Hf (k, x) ltac:(by left)) as Hkx. simpl in *. b2p.
    constructor; [done|]. apply Forall_app_2; [by apply (Hk d)|]. apply Forall_app_2; [by apply (Hx d)|].
    apply IHl. intros y Hy. apply Hf. by right.
Qed.

#[export] Instance ciborium : Ciborium := {|
  cbor_encode v := inl (enc v);
  cbor_decode b := match dec 129 b with Some (v, []) => inl v | _ => inr "malformed"%string end |}.

#[export] Instance ciborium_laws : CiboriumLaws ciborium.
Proof.
  split.
  - intros v _. by eexists.
  - intros v b Hf [= <-]. split; [by eapply enc_u8|].
    unfold cbor_decode, ciborium. rewrite <- (app_nil_r (enc v)), (cbor_dec_enc 128) by done. done.
Qed.
End ToyCbor.
