(* ===== verification/Cose.v ===== *)
(** * COSE_Sign1 and COSE keys

    crates/crypto/src/cose.rs.  The structures of [coset] are data; building
    headers, the bytes that are signed and the CBOR form of a COSE_Sign1 are
    [coset]'s work, the functions of the class [Coset]. *)
From S2P Require Import Prelude Externals Strings Json Keys Jws Cbor.

Definition HEADER_TYP : Z := 16.
Definition HEADER_X5CHAIN : Z := 33.

Inductive CoseError :=
| CE_Cbor (what : string)
| CE_Signing (what : string)
| CE_Verification (what : string)
| CE_InvalidStructure (what : string).

Definition cose_error_to_string (e : CoseError) : string :=
  match e with
  | CE_Cbor s => "CBOR error: " +:+ s
  | CE_Signing s => "COSE signing error: " +:+ s
  | CE_Verification s => "COSE verification error: " +:+ s
  | CE_InvalidStructure s => "invalid COSE structure: " +:+ s
  end.

(** ** [coset] *)
Inductive CoseLabel := LInt (z : Z) | LText (s : string).
#[export] Instance CoseLabel_eq_dec : EqDecision CoseLabel.
Proof. solve_decision. Defined.

#[export] Instance LInt_inj : Inj (=) (=) LInt.
Proof. by intros ? ? [= ->]. Qed.

(** [RegisteredLabelWithPrivate<iana::Algorithm>], an algorithm as its number. *)
Inductive CoseAlg := AlgAssigned (id : Z) | AlgPrivateUse (id : Z) | AlgText (s : string).
#[export] Instance CoseAlg_eq_dec : EqDecision CoseAlg.
Proof. solve_decision. Defined.

(** The header parameters the sources never touch. *)
Class CosetTypes := { HeaderOther : Type; other_default : HeaderOther }.

Section CosetData.
Context `{CosetTypes}.

Record Header := mkHeader {
  hd_alg : option CoseAlg;
  hd_rest : list (CoseLabel * Cbor);
  hd_other : HeaderOther;
}.

Record ProtectedHeader := mkProtectedHeader {
  ph_original_data : option bytes;
  ph_header : Header;
}.

Record CoseSign1 := mkCoseSign1 {
  cs_protected : ProtectedHeader;
  cs_unprotected : Header;
  cs_payload : option bytes;
  cs_signature : bytes;
}.
End CosetData.

Class Coset `{CosetTypes} := {
  (** [HeaderBuilder::new()], [.algorithm(a)], [.value(label, v)] (which
      panics on a label of the core parameters) *)
  hb_new : Header;
  hb_algorithm : Header -> Z -> Header;
  hb_value : Header -> Z -> Cbor -> option Header;
  (** The bytes a COSE_Sign1 signs: protected header, external data, payload *)
  sign1_tbs : ProtectedHeader -> bytes -> bytes -> bytes;
  (** [to_cbor_value] and [from_cbor_value] *)
  sign1_to_value : CoseSign1 -> Cbor + string;
  sign1_from_value : Cbor -> CoseSign1 + string;
  (** [to_tagged_vec] and [to_vec] *)
  sign1_to_tagged_vec : CoseSign1 -> bytes + string;
  sign1_to_vec : CoseSign1 -> bytes + string;
  (** [{:?}] of a header's algorithm *)
  debug_cose_alg : option CoseAlg -> string;
}.

(** [{:?}] of a string, of an optional one and of an optional integer. *)
Class DebugStr := { debug_str : string -> string }.
Definition debug_opt {A} (f : A -> string) (o : option A) : string :=
  match o with Some a => "Some(" +:+ f a +:+ ")" | None => "None" end.

(** ** Signing and verifying *)

(** The IANA numbers of ES256 and EdDSA. *)
Definition cose_algorithm (alg : Algorithm) : Z := match alg with ES256 => -7 | EdDSA => -8 end.

Section Cose.
Context `{Base64Url} `{P256} `{Ed25519} `{Coset} `{Ciborium} `{DebugStr}.

Fixpoint add_values {E} (h : Header) (values : list (Z * Cbor)) : res Header E :=
  match values with
  | [] => Ok h
  | (label, value) :: values' =>
      match hb_value h label value with
      | Some h' => add_values h' values'
      | None => Panic
      end
  end.

Definition protected_header {E} (key : KeyPair) (extra : list (Z * Cbor)) : res Header E :=
  add_values (hb_algorithm hb_new (cose_algorithm (kp_algorithm key))) extra.

Definition unprotected_header {E} (values : list (Z * Cbor)) : res Header E := add_values hb_new values.

Definition cose_sign (key : KeyPair) (payload : bytes) (protected unprotected : list (Z * Cbor))
    : res CoseSign1 CoseError :=
  let? protected := protected_header key protected in
  let? unprotected := unprotected_header unprotected in
  let protected := mkProtectedHeader None protected in
  let? signature := map_err (fun e => CE_Signing (key_error_to_string e))
    (kp_sign key (sign1_tbs protected [] payload)) in
  Ok (mkCoseSign1 protected unprotected (Some payload) signature).

Definition sign_detached (key : KeyPair) (payload : bytes) : res CoseSign1 CoseError :=
  let? protected := protected_header key [] in
  let protected := mkProtectedHeader None protected in
  let? signature := map_err (fun e => CE_Signing (key_error_to_string e))
    (kp_sign key (sign1_tbs protected [] payload)) in
  Ok (mkCoseSign1 protected hb_new None signature).

Definition check_algorithm (sign1 : CoseSign1) (key : Jwk) : res unit CoseError :=
  let? expected := map_err (fun e => CE_Verification (key_error_to_string e)) (algorithm_for_jwk key) in
  let declared := hd_alg (ph_header (cs_protected sign1)) in
  fail? bool_decide (declared <> Some (AlgAssigned (cose_algorithm expected))) with
    CE_Verification ("protected header must declare " +:+ alg_as_str expected
      +:+ " for this key, found " +:+ debug_cose_alg declared);
  Ok tt.

Definition cose_verify (sign1 : CoseSign1) (key : Jwk) : res unit CoseError :=
  let? _ := check_algorithm sign1 key in
  match cs_payload sign1 with
  | None => Err (CE_InvalidStructure "payload is detached")
  | Some payload =>
      map_err (fun e => CE_Verification (key_error_to_string e))
        (verify_with_jwk key (sign1_tbs (cs_protected sign1) [] payload) (cs_signature sign1))
  end.

Definition verify_detached (sign1 : CoseSign1) (payload : bytes) (key : Jwk) : res unit CoseError :=
  let? _ := check_algorithm sign1 key in
  fail? bool_decide (is_Some (cs_payload sign1)) with
    CE_InvalidStructure "payload must be detached (nil)";
  map_err (fun e => CE_Verification (key_error_to_string e))
    (verify_with_jwk key (sign1_tbs (cs_protected sign1) [] payload) (cs_signature sign1)).

Definition to_value (sign1 : CoseSign1) : res Cbor CoseError :=
  map_err CE_Cbor (from_ext (sign1_to_value sign1)).

Definition from_value (value : Cbor) : res CoseSign1 CoseError :=
  let value := match value with CTag 18 inner => inner | other => other end in
  map_err CE_InvalidStructure (from_ext (sign1_from_value value)).

Definition to_tagged_vec (sign1 : CoseSign1) : res bytes CoseError :=
  map_err CE_Cbor (from_ext (sign1_to_tagged_vec sign1)).

Definition sign1_from_slice (b : bytes) : res CoseSign1 CoseError :=
  let? value := map_err CE_Cbor (from_ext (cbor_decode b)) in
  from_value value.

Definition sign1_vec (sign1 : CoseSign1) : res bytes CoseError :=
  map_err CE_Cbor (from_ext (sign1_to_vec sign1)).

Definition x5chain_value (chain : list bytes) : Cbor :=
  match chain with
  | [one] => CBytes one
  | many => CArray (map CBytes many)
  end.

Definition not_a_chain : CoseError := CE_InvalidStructure "x5chain is not a certificate chain".

Fixpoint all_bytes (certs : list Cbor) : res (list bytes) CoseError :=
  match certs with
  | [] => Ok []
  | c :: certs' =>
      let? b := ok_or (as_byte_string c) not_a_chain in
      let? bs := all_bytes certs' in
      Ok (b :: bs)
  end.

Definition header_get (label : CoseLabel) (rest : list (CoseLabel * Cbor)) : option Cbor :=
  snd <$> find (fun kv => bool_decide (kv.1 = label)) rest.

Definition x5chain (header : Header) : res (list bytes) CoseError :=
  match header_get (LInt HEADER_X5CHAIN) (hd_rest header) with
  | None => Ok []
  | Some (CBytes cert) => Ok [cert]
  | Some (CArray ((_ :: _) as certs)) => all_bytes certs
  | Some _ => Err not_a_chain
  end.

(** ** Keys *)
Definition coordinate_bytes (c : option string) : res bytes CoseError :=
  ok_or (c ≫= fun c => match b64url_decode c with inl b => Some b | inr _ => None end)
    (CE_InvalidStructure "JWK is missing a coordinate").

Definition cose_key (jwk : Jwk) : res Cbor CoseError :=
  match key_type jwk with
  | Some ES256 =>
      let? x := coordinate_bytes (jwk_x jwk) in
      let? y := coordinate_bytes (jwk_y jwk) in
      Ok (CMap [(CInt 1, CInt 2); (CInt (-1), CInt 1); (CInt (-2), CBytes x); (CInt (-3), CBytes y)])
  | Some EdDSA =>
      let? x := coordinate_bytes (jwk_x jwk) in
      Ok (CMap [(CInt 1, CInt 1); (CInt (-1), CInt 6); (CInt (-2), CBytes x)])
  | None =>
      Err (CE_InvalidStructure ("no COSE_Key mapping for kty=" +:+ jwk_kty jwk +:+ ", crv="
        +:+ debug_opt debug_str (jwk_crv jwk)))
  end.

Definition malformed_key (msg : string) : CoseError := CE_InvalidStructure ("COSE_Key " +:+ msg).

Definition key_coordinate (entries : list (Cbor * Cbor)) (label : Z) : res string CoseError :=
  ok_or (b64url_encode <$> (map_find (int_key label) entries ≫= as_byte_string))
    (malformed_key "is missing a coordinate").

Definition key_int (entries : list (Cbor * Cbor)) (label : Z) : option Z :=
  map_find (int_key label) entries ≫= fun v =>
  as_integer v ≫= fun i => if in_i64 i then Some i else None.

Definition jwk_from_cose_key (key : Cbor) : res Jwk CoseError :=
  let? entries := ok_or (as_map key) (malformed_key "is not a map") in
  match key_int entries 1, key_int entries (-1) with
  | Some 2, Some 1 =>
      let? y := key_coordinate entries (-3) in
      let? x := key_coordinate entries (-2) in
      Ok (mkJwk "EC" (Some "P-256"%string) (Some x) (Some y) None None None None)
  | Some 1, Some 6 =>
      let? x := key_coordinate entries (-2) in
      Ok (mkJwk "OKP" (Some "Ed25519"%string) (Some x) None None None None None)
  | kty, crv =>
      Err (malformed_key ("has an unsupported key type or curve (kty=" +:+ debug_opt pretty kty
        +:+ ", crv=" +:+ debug_opt pretty crv +:+ ")"))
  end.
End Cose.

(** ** What [coset] promises *)

(** A header made by the builder: distinct labels above the core parameters,
    values that print. *)
Definition plain_header `{CosetTypes} (depth : nat) (h : Header) : Prop :=
  hd_other h = other_default /\ NoDup (map fst (hd_rest h)) /\
  (hd_alg h = None \/ exists a, hd_alg h = Some (AlgAssigned (cose_algorithm a))) /\
  Forall (fun lv => (exists z, lv.1 = LInt z /\ 7 < z < 2 ^ 63) /\ cbor_fits depth lv.2 = true) (hd_rest h).

(** The same message: equal up to the copy of the protected header's bytes. *)
Definition same_sign1 `{Coset} (s s' : CoseSign1) : Prop :=
  ph_header (cs_protected s') = ph_header (cs_protected s) /\
  cs_unprotected s' = cs_unprotected s /\ cs_payload s' = cs_payload s /\
  cs_signature s' = cs_signature s /\
  forall aad payload, sign1_tbs (cs_protected s') aad payload = sign1_tbs (cs_protected s) aad payload.

(** A message as [sign] leaves it. *)
Definition built_sign1 `{Coset} (depth : nat) (s : CoseSign1) : Prop :=
  ph_original_data (cs_protected s) = None /\
  plain_header depth (ph_header (cs_protected s)) /\ plain_header depth (cs_unprotected s) /\
  (forall p, cs_payload s = Some p -> Forall is_u8 p) /\ Forall is_u8 (cs_signature s).

Class CosetLaws `{CT : CosetTypes} (K : Coset) (B : Ciborium) : Prop := {
  hb_new_spec : hb_new = mkHeader None [] other_default;
  hb_algorithm_spec h a : hb_algorithm h a = mkHeader (Some (AlgAssigned a)) (hd_rest h) (hd_other h);
  hb_value_spec h l v : 7 < l ->
    hb_value h l v = Some (mkHeader (hd_alg h) (hd_rest h ++ [(LInt l, v)]) (hd_other h));
  sign1_value_roundtrip d s : (d <= 100)%nat -> built_sign1 d s ->
    exists l s', sign1_to_value s = inl (CArray l) /\ cbor_fits (S (S d)) (CArray l) = true /\
      sign1_from_value (CArray l) = inl s' /\ same_sign1 s s';
  sign1_to_tagged_vec_spec s v : sign1_to_value s = inl v -> sign1_to_tagged_vec s = cbor_encode (CTag 18 v);
  sign1_to_vec_spec s v : sign1_to_value s = inl v -> sign1_to_vec s = cbor_encode v;
}.

Section CoseFacts.
Context `{S2 : Sha2} `{B64 : Base64Url} `{BL : !Base64UrlLaws B64} `{P : P256} `{D : Ed25519}.
Context `{CT : CosetTypes} `{K : !Coset} `{CB : Ciborium} `{CBL : !CiboriumLaws CB}.
Context `{KL : !CosetLaws K CB} `{DS : DebugStr}.

(** Labels and values that may be added to a header. *)
Definition addable (depth : nat) (values : list (Z * Cbor)) : Prop :=
  NoDup (map fst values) /\
  Forall (fun lv => 7 < lv.1 < 2 ^ 63 /\ cbor_fits depth lv.2 = true) values.

Definition labelled (values : list (Z * Cbor)) : list (CoseLabel * Cbor) :=
  map (fun lv => (LInt lv.1, lv.2)) values.

Lemma add_values_Ok {E} h values :
  Forall (fun lv => 7 < lv.1) values ->
  add_values (E := E) h values = Ok (mkHeader (hd_alg h) (hd_rest h ++ labelled values) (hd_other h)).
Proof.
  intros Hv. revert h. induction Hv as [|[l v] values Hl _ IH]; intros h; simpl.
  - rewrite app_nil_r. by destruct h.
  - rewrite hb_value_spec by done. rewrite IH. simpl. by rewrite <- app_assoc.
Qed.

Lemma addable_labels d values : addable d values -> Forall (fun lv => 7 < lv.1) values.
Proof. intros [_ Hv]. eapply Forall_impl; [exact Hv|]. simpl. intros ? [? _]. lia. Qed.

Lemma addable_plain d values alg :
  addable d values -> (alg = None \/ exists a, alg = Some (AlgAssigned (cose_algorithm a))) ->
  plain_header d (mkHeader alg (labelled values) other_default).
Proof.
  intros [Hd Hv] Ha. split; [done|]. split; [|split; [done|]]; simpl.
  - unfold labelled. rewrite map_map.
    replace (map _ values) with (map LInt (map fst values)) by by rewrite map_map.
    by apply (NoDup_fmap_2 LInt).
  - unfold labelled. apply Forall_fmap. eapply Forall_impl; [exact Hv|].
    intros [l v] [? ?]. simpl. split; [|done]. exists l. split; [done|simpl in *; lia].
Qed.

Definition signed_header (key : KeyPair) (values : list (Z * Cbor)) : Header :=
  mkHeader (Some (AlgAssigned (cose_algorithm (kp_algorithm key)))) (labelled values) other_default.
Definition plain_values (values : list (Z * Cbor)) : Header := mkHeader None (labelled values) other_default.

Lemma protected_header_Ok {E} key values d :
  addable d values -> protected_header (E := E) key values = Ok (signed_header key values).
Proof.
  intros Hv. unfold protected_header. rewrite add_values_Ok by (by eapply addable_labels).
  by rewrite hb_algorithm_spec, hb_new_spec.
Qed.

Lemma unprotected_header_Ok {E} values d :
  addable d values -> unprotected_header (E := E) values = Ok (plain_values values).
Proof.
  intros Hv. unfold unprotected_header. rewrite add_values_Ok by (by eapply addable_labels).
  by rewrite hb_new_spec.
Qed.

(** What verification accepts. *)
Lemma cose_verify_Ok s key :
  cose_verify s key = Ok tt <->
  exists a payload, key_type key = Some a /\
    hd_alg (ph_header (cs_protected s)) = Some (AlgAssigned (cose_algorithm a)) /\
    cs_payload s = Some payload /\
    verify_with_jwk key (sign1_tbs (cs_protected s) [] payload) (cs_signature s) = Ok tt.
Proof.
  unfold cose_verify, check_algorithm, algorithm_for_jwk. split.
  - intros Ho. destruct (key_type key) as [a|]; [|done]. simpl in Ho. case_bool_decide; [done|].
    simpl in Ho. destruct (cs_payload s) as [p|]; [|done]. inv_ok.
    exists a, p. repeat (split; [done || by apply dec_stable|]). done.
  - intros (a & p & -> & Ha & -> & Hv). simpl. rewrite bool_decide_eq_false_2 by auto. simpl. by rewrite Hv.
Qed.

Lemma verify_detached_Ok s payload key :
  verify_detached s payload key = Ok tt <->
  exists a, key_type key = Some a /\
    hd_alg (ph_header (cs_protected s)) = Some (AlgAssigned (cose_algorithm a)) /\
    cs_payload s = None /\
    verify_with_jwk key (sign1_tbs (cs_protected s) [] payload) (cs_signature s) = Ok tt.
Proof.
  unfold verify_detached, check_algorithm, algorithm_for_jwk. split.
  - intros Ho. destruct (key_type key) as [a|]; [|done]. simpl in Ho. case_bool_decide; [done|].
    simpl in Ho. case_bool_decide as Hp; [done|]. inv_ok.
    exists a. repeat (split; [done || by apply dec_stable|]).
    split; [by apply eq_None_not_Some|done].
  - intros (a & -> & Ha & -> & Hv). simpl. rewrite bool_decide_eq_false_2 by auto. simpl. by rewrite Hv.
Qed.

(** Verification does not see the copy of the protected header. *)
Lemma same_sign1_verify s s' key : same_sign1 s s' -> cose_verify s' key = cose_verify s key.
Proof.
  intros (Hp & _ & Hpl & Hs & Ht). unfold cose_verify, check_algorithm. rewrite Hp, Hpl, Hs.
  destruct (cs_payload s); [|done]. by rewrite Ht.
Qed.

Lemma same_sign1_verify_detached s s' p key :
  same_sign1 s s' -> verify_detached s' p key = verify_detached s p key.
Proof.
  intros (Hpr & _ & Hpl & Hs & Ht). unfold verify_detached, check_algorithm. by rewrite Hpr, Hpl, Hs, Ht.
Qed.

Lemma sign_inv `{!KeyPairLaws key} d payload prot unprot s jwk :
  addable d prot -> addable d unprot -> Forall is_u8 payload -> kp_public_jwk key = Ok jwk ->
  cose_sign key payload prot unprot = Ok s ->
  built_sign1 d s /\ cs_payload s = Some payload /\
  ph_header (cs_protected s) = signed_header key prot /\ cs_unprotected s = plain_values unprot /\
  cose_verify s jwk = Ok tt.
Proof.
  intros Hp Hu Hpay Hj Hs. unfold cose_sign in Hs.
  rewrite (protected_header_Ok key prot d), (unprotected_header_Ok unprot d) in Hs by done.
  simpl in Hs. inv_ok. simplify_eq.
  match goal with Hk : kp_sign _ _ = Ok ?sg |- _ =>
    pose proof (kp_sign_bytes _ _ Hk); pose proof (kp_sign_verify _ _ Hk) as Hver end.
  destruct (kp_jwk (k := key)) as (j & Hj' & _ & _ & _ & Halg & Hagree).
  assert (j = jwk) as -> by congruence. unfold algorithm_for_jwk in Halg.
  destruct (key_type jwk) as [alg|] eqn:Hk; [|done]. injection Halg as ->.
  split; [|repeat (split; [done|])].
  - split; [done|]. split; [apply addable_plain; eauto|]. split; [apply addable_plain; eauto|].
    simpl. split; [by intros p [= <-]|done].
  - apply cose_verify_Ok. exists (kp_algorithm key), payload. repeat (split; [done|]). simpl.
    by rewrite Hagree.
Qed.

Lemma sign_detached_inv `{!KeyPairLaws key} payload s jwk :
  kp_public_jwk key = Ok jwk -> sign_detached key payload = Ok s ->
  built_sign1 0 s /\ verify_detached s payload jwk = Ok tt.
Proof.
  intros Hj Hs. unfold sign_detached in Hs.
  assert (addable 0 []) as Hnil by (split; constructor).
  rewrite (protected_header_Ok key [] 0) in Hs by done. simpl in Hs. inv_ok. simplify_eq.
  match goal with Hk : kp_sign _ _ = Ok ?sg |- _ =>
    pose proof (kp_sign_bytes _ _ Hk); pose proof (kp_sign_verify _ _ Hk) as Hver end.
  destruct (kp_jwk (k := key)) as (j & Hj' & _ & _ & _ & Halg & Hagree).
  assert (j = jwk) as -> by congruence. unfold algorithm_for_jwk in Halg.
  destruct (key_type jwk) as [alg|] eqn:Hk; [|done]. injection Halg as ->.
  split.
  - split; [done|]. split; [apply addable_plain; eauto|]. split; [|done]. simpl. rewrite hb_new_spec.
    split; [done|]. split; [constructor|]. split; [by left|constructor].
  - apply verify_detached_Ok. exists (kp_algorithm key). repeat (split; [done|]). simpl.
    by rewrite Hagree.
Qed.

(** A message embedded in a structure and read back from it. *)
Lemma value_embed d s v :
  (d <= 100)%nat -> built_sign1 d s -> to_value s = Ok v ->
  cbor_fits (S (S d)) v = true /\ exists s', from_value v = Ok s' /\ same_sign1 s s'.
Proof.
  intros Hd Hb Hv. destruct (sign1_value_roundtrip d s Hd Hb) as (l & s' & Ht & Hf & Hr & Hsame).
  unfold to_value in Hv. rewrite Ht in Hv. simpl in Hv. injection Hv as <-.
  split; [done|]. exists s'. split; [|done]. unfold from_value. by rewrite Hr.
Qed.

(** A COSE_Sign1 made by a key pair, sent as tagged bytes and decoded,
    verifies under the pair's public JWK and carries the payload and the
    headers it was made with. *)
Theorem cose_sign_roundtrip `{!KeyPairLaws key} payload prot unprot s jwk b :
  addable 100 prot -> addable 100 unprot -> Forall is_u8 payload -> kp_public_jwk key = Ok jwk ->
  cose_sign key payload prot unprot = Ok s -> to_tagged_vec s = Ok b ->
  exists s', sign1_from_slice b = Ok s' /\ cose_verify s' jwk = Ok tt /\ cs_payload s' = Some payload /\
    hd_rest (ph_header (cs_protected s')) = labelled prot /\ hd_rest (cs_unprotected s') = labelled unprot.
Proof.
  intros Hp Hu Hpay Hj Hs Hb.
  destruct (sign_inv 100 payload prot unprot s jwk Hp Hu Hpay Hj Hs) as (Hbuilt & Hpl & Hph & Hun & Hv).
  destruct (sign1_value_roundtrip 100 s (le_n _) Hbuilt) as (l & s' & Ht & Hf & Hr & Hsame).
  unfold to_tagged_vec in Hb. rewrite (sign1_to_tagged_vec_spec _ _ Ht) in Hb. inv_ok.
  match goal with He : cbor_encode _ = inl b |- _ =>
    destruct (cbor_roundtrip (CTag 18 (CArray l)) b) as [_ Hdec]; [|exact He|] end.
  { apply (cbor_fits_mono 103); [lia|]. by apply cbor_fits_tag. }
  exists s'. unfold sign1_from_slice, from_value. rewrite Hdec. simpl. rewrite Hr. simpl.
  split; [done|]. split; [by rewrite (same_sign1_verify s)|].
  destruct Hsame as (E1 & E2 & E3 & _). by rewrite E1, E2, E3, Hph, Hun.
Qed.

Lemma cose_key_back jwk v :
  cose_key jwk = Ok v ->
  exists jwk', jwk_from_cose_key v = Ok jwk' /\ key_type jwk' = key_type jwk /\
    forall m s, verify_with_jwk jwk' m s = verify_with_jwk jwk m s.
Proof.
  unfold cose_key. destruct (key_type jwk) as [[|]|] eqn:Hk; [..|done]; intros Hv; inv_ok; simplify_eq;
    unfold coordinate_bytes in *;
    (destruct (jwk_x jwk) as [xs|] eqn:Hx; simpl in *; [|done]);
    (destruct (b64url_decode xs) as [x|] eqn:Hdx; [|done]); simpl in *; simplify_eq;
    pose proof (b64url_roundtrip _ (b64url_decode_u8 _ _ Hdx)) as Hrx.
  - destruct (jwk_y jwk) as [ys|] eqn:Hy; simpl in *; [|done].
    destruct (b64url_decode ys) as [y|] eqn:Hdy; [|done]. simpl in *. simplify_eq.
    pose proof (b64url_roundtrip _ (b64url_decode_u8 _ _ Hdy)) as Hry.
    eexists. split; [reflexivity|]. split; [done|]. intros m s.
    unfold verify_with_jwk. rewrite Hk, Hx, Hy. unfold decode_coordinate. simpl.
    rewrite Hrx, Hdx. simpl. rewrite Hry, Hdy. done.
  - eexists. split; [reflexivity|]. split; [done|]. intros m s.
    unfold verify_with_jwk. rewrite Hk, Hx. unfold decode_coordinate. simpl. rewrite Hrx, Hdx. done.
Qed.

(** A device key survives its COSE_Key form: a key of a supported type
    whose coordinates decode has one, the key read back from it is of the same
    type, and it accepts and refuses exactly the same signatures with the same
    errors; a key of any other type has none. *)
Theorem cose_key_roundtrip jwk :
  (forall v, cose_key jwk = Ok v -> exists jwk', jwk_from_cose_key v = Ok jwk' /\
    key_type jwk' = key_type jwk /\
    forall m s, verify_with_jwk jwk' m s = verify_with_jwk jwk m s) /\
  (key_type jwk = None -> exists e, cose_key jwk = Err e).
Proof.
  split; [apply cose_key_back|]. intros Hk. unfold cose_key. rewrite Hk. by eexists.
Qed.
End CoseFacts.

(** ** A concrete instance *)
Module ToyCose.
Import Toy ToyCbor ToyCurves.

#[export] Instance toy_types : CosetTypes := {| HeaderOther := unit; other_default := tt |}.

Definition label_value (l : CoseLabel) : Cbor := match l with LInt z => CInt z | LText s => CText s end.
Definition value_label (v : Cbor) : option CoseLabel :=
  match v with CInt z => Some (LInt z) | CText s => Some (LText s) | _ => None end.

Definition rest_map (rest : list (CoseLabel * Cbor)) : list (Cbor * Cbor) :=
  map (fun lv => (label_value lv.1, lv.2)) rest.
Fixpoint map_rest (m : list (Cbor * Cbor)) : option (list (CoseLabel * Cbor)) :=
  match m with
  | [] => Some []
  | (k, v) :: m' => l ← value_label k; rest ← map_rest m'; Some ((l, v) :: rest)
  end.

Definition header_map (h : Header) : list (Cbor * Cbor) :=
  match hd_alg h with Some (AlgAssigned a) => [(CInt 1, CInt a)] | _ => [] end ++ rest_map (hd_rest h).
Definition map_header (m : list (Cbor * Cbor)) : option Header :=
  match m with
  | (CInt 1, CInt a) :: m' => rest ← map_rest m'; Some (mkHeader (Some (AlgAssigned a)) rest tt)
  | _ => rest ← map_rest m; Some (mkHeader None rest tt)
  end.

Definition protected_bytes (p : ProtectedHeader) : bytes :=
  default (enc (CMap (header_map (ph_header p)))) (ph_original_data p).

Definition toy_value (s : CoseSign1) : list Cbor :=
  [CBytes (protected_bytes (cs_protected s)); CMap (header_map (cs_unprotected s));
   from_option CBytes CNull (cs_payload s); CBytes (cs_signature s)].
Definition toy_from (v : Cbor) : option CoseSign1 :=
  match v with
  | CArray [CBytes p; CMap u; pl; CBytes sg] =>
      match cbor_decode p with
      | inl (CMap m) =>
          h ← map_header m; uh ← map_header u;
          Some (mkCoseSign1 (mkProtectedHeader (Some p) h) uh (as_byte_string pl) sg)
      | _ => None
      end
  | _ => None
  end.

#[export] Instance toy_coset : Coset := {|
  hb_new := mkHeader None [] tt;
  hb_algorithm h a := mkHeader (Some (AlgAssigned a)) (hd_rest h) (hd_other h);
  hb_value h l v :=
    if 7 <? l then Some (mkHeader (hd_alg h) (hd_rest h ++ [(LInt l, v)]) (hd_other h)) else None;
  sign1_tbs p aad payload := protected_bytes p ++ [256] ++ aad ++ [256] ++ payload;
  sign1_to_value s := inl (CArray (toy_value s));
  sign1_from_value v := match toy_from v with Some s => inl s | None => inr "malformed"%string end;
  sign1_to_tagged_vec s := cbor_encode (CTag 18 (CArray (toy_value s)));
  sign1_to_vec s := cbor_encode (CArray (toy_value s));
  debug_cose_alg _ := "None"%string |}.
#[export] Instance toy_debug : DebugStr := {| debug_str := id |}.

Lemma map_rest_map rest : map_rest (rest_map rest) = Some rest.
Proof.
  induction rest as [|[l v] rest IH]; [done|].
  change (map_rest (rest_map ((l, v) :: rest))) with
    (l' ← value_label (label_value l); r ← map_rest (rest_map rest); Some ((l', v) :: r)).
  rewrite IH. by destruct l.
Qed.

Lemma header_back d h : plain_header d h -> map_header (header_map h) = Some h.
Proof.
  destruct h as [alg rest []]. intros (_ & _ & [Ha|[a Ha]] & Hr); simpl in *; subst; unfold header_map; simpl.
  - unfold map_header. destruct rest as [|[l v] rest]; [done|].
    apply Forall_cons in Hr as [[(z & Hz & Hb) _] _]. simpl in Hz. subst l.
    pose proof (map_rest_map ((LInt z, v) :: rest)) as Hm. simpl in Hm |- *.
    destruct z as [|[| |]|]; try lia; rewrite Hm; done.
  - by rewrite map_rest_map.
Qed.

Lemma header_fits d h :
  (d <= 100)%nat -> plain_header d h -> cbor_fits (S d) (CMap (header_map h)) = true.
Proof.
  intros Hd (_ & _ & Ha & Hr). apply cbor_fits_map. unfold header_map. apply Forall_app. split.
  - destruct Ha as [->|[a ->]]; [constructor|]. constructor; [|constructor]. by destruct d, a.
  - apply Forall_fmap. eapply Forall_impl; [exact Hr|].
    intros [l v] [(z & Hz & Hb) Hv]. simpl in *. subst. split; [|done].
    destruct d; simpl; (rewrite (proj2 (Z.leb_le _ _)), (proj2 (Z.ltb_lt _ _)) by lia; done).
Qed.

#[export] Instance toy_coset_laws : CosetLaws toy_coset ciborium.
Proof.
  split; [done..| | | |].
  - intros h l v Hl. unfold hb_value, toy_coset. by rewrite (proj2 (Z.ltb_lt 7 l)).
  - intros d [[od ph] uh pl sg] Hd (Hod & Hp & Hu & Hpl & Hsg). simpl in Hod, Hp, Hu, Hpl, Hsg. subst od.
    pose proof (header_fits d ph Hd Hp) as Hfp. pose proof (header_fits d uh Hd Hu) as Hfu.
    destruct (cbor_roundtrip (CMap (header_map ph)) (enc (CMap (header_map ph)))) as [Hu8 Hdec];
      [by apply (cbor_fits_mono (S d)); [lia|]|done|].
    exists (toy_value (mkCoseSign1 (mkProtectedHeader None ph) uh pl sg)).
    exists (mkCoseSign1 (mkProtectedHeader (Some (enc (CMap (header_map ph)))) ph) uh pl sg).
    split; [done|]. split; [|split].
    + apply cbor_fits_array. unfold toy_value. simpl cs_protected. simpl cs_unprotected.
      simpl cs_payload. simpl cs_signature.
      repeat constructor; [by apply u8_fits|done| |by apply u8_fits].
      destruct pl as [p|]; [|done]. simpl from_option. apply u8_fits. by apply Hpl.
    + unfold sign1_from_value, toy_coset. set (p := enc (CMap (header_map ph))) in *.
      change (toy_from _) with (match cbor_decode p with
        | inl (CMap m) => h ← map_header m; uh' ← map_header (header_map uh);
            Some (mkCoseSign1 (mkProtectedHeader (Some p) h) uh'
              (as_byte_string (from_option CBytes CNull pl)) sg)
        | _ => None end).
      rewrite Hdec, (header_back d ph Hp), (header_back d uh Hu). by destruct pl.
    + repeat (split; [done|]). done.
  - by intros s v [= <-].
  - by intros s v [= <-].
Qed.
End ToyCose.

(** *** Witnesses *)
Module CoseDemo.
Import Toy ToyCbor ToyCurves ToyCose.

Definition demo_sign1 : CoseSign1 :=
  unwrap_or (mkCoseSign1 (mkProtectedHeader None hb_new) hb_new None [])
    (cose_sign (ec_key_pair ec1) [1; 2; 3] [(HEADER_TYP, CText "t")] [(HEADER_X5CHAIN, x5chain_value [[4]; [5]])]).
Definition demo_tagged : bytes := unwrap_or [] (to_tagged_vec demo_sign1).

Lemma cose_sign_roundtrip_witness :
  exists s', sign1_from_slice demo_tagged = Ok s' /\ cose_verify s' ec1_jwk = Ok tt /\
    cs_payload s' = Some [1; 2; 3] /\
    hd_rest (ph_header (cs_protected s')) = labelled [(HEADER_TYP, CText "t")] /\
    hd_rest (cs_unprotected s') = labelled [(HEADER_X5CHAIN, x5chain_value [[4]; [5]])].
Proof.
  apply (cose_sign_roundtrip (key := ec_key_pair ec1) [1; 2; 3] [(HEADER_TYP, CText "t")]
           [(HEADER_X5CHAIN, x5chain_value [[4]; [5]])] demo_sign1).
  - split; [apply NoDup_singleton|]. constructor; [|constructor]. split; [unfold HEADER_TYP; simpl; lia|done].
  - split; [apply NoDup_singleton|]. constructor; [|constructor].
    split; [unfold HEADER_X5CHAIN; simpl; lia|]. by vm_compute.
  - repeat constructor; unfold is_u8; lia.
  - vm_compute. reflexivity.
  - vm_compute. reflexivity.
  - vm_compute. reflexivity.
Defined.

Lemma cose_key_roundtrip_witness :
  (forall v, cose_key ec1_jwk = Ok v -> exists jwk', jwk_from_cose_key v = Ok jwk' /\
    key_type jwk' = key_type ec1_jwk /\
    forall m s, verify_with_jwk jwk' m s = verify_with_jwk ec1_jwk m s) /\
  (key_type ec1_jwk = None -> exists e, cose_key ec1_jwk = Err e).
Proof. apply (cose_key_roundtrip ec1_jwk). Defined.

Lemma demo_key_back :
  res_ok (let? v := cose_key ec1_jwk in jwk_from_cose_key v)
  = Some (mkJwk "EC" (Some "P-256"%string) (jwk_x ec1_jwk) (jwk_y ec1_jwk) None None None None).
Proof. vm_compute. reflexivity. Qed.
End CoseDemo.
