(* ===== verification/Mdoc.v ===== *)
(** * ISO/IEC 18013-5 mdocs

    crates/crypto/src/mdoc.rs: issuing an mdoc, presenting a selection of its
    elements, verifying both forms, and the status list in CWT format.  The
    names of the module are those of the source. *)
From S2P Require Import Prelude Externals Strings Effects Json Keys Jws X509 Cbor Cose.

Module Mdoc.

Definition MDL_DOCTYPE : string := "org.iso.18013.5.1.mDL".
Definition MDL_NAMESPACE : string := "org.iso.18013.5.1".
Definition STATUS_LIST_CWT_TYPE : string := "application/statuslist+cwt".

Definition TAG_ENCODED_CBOR : Z := 24.
Definition TAG_TDATE : Z := 0.
Definition TAG_FULL_DATE : Z := 1004.

Definition CWT_SUB : Z := 2.
Definition CWT_EXP : Z := 4.
Definition CWT_IAT : Z := 6.
Definition CWT_TTL : Z := 65534.
Definition CWT_STATUS_LIST : Z := 65533.

Inductive MdocError :=
| ME_Cbor (what : string)
| ME_Malformed (what : string)
| ME_Untrusted (what : string)
| ME_IssuerSignature (what : string)
| ME_DigestMismatch (what : string)
| ME_Validity (what : string)
| ME_DeviceAuthentication (what : string)
| ME_Unsupported (what : string)
| ME_Cose (e : CoseError).

Definition mdoc_error_to_string (e : MdocError) : string :=
  match e with
  | ME_Cbor s => "CBOR error: " +:+ s
  | ME_Malformed s => "malformed mdoc: " +:+ s
  | ME_Untrusted s => "issuer is not trusted: " +:+ s
  | ME_IssuerSignature s => "issuer signature is invalid: " +:+ s
  | ME_DigestMismatch s => "data element does not match the MSO: " +:+ s
  | ME_Validity s => "mdoc is not valid now: " +:+ s
  | ME_DeviceAuthentication s => "device authentication failed: " +:+ s
  | ME_Unsupported s => "unsupported: " +:+ s
  | ME_Cose e => cose_error_to_string e
  end.

(** What is printed of third-party values: [{:?}] of an optional integer, and
    a JSON value as text. *)
Class MdocShow := {
  debug_integer : Z -> string;
  json_to_string : Value -> string;
}.

(** ** CBOR helpers *)
Section Helpers.
Context `{Ciborium} `{Chrono} `{Base64Url} `{MdocShow}.

Definition encode (value : Cbor) : res bytes MdocError := map_err ME_Cbor (from_ext (cbor_encode value)).
Definition decode (b : bytes) : res Cbor MdocError := map_err ME_Cbor (from_ext (cbor_decode b)).

Definition embed (value : Cbor) : res Cbor MdocError :=
  let? b := encode value in
  Ok (CTag TAG_ENCODED_CBOR (CBytes b)).

Definition unembed (value : Cbor) : res Cbor MdocError :=
  match value with
  | CTag n inner =>
      if n =? TAG_ENCODED_CBOR then
        match inner with
        | CBytes b => decode b
        | _ => Err (ME_Malformed "tag 24 must wrap a byte string")
        end
      else Err (ME_Malformed "expected an embedded CBOR item (tag 24)")
  | _ => Err (ME_Malformed "expected an embedded CBOR item (tag 24)")
  end.

Definition get (map : Cbor) (key : string) : option Cbor := as_map map ≫= map_find (text_key key).

Definition require (map : Cbor) (key context : string) : res Cbor MdocError :=
  ok_or (get map key) (ME_Malformed (context +:+ " is missing '" +:+ key +:+ "'")).

Definition require_text (map : Cbor) (key context : string) : res string MdocError :=
  let? v := require map key context in
  ok_or (as_text v) (ME_Malformed (context +:+ " '" +:+ key +:+ "' is not text")).

Definition tdate (at_time : DateTime) : Cbor := CTag TAG_TDATE (CText (rfc3339_secs at_time)).
Definition full_date (date : Z) : Cbor := CTag TAG_FULL_DATE (CText (ymd date)).

Definition parse_tdate (value : Cbor) (field : string) : res DateTime MdocError :=
  match value with
  | CTag n inner =>
      if n =? TAG_TDATE then
        ok_or (as_text inner ≫= fun s => match parse_rfc3339 s with inl t => Some t | inr _ => None end)
          (ME_Malformed (field +:+ " is not an RFC 3339 date-time"))
      else Err (ME_Malformed (field +:+ " is not a tdate"))
  | _ => Err (ME_Malformed (field +:+ " is not a tdate"))
  end.

(** [Number::from_f64]: a float that is neither infinite nor a NaN. *)
Definition from_f64 (bits : Z) : Value :=
  if Z.land (Z.shiftr bits 52) 2047 =? 2047 then VNull else VNumber (NFloat bits).

Fixpoint cbor_to_json (value : Cbor) : Value :=
  match value with
  | CText s => VString s
  | CBool b => VBool b
  | CNull => VNull
  | CInt i =>
      if in_i64 i || ((0 <=? i) && (i <? 2 ^ 64)) then VNumber (NInt i) else VString (pretty i)
  | CFloat f => from_f64 f
  | CBytes b => VString (b64url_encode b)
  | CArray items => VArray (map cbor_to_json items)
  | CMap entries =>
      json_obj (map (fun kv =>
        (match kv.1 with CText s => s | _ => json_to_string (cbor_to_json kv.1) end,
         cbor_to_json kv.2)) entries)
  | CTag _ inner => cbor_to_json inner
  end.
End Helpers.

(** ** Issuance *)
Record StatusListRef := mkStatusListRef { slr_idx : Z; slr_uri : string }.

(** The namespaces are a [BTreeMap]: their list is in key order. *)
Record IssueRequest := mkIssueRequest {
  ir_doc_type : string;
  ir_namespaces : list (string * list (string * Cbor));
  ir_device_key : Jwk;
  ir_signed : DateTime;
  ir_valid_from : DateTime;
  ir_valid_until : DateTime;
  ir_status : option StatusListRef;
  ir_x5chain : list bytes;
}.

(** [rand::random::<u32>()], from four random bytes. *)
Definition u32_of (b : bytes) : Z := fold_right (fun d acc => d + 256 * acc) 0 b mod 2 ^ 32.

Section Issue.
Context `{Ciborium} `{Chrono} `{Base64Url} `{Sha2} `{P256} `{Ed25519} `{Coset} `{DebugStr}.
Context {F : Type -> Type} `{Sub SysE F}.

(** An error [None] says that the loop below used up its fuel. *)
Fixpoint draw_digest_id (fuel : nat) (ids : gset Z) : prog F (res Z (option MdocError)) :=
  match fuel with
  | O => Ret (Err None)
  | S fuel =>
      do b <- random_bytes 4;
      let id := u32_of b in
      if bool_decide (id ∈ ids) then draw_digest_id fuel ids else Ret (Ok id)
  end.

Definition signed_item (digest_id : Z) (random : bytes) (identifier : string) (value : Cbor) : Cbor :=
  CMap [(CText "digestID", CInt digest_id); (CText "random", CBytes random);
    (CText "elementIdentifier", CText identifier); (CText "elementValue", value)].

(** One namespace: its items, and the digest of each. *)
Fixpoint issue_elements (fuel : nat) (ids : gset Z) (elements : list (string * Cbor))
    : prog F (res (list Cbor * list (Cbor * Cbor)) (option MdocError)) :=
  match elements with
  | [] => Ret (Ok ([], []))
  | (identifier, value) :: elements' =>
      do? digest_id <- draw_digest_id fuel ids;
      do random <- random_bytes 32;
      do? item <- Ret (map_err Some (embed (signed_item digest_id random identifier value)));
      do? b <- Ret (map_err Some (encode item));
      let digest := sha256 b in
      do? rest <- issue_elements fuel ({[digest_id]} ∪ ids) elements';
      Ret (Ok (item :: rest.1, (CInt digest_id, CBytes digest) :: rest.2))
  end.

Fixpoint issue_namespaces (fuel : nat) (namespaces : list (string * list (string * Cbor)))
    : prog F (res (list (Cbor * Cbor) * list (Cbor * Cbor)) (option MdocError)) :=
  match namespaces with
  | [] => Ret (Ok ([], []))
  | (namespace, elements) :: namespaces' =>
      do? ns <- issue_elements fuel ∅ elements;
      do? rest <- issue_namespaces fuel namespaces';
      Ret (Ok ((CText namespace, CArray ns.1) :: rest.1, (CText namespace, CMap ns.2) :: rest.2))
  end.

Definition whole_seconds (at_time : DateTime) : res DateTime MdocError :=
  match from_timestamp (timestamp at_time) with Some t => Ok t | None => Panic end.

Definition mso_entries (request : IssueRequest) (value_digests : list (Cbor * Cbor)) (device_key : Cbor)
    (signed valid_from valid_until : DateTime) : list (Cbor * Cbor) :=
  [(CText "version", CText "1.0");
   (CText "digestAlgorithm", CText "SHA-256");
   (CText "valueDigests", CMap value_digests);
   (CText "deviceKeyInfo", CMap [(CText "deviceKey", device_key)]);
   (CText "docType", CText (ir_doc_type request));
   (CText "validityInfo", CMap [(CText "signed", tdate signed); (CText "validFrom", tdate valid_from);
      (CText "validUntil", tdate valid_until)])] ++
  match ir_status request with
  | Some status =>
      [(CText "status", CMap [(CText "status_list",
          CMap [(CText "idx", CInt (slr_idx status)); (CText "uri", CText (slr_uri status))])])]
  | None => []
  end.

(** The signed object, and the structure that carries it. *)
Definition sign_mso (request : IssueRequest) (signer : KeyPair) (name_spaces value_digests : list (Cbor * Cbor))
    (signed valid_from valid_until : DateTime) : res bytes MdocError :=
  let? device_key := map_err ME_Cose (cose_key (ir_device_key request)) in
  let? mso := embed (CMap (mso_entries request value_digests device_key signed valid_from valid_until)) in
  let? payload := encode mso in
  let? issuer_auth := map_err ME_Cose
    (cose_sign signer payload [] [(HEADER_X5CHAIN, x5chain_value (ir_x5chain request))]) in
  let? issuer_auth := map_err ME_Cose (to_value issuer_auth) in
  encode (CMap [(CText "nameSpaces", CMap name_spaces); (CText "issuerAuth", issuer_auth)]).

Definition issue (fuel : nat) (request : IssueRequest) (signer : KeyPair)
    : prog F (res bytes (option MdocError)) :=
  do? signed <- Ret (map_err Some (whole_seconds (ir_signed request)));
  do? from <- Ret (map_err Some (whole_seconds (ir_valid_from request)));
  let valid_from := Z.max from signed in
  do? valid_until <- Ret (map_err Some (whole_seconds (ir_valid_until request)));
  pfail? valid_until <=? valid_from with Some (ME_Validity "validUntil must be after validFrom");
  do? spaces <- issue_namespaces fuel (ir_namespaces request);
  Ret (map_err Some (sign_mso request signer spaces.1 spaces.2 signed valid_from valid_until)).
End Issue.

(** ** Verification of IssuerSigned *)
Record VerifiedMdoc := mkVerifiedMdoc {
  vm_doc_type : string;
  vm_claims : gmap string (gmap string Value);
  vm_device_key : Jwk;
  vm_signed : DateTime;
  vm_valid_from : DateTime;
  vm_valid_until : DateTime;
  vm_status : option StatusListRef;
  vm_signer_certificate : bytes;
}.

Definition claim (v : VerifiedMdoc) (namespace element : string) : option Value :=
  vm_claims v !! namespace ≫= fun elements => elements !! element.

Section Verify.
Context `{Ciborium} `{Chrono} `{Base64Url} `{Base64Std} `{Sha2} `{P256} `{Ed25519} `{Coset} `{DebugStr}.
Context `{MdocShow} `{X509Api}.

Definition issuer_x5chain (issuer_auth : CoseSign1) : res (list bytes) MdocError :=
  let? chain := map_err ME_Cose (x5chain (cs_unprotected issuer_auth)) in
  let? chain := match chain with
                | [] => map_err ME_Cose (x5chain (ph_header (cs_protected issuer_auth)))
                | _ => Ok chain
                end in
  match chain with
  | [] => Err (ME_Untrusted "issuerAuth has no x5chain")
  | _ => Ok chain
  end.

(** The digest the MSO gives for an item, when it is a byte string. *)
Definition signed_digest (digests : Cbor) (digest_id : Z) : option bytes :=
  as_map digests ≫= fun m => map_find (int_key digest_id) m ≫= as_byte_string.

Fixpoint check_items (namespace : string) (digests : Cbor) (items : list Cbor)
    (elements : gmap string Value) : res (gmap string Value) MdocError :=
  match items with
  | [] => Ok elements
  | item_bytes :: items' =>
      let? item := unembed item_bytes in
      let? identifier := require_text item "elementIdentifier" "IssuerSignedItem" in
      let? v := require item "digestID" "IssuerSignedItem" in
      let? digest_id := ok_or (as_integer v) (ME_Malformed "digestID is not an integer") in
      let? b := encode item_bytes in
      fail? bool_decide (signed_digest digests digest_id <> Some (sha256 b)) with
        ME_DigestMismatch (namespace +:+ "/" +:+ identifier);
      let? value := require item "elementValue" "IssuerSignedItem" in
      fail? bool_decide (is_Some (elements !! identifier)) with
        ME_Malformed (namespace +:+ "/" +:+ identifier +:+ " appears twice");
      check_items namespace digests items' (<[identifier := cbor_to_json value]> elements)
  end.

Fixpoint check_namespaces (value_digests : Cbor) (name_spaces : list (Cbor * Cbor))
    (claims : gmap string (gmap string Value)) : res (gmap string (gmap string Value)) MdocError :=
  match name_spaces with
  | [] => Ok claims
  | (namespace, items) :: name_spaces' =>
      let? namespace := ok_or (as_text namespace) (ME_Malformed "namespace is not text") in
      let? digests := ok_or (get value_digests namespace)
        (ME_DigestMismatch ("the MSO has no digests for " +:+ namespace)) in
      let? items := ok_or (as_items items) (ME_Malformed (namespace +:+ " is not an array")) in
      let? elements := check_items namespace digests items (default ∅ (claims !! namespace)) in
      check_namespaces value_digests name_spaces' (<[namespace := elements]> claims)
  end.

Definition parse_status (mso : Cbor) : res (option StatusListRef) MdocError :=
  match get mso "status" ≫= fun s => get s "status_list" with
  | None => Ok None
  | Some status_list =>
      let? v := require status_list "idx" "status_list" in
      let? idx := ok_or (as_integer v ≫= fun i => if (0 <=? i) && (i <? 2 ^ 64) then Some i else None)
        (ME_Malformed "status_list idx is not an index") in
      let? uri := require_text status_list "uri" "status_list" in
      Ok (Some (mkStatusListRef idx uri))
  end.

Definition verify_issuer_signed_value (issuer_signed : Cbor) (expected_doc_type : option string)
    (trust_anchors : list bytes) (now : DateTime) : res VerifiedMdoc MdocError :=
  let? v := require issuer_signed "issuerAuth" "IssuerSigned" in
  let? issuer_auth := map_err ME_Cose (from_value v) in
  let? chain := issuer_x5chain issuer_auth in
  let? signer_key := map_err (fun e => ME_Untrusted (x509_error_to_string e))
    (validate_chain chain trust_anchors now) in
  let? _ := map_err (fun e => ME_IssuerSignature (cose_error_to_string e))
    (cose_verify issuer_auth signer_key) in
  let? payload := ok_or (cs_payload issuer_auth) (ME_Malformed "issuerAuth has no payload") in
  let? wrapped := decode payload in
  let? mso := unembed wrapped in
  let? version := require_text mso "version" "MSO" in
  fail? bool_decide (version <> "1.0"%string) with ME_Unsupported "MSO version other than 1.0";
  let? digest_algorithm := require_text mso "digestAlgorithm" "MSO" in
  fail? bool_decide (digest_algorithm <> "SHA-256"%string) with
    ME_Unsupported "digest algorithm other than SHA-256";
  let? doc_type := require_text mso "docType" "MSO" in
  let? _ := match expected_doc_type with
            | Some expected =>
                fail? bool_decide (doc_type <> expected) with
                  ME_Malformed ("document claims docType '" +:+ expected +:+ "' but the MSO says '"
                    +:+ doc_type +:+ "'");
                Ok tt
            | None => Ok tt
            end in
  let? validity := require mso "validityInfo" "MSO" in
  let? v := require validity "signed" "validityInfo" in
  let? signed := parse_tdate v "signed" in
  let? v := require validity "validFrom" "validityInfo" in
  let? valid_from := parse_tdate v "validFrom" in
  let? v := require validity "validUntil" "validityInfo" in
  let? valid_until := parse_tdate v "validUntil" in
  fail? (now <? valid_from) || (valid_until <? now) with
    ME_Validity ("valid from " +:+ datetime_to_string valid_from +:+ " until "
      +:+ datetime_to_string valid_until);
  let? _ := map_err (fun _ => ME_Validity "MSO was signed outside its certificate's validity")
    (validate_chain chain trust_anchors signed) in
  let? value_digests := require mso "valueDigests" "MSO" in
  let? claims := match get issuer_signed "nameSpaces" with
                 | Some name_spaces =>
                     let? name_spaces := ok_or (as_map name_spaces) (ME_Malformed "nameSpaces is not a map") in
                     check_namespaces value_digests name_spaces ∅
                 | None => Ok ∅
                 end in
  let? info := require mso "deviceKeyInfo" "MSO" in
  let? v := require info "deviceKey" "deviceKeyInfo" in
  let? device_key := map_err ME_Cose (jwk_from_cose_key v) in
  let? status := parse_status mso in
  match chain with
  | [] => Panic
  | certificate :: _ =>
      Ok (mkVerifiedMdoc doc_type claims device_key signed valid_from valid_until status certificate)
  end.

Definition verify_issuer_signed (issuer_signed : bytes) (trust_anchors : list bytes) (now : DateTime)
    : res VerifiedMdoc MdocError :=
  let? v := decode issuer_signed in
  verify_issuer_signed_value v None trust_anchors now.

(** ** Presentation *)
Definition oid4vp_session_transcript (client_id nonce : string) (jwk_thumbprint : option bytes)
    (response_uri : string) : res Cbor MdocError :=
  let? handover_info := encode (CArray [CText client_id; CText nonce;
    match jwk_thumbprint with Some t => CBytes t | None => CNull end; CText response_uri]) in
  Ok (CArray [CNull; CNull; CArray [CText "OpenID4VPHandover"; CBytes (sha256 handover_info)]]).

Definition device_authentication_bytes (session_transcript : Cbor) (doc_type : string)
    (device_name_spaces : Cbor) : res bytes MdocError :=
  let? item := embed (CArray [CText "DeviceAuthentication"; session_transcript; CText doc_type;
    device_name_spaces]) in
  encode item.

(** Whether an item is one of the elements to reveal. *)
Definition to_reveal (disclose : list (string * string)) (namespace_name : string) (item : Cbor) : bool :=
  match unembed item with
  | Ok item =>
      match get item "elementIdentifier" ≫= as_text with
      | Some id => bool_decide ((namespace_name, id) ∈ disclose)
      | None => false
      end
  | _ => false
  end.

Fixpoint reveal (disclose : list (string * string)) (name_spaces : list (Cbor * Cbor)) : list (Cbor * Cbor) :=
  match name_spaces with
  | [] => []
  | (namespace, items) :: name_spaces' =>
      let namespace_name := default EmptyString (as_text namespace) in
      let kept := filter (to_reveal disclose namespace_name) (default [] (as_items items)) in
      match kept with
      | [] => reveal disclose name_spaces'
      | _ => (namespace, CArray kept) :: reveal disclose name_spaces'
      end
  end.

Definition present (issuer_signed : bytes) (disclose : list (string * string)) (session_transcript : Cbor)
    (device_key : KeyPair) : res bytes MdocError :=
  let? issuer_signed := decode issuer_signed in
  let? issuer_auth := require issuer_signed "issuerAuth" "IssuerSigned" in
  let? sign1 := map_err ME_Cose (from_value issuer_auth) in
  let? mso_payload := ok_or (cs_payload sign1) (ME_Malformed "issuerAuth has no payload") in
  let? wrapped := decode mso_payload in
  let? mso := unembed wrapped in
  let? doc_type := require_text mso "docType" "MSO" in
  let revealed := match get issuer_signed "nameSpaces" with
                  | Some (CMap name_spaces) => reveal disclose name_spaces
                  | _ => []
                  end in
  let? device_name_spaces := embed (CMap []) in
  let? to_sign := device_authentication_bytes session_transcript doc_type device_name_spaces in
  let? device_signature := map_err ME_Cose (sign_detached device_key to_sign) in
  let? device_signature := map_err ME_Cose (to_value device_signature) in
  encode (CMap [
    (CText "version", CText "1.0");
    (CText "documents", CArray [CMap [
      (CText "docType", CText doc_type);
      (CText "issuerSigned", CMap [
        (CText "nameSpaces", CMap revealed);
        (CText "issuerAuth", issuer_auth)]);
      (CText "deviceSigned", CMap [
        (CText "nameSpaces", device_name_spaces);
        (CText "deviceAuth", CMap [(CText "deviceSignature", device_signature)])])]]);
    (CText "status", CInt 0)]).

Definition verify_document (session_transcript : Cbor) (trust_anchors : list bytes) (now : DateTime)
    (document : Cbor) : res VerifiedMdoc MdocError :=
  let? doc_type := require_text document "docType" "Document" in
  let? issuer_signed := require document "issuerSigned" "Document" in
  let? verified := verify_issuer_signed_value issuer_signed (Some doc_type) trust_anchors now in
  let? device_signed := require document "deviceSigned" "Document" in
  let? device_name_spaces := require device_signed "nameSpaces" "DeviceSigned" in
  let? device_auth := require device_signed "deviceAuth" "DeviceSigned" in
  let? signature :=
    match get device_auth "deviceSignature" with
    | Some signature => map_err ME_Cose (from_value signature)
    | None =>
        if bool_decide (is_Some (get device_auth "deviceMac")) then
          Err (ME_Unsupported "deviceMac needs a reader key, which OpenID4VP does not use")
        else Err (ME_Malformed "deviceAuth has no deviceSignature")
    end in
  let? signed_bytes := device_authentication_bytes session_transcript doc_type device_name_spaces in
  let? _ := map_err (fun e => ME_DeviceAuthentication (cose_error_to_string e))
    (verify_detached signature signed_bytes (vm_device_key verified)) in
  Ok verified.

(** [iter().map(f).collect::<Result<Vec<_>, _>>()] *)
Fixpoint collect {A B E} (f : A -> res B E) (l : list A) : res (list B) E :=
  match l with
  | [] => Ok []
  | x :: l' =>
      let? y := f x in
      let? ys := collect f l' in
      Ok (y :: ys)
  end.

Definition verify_device_response (device_response : bytes) (session_transcript : Cbor)
    (trust_anchors : list bytes) (now : DateTime) : res (list VerifiedMdoc) MdocError :=
  let? response := decode device_response in
  let? version := require_text response "version" "DeviceResponse" in
  fail? bool_decide (version <> "1.0"%string) with ME_Unsupported "DeviceResponse version other than 1.0";
  let? v := require response "status" "DeviceResponse" in
  let status := as_integer v in
  fail? bool_decide (status <> Some 0) with
    ME_Malformed ("DeviceResponse status is " +:+ debug_opt debug_integer status +:+ ", not OK (0)");
  let? documents := ok_or
    ((get response "documents" ≫= as_items) ≫= fun docs : list Cbor => match docs with [] => None | _ => Some docs end)
    (ME_Malformed "DeviceResponse has no documents") in
  collect (verify_document session_transcript trust_anchors now) documents.

(** ** Status list, CWT format *)
Record StatusListCwt := mkStatusListCwt {
  slc_uri : string;
  slc_bits : Z;
  slc_lst : bytes;
  slc_iat : DateTime;
  slc_exp : DateTime;
  slc_ttl : option Z;
  slc_x5chain : list bytes;
}.

Definition cwt_claims (l : StatusListCwt) : list (Cbor * Cbor) :=
  [(CInt CWT_SUB, CText (slc_uri l));
   (CInt CWT_IAT, CInt (timestamp (slc_iat l)));
   (CInt CWT_EXP, CInt (timestamp (slc_exp l)))] ++
  match slc_ttl l with Some ttl => [(CInt CWT_TTL, CInt ttl)] | None => [] end ++
  [(CInt CWT_STATUS_LIST, CMap [(CText "bits", CInt (slc_bits l)); (CText "lst", CBytes (slc_lst l))])].

Definition sign_status_list_cwt (l : StatusListCwt) (signer : KeyPair) : res bytes MdocError :=
  let? payload := encode (CMap (cwt_claims l)) in
  let? token := map_err ME_Cose (cose_sign signer payload
    [(HEADER_TYP, CText STATUS_LIST_CWT_TYPE); (HEADER_X5CHAIN, x5chain_value (slc_x5chain l))] []) in
  map_err ME_Cose (to_tagged_vec token).

Record VerifiedStatusList := mkVerifiedStatusList {
  vsl_uri : string;
  vsl_bits : Z;
  vsl_lst : bytes;
  vsl_exp : DateTime;
}.

Definition cwt_claim (claims : Cbor) (key : Z) : res Cbor MdocError :=
  ok_or (as_map claims ≫= map_find (int_key key)) (ME_Malformed ("CWT claim " +:+ pretty key +:+ " is missing")).

Definition verify_status_list_cwt (token : bytes) (trust_anchors : list bytes) (now : DateTime)
    : res VerifiedStatusList MdocError :=
  let? token := map_err ME_Cose (sign1_from_slice token) in
  let header := ph_header (cs_protected token) in
  let typ := header_get (LInt HEADER_TYP) (hd_rest header) ≫= as_text in
  fail? bool_decide (typ <> Some STATUS_LIST_CWT_TYPE) with
    ME_Malformed ("typ is " +:+ debug_opt debug_str typ +:+ ", not " +:+ STATUS_LIST_CWT_TYPE);
  let? chain := map_err ME_Cose (x5chain header) in
  let? key := map_err (fun e => ME_Untrusted (x509_error_to_string e)) (validate_chain chain trust_anchors now) in
  let? _ := map_err (fun e => ME_IssuerSignature (cose_error_to_string e)) (cose_verify token key) in
  let? claims := decode (default [] (cs_payload token)) in
  let? v := cwt_claim claims CWT_EXP in
  let? exp := ok_or (as_integer v ≫= fun i => if in_i64 i then from_timestamp i else None)
    (ME_Malformed "exp is not a NumericDate") in
  fail? exp <? now with ME_Validity "the status list has expired";
  let? status_list := cwt_claim claims CWT_STATUS_LIST in
  let? v := cwt_claim claims CWT_SUB in
  let? uri := ok_or (as_text v) (ME_Malformed "sub is not text") in
  let? v := require status_list "bits" "status_list" in
  let? bits := ok_or (as_integer v ≫= fun i => if (0 <=? i) && (i <? 256) then Some i else None)
    (ME_Malformed "bits is not a small integer") in
  let? v := require status_list "lst" "status_list" in
  let? lst := ok_or (as_byte_string v) (ME_Malformed "lst is not a byte string") in
  Ok (mkVerifiedStatusList uri bits lst exp).
End Verify.
End Mdoc.
