(* ===== verification/MdocVerify.v ===== *)
(** * What mdoc verification accepts

    Exact characterisations of the verifiers of Mdoc: an [IssuerSigned], a
    [DeviceResponse] and a status list token are accepted under the stated
    conditions and no others, with the stated results. *)
From S2P Require Import Prelude Externals Strings Effects Json Keys Jws X509 Cbor Cose Mdoc.
Import Mdoc.

Section Accepts.
Context `{CB : Ciborium} `{CH : Chrono} `{B64 : Base64Url} `{B64S : Base64Std} `{S2 : Sha2}.
Context `{P : P256} `{D : Ed25519} `{CT : CosetTypes} `{K : !Coset} `{DS : DebugStr}.
Context `{MS : MdocShow} `{XA : X509Api}.

Lemma require_Ok m k c v : require m k c = Ok v <-> get m k = Some v.
Proof. apply ok_or_Ok. Qed.

(** A member that is text, and one that is a date. *)
Definition text_at (m : Cbor) (k s : string) : Prop := get m k = Some (CText s).
Definition date_at (m : Cbor) (k : string) (t : DateTime) : Prop :=
  exists v, get m k = Some v /\ parse_tdate v k = Ok t.

Lemma require_text_Ok m k c s : require_text m k c = Ok s <-> text_at m k s.
Proof.
  unfold require_text, text_at. rewrite res_bind_Ok. setoid_rewrite require_Ok. setoid_rewrite ok_or_Ok.
  split.
  - intros (v & Hg & Hv). destruct v; try done. injection Hv as ->. done.
  - intros Hg. by exists (CText s).
Qed.

(** An item reveals an element: its digest is the one signed under its id. *)
Definition reveals (digests item_bytes : Cbor) (element : string * Value) : Prop :=
  exists item id b value,
    unembed item_bytes = Ok item /\ text_at item "elementIdentifier" element.1 /\
    get item "digestID" = Some (CInt id) /\ encode item_bytes = Ok b /\
    signed_digest digests id = Some (sha256 b) /\
    get item "elementValue" = Some value /\ cbor_to_json value = element.2.

Definition add_elements (entries : list (string * Value)) (elements : gmap string Value) : gmap string Value :=
  fold_left (fun m e => <[e.1 := e.2]> m) entries elements.

Lemma as_integer_Some v i : as_integer v = Some i <-> v = CInt i.
Proof. destruct v; simpl; naive_solver. Qed.

Lemma check_items_Ok ns digests items elements elements' :
  check_items ns digests items elements = Ok elements' <->
  exists entries, Forall2 (reveals digests) items entries /\ NoDup entries.*1 /\
    Forall (fun k => elements !! k = None) entries.*1 /\ elements' = add_elements entries elements.
Proof.
  revert elements. induction items as [|item items IH]; intros elements; simpl.
  - split; [intros [= <-]; exists []; repeat constructor|].
    intros (entries & Hf & _ & _ & ->). by inversion Hf.
  - split.
    + intros Ho. inv_ok. b2p.
      repeat match goal with
      | H : require_text _ _ _ = Ok _ |- _ => apply require_text_Ok in H
      | H : require _ _ _ = Ok _ |- _ => apply require_Ok in H
      | H : as_integer _ = Some _ |- _ => apply as_integer_Some in H; subst
      | H : ~ (_ <> _) |- _ => apply dec_stable in H
      | H : ~ is_Some _ |- _ => apply eq_None_not_Some in H
      end.
      apply IH in Ho as (entries & Hf & Hd & Hn & ->).
      match goal with
      | Hu : unembed item = Ok ?it, Ht : text_at ?it _ ?id, Hv : get ?it "elementValue" = Some ?v,
        Hnone : elements !! ?id = None |- _ =>
          exists ((id, cbor_to_json v) :: entries); split; [|split; [|split]]
      end.
      * constructor; [|done]. do 4 eexists. simpl. eauto 10.
      * simpl. constructor; [|done]. intros Hin. rewrite list.Forall_forall in Hn.
        specialize (Hn _ Hin). by rewrite lookup_insert_eq in Hn.
      * simpl. constructor; [done|]. eapply Forall_impl; [exact Hn|]. simpl. intros k Hk.
        by apply lookup_insert_None in Hk as [? _].
      * done.
    + intros (entries & Hf & Hd & Hn & ->). inversion Hf as [|? e ? entries' He Hf']; subst.
      destruct He as (it & id & b & value & Hu & Ht & Hid & Hb & Hs & Hv & Hj).
      simpl in Hd, Hn. apply NoDup_cons in Hd as [Hnew Hd]. apply Forall_cons in Hn as [Hnone Hn].
      rewrite Hu. cbn [res_bind]. rewrite (proj2 (require_text_Ok it _ _ _) Ht). cbn [res_bind].
      rewrite (proj2 (require_Ok it _ _ _) Hid). cbn [res_bind as_integer ok_or]. rewrite Hb. cbn [res_bind].
      rewrite bool_decide_eq_false_2 by auto.
      rewrite (proj2 (require_Ok it _ _ _) Hv). cbn [res_bind].
      rewrite bool_decide_eq_false_2 by (rewrite Hnone; by intros [? [=]]).
      apply IH. exists entries'. rewrite Hj. split; [done|]. split; [done|]. split; [|done].
      apply list.Forall_forall. intros k Hk. rewrite lookup_insert_ne by (intros <-; done).
      by eapply list.Forall_forall in Hn.
Qed.

(** A namespace: a name with digests, and items that all reveal an element. *)
Definition reveals_space (value_digests : Cbor) (space : Cbor * Cbor)
    (entry : string * list (string * Value)) : Prop :=
  exists digests items, space = (CText entry.1, CArray items) /\
    get value_digests entry.1 = Some digests /\ Forall2 (reveals digests) items entry.2.

Definition add_space (claims : gmap string (gmap string Value)) (entry : string * list (string * Value)) :=
  <[entry.1 := add_elements entry.2 (default ∅ (claims !! entry.1))]> claims.

(** The elements revealed, by namespace, none twice. *)
Definition names_of (entries : list (string * list (string * Value))) : list (string * string) :=
  mjoin (map (fun e => map (pair e.1) e.2.*1) entries).

Lemma names_of_cons ns es entries :
  names_of ((ns, es) :: entries) = map (pair ns) es.*1 ++ names_of entries.
Proof. done. Qed.

Definition lookup2 (claims : gmap string (gmap string Value)) (n : string * string) : option Value :=
  claims !! n.1 ≫= fun elements => elements !! n.2.

Lemma add_elements_lookup entries m k :
  k ∉ entries.*1 -> add_elements entries m !! k = m !! k.
Proof.
  revert m. induction entries as [|[k' v] entries IH]; intros m; simpl; [done|].
  rewrite not_elem_of_cons. intros [? ?]. unfold add_elements in *. simpl. rewrite IH by done.
  by rewrite lookup_insert_ne.
Qed.

Lemma add_elements_lookup_in entries m k v :
  NoDup entries.*1 -> (k, v) ∈ entries -> add_elements entries m !! k = Some v.
Proof.
  revert m. induction entries as [|[k' v'] entries IH]; intros m; simpl; [by intros _ ?%not_elem_of_nil|].
  intros [Hn Hd]%NoDup_cons [[= -> ->]|Hin]%elem_of_cons.
  - change (add_elements entries (<[k' := v']> m) !! k' = Some v').
    rewrite add_elements_lookup by done. apply lookup_insert_eq.
  - apply (IH (<[k' := v']> m)); done.
Qed.

Lemma add_space_lookup2 claims ns es n :
  n ∉ map (pair ns) es.*1 -> lookup2 (add_space claims (ns, es)) n = lookup2 claims n.
Proof.
  unfold lookup2, add_space. destruct n as [m k]. simpl. intros Hn.
  destruct (decide (ns = m)) as [->|]; [|by rewrite lookup_insert_ne].
  rewrite lookup_insert_eq. simpl. rewrite add_elements_lookup.
  - by destruct (claims !! m).
  - intros Hk. apply Hn. apply list_elem_of_fmap. by exists k.
Qed.

Lemma check_namespaces_Ok vd spaces claims claims' :
  check_namespaces vd spaces claims = Ok claims' <->
  exists entries, Forall2 (reveals_space vd) spaces entries /\ NoDup (names_of entries) /\
    Forall (fun n => lookup2 claims n = None) (names_of entries) /\
    claims' = fold_left add_space entries claims.
Proof.
  revert claims. induction spaces as [|[nsv items] spaces IH]; intros claims; simpl.
  - split; [intros [= <-]; exists []; repeat constructor|].
    intros (entries & Hf & _ & _ & ->). by inversion Hf.
  - split.
    + intros Ho. inv_ok.
      match goal with Hn : as_text nsv = Some ?s |- _ =>
        assert (nsv = CText s) by (destruct nsv; simpl in Hn; congruence); subst nsv; clear Hn end.
      match goal with Hi : as_items items = Some ?l |- _ =>
        assert (items = CArray l) by (destruct items; simpl in Hi; congruence); subst items; clear Hi end.
      match goal with Hc : check_items ?ns ?dg ?its _ = Ok ?els |- _ =>
        apply check_items_Ok in Hc as (es & Hes & Hd & Hnone & ->); rename ns into name end.
      apply IH in Ho as (entries & Hf & Hd' & Hn' & ->).
      exists ((name, es) :: entries). rewrite names_of_cons. split; [|split; [|split]].
      * constructor; [|done]. by do 2 eexists.
      * apply NoDup_app. split; [by apply (NoDup_fmap_2 _)|]. split; [|done].
        intros n Hin Hin'. rewrite list.Forall_forall in Hn'. specialize (Hn' n Hin').
        apply list_elem_of_fmap in Hin as (k & -> & Hk).
        apply list_elem_of_fmap in Hk as ([k' v] & -> & Hk).
        unfold lookup2 in Hn'. simpl in Hn'. rewrite lookup_insert_eq in Hn'. simpl in Hn'.
        by rewrite (add_elements_lookup_in _ _ k' v) in Hn'.
      * apply Forall_app. split.
        -- apply Forall_fmap. eapply Forall_impl; [exact Hnone|]. intros k Hk. simpl.
           unfold lookup2. simpl. by destruct (claims !! name).
        -- apply list.Forall_forall. intros n Hin. rewrite list.Forall_forall in Hn'.
           specialize (Hn' n Hin). destruct (decide (n ∈ map (pair name) es.*1)) as [Hin'|Hin'].
           ++ exfalso. apply list_elem_of_fmap in Hin' as (k & -> & Hk).
              apply list_elem_of_fmap in Hk as ([k' v] & -> & Hk).
              unfold lookup2 in Hn'. simpl in Hn'. rewrite lookup_insert_eq in Hn'. simpl in Hn'.
              by rewrite (add_elements_lookup_in _ _ k' v) in Hn'.
           ++ rewrite <- Hn'. symmetry. by apply add_space_lookup2.
      * done.
    + intros (entries & Hf & Hd & Hn & ->). inversion Hf as [|? [name es] ? entries' He Hf']; subst.
      destruct He as (digests & its & [= -> ->] & Hg & Hes). simpl in Hg, Hes |- *.
      rewrite Hg. simpl. rewrite names_of_cons in Hd, Hn.
      apply NoDup_app in Hd as (Hd1 & Hd2 & Hd3). apply Forall_app in Hn as [Hn1 Hn2].
      assert (check_items name digests its (default ∅ (claims !! name))
              = Ok (add_elements es (default ∅ (claims !! name)))) as ->.
      { apply check_items_Ok. exists es. split; [done|]. split; [by apply NoDup_fmap_1 in Hd1|].
        split; [|done]. apply Forall_fmap in Hn1. eapply Forall_impl; [exact Hn1|]. intros k Hk.
        unfold lookup2 in Hk. simpl in Hk. by destruct (claims !! name). }
      simpl. apply IH. exists entries'. split; [done|]. split; [done|]. split; [|done].
      apply list.Forall_forall. intros n Hin. rewrite list.Forall_forall in Hn2.
      rewrite <- (Hn2 n Hin). apply add_space_lookup2. intros Hin'. by apply (Hd2 n).
Qed.

(** The value of an element is the one revealed. *)
Lemma add_elements_Some es m k v :
  NoDup es.*1 -> Forall (fun k => m !! k = None) es.*1 ->
  add_elements es m !! k = Some v <-> (k, v) ∈ es \/ m !! k = Some v.
Proof.
  intros Hd Hn. destruct (decide (k ∈ es.*1)) as [Hin|Hin].
  - rewrite list.Forall_forall in Hn. rewrite (Hn k Hin).
    apply list_elem_of_fmap in Hin as ([k' v'] & -> & Hin). simpl.
    rewrite (add_elements_lookup_in es m k' v') by done. split; [intros [= ->]; by left|].
    intros [Hin'|?]; [|done]. rewrite <- (add_elements_lookup_in es m k' v Hd Hin').
    by rewrite (add_elements_lookup_in es m k' v').
  - rewrite add_elements_lookup by done. split; [by right|]. intros [Hin'|]; [|done].
    exfalso. apply Hin, list_elem_of_fmap. by exists (k, v).
Qed.

Lemma add_spaces_Some entries claims n v :
  NoDup (names_of entries) -> Forall (fun n => lookup2 claims n = None) (names_of entries) ->
  lookup2 (fold_left add_space entries claims) n = Some v <->
  (exists es, (n.1, es) ∈ entries /\ (n.2, v) ∈ es) \/ lookup2 claims n = Some v.
Proof.
  revert claims. induction entries as [|[ns es] entries IH]; intros claims.
  - simpl. intros _ _. split; [by right|]. intros [(es & Hin & _)|]; [|done]. by apply not_elem_of_nil in Hin.
  - rewrite names_of_cons. intros Hd Hn.
    apply NoDup_app in Hd as (Hd1 & Hd2 & Hd3). apply Forall_app in Hn as [Hn1 Hn2].
    change (fold_left add_space ((ns, es) :: entries) claims)
      with (fold_left add_space entries (add_space claims (ns, es))).
    rewrite IH; [|done|].
    + assert (Hadd : lookup2 (add_space claims (ns, es)) n = Some v <->
        (n.1 = ns /\ (n.2, v) ∈ es) \/ lookup2 claims n = Some v).
      { destruct n as [m k]. unfold lookup2, add_space. simpl.
        destruct (decide (ns = m)) as [->|]; [|rewrite lookup_insert_ne by done; naive_solver].
        rewrite lookup_insert_eq. simpl. rewrite add_elements_Some.
        - destruct (claims !! m); simpl; naive_solver.
        - by apply NoDup_fmap_1 in Hd1.
        - apply Forall_fmap in Hn1. eapply Forall_impl; [exact Hn1|]. intros j Hj.
          unfold lookup2 in Hj. simpl in Hj. by destruct (claims !! m). }
      rewrite Hadd. destruct n as [m k]. simpl. setoid_rewrite elem_of_cons. naive_solver.
    + apply list.Forall_forall. intros n' Hin. rewrite list.Forall_forall in Hn2.
      rewrite <- (Hn2 n' Hin). apply add_space_lookup2. intros Hin'. by apply (Hd2 n').
Qed.

Lemma claims_lookup entries n v :
  NoDup (names_of entries) ->
  lookup2 (fold_left add_space entries ∅) n = Some v <->
  exists es, (n.1, es) ∈ entries /\ (n.2, v) ∈ es.
Proof.
  intros Hd. rewrite add_spaces_Some; [|done|].
  - unfold lookup2. rewrite lookup_empty. naive_solver.
  - apply list.Forall_forall. intros m _. unfold lookup2. by rewrite lookup_empty.
Qed.

(** The Mobile Security Object of a signed message. *)
Definition mso_of (auth : CoseSign1) (mso : Cbor) : Prop :=
  exists payload wrapped, cs_payload auth = Some payload /\ decode payload = Ok wrapped /\
    unembed wrapped = Ok mso.

(** What the verified signature covers. *)
Definition mso_says (mso : Cbor) (v : VerifiedMdoc) : Prop :=
  text_at mso "version" "1.0" /\ text_at mso "digestAlgorithm" "SHA-256" /\
  text_at mso "docType" (vm_doc_type v) /\
  (exists validity, get mso "validityInfo" = Some validity /\ date_at validity "signed" (vm_signed v) /\
     date_at validity "validFrom" (vm_valid_from v) /\ date_at validity "validUntil" (vm_valid_until v)) /\
  (exists info key, get mso "deviceKeyInfo" = Some info /\ get info "deviceKey" = Some key /\
     jwk_from_cose_key key = Ok (vm_device_key v)) /\
  parse_status mso = Ok (vm_status v).

(** The claims are the elements revealed, each backed by a digest of the MSO. *)
Definition claims_backed (issuer_signed mso : Cbor) (claims : gmap string (gmap string Value)) : Prop :=
  exists value_digests, get mso "valueDigests" = Some value_digests /\
  match get issuer_signed "nameSpaces" with
  | None => claims = ∅
  | Some spaces => exists l entries, spaces = CMap l /\ Forall2 (reveals_space value_digests) l entries /\
      NoDup (names_of entries) /\ claims = fold_left add_space entries ∅
  end.

Definition mdoc_accepted (issuer_signed : Cbor) (expected : option string) (trust_anchors : list bytes)
    (now : DateTime) (v : VerifiedMdoc) : Prop :=
  exists auth_v auth rest key key' mso,
    get issuer_signed "issuerAuth" = Some auth_v /\ from_value auth_v = Ok auth /\
    issuer_x5chain auth = Ok (vm_signer_certificate v :: rest) /\
    validate_chain (vm_signer_certificate v :: rest) trust_anchors now = Ok key /\
    cose_verify auth key = Ok tt /\ mso_of auth mso /\ mso_says mso v /\
    (expected = None \/ expected = Some (vm_doc_type v)) /\
    vm_valid_from v <= now <= vm_valid_until v /\
    validate_chain (vm_signer_certificate v :: rest) trust_anchors (vm_signed v) = Ok key' /\
    claims_backed issuer_signed mso (vm_claims v).

(** Turn the tests of a verifier into the facts they establish. *)
Ltac facts :=
  repeat match goal with
  | u : () |- _ => destruct u
  | H : require_text _ _ _ = Ok _ |- _ => apply require_text_Ok in H
  | H : require _ _ _ = Ok _ |- _ => apply require_Ok in H
  | H : ~ (_ <> _) |- _ => apply dec_stable in H
  | H : ~ is_Some _ |- _ => apply eq_None_not_Some in H
  end.

Lemma claims_backed_Ok issuer_signed mso vd claims :
  get mso "valueDigests" = Some vd ->
  match get issuer_signed "nameSpaces" with
  | Some name_spaces =>
      let? name_spaces := ok_or (as_map name_spaces) (ME_Malformed "nameSpaces is not a map") in
      check_namespaces vd name_spaces ∅
  | None => Ok ∅
  end = Ok claims <-> claims_backed issuer_signed mso claims.
Proof.
  intros Hvd. unfold claims_backed. rewrite Hvd.
  destruct (get issuer_signed "nameSpaces") as [spaces|].
  - rewrite res_bind_Ok. setoid_rewrite ok_or_Ok. split.
    + intros (l & Hl & Hc). exists vd. split; [done|].
      apply check_namespaces_Ok in Hc as (entries & ? & ? & _ & ?).
      exists l, entries. split; [destruct spaces; simpl in Hl; congruence|done].
    + intros (vd' & [= <-] & l & entries & -> & ? & ? & ->). exists l. split; [done|].
      apply check_namespaces_Ok. exists entries. repeat (split; [done|]). split; [|done].
      apply list.Forall_forall. intros n _. unfold lookup2. by rewrite lookup_empty.
  - split; [intros [= <-]; by exists vd|]. by intros (_ & _ & ->).
Qed.

Lemma verify_value_Ok issuer_signed expected anchors now v :
  verify_issuer_signed_value issuer_signed expected anchors now = Ok v <->
  mdoc_accepted issuer_signed expected anchors now v.
Proof.
  unfold verify_issuer_signed_value. split.
  - intros Ho. inv_ok. b2p. facts.
    match goal with Hvd : get _ "valueDigests" = Some _, Hc : _ = Ok _ |- _ =>
      apply (claims_backed_Ok issuer_signed _ _ _ Hvd) in Hc end.
    destruct a1 as [|cert rest]; [done|]. injection Ho as <-. subst.
    exists a, a0, rest, a2, a18, a6. simpl. repeat (split; [done|]).
    split; [by exists a4, a5|]. split.
    + split; [done|]. split; [done|]. split; [done|].
      split; [exists a11; split; [done|]; split; [by eexists|]; split; by eexists|].
      split; [by exists a21, a22|done].
    + split; [|done]. destruct expected as [e|]; [right|by left]. inv_ok. b2p. facts. congruence.
  - intros (av & auth & rest & key & key' & mso & Hav & Hauth & Hch & Hval & Hver & Hmso & Hsays & Hexp & Hnow
      & Hval' & Hcl).
    destruct Hmso as (payload & wrapped & Hpl & Hdec & Hun).
    destruct Hsays as (Hvs & Hda & Hdt & (validity & Hvi & (v1 & Hg1 & Hp1) & (v2 & Hg2 & Hp2) & (v3 & Hg3 & Hp3))
      & (info & dk & Hin & Hdk & Hjwk) & Hst).
    rewrite (proj2 (require_Ok _ _ _ _) Hav). cbn [res_bind]. rewrite Hauth. cbn [res_bind map_err].
    rewrite Hch. cbn [res_bind]. rewrite Hval. cbn [res_bind map_err]. rewrite Hver. cbn [res_bind map_err].
    rewrite Hpl. cbn [res_bind ok_or]. rewrite Hdec. cbn [res_bind]. rewrite Hun. cbn [res_bind].
    rewrite (proj2 (require_text_Ok _ _ _ _) Hvs). cbn [res_bind]. rewrite bool_decide_eq_false_2 by auto.
    rewrite (proj2 (require_text_Ok _ _ _ _) Hda). cbn [res_bind]. rewrite bool_decide_eq_false_2 by auto.
    rewrite (proj2 (require_text_Ok _ _ _ _) Hdt). cbn [res_bind].
    assert (match expected with
            | Some expected =>
                fail? bool_decide (vm_doc_type v <> expected) with
                  ME_Malformed ("document claims docType '" +:+ expected +:+ "' but the MSO says '"
                    +:+ vm_doc_type v +:+ "'");
                Ok tt
            | None => Ok tt
            end = Ok tt) as ->.
    { destruct Hexp as [->| ->]; [done|]. by rewrite bool_decide_eq_false_2 by auto. }
    cbn [res_bind]. rewrite (proj2 (require_Ok _ _ _ _) Hvi). cbn [res_bind].
    rewrite (proj2 (require_Ok _ _ _ _) Hg1). cbn [res_bind]. rewrite Hp1. cbn [res_bind].
    rewrite (proj2 (require_Ok _ _ _ _) Hg2). cbn [res_bind]. rewrite Hp2. cbn [res_bind].
    rewrite (proj2 (require_Ok _ _ _ _) Hg3). cbn [res_bind]. rewrite Hp3. cbn [res_bind].
    rewrite (proj2 (Z.ltb_ge _ _)), (proj2 (Z.ltb_ge _ _)) by lia. cbn [orb].
    rewrite Hval'. cbn [res_bind map_err].
    pose proof Hcl as (vd & Hvd & _). rewrite (proj2 (require_Ok _ _ _ _) Hvd). cbn [res_bind].
    rewrite (proj2 (claims_backed_Ok issuer_signed mso vd _ Hvd) Hcl). cbn [res_bind].
    rewrite (proj2 (require_Ok _ _ _ _) Hin). cbn [res_bind].
    rewrite (proj2 (require_Ok _ _ _ _) Hdk). cbn [res_bind]. rewrite Hjwk. cbn [res_bind map_err].
    rewrite Hst. cbn [res_bind]. by destruct v.
Qed.

(** A document whose device signed this transcript. *)
Definition document_accepted (session_transcript : Cbor) (trust_anchors : list bytes) (now : DateTime)
    (document : Cbor) (v : VerifiedMdoc) : Prop :=
  exists issuer_signed device_signed name_spaces device_auth sig_v signature signed_bytes,
    text_at document "docType" (vm_doc_type v) /\ get document "issuerSigned" = Some issuer_signed /\
    mdoc_accepted issuer_signed (Some (vm_doc_type v)) trust_anchors now v /\
    get document "deviceSigned" = Some device_signed /\ get device_signed "nameSpaces" = Some name_spaces /\
    get device_signed "deviceAuth" = Some device_auth /\ get device_auth "deviceSignature" = Some sig_v /\
    from_value sig_v = Ok signature /\
    device_authentication_bytes session_transcript (vm_doc_type v) name_spaces = Ok signed_bytes /\
    verify_detached signature signed_bytes (vm_device_key v) = Ok tt.

Lemma verify_document_Ok transcript anchors now document v :
  verify_document transcript anchors now document = Ok v <->
  document_accepted transcript anchors now document v.
Proof.
  unfold verify_document. split.
  - intros Ho. inv_ok. facts. subst.
    match goal with Hv : verify_issuer_signed_value _ _ _ _ = Ok _ |- _ => apply verify_value_Ok in Hv end.
    destruct (get _ "deviceSignature") as [sv|] eqn:Hsv; [|case_bool_decide; discriminate].
    inv_ok.
    match goal with Hv : mdoc_accepted _ _ _ _ v |- _ =>
      pose proof Hv as (_ & _ & _ & _ & _ & _ & _ & _ & _ & _ & _ & _ & _ & [?|[= ->]] & _); [done|] end.
    do 7 eexists. eauto 20.
  - intros (iss & ds & ns & da & sv & sg & sb & Hdt & His & Hacc & Hds & Hns & Hda & Hsv & Hsg & Hsb & Hver).
    rewrite (proj2 (require_text_Ok _ _ _ _) Hdt). cbn [res_bind].
    rewrite (proj2 (require_Ok _ _ _ _) His). cbn [res_bind].
    rewrite (proj2 (verify_value_Ok _ _ _ _ _) Hacc). cbn [res_bind].
    rewrite (proj2 (require_Ok _ _ _ _) Hds). cbn [res_bind].
    rewrite (proj2 (require_Ok _ _ _ _) Hns). cbn [res_bind].
    rewrite (proj2 (require_Ok _ _ _ _) Hda). cbn [res_bind]. rewrite Hsv, Hsg. cbn [res_bind map_err].
    rewrite Hsb. cbn [res_bind]. rewrite Hver. done.
Qed.

Lemma collect_Ok {A B E} (f : A -> res B E) l ys : collect f l = Ok ys <-> Forall2 (fun x y => f x = Ok y) l ys.
Proof.
  revert ys. induction l as [|x l IH]; intros ys; simpl.
  - split; [intros [= <-]; constructor|]. by inversion 1.
  - split.
    + intros Ho. inv_ok. constructor; [done|]. by apply IH.
    + inversion 1 as [|? y ? ys' Hy Hys]; subst. rewrite Hy. simpl. by rewrite (proj2 (IH ys') Hys).
Qed.

(** C17: A verifier accepts a presentation exactly when it is a version 1.0
    response with status 0 and at least one document, and every document
    passes: an MSO signed under a certificate that chains to a trust anchor
    both now and at the signing time, of the document type the document
    claims, inside its validity period; every element revealed hashes to the
    digest the MSO holds under its id, no element twice, and the claims are
    these elements and nothing else; and the device key of the MSO signed the
    transcript the verifier computed.  The answers are those documents in
    order. *)
Theorem verify_device_response_exact device_response transcript anchors now vs :
  verify_device_response device_response transcript anchors now = Ok vs <->
  exists response documents,
    decode device_response = Ok response /\ text_at response "version" "1.0" /\
    get response "status" = Some (CInt 0) /\ get response "documents" = Some (CArray documents) /\
    documents <> [] /\ Forall2 (document_accepted transcript anchors now) documents vs.
Proof.
  assert (Hall : forall docs, Forall2 (document_accepted transcript anchors now) docs vs <->
    collect (verify_document transcript anchors now) docs = Ok vs).
  { intros docs. rewrite collect_Ok. 
    split; intros Hf; (eapply Forall2_impl; [exact Hf|]); intros; by apply verify_document_Ok. }
  setoid_rewrite Hall. unfold verify_device_response. split.
  - intros Ho. inv_ok. b2p. facts. subst.
    match goal with Hd : mbind _ (mbind as_items (get ?r _)) = Some _ |- _ =>
      destruct (get r "documents") as [[]|] eqn:Hg; try discriminate Hd; destruct l as [|d l]; [discriminate Hd|];
      injection Hd as <-; exists r, (d :: l) end.
    repeat (split; [done|]). split; [|done].
    by match goal with Hs : get _ "status" = Some ?x, Hi : as_integer ?x = _ |- _ =>
      apply as_integer_Some in Hi; subst x end.
  - intros (r & docs & Hd & Hv & Hs & Hg & Hne & Hc).
    rewrite Hd. cbn [res_bind]. rewrite (proj2 (require_text_Ok _ _ _ _) Hv). cbn [res_bind].
    rewrite bool_decide_eq_false_2 by auto. rewrite (proj2 (require_Ok _ _ _ _) Hs). cbn [res_bind as_integer].
    rewrite bool_decide_eq_false_2 by auto. rewrite Hg. simpl. by destruct docs.
Qed.
End Accepts.
