(* ===== verification/MdocFlow.v ===== *)
(** * An mdoc from the issuer to the verifier

    What [Mdoc.issue] makes, what [Mdoc.present] keeps of it, and that the
    verifier accepts the result with exactly the elements disclosed. *)
From S2P Require Import Prelude Externals Strings Effects Json Keys Jws X509 Cbor Cose Mdoc MdocVerify.
Import Mdoc.

Section Flow.
Context `{S2 : Sha2} `{S2L : !Sha2Laws S2} `{B64 : Base64Url} `{BL : !Base64UrlLaws B64} `{B64S : Base64Std}.
Context `{P : P256} `{D : Ed25519} `{CT : CosetTypes} `{K : !Coset} `{CB : Ciborium} `{CBL : !CiboriumLaws CB}.
Context `{KL : !CosetLaws K CB} `{DS : DebugStr} `{CH : Chrono} `{CHL : !ChronoLaws CH}.
Context `{MS : MdocShow} `{XA : X509Api}.

Lemma encode_total v :
  cbor_fits 128 v = true -> exists b, encode v = Ok b /\ Forall is_u8 b /\ decode b = Ok v.
Proof.
  intros Hf. destruct (cbor_total v Hf) as [b Hb]. destruct (cbor_roundtrip v b Hf Hb) as [Hu Hd].
  exists b. unfold encode, decode. by rewrite Hb, Hd.
Qed.

(** An embedded item. *)
Definition embedded (v w : Cbor) : Prop :=
  embed v = Ok w /\ unembed w = Ok v /\ cbor_fits 1 w = true /\ exists b, w = CTag 24 (CBytes b).

Lemma embedded_fits v w : embedded v w -> cbor_fits 1 w = true.
Proof. by intros (_ & _ & ? & _). Qed.

Lemma embed_total v : cbor_fits 128 v = true -> exists w, embedded v w.
Proof.
  intros Hf. destruct (encode_total v Hf) as (b & He & Hu & Hd). exists (CTag 24 (CBytes b)).
  unfold embedded, embed. rewrite He. split; [done|]. split; [done|]. split; [|by exists b].
  apply cbor_fits_tag; [lia..|]. by apply u8_fits.
Qed.

(** ** Dates *)
Definition in_rfc (t : DateTime) : Prop := 0 <= t < RFC3339_END * NANOS.
Definition whole (t : DateTime) : DateTime := t / NANOS * NANOS.

Lemma in_rfc_secs t : in_rfc t -> 0 <= t / NANOS < RFC3339_END.
Proof.
  intros [? ?]. split; [apply Z.div_pos; unfold NANOS in *; lia|].
  apply Z.div_lt_upper_bound; unfold NANOS in *; lia.
Qed.

Lemma whole_seconds_Ok t : in_rfc t -> whole_seconds t = Ok (whole t).
Proof.
  intros Ht%in_rfc_secs. unfold whole_seconds. rewrite timestamp_spec.
  destruct (from_timestamp_total (t / NANOS)) as [u Hu]; [unfold RFC3339_END in Ht; lia|].
  rewrite Hu. by rewrite (from_timestamp_spec _ _ Hu).
Qed.

Lemma tdate_whole t k : in_rfc t -> parse_tdate (tdate (whole t)) k = Ok (whole t).
Proof.
  intros Ht%in_rfc_secs. unfold tdate, parse_tdate. simpl. unfold whole. by rewrite rfc3339_roundtrip.
Qed.

(** ** Digest ids *)

(** The random bytes are bytes, and [fuel] draws of a [u32] never all hit a
    set of at most [n] ids. *)
Definition noise_ok (fuel n : nat) (s : Sys) : Prop :=
  (forall i k, Forall is_u8 (noise s i k)) /\
  forall i (ids : gset Z), (size ids <= n)%nat ->
    exists j, (j < fuel)%nat /\ u32_of (noise s (i + j) 4) ∉ ids.

Lemma noise_ok_after fuel n s s' : sys_after s s' -> noise_ok fuel n s -> noise_ok fuel n s'.
Proof. unfold sys_after, noise_ok. intros (_ & _ & -> & _) ?. done. Qed.

Context {E : Type -> Type} {St : Type} (op : backend E St).

Lemma draw_digest_id_run fuel ids w r w' :
  run (world_handler op) (draw_digest_id fuel ids) w = (r, w') ->
  match r with Ok id => (id ∉ ids) /\ 0 <= id < 2 ^ 32 | Err None => True | _ => False end.
Proof.
  revert w r w'. induction fuel as [|fuel IH]; intros w r w'; [by intros [= <- _]|].
  cbn [draw_digest_id]. rewrite run_bind. unfold random_bytes.
  destruct (run _ (trigger _) w) as [b w1]. case_bool_decide; [apply IH|].
  intros [= <- _]. split; [done|]. apply Z.mod_pos_bound. lia.
Qed.

Lemma draw_digest_id_total fuel ids w :
  (exists j, (j < fuel)%nat /\ u32_of (noise (sys w) (noise_used (sys w) + j) 4) ∉ ids) ->
  (run (world_handler op) (draw_digest_id fuel ids) w).1 <> Err None.
Proof.
  revert w. induction fuel as [|fuel IH]; intros w (j & Hj & Hn); [lia|].
  cbn [draw_digest_id]. rewrite run_bind. simpl. case_bool_decide as Hin; [|done].
  apply IH. simpl. destruct j as [|j]; [by rewrite Nat.add_0_r in Hn|].
  exists j. split; [lia|]. by rewrite <- Nat.add_succ_r.
Qed.

(** ** Items *)

(** The item of an element, and the digest the MSO will hold for it. *)
Definition issued_item (e : string * Cbor) (id : Z) (item : Cbor) (digest : Cbor * Cbor) : Prop :=
  exists random b, embedded (signed_item id random e.1 e.2) item /\ encode item = Ok b /\
    digest = (CInt id, CBytes (sha256 b)) /\ 0 <= id < 2 ^ 32.

Inductive issued : list (string * Cbor) -> list Z -> list Cbor -> list (Cbor * Cbor) -> Prop :=
| issued_nil : issued [] [] [] []
| issued_cons e id item digest es ids items digests :
    issued_item e id item digest -> issued es ids items digests ->
    issued (e :: es) (id :: ids) (item :: items) (digest :: digests).

Definition elements_fit (elements : list (string * Cbor)) : Prop :=
  Forall (fun e => cbor_fits 120 e.2 = true) elements.

Lemma signed_item_fits id random name value :
  0 <= id < 2 ^ 32 -> Forall is_u8 random -> cbor_fits 120 value = true ->
  cbor_fits 128 (signed_item id random name value) = true.
Proof.
  intros Hid Hr Hv. apply (cbor_fits_mono 121); [lia|]. apply cbor_fits_map.
  repeat constructor; try done.
  - simpl. rewrite (proj2 (Z.leb_le _ _)), (proj2 (Z.ltb_lt _ _)) by lia. done.
  - simpl. by apply u8_fits.
Qed.

Lemma issue_elements_run fuel ids elements n w :
  noise_ok fuel n (sys w) -> elements_fit elements -> (size ids + length elements <= n)%nat ->
  exists nums items digests,
    (run (world_handler op) (issue_elements fuel ids elements) w).1 = Ok (items, digests) /\
    issued elements nums items digests /\ NoDup nums /\ Forall (fun i => i ∉ ids) nums.
Proof.
  intros Hn Hf. revert ids w Hn. induction Hf as [|[name value] elements Hv _ IH]; intros ids w Hn Hs.
  - exists [], [], []. repeat constructor.
  - simpl in Hs. cbn [issue_elements]. rewrite run_bind_res.
    destruct (run _ (draw_digest_id fuel ids) w) as [r w1] eqn:H1.
    pose proof (draw_digest_id_run fuel ids w r w1 H1) as Hd.
    pose proof (run_after op (draw_digest_id fuel ids) w) as Ha. rewrite H1 in Ha. simpl in Ha.
    pose proof (draw_digest_id_total fuel ids w) as Ht. rewrite H1 in Ht. simpl in Ht.
    specialize (Ht (proj2 Hn (noise_used (sys w)) ids ltac:(lia))).
    destruct r as [id|[]|]; [|done..]. destruct Hd as [Hnew Hid].
    rewrite run_bind. unfold random_bytes. rewrite run_trigger. simpl.
    set (random := noise _ _ 32). set (w2 := mkWorld _ _).
    assert (Hr : Forall is_u8 random) by (apply (noise_ok_after fuel n _ _ Ha Hn)).
    assert (Hn2 : noise_ok fuel n (sys w2)).
    { eapply noise_ok_after; [|exact Hn]. eapply sys_after_trans; [exact Ha|].
      apply (handle_sys_after (RandomBytes 32)). }
    destruct (embed_total (signed_item id random name value)) as (item & Hemb);
      [by apply signed_item_fits|].
    rewrite run_bind_res. simpl. rewrite (proj1 Hemb). simpl.
    destruct (encode_total item) as (b & Hb & _ & _);
      [exact (cbor_fits_mono 1 128 item ltac:(lia) (embedded_fits _ _ Hemb))|].
    rewrite run_bind_res. simpl. rewrite Hb. simpl. rewrite run_bind_res.
    destruct (IH ({[id]} ∪ ids) w2 Hn2) as (nums & items & digests & Hrun & Hiss & Hnd & Hfr).
    { rewrite size_union; [|by apply disjoint_singleton_l]. rewrite size_singleton. lia. }
    destruct (run _ (issue_elements fuel _ elements) w2) as [r2 w3]. simpl in Hrun. subst r2. simpl.
    exists (id :: nums), (item :: items), ((CInt id, CBytes (sha256 b)) :: digests).
    split; [done|]. split; [|split].
    + constructor; [|done]. by exists random, b.
    + constructor; [|done]. intros Hin. rewrite list.Forall_forall in Hfr. specialize (Hfr _ Hin).
      by apply not_elem_of_union in Hfr as [Hfr%not_elem_of_singleton _].
    + constructor; [done|]. eapply Forall_impl; [exact Hfr|]. intros i Hi.
      by apply not_elem_of_union in Hi as [_ ?].
Qed.

(** ** Namespaces *)
Definition issued_space (ns : string * list (string * Cbor)) (space digests : Cbor * Cbor) : Prop :=
  exists nums items dgs, space = (CText ns.1, CArray items) /\ digests = (CText ns.1, CMap dgs) /\
    issued ns.2 nums items dgs /\ NoDup nums.

Definition namespaces_fit (n : nat) (namespaces : list (string * list (string * Cbor))) : Prop :=
  Forall (fun ns => elements_fit ns.2 /\ (length ns.2 <= n)%nat) namespaces.

Lemma issue_namespaces_run fuel namespaces n w :
  noise_ok fuel n (sys w) -> namespaces_fit n namespaces ->
  exists spaces digests,
    (run (world_handler op) (issue_namespaces fuel namespaces) w).1 = Ok (spaces, digests) /\
    Forall3 issued_space namespaces spaces digests.
Proof.
  intros Hn Hf. revert w Hn. induction Hf as [|[ns elements] namespaces [He Hl] _ IH]; intros w Hn.
  - exists [], []. repeat constructor.
  - simpl in He, Hl. cbn [issue_namespaces]. rewrite run_bind_res.
    destruct (issue_elements_run fuel ∅ elements n w Hn He) as (nums & items & dgs & Hrun & Hiss & Hnd & _);
      [by rewrite size_empty|].
    pose proof (run_after op (issue_elements fuel ∅ elements) w) as Ha.
    destruct (run _ (issue_elements fuel ∅ elements) w) as [r w1]. simpl in Hrun, Ha. subst r.
    rewrite run_bind_res. destruct (IH w1) as (spaces & digests & Hrun & Hall); [by eapply noise_ok_after|].
    destruct (run _ (issue_namespaces fuel namespaces) w1) as [r2 w2]. simpl in Hrun. subst r2. simpl.
    do 2 eexists. split; [done|]. constructor; [|done]. by exists nums, items, dgs.
Qed.

(** ** Disclosing *)

(** What a namespace discloses, and all of them: namespaces with nothing to
    disclose are left out. *)
Definition disclosed (disclose : list (string * string)) (ns : string) (elements : list (string * Cbor))
    : list (string * Value) :=
  map (fun e => (e.1, cbor_to_json e.2)) (filter (fun e => (ns, e.1) ∈ disclose) elements).

Fixpoint disclosed_all (disclose : list (string * string)) (namespaces : list (string * list (string * Cbor)))
    : list (string * list (string * Value)) :=
  match namespaces with
  | [] => []
  | (ns, elements) :: namespaces' =>
      match disclosed disclose ns elements with
      | [] => disclosed_all disclose namespaces'
      | es => (ns, es) :: disclosed_all disclose namespaces'
      end
  end.

Lemma map_find_first p k v m : p k = true -> map_find p ((k, v) :: m) = Some v.
Proof. simpl. by intros ->. Qed.

Lemma issued_digest elements nums items dgs id dg :
  issued elements nums items dgs -> NoDup nums -> (CInt id, dg) ∈ dgs ->
  map_find (int_key id) dgs = Some dg.
Proof.
  assert (Hkeys : forall elements nums items dgs, issued elements nums items dgs -> dgs.*1 = map CInt nums).
  { intros ? ? ? ?. induction 1 as [|? ? ? ? ? ? ? ? (rnd & b & _ & _ & -> & _) _ IH]; simpl; [done|].
    f_equal. exact IH. }
  intros Hi Hnd Hin. apply Hkeys in Hi. clear -Hi Hnd Hin. revert nums Hi Hnd.
  induction dgs as [|[k v] dgs IH]; intros nums Hi Hnd; [by apply not_elem_of_nil in Hin|].
  destruct nums as [|m nums]; [done|]. injection Hi as -> Hi. apply NoDup_cons in Hnd as [Hn Hnd].
  simpl. unfold int_key at 1. simpl. apply elem_of_cons in Hin as [[= -> ->]|Hin].
  - by rewrite bool_decide_eq_true_2.
  - rewrite bool_decide_eq_false_2; [by eapply IH|]. intros [= ->]. apply Hn.
    assert (CInt id ∈ map CInt nums) as Hx by (rewrite <- Hi; apply list_elem_of_fmap; by exists (CInt id, dg)).
    apply list_elem_of_fmap in Hx as (j & [= ->] & ?). done.
Qed.

Lemma get_item id random name value key :
  get (signed_item id random name value) key =
  if bool_decide (key = "digestID"%string) then Some (CInt id)
  else if bool_decide (key = "random"%string) then Some (CBytes random)
  else if bool_decide (key = "elementIdentifier"%string) then Some (CText name)
  else if bool_decide (key = "elementValue"%string) then Some value else None.
Proof.
  unfold get, signed_item, text_key. simpl.
  repeat case_bool_decide; congruence.
Qed.

(** An issued item reveals its element, and is kept when that is disclosed. *)
Lemma issued_item_reveals e id item digest all :
  issued_item e id item digest -> map_find (int_key id) all = Some digest.2 ->
  reveals (CMap all) item (e.1, cbor_to_json e.2) /\
  forall disclose ns, to_reveal disclose ns item = bool_decide ((ns, e.1) ∈ disclose).
Proof.
  intros (random & b & (_ & Hu & _) & Hb & -> & _) Hall. split.
  - exists (signed_item id random e.1 e.2), id, b, e.2. unfold text_at. rewrite !get_item.
    repeat (split; [done|]). unfold signed_digest. simpl in *. by rewrite Hall.
  - intros disclose ns. unfold to_reveal. rewrite Hu, get_item. done.
Qed.

Lemma issued_reveals elements nums items dgs all :
  issued elements nums items dgs ->
  (forall id dg, (CInt id, dg) ∈ dgs -> map_find (int_key id) all = Some dg) ->
  Forall2 (fun e item => reveals (CMap all) item (e.1, cbor_to_json e.2) /\
    forall disclose ns, to_reveal disclose ns item = bool_decide ((ns, e.1) ∈ disclose)) elements items.
Proof.
  induction 1 as [|e id item dg es ids items dgs He _ IH]; intros Hall; constructor.
  - apply (issued_item_reveals e id item dg); [done|].
    destruct He as (random & b & _ & _ & -> & _). apply Hall. left.
  - apply IH. intros i d Hin. apply Hall. by right.
Qed.

Lemma kept_reveals elements nums items dgs disclose ns :
  issued elements nums items dgs -> NoDup nums ->
  Forall2 (reveals (CMap dgs)) (filter (to_reveal disclose ns) items) (disclosed disclose ns elements).
Proof.
  intros Hi Hnd.
  pose proof (issued_reveals elements nums items dgs dgs Hi
    (fun id dg => issued_digest elements nums items dgs id dg Hi Hnd)) as Hr.
  clear Hi Hnd. unfold disclosed. induction Hr as [|e item es its [He Hk] _ IH]; [constructor|].
  rewrite !filter_cons. specialize (Hk disclose ns).
  destruct (decide ((ns, e.1) ∈ disclose)) as [Hin|Hin].
  - rewrite decide_True by (rewrite Hk; by apply bool_decide_pack). by constructor.
  - rewrite decide_False by (rewrite Hk; by intros ?%bool_decide_unpack). done.
Qed.

Lemma reveal_spaces disclose namespaces spaces digests all :
  Forall3 issued_space namespaces spaces digests ->
  Forall (fun d => get (CMap all) (default EmptyString (as_text d.1)) = Some d.2) digests ->
  Forall2 (reveals_space (CMap all)) (reveal disclose spaces) (disclosed_all disclose namespaces).
Proof.
  induction 1 as [|[ns es] space dg namespaces spaces digests Hs _ IH]; [constructor|].
  intros [Hd Hds]%Forall_cons. destruct Hs as (nums & items & dgs & -> & -> & Hi & Hnd). simpl in Hi, Hd |- *.
  pose proof (kept_reveals es nums items dgs disclose ns Hi Hnd) as Hk.
  specialize (IH Hds).
  destruct (filter (to_reveal disclose ns) items) as [|it its], (disclosed disclose ns es) as [|x xs];
    try done; try (by inversion Hk).
  constructor; [|done]. by exists (CMap dgs), (it :: its).
Qed.

Lemma issued_digests_found namespaces spaces digests :
  Forall3 issued_space namespaces spaces digests -> NoDup namespaces.*1 ->
  Forall (fun d => get (CMap digests) (default EmptyString (as_text d.1)) = Some d.2) digests.
Proof.
  intros Hs Hnd. unfold get. simpl.
  assert (Hgen : forall namespaces spaces digests, Forall3 issued_space namespaces spaces digests ->
    digests.*1 = map CText namespaces.*1).
  { intros ? ? ?. induction 1 as [|[ns es] ? ? ? ? ? (? & ? & ? & _ & -> & _) _ IH]; simpl; [done|]. f_equal. exact IH. }
  apply Hgen in Hs. clear spaces Hgen. revert Hs Hnd. generalize namespaces.*1. clear namespaces.
  induction digests as [|[k v] digests IH]; intros names Hs Hnd; [constructor|].
  destruct names as [|name names]; [done|]. injection Hs as -> Hs. apply NoDup_cons in Hnd as [Hn Hnd].
  constructor.
  - simpl. unfold text_key. simpl. by rewrite bool_decide_eq_true_2.
  - specialize (IH names Hs Hnd). rewrite list.Forall_forall in IH |- *. intros [k' v'] Hin.
    specialize (IH _ Hin). simpl. unfold text_key at 1. simpl.
    assert (k' ∈ map CText names) as Hk' by (rewrite <- Hs; apply list_elem_of_fmap; by exists (k', v')).
    apply list_elem_of_fmap in Hk' as (name' & -> & Hin'). simpl.
    rewrite bool_decide_eq_false_2; [done|]. intros [= ->]. done.
Qed.

(** ** The signed object *)

Lemma cose_key_fits jwk v : cose_key jwk = Ok v -> cbor_fits 1 v = true.
Proof.
  unfold cose_key, coordinate_bytes. intros Hv.
  assert (Hc : forall c (e : CoseError) b,
    ok_or (c ≫= fun c => match b64url_decode c with inl b => Some b | inr _ => None end) e = Ok b ->
    forallb (fun x => (0 <=? x) && (x <? 256)) b = true).
  { intros c e b Hb. apply ok_or_Ok in Hb. destruct c as [c|]; [|done]. simpl in Hb.
    destruct (b64url_decode c) eqn:Hd; [|done]. injection Hb as <-.
    apply u8_fits. by eapply b64url_decode_u8. }
  destruct (key_type jwk) as [[|]|]; [| |done].
  - apply res_bind_Ok in Hv as (x & Hx%Hc & Hv). apply res_bind_Ok in Hv as (y & Hy%Hc & [= <-]).
    simpl. by rewrite Hx, Hy.
  - apply res_bind_Ok in Hv as (x & Hx%Hc & [= <-]). simpl. by rewrite Hx.
Qed.

Lemma x5chain_value_fits chain : Forall (Forall is_u8) chain -> cbor_fits 1 (x5chain_value chain) = true.
Proof.
  intros Hc. assert (Ha : cbor_fits 1 (CArray (map CBytes chain)) = true).
  { apply cbor_fits_array, Forall_fmap. eapply Forall_impl; [exact Hc|]. intros b Hb. by apply u8_fits. }
  destruct chain as [|c [|]]; try exact Ha. apply Forall_cons in Hc as [Hc _]. by apply u8_fits.
Qed.

Lemma all_bytes_map chain : all_bytes (map CBytes chain) = Ok chain.
Proof. induction chain as [|c chain IH]; simpl; [done|]. by rewrite IH. Qed.

Lemma x5chain_back chain h :
  chain <> [] -> header_get (LInt HEADER_X5CHAIN) (hd_rest h) = Some (x5chain_value chain) ->
  x5chain h = Ok chain.
Proof.
  intros Hc Hg. unfold x5chain. rewrite Hg. destruct chain as [|c [|c' chain]]; [done..|].
  apply (all_bytes_map (c :: c' :: chain)).
Qed.

Lemma issued_items_fit elements nums items dgs :
  issued elements nums items dgs ->
  Forall (fun v => cbor_fits 1 v = true) items /\
  Forall (fun kv => cbor_fits 0 kv.1 = true /\ cbor_fits 0 kv.2 = true) dgs.
Proof.
  induction 1 as [|e id item dg es ids items dgs (random & b & Hemb & _ & -> & Hid) _ [IH1 IH2]]; [done|].
  split; constructor; try done.
  - by apply embedded_fits in Hemb.
  - simpl. rewrite (proj2 (Z.leb_le _ _)), (proj2 (Z.ltb_lt _ _)) by lia.
    split; [done|]. apply u8_fits, sha256_u8.
Qed.

Lemma issued_spaces_fit namespaces spaces digests :
  Forall3 issued_space namespaces spaces digests ->
  cbor_fits 3 (CMap spaces) = true /\ cbor_fits 2 (CMap digests) = true.
Proof.
  intros Hs. split; apply cbor_fits_map; induction Hs as [|ns sp dg ? ? ? (nums & items & dgs & -> & -> & Hi & _)];
    constructor; try done; (split; [done|]); apply issued_items_fit in Hi as [Hi1 Hi2].
  - by apply cbor_fits_array.
  - by apply cbor_fits_map.
Qed.

Definition status_ok (status : option StatusListRef) : Prop :=
  match status with Some s => 0 <= slr_idx s < 2 ^ 64 | None => True end.

Lemma mso_fits request digests dk t1 t2 t3 :
  cbor_fits 2 (CMap digests) = true -> cbor_fits 1 dk = true -> status_ok (ir_status request) ->
  cbor_fits 128 (CMap (mso_entries request digests dk t1 t2 t3)) = true.
Proof.
  intros Hd Hk Hs. apply (cbor_fits_mono 3); [lia|]. apply cbor_fits_map. unfold mso_entries.
  apply Forall_app. split.
  - repeat constructor; try done. apply cbor_fits_map. by repeat constructor.
  - unfold status_ok in Hs. destruct (ir_status request) as [s|]; constructor; [|constructor].
    split; [done|]. simpl. rewrite (proj2 (Z.leb_le _ _)), (proj2 (Z.ltb_lt _ _)) by lia. done.
Qed.

(** What an issued mdoc holds. *)
Record issued_mdoc (request : IssueRequest) (sjwk : Jwk) (b : bytes)
    (spaces digests : list (Cbor * Cbor)) (auth_v : Cbor) (auth : CoseSign1) (dk mso : Cbor) : Prop := {
  im_decode : decode b = Ok (CMap [(CText "nameSpaces", CMap spaces); (CText "issuerAuth", auth_v)]);
  im_spaces : Forall3 issued_space (ir_namespaces request) spaces digests;
  im_fits : cbor_fits 3 auth_v = true;
  im_value : from_value auth_v = Ok auth;
  im_verify : cose_verify auth sjwk = Ok tt;
  im_chain : issuer_x5chain auth = Ok (ir_x5chain request);
  im_mso : mso_of auth mso;
  im_key : cose_key (ir_device_key request) = Ok dk;
  im_entries : mso = CMap (mso_entries request digests dk (whole (ir_signed request))
    (Z.max (whole (ir_valid_from request)) (whole (ir_signed request))) (whole (ir_valid_until request)));
}.

(** A key pair whose signing never fails. *)
Definition signs (key : KeyPair) : Prop := forall m, exists s, kp_sign key m = Ok s.

Lemma cose_sign_total key payload prot unprot d :
  signs key -> addable d prot -> addable d unprot -> exists s, cose_sign key payload prot unprot = Ok s.
Proof.
  intros Hs Hp Hu. unfold cose_sign. rewrite (protected_header_Ok key prot d) by done.
  rewrite (unprotected_header_Ok unprot d) by done. cbn [res_bind].
  destruct (Hs (sign1_tbs (mkProtectedHeader None (signed_header key prot)) [] payload)) as [sg ->].
  by eexists.
Qed.

Lemma to_value_total d s : (d <= 100)%nat -> built_sign1 d s -> exists v, to_value s = Ok v.
Proof.
  intros Hd Hb. destruct (sign1_value_roundtrip d s Hd Hb) as (l & _ & Ht & _). exists (CArray l).
  unfold to_value. by rewrite Ht.
Qed.

Lemma addable_nil d : addable d [].
Proof. split; constructor. Qed.

Lemma addable_x5chain chain : Forall (Forall is_u8) chain -> addable 1 [(HEADER_X5CHAIN, x5chain_value chain)].
Proof.
  intros Hc. split; [apply NoDup_singleton|]. constructor; [|constructor].
  split; [unfold HEADER_X5CHAIN; simpl; lia|]. by apply x5chain_value_fits.
Qed.

Lemma sign_mso_ok `{!KeyPairLaws signer} request spaces digests sjwk dk :
  signs signer -> kp_public_jwk signer = Ok sjwk -> cose_key (ir_device_key request) = Ok dk ->
  Forall3 issued_space (ir_namespaces request) spaces digests -> status_ok (ir_status request) ->
  ir_x5chain request <> [] -> Forall (Forall is_u8) (ir_x5chain request) ->
  exists b auth_v auth mso,
    sign_mso request signer spaces digests (whole (ir_signed request))
      (Z.max (whole (ir_valid_from request)) (whole (ir_signed request))) (whole (ir_valid_until request)) = Ok b /\
    issued_mdoc request sjwk b spaces digests auth_v auth dk mso.
Proof.
  intros Hsig Hj Hdk Hsp Hst Hne Hch. destruct (issued_spaces_fit _ _ _ Hsp) as [Hf1 Hf2].
  unfold sign_mso. rewrite Hdk. cbn [res_bind map_err].
  set (mso := CMap (mso_entries _ _ _ _ _ _)).
  destruct (embed_total mso) as (w & Hw); [by apply mso_fits, Hst; [|eapply cose_key_fits]|].
  pose proof Hw as (He & Hu & Hwf & _). rewrite He. cbn [res_bind].
  destruct (encode_total w) as (payload & Hp & Hpu & Hpd); [by apply (cbor_fits_mono 1); [lia|]|].
  rewrite Hp. cbn [res_bind].
  pose proof (addable_nil 1) as Hnil. pose proof (addable_x5chain _ Hch) as Hadd.
  destruct (cose_sign_total signer payload [] [(HEADER_X5CHAIN, x5chain_value (ir_x5chain request))] 1
    Hsig Hnil Hadd) as [s Hs].
  rewrite Hs. cbn [res_bind map_err].
  destruct (sign_inv 1 payload _ _ s sjwk Hnil Hadd Hpu Hj Hs) as (Hb & Hpl & Hph & Hun & Hv).
  destruct (to_value_total 1 s ltac:(lia) Hb) as [av Hav]. rewrite Hav. cbn [res_bind map_err].
  destruct (value_embed 1 s av ltac:(lia) Hb Hav) as (Hfa & auth & Hfrom & Hsame).
  destruct (encode_total (CMap [(CText "nameSpaces", CMap spaces); (CText "issuerAuth", av)]))
    as (b & Hbe & _ & Hbd).
  { apply (cbor_fits_mono 4); [lia|]. apply cbor_fits_map. by repeat constructor. }
  exists b, av, auth, mso. split; [done|]. split; try done.
  - by rewrite (same_sign1_verify s).
  - unfold issuer_x5chain. destruct Hsame as (_ & -> & _). rewrite Hun.
    rewrite (x5chain_back (ir_x5chain request)) by done. cbn [res_bind map_err].
    destruct (ir_x5chain request); [done|]. done.
  - exists payload, w. destruct Hsame as (_ & _ & -> & _). done.
Qed.

(** ** Presenting *)

Lemma reveal_fits disclose namespaces spaces digests :
  Forall3 issued_space namespaces spaces digests -> cbor_fits 3 (CMap (reveal disclose spaces)) = true.
Proof.
  intros Hs. apply cbor_fits_map.
  induction Hs as [|ns sp dg ? ? ? (nums & items & dgs & -> & -> & Hi & _) _ IH]; [constructor|].
  change (reveal disclose (_ :: k)) with
    (match filter (to_reveal disclose ns.1) items with
     | [] => reveal disclose k
     | _ => (CText ns.1, CArray (filter (to_reveal disclose ns.1) items)) :: reveal disclose k end).
  destruct (filter (to_reveal disclose ns.1) items) as [|it its] eqn:Hk; [done|]. constructor; [|done]. split; cbn [fst snd]; [done|].
  apply cbor_fits_array. rewrite <- Hk. apply issued_items_fit in Hi as [Hi _].
  apply list.Forall_forall. intros v [_ Hv]%list_elem_of_filter. by eapply list.Forall_forall in Hi.
Qed.

Lemma sign_detached_total key payload : signs key -> exists s, sign_detached key payload = Ok s.
Proof.
  intros Hs. unfold sign_detached. rewrite (protected_header_Ok key [] 0) by apply addable_nil. cbn [res_bind].
  destruct (Hs (sign1_tbs (mkProtectedHeader None (signed_header key [])) [] payload)) as [sg ->].
  by eexists.
Qed.

Lemma device_authentication_total transcript dt w :
  cbor_fits 100 transcript = true -> cbor_fits 1 w = true ->
  exists b, device_authentication_bytes transcript dt w = Ok b.
Proof.
  intros Ht Hw. unfold device_authentication_bytes.
  destruct (embed_total (CArray [CText "DeviceAuthentication"; transcript; CText dt; w])) as (x & He & _ & Hx & _).
  { apply (cbor_fits_mono 101); [lia|]. apply cbor_fits_array. repeat constructor; try done.
    by apply (cbor_fits_mono 1); [lia|]. }
  rewrite He. cbn [res_bind]. destruct (encode_total x) as (b & Hb & _); [by apply (cbor_fits_mono 1); [lia|]|].
  exists b. exact Hb.
Qed.

(** The response made of an issued mdoc. *)
Definition response_of (dt : string) (revealed : list (Cbor * Cbor)) (auth_v w sig_v : Cbor) : Cbor :=
  CMap [
    (CText "version", CText "1.0");
    (CText "documents", CArray [CMap [
      (CText "docType", CText dt);
      (CText "issuerSigned", CMap [(CText "nameSpaces", CMap revealed); (CText "issuerAuth", auth_v)]);
      (CText "deviceSigned", CMap [(CText "nameSpaces", w);
        (CText "deviceAuth", CMap [(CText "deviceSignature", sig_v)])])]]);
    (CText "status", CInt 0)].

Lemma response_fits dt revealed auth_v w sig_v :
  cbor_fits 3 (CMap revealed) = true -> cbor_fits 3 auth_v = true -> cbor_fits 1 w = true ->
  cbor_fits 2 sig_v = true -> cbor_fits 128 (response_of dt revealed auth_v w sig_v) = true.
Proof.
  intros Hr Ha Hw Hs. apply (cbor_fits_mono 7); [lia|].
  pose proof (cbor_fits_mono 1 3 w ltac:(lia) Hw).
  apply cbor_fits_map. repeat constructor; try done.
  apply cbor_fits_array. constructor; [|constructor]. apply cbor_fits_map.
  repeat constructor; try done; apply cbor_fits_map; repeat constructor; try done.
  apply cbor_fits_map. by repeat constructor.
Qed.

Lemma present_ok `{!KeyPairLaws device} request sjwk b spaces digests auth_v auth dk mso disclose transcript djwk :
  issued_mdoc request sjwk b spaces digests auth_v auth dk mso ->
  signs device -> kp_public_jwk device = Ok djwk -> cbor_fits 100 transcript = true ->
  exists resp w sig_v sg sb,
    present b disclose transcript device = Ok resp /\
    decode resp = Ok (response_of (ir_doc_type request) (reveal disclose spaces) auth_v w sig_v) /\
    from_value sig_v = Ok sg /\
    device_authentication_bytes transcript (ir_doc_type request) w = Ok sb /\
    verify_detached sg sb djwk = Ok tt.
Proof.
  intros Hm Hsig Hj Ht. destruct Hm as [Hd Hsp Hf Hv _ _ (payload & x & Hpl & Hx & Hu) Hdk Hmso].
  unfold present. rewrite Hd. cbn [res_bind].
  change (require _ "issuerAuth" _) with (Ok (E := MdocError) auth_v). cbn [res_bind]. rewrite Hv. cbn [res_bind map_err].
  rewrite Hpl. cbn [res_bind ok_or]. rewrite Hx. cbn [res_bind]. rewrite Hu. cbn [res_bind]. subst mso.
  change (require_text _ "docType" _) with (Ok (E := MdocError) (ir_doc_type request)). cbn [res_bind].
  change (get _ "nameSpaces") with (Some (CMap spaces)).
  destruct (embed_total (CMap [])) as (w & Hw & _ & Hwf & _); [done|]. rewrite Hw. cbn [res_bind].
  destruct (device_authentication_total transcript (ir_doc_type request) w Ht Hwf) as [sb Hsb].
  rewrite Hsb. cbn [res_bind]. destruct (sign_detached_total device sb Hsig) as [s Hs]. rewrite Hs.
  cbn [res_bind map_err]. destruct (sign_detached_inv sb s djwk Hj Hs) as [Hb Hver].
  destruct (to_value_total 0 s ltac:(lia) Hb) as [sv Hsv]. rewrite Hsv. cbn [res_bind map_err].
  destruct (value_embed 0 s sv ltac:(lia) Hb Hsv) as (Hfs & sg & Hsg & Hsame).
  destruct (encode_total (response_of (ir_doc_type request) (reveal disclose spaces) auth_v w sv))
    as (resp & Hr & _ & Hrd); [by apply response_fits; [eapply reveal_fits|..]|].
  exists resp, w, sv, sg, sb. split; [exact Hr|]. repeat (split; [done|]).
  by rewrite (same_sign1_verify_detached s).
Qed.

(** ** What the verifier makes of it *)

Lemma disclosed_elem disclose ns elements id j :
  (id, j) ∈ disclosed disclose ns elements <->
  exists value, (id, value) ∈ elements /\ (ns, id) ∈ disclose /\ j = cbor_to_json value.
Proof.
  unfold disclosed. rewrite list_elem_of_fmap. split.
  - intros ([id' value] & [= -> ->] & [Hd Hin]%list_elem_of_filter). by exists value.
  - intros (value & Hin & Hd & ->). exists (id, value). split; [done|]. by apply list_elem_of_filter.
Qed.

Lemma disclosed_all_elem disclose namespaces ns es :
  (ns, es) ∈ disclosed_all disclose namespaces <->
  es <> [] /\ exists elements, (ns, elements) ∈ namespaces /\ es = disclosed disclose ns elements.
Proof.
  induction namespaces as [|[ns' elements] namespaces IH].
  - simpl. rewrite elem_of_nil. split; [done|]. by intros (_ & ? & ?%not_elem_of_nil & _).
  - cbn [disclosed_all]. destruct (disclosed disclose ns' elements) as [|x xs] eqn:Hd; setoid_rewrite elem_of_cons.
    + rewrite IH. split.
      * intros (? & els & ? & ?). eauto.
      * intros (? & els & [[= -> ->]|Hin] & Hes); [congruence|eauto].
    + rewrite IH. split.
      * intros [[= -> ->]|(? & els & ? & ?)]; [|by eauto]. split; [done|]. exists elements. eauto.
      * intros (? & els & [[= -> ->]|Hin] & ->); [left; by rewrite Hd|right; eauto].
Qed.

Lemma disclosed_names_NoDup disclose namespaces :
  NoDup namespaces.*1 -> Forall (fun ns => NoDup ns.2.*1) namespaces ->
  NoDup (names_of (disclosed_all disclose namespaces)).
Proof.
  intros Hnd Hes. induction Hes as [|[ns elements] namespaces He _ IH]; [constructor|].
  apply NoDup_cons in Hnd as [Hns Hnd]. specialize (IH Hnd).
  assert (Hd : NoDup (map (pair ns) (disclosed disclose ns elements).*1)).
  { apply (NoDup_fmap_2 _). unfold disclosed. rewrite <- list_fmap_compose.
    change (NoDup ((filter (fun e : string * Cbor => (ns, e.1) ∈ disclose) elements).*1)).
    eapply sublist_NoDup; [exact He|]. apply fmap_sublist. apply sublist_filter. }
  cbn [disclosed_all]. destruct (disclosed disclose ns elements) as [|x xs] eqn:Hx; [done|].
  rewrite names_of_cons. apply NoDup_app. split; [done|]. split; [|done].
  intros n Hn Hin. apply list_elem_of_fmap in Hn as (k & -> & _).
  unfold names_of in Hin. apply list_elem_of_join in Hin as (l & Hl & Hin).
  apply list_elem_of_fmap in Hin as ([ns' es] & -> & Hin).
  apply list_elem_of_fmap in Hl as (k' & [= <- <-] & _).
  apply disclosed_all_elem in Hin as (_ & els & Hin & _).
  apply Hns, list_elem_of_fmap. by exists (ns, els).
Qed.

Lemma parse_status_back request digests dk t1 t2 t3 :
  status_ok (ir_status request) ->
  parse_status (CMap (mso_entries request digests dk t1 t2 t3)) = Ok (ir_status request).
Proof.
  intros Hs. unfold parse_status, mso_entries, status_ok in *.
  destruct (ir_status request) as [[idx uri]|]; [|done]. simpl in Hs |- *.
  rewrite (proj2 (Z.leb_le _ _)), (proj2 (Z.ltb_lt _ _)) by lia. done.
Qed.

(** Two public keys that accept the same signatures. *)
Definition agrees (k k' : Jwk) : Prop :=
  key_type k' = key_type k /\ forall m s, verify_with_jwk k' m s = verify_with_jwk k m s.

Lemma cose_verify_agrees s k k' : agrees k k' -> cose_verify s k = Ok tt -> cose_verify s k' = Ok tt.
Proof.
  intros [Ht Hv] (a & p & ? & ? & ? & ?)%cose_verify_Ok. apply cose_verify_Ok. exists a, p.
  by rewrite Ht, Hv.
Qed.

Lemma verify_detached_agrees s b k k' :
  agrees k k' -> verify_detached s b k = Ok tt -> verify_detached s b k' = Ok tt.
Proof.
  intros [Ht Hv] (a & ? & ? & ? & ?)%verify_detached_Ok. apply verify_detached_Ok. exists a.
  by rewrite Ht, Hv.
Qed.

(** A request that can be issued: distinct names, values that print, dates
    before the year 10000, a validity period that is not empty. *)
Record request_ok (n : nat) (r : IssueRequest) : Prop := {
  ro_fit : namespaces_fit n (ir_namespaces r);
  ro_names : NoDup (ir_namespaces r).*1;
  ro_elements : Forall (fun ns => NoDup ns.2.*1) (ir_namespaces r);
  ro_dates : in_rfc (ir_signed r) /\ in_rfc (ir_valid_from r) /\ in_rfc (ir_valid_until r);
  ro_period : Z.max (whole (ir_valid_from r)) (whole (ir_signed r)) < whole (ir_valid_until r);
  ro_status : status_ok (ir_status r);
  ro_chain : ir_x5chain r <> [] /\ Forall (Forall is_u8) (ir_x5chain r);
  ro_key : exists dk, cose_key (ir_device_key r) = Ok dk;
}.

Lemma issue_ok `{!KeyPairLaws signer} fuel n request w sjwk :
  noise_ok fuel n (sys w) -> request_ok n request -> signs signer -> kp_public_jwk signer = Ok sjwk ->
  exists b spaces digests auth_v auth dk mso,
    (run (world_handler op) (issue fuel request signer) w).1 = Ok b /\
    issued_mdoc request sjwk b spaces digests auth_v auth dk mso.
Proof.
  intros Hn [Hfit _ _ (H1 & H2 & H3) Hper Hst [Hne Hch] [dk Hdk]] Hsig Hj.
  unfold issue. rewrite !whole_seconds_Ok by done. cbn [map_err pbind_res pbind].
  rewrite (proj2 (Z.leb_gt _ _)) by done. rewrite run_bind_res.
  destruct (issue_namespaces_run fuel _ n w Hn Hfit) as (spaces & digests & Hrun & Hsp).
  destruct (run _ (issue_namespaces _ _) w) as [r w1]. simpl in Hrun. subst r. cbn [run fst].
  destruct (sign_mso_ok request spaces digests sjwk dk Hsig Hj Hdk Hsp Hst Hne Hch)
    as (b & av & auth & mso & Hb & Hm).
  exists b, spaces, digests, av, auth, dk, mso. split; [|done]. cbn [fst snd]. by rewrite Hb.
Qed.

(** What the verifier should answer. *)
Definition expected_mdoc (request : IssueRequest) (disclose : list (string * string)) (key : Jwk) (cert : bytes)
    : VerifiedMdoc :=
  mkVerifiedMdoc (ir_doc_type request)
    (fold_left add_space (disclosed_all disclose (ir_namespaces request)) ∅) key
    (whole (ir_signed request)) (Z.max (whole (ir_valid_from request)) (whole (ir_signed request)))
    (whole (ir_valid_until request)) (ir_status request) cert.

Lemma expected_claims request disclose key cert ns id j :
  NoDup (ir_namespaces request).*1 -> Forall (fun ns => NoDup ns.2.*1) (ir_namespaces request) ->
  claim (expected_mdoc request disclose key cert) ns id = Some j <->
  exists elements value, (ns, elements) ∈ ir_namespaces request /\ (id, value) ∈ elements /\
    (ns, id) ∈ disclose /\ j = cbor_to_json value.
Proof.
  intros Hnames Hels. pose proof (disclosed_names_NoDup disclose _ Hnames Hels) as Hnd.
  change (claim _ ns id) with (lookup2 (vm_claims (expected_mdoc request disclose key cert)) (ns, id)).
  simpl. rewrite claims_lookup by done. simpl. setoid_rewrite disclosed_all_elem. split.
  - intros (es & (_ & els & Hin & ->) & (value & ? & ? & ?)%disclosed_elem). eauto 10.
  - intros (els & value & Hin & He & Hd & ->). exists (disclosed disclose ns els).
    assert ((id, cbor_to_json value) ∈ disclosed disclose ns els) as Hj by (apply disclosed_elem; eauto).
    split; [|done]. split; [by intros Hnil; rewrite Hnil in Hj; apply not_elem_of_nil in Hj|]. eauto.
Qed.

(** What was issued is accepted, with any selection of its items. *)
Lemma issued_accepted n request sjwk b spaces digests av auth dk mso disclose jwk' anchors now cert rest :
  issued_mdoc request sjwk b spaces digests av auth dk mso -> request_ok n request ->
  ir_x5chain request = cert :: rest -> jwk_from_cose_key dk = Ok jwk' ->
  (forall t, t = now \/ t = whole (ir_signed request) ->
     exists key, validate_chain (ir_x5chain request) anchors t = Ok key /\ agrees sjwk key) ->
  Z.max (whole (ir_valid_from request)) (whole (ir_signed request)) <= now <= whole (ir_valid_until request) ->
  mdoc_accepted (CMap [(CText "nameSpaces", CMap (reveal disclose spaces)); (CText "issuerAuth", av)])
    (Some (ir_doc_type request)) anchors now (expected_mdoc request disclose jwk' cert).
Proof.
  intros [_ Hsp _ Hval Hcv Hch Hmso Hdk Hent] [_ Hnames Hels (Hd1 & Hd2 & Hd3) _ Hst _ _] Hx Hjwk' Hchain Hnow.
  rewrite Hx in Hch, Hchain.
  destruct (Hchain now (or_introl eq_refl)) as (k & Hk & Hkag).
  destruct (Hchain _ (or_intror eq_refl)) as (k' & Hk' & _).
  exists av, auth, rest, k, k', mso. do 4 (split; [done|]).
  split; [by apply (cose_verify_agrees _ sjwk)|]. split; [done|]. subst mso. split.
  - split; [done|]. split; [done|]. split; [done|]. split; [|split].
    + eexists. split; [reflexivity|]. split; [|split]; (eexists; split; [reflexivity|]); simpl;
        try (by apply tdate_whole).
      destruct (Z.max_spec (whole (ir_valid_from request)) (whole (ir_signed request))) as [[_ ->]|[_ ->]];
        by apply tdate_whole.
    + do 2 eexists. split; [reflexivity|]. split; [reflexivity|]. done.
    + by apply parse_status_back.
  - split; [by right|]. split; [done|]. split; [done|].
    exists (CMap digests). split; [reflexivity|]. simpl.
    exists (reveal disclose spaces), (disclosed_all disclose (ir_namespaces request)).
    split; [done|]. split; [|split; [by apply disclosed_names_NoDup|done]].
    apply (reveal_spaces disclose _ _ digests digests Hsp). by eapply issued_digests_found.
Qed.

(** C16: An mdoc goes from the issuer to the verifier.  For a request with
    distinct names and printable values, keys that can sign and a certificate
    chain that is valid for the signing key now and at the signing time: the
    issuer returns an mdoc, the holder of the device key can present any
    selection of its elements, and the verifier accepts the presentation
    inside the validity period, with the issuer's document type, dates, status
    and device key, and with exactly the elements that were both issued and
    disclosed. *)
Theorem mdoc_issue_present_verify `{!KeyPairLaws signer, !KeyPairLaws device}
    fuel n request w sjwk disclose transcript anchors now :
  noise_ok fuel n (sys w) -> request_ok n request ->
  signs signer -> kp_public_jwk signer = Ok sjwk ->
  signs device -> kp_public_jwk device = Ok (ir_device_key request) ->
  (forall t, t = now \/ t = whole (ir_signed request) ->
     exists key, validate_chain (ir_x5chain request) anchors t = Ok key /\ agrees sjwk key) ->
  Z.max (whole (ir_valid_from request)) (whole (ir_signed request)) <= now <= whole (ir_valid_until request) ->
  cbor_fits 100 transcript = true ->
  exists issued resp v,
    (run (world_handler op) (issue fuel request signer) w).1 = Ok issued /\
    present issued disclose transcript device = Ok resp /\
    verify_device_response resp transcript anchors now = Ok [v] /\
    vm_doc_type v = ir_doc_type request /\ vm_status v = ir_status request /\
    vm_signed v = whole (ir_signed request) /\ vm_valid_until v = whole (ir_valid_until request) /\
    agrees (ir_device_key request) (vm_device_key v) /\
    forall ns id j, claim v ns id = Some j <->
      exists elements value, (ns, elements) ∈ ir_namespaces request /\ (id, value) ∈ elements /\
        (ns, id) ∈ disclose /\ j = cbor_to_json value.
Proof.
  intros Hn Hreq Hss Hsj Hds Hdj Hchain Hnow Htr.
  destruct (issue_ok fuel n request w sjwk Hn Hreq Hss Hsj)
    as (b & spaces & digests & av & auth & dk & mso & Hrun & Hm).
  destruct (present_ok request sjwk b spaces digests av auth dk mso disclose transcript _ Hm Hds Hdj Htr)
    as (resp & wv & sv & sg & sb & Hp & Hdec & Hsg & Hsb & Hver).
  destruct (cose_key_back _ _ (im_key _ _ _ _ _ _ _ _ _ Hm)) as (jwk' & Hjwk' & Hag).
  destruct (ir_x5chain request) as [|cert rest] eqn:Hx; [by destruct (ro_chain _ _ Hreq)|].
  rewrite <- Hx in Hchain.
  exists b, resp, (expected_mdoc request disclose jwk' cert).
  split; [done|]. split; [done|]. split; [|do 4 (split; [done|])].
  - unfold verify_device_response. rewrite Hdec. cbn [res_bind].
    change (require_text _ "version" _) with (Ok (E := MdocError) "1.0"%string). cbn [res_bind].
    rewrite bool_decide_eq_false_2 by auto.
    change (require _ "status" _) with (Ok (E := MdocError) (CInt 0)). cbn [res_bind as_integer].
    rewrite bool_decide_eq_false_2 by auto.
    match goal with |- context [ok_or ?o _] => change o with (Some [CMap [
      (CText "docType", CText (ir_doc_type request));
      (CText "issuerSigned", CMap [(CText "nameSpaces", CMap (reveal disclose spaces)); (CText "issuerAuth", av)]);
      (CText "deviceSigned", CMap [(CText "nameSpaces", wv);
        (CText "deviceAuth", CMap [(CText "deviceSignature", sv)])])]]) end.
    cbn [ok_or res_bind collect].
    match goal with |- context [verify_document ?t ?a ?n ?d] =>
      assert (verify_document t a n d = Ok (expected_mdoc request disclose jwk' cert)) as ->; [|done] end.
    apply verify_document_Ok. do 7 eexists.
    split; [reflexivity|]. split; [reflexivity|]. split; [by eapply issued_accepted|].
    do 3 (split; [reflexivity|]). split; [reflexivity|]. split; [exact Hsg|]. split; [exact Hsb|].
    by apply (verify_detached_agrees _ _ (ir_device_key request)).
  - split; [exact Hag|]. intros ns id j. destruct Hreq. by apply expected_claims.
Qed.
End Flow.
