(* ===== verification/MdocBinding.v ===== *)
(** * Mdoc presentations are bound to one request, and status lists travel

    What a device signature covers, the round trip of a status list token in
    CWT format, and the witnesses of the theorems about mdocs. *)
From S2P Require Import Prelude Externals Strings Effects Json Keys Jws X509 Cbor Cose Mdoc MdocVerify MdocFlow.
Import Mdoc.

Section Binding.
Context `{S2 : Sha2} `{S2L : !Sha2Laws S2} `{B64 : Base64Url} `{BL : !Base64UrlLaws B64} `{B64S : Base64Std}.
Context `{P : P256} `{D : Ed25519} `{CT : CosetTypes} `{K : !Coset} `{CB : Ciborium} `{CBL : !CiboriumLaws CB}.
Context `{KL : !CosetLaws K CB} `{DS : DebugStr} `{CH : Chrono} `{CHL : !ChronoLaws CH}.
Context `{MS : MdocShow} `{XA : X509Api}.

(** Printing loses nothing. *)
Lemma encode_inj v w b :
  cbor_fits 128 v = true -> cbor_fits 128 w = true -> encode v = Ok b -> encode w = Ok b -> v = w.
Proof.
  intros Hv Hw H1 H2. destruct (encode_total v Hv) as (b1 & E1 & _ & D1).
  destruct (encode_total w Hw) as (b2 & E2 & _ & D2). congruence.
Qed.

Lemma embed_inj v w x :
  cbor_fits 128 v = true -> cbor_fits 128 w = true -> embed v = Ok x -> embed w = Ok x -> v = w.
Proof.
  intros Hv Hw H1 H2. destruct (embed_total v Hv) as (x1 & E1 & U1 & _).
  destruct (embed_total w Hw) as (x2 & E2 & U2 & _). congruence.
Qed.

Lemma device_authentication_inj tr tr' dt dt' w w' b :
  cbor_fits 100 tr = true -> cbor_fits 100 tr' = true -> cbor_fits 100 w = true -> cbor_fits 100 w' = true ->
  device_authentication_bytes tr dt w = Ok b -> device_authentication_bytes tr' dt' w' = Ok b ->
  tr = tr' /\ dt = dt' /\ w = w'.
Proof.
  intros H1 H2 H3 H4 Hb Hb'. unfold device_authentication_bytes in Hb, Hb'.
  apply res_bind_Ok in Hb as (x & Hx & Hb). apply res_bind_Ok in Hb' as (x' & Hx' & Hb').
  assert (Hfit : forall tr dt w, cbor_fits 100 tr = true -> cbor_fits 100 w = true ->
    cbor_fits 128 (CArray [CText "DeviceAuthentication"; tr; CText dt; w]) = true).
  { intros. apply (cbor_fits_mono 101); [lia|]. apply cbor_fits_array. by repeat constructor. }
  destruct (embed_total _ (Hfit tr dt w H1 H3)) as (y & E1 & _ & F1 & _).
  destruct (embed_total _ (Hfit tr' dt' w' H2 H4)) as (y' & E2 & _ & F2 & _).
  assert (y = x) as -> by congruence. assert (y' = x') as -> by congruence.
  assert (x = x') as <- by (eapply encode_inj; [..|exact Hb|exact Hb']; by apply (cbor_fits_mono 1); [lia|]).
  assert (Heq := embed_inj _ _ _ (Hfit tr dt w H1 H3) (Hfit tr' dt' w' H2 H4) E1 E2).
  by injection Heq.
Qed.

Definition handover (client_id nonce : string) (thumbprint : option bytes) (uri : string) : Cbor :=
  CArray [CText client_id; CText nonce; match thumbprint with Some t => CBytes t | None => CNull end; CText uri].

Lemma handover_fits c n t u :
  match t with Some t => Forall is_u8 t | None => True end -> cbor_fits 1 (handover c n t u) = true.
Proof.
  intros Ht. apply cbor_fits_array. repeat constructor; try done. destruct t as [t|]; [|done]. by apply u8_fits.
Qed.

Lemma transcript_fits c n t u tr :
  match t with Some t => Forall is_u8 t | None => True end ->
  oid4vp_session_transcript c n t u = Ok tr -> cbor_fits 100 tr = true.
Proof.
  intros Ht Htr. unfold oid4vp_session_transcript in Htr. apply res_bind_Ok in Htr as (b & _ & [= <-]).
  apply (cbor_fits_mono 2); [lia|]. apply cbor_fits_array. repeat constructor; try done.
  apply cbor_fits_array. repeat constructor; try done. by apply u8_fits, sha256_u8.
Qed.

(** C18: A device signature is good for one request.  When the bytes it covers
    are those of two requests, the requests agree on the client, the nonce,
    the response key and the response URI, on the document type and on the
    device's name spaces, or SHA-256 has a collision among the requests'
    handovers. *)
Theorem device_signature_binds_request c n t u c' n' t' u' tr tr' dt dt' w w' b :
  match t with Some t => Forall is_u8 t | None => True end ->
  match t' with Some t => Forall is_u8 t | None => True end ->
  oid4vp_session_transcript c n t u = Ok tr -> oid4vp_session_transcript c' n' t' u' = Ok tr' ->
  cbor_fits 100 w = true -> cbor_fits 100 w' = true ->
  device_authentication_bytes tr dt w = Ok b -> device_authentication_bytes tr' dt' w' = Ok b ->
  dt = dt' /\ w = w' /\
  ((c, n, t, u) = (c', n', t', u') \/
   exists x y, encode (handover c n t u) = Ok x /\ encode (handover c' n' t' u') = Ok y /\
     x <> y /\ sha256 x = sha256 y).
Proof.
  intros Ht Ht' Htr Htr' Hw Hw' Hb Hb'.
  destruct (device_authentication_inj tr tr' dt dt' w w' b) as (-> & -> & ->); try done;
    [by eapply (transcript_fits c n t u)|by eapply (transcript_fits c' n' t' u')|].
  split; [done|]. split; [done|].
  unfold oid4vp_session_transcript in Htr, Htr'. fold (handover c n t u) in Htr. fold (handover c' n' t' u') in Htr'.
  apply res_bind_Ok in Htr as (x & Hx & [= <-]). apply res_bind_Ok in Htr' as (y & Hy & [= Heq]).
  destruct (decide (x = y)) as [<-|Hne]; [left|right; exists x, y; by rewrite Heq].
  assert (Hh : handover c n t u = handover c' n' t' u').
  { eapply encode_inj; [..|exact Hx|exact Hy]; apply (cbor_fits_mono 1); try lia; by apply handover_fits. }
  unfold handover in Hh. injection Hh as -> -> Hopt ->. do 2 f_equal.
  destruct t, t'; congruence.
Qed.

(** ** Status list tokens *)
Record list_ok (l : StatusListCwt) : Prop := {
  lo_bits : 0 <= slc_bits l < 256;
  lo_lst : Forall is_u8 (slc_lst l);
  lo_ttl : match slc_ttl l with Some ttl => 0 <= ttl < 2 ^ 64 | None => True end;
  lo_dates : in_rfc (slc_iat l) /\ in_rfc (slc_exp l);
  lo_chain : slc_x5chain l <> [] /\ Forall (Forall is_u8) (slc_x5chain l);
}.

Lemma seconds_bounds t : in_rfc t -> 0 <= timestamp t < 2 ^ 63.
Proof. intros Ht%in_rfc_secs. rewrite timestamp_spec. unfold RFC3339_END in Ht. lia. Qed.

Lemma int_fits d z : 0 <= z < 2 ^ 64 -> cbor_fits d (CInt z) = true.
Proof.
  intros ?. destruct d; simpl; (rewrite (proj2 (Z.leb_le _ _)), (proj2 (Z.ltb_lt _ _)) by lia; done).
Qed.

Lemma cwt_claims_fit l : list_ok l -> cbor_fits 128 (CMap (cwt_claims l)) = true.
Proof.
  intros [Hb Hl Ht [Hi%seconds_bounds He%seconds_bounds] _]. apply (cbor_fits_mono 2); [lia|].
  apply cbor_fits_map. unfold cwt_claims. apply Forall_app. split.
  - repeat constructor; try done; apply int_fits; lia.
  - apply Forall_app. split.
    + destruct (slc_ttl l); repeat constructor. by apply int_fits.
    + repeat constructor; try done. apply cbor_fits_map. repeat constructor; try done.
      * apply int_fits. lia.
      * by apply u8_fits.
Qed.

Lemma cwt_claims_get l :
  cwt_claim (CMap (cwt_claims l)) CWT_SUB = Ok (CText (slc_uri l)) /\
  cwt_claim (CMap (cwt_claims l)) CWT_EXP = Ok (CInt (timestamp (slc_exp l))) /\
  cwt_claim (CMap (cwt_claims l)) CWT_STATUS_LIST =
    Ok (CMap [(CText "bits", CInt (slc_bits l)); (CText "lst", CBytes (slc_lst l))]).
Proof. unfold cwt_claims. by destruct (slc_ttl l). Qed.

Lemma addable_cwt chain :
  Forall (Forall is_u8) chain ->
  addable 1 [(HEADER_TYP, CText STATUS_LIST_CWT_TYPE); (HEADER_X5CHAIN, x5chain_value chain)].
Proof.
  intros Hc. split.
  - simpl. apply (bool_decide_unpack _). vm_compute. exact I.
  - constructor; [split; [unfold HEADER_TYP; simpl; lia|done]|]. constructor; [|constructor].
    split; [unfold HEADER_X5CHAIN; simpl; lia|]. by apply x5chain_value_fits.
Qed.

Lemma sign_list_ok `{!KeyPairLaws signer} l sjwk :
  list_ok l -> signs signer -> kp_public_jwk signer = Ok sjwk ->
  exists token s payload, sign_status_list_cwt l signer = Ok token /\ sign1_from_slice token = Ok s /\
    cs_payload s = Some payload /\ decode payload = Ok (CMap (cwt_claims l)) /\
    cose_verify s sjwk = Ok tt /\
    hd_rest (ph_header (cs_protected s)) =
      labelled [(HEADER_TYP, CText STATUS_LIST_CWT_TYPE); (HEADER_X5CHAIN, x5chain_value (slc_x5chain l))].
Proof.
  intros Hl Hsig Hj. destruct (encode_total _ (cwt_claims_fit l Hl)) as (payload & Hp & Hpu & Hpd).
  destruct (lo_chain _ Hl) as [_ Hch].
  pose proof (addable_cwt _ Hch) as Hadd. pose proof (addable_nil 1) as Hnil.
  destruct (cose_sign_total signer payload _ [] 1 Hsig Hadd Hnil) as [s Hs].
  destruct (sign_inv 1 payload _ _ s sjwk Hadd Hnil Hpu Hj Hs) as (Hb & Hpl & Hph & _ & Hv).
  destruct (sign1_value_roundtrip 1 s ltac:(lia) Hb) as (vs & s' & Ht & Hf & Hr & Hsame).
  assert (Hf' : cbor_fits 128 (CTag 18 (CArray vs)) = true).
  { apply (cbor_fits_mono 4); [lia|]. by apply cbor_fits_tag. }
  destruct (cbor_total _ Hf') as [token He].
  pose proof (cbor_roundtrip _ token Hf' He) as [_ Hd].
  exists token, s', payload. unfold sign_status_list_cwt, to_tagged_vec, sign1_from_slice, from_value.
  rewrite Hp. cbn [res_bind]. rewrite Hs. cbn [res_bind map_err].
  rewrite (sign1_to_tagged_vec_spec _ _ Ht), He, Hd. cbn [from_ext res_bind map_err]. rewrite Hr.
  split; [done|]. split; [done|]. rewrite (same_sign1_verify s s' sjwk Hsame).
  destruct Hsame as (-> & _ & -> & _). rewrite Hph. done.
Qed.

(** A status list token that is signed can be read back by whoever trusts
    its chain: until it expires the verifier recovers the URI, the bits per
    status, the list and the expiry; once it has expired, it is refused. *)
Theorem status_list_cwt_roundtrip `{!KeyPairLaws signer} l sjwk anchors now key :
  list_ok l -> signs signer -> kp_public_jwk signer = Ok sjwk ->
  validate_chain (slc_x5chain l) anchors now = Ok key -> agrees sjwk key ->
  exists token, sign_status_list_cwt l signer = Ok token /\
    verify_status_list_cwt token anchors now =
      if whole (slc_exp l) <? now then Err (ME_Validity "the status list has expired")
      else Ok (mkVerifiedStatusList (slc_uri l) (slc_bits l) (slc_lst l) (whole (slc_exp l))).
Proof.
  intros Hl Hsig Hj Hval Hag.
  destruct (sign_list_ok l sjwk Hl Hsig Hj) as (token & s & payload & Hs & Hfrom & Hpl & Hd & Hv & Hrest).
  exists token. split; [done|]. unfold verify_status_list_cwt. rewrite Hfrom. cbn [res_bind map_err].
  rewrite Hrest. unfold header_get at 1. simpl find. cbn [mbind option_bind fmap option_fmap option_map snd as_text].
  rewrite bool_decide_eq_false_2 by auto.
  rewrite (x5chain_back (slc_x5chain l)); [|by destruct (lo_chain _ Hl)|by rewrite Hrest].
  cbn [res_bind map_err]. rewrite Hval. cbn [res_bind map_err].
  rewrite (cose_verify_agrees s sjwk key Hag Hv). cbn [res_bind map_err]. rewrite Hpl. simpl (default _ _).
  rewrite Hd. cbn [res_bind]. destruct (cwt_claims_get l) as (-> & -> & ->).
  cbn [res_bind as_integer mbind option_bind].
  destruct (lo_dates _ Hl) as [_ Hexp]. pose proof (seconds_bounds _ Hexp) as Hb.
  assert (in_i64 (timestamp (slc_exp l)) = true) as -> by (apply in_i64_spec; unfold i64_min, i64_max; lia).
  destruct (from_timestamp_total (timestamp (slc_exp l))) as [e He].
  { rewrite timestamp_spec in *. apply in_rfc_secs in Hexp. unfold RFC3339_END in Hexp. lia. }
  rewrite He. apply from_timestamp_spec in He. rewrite timestamp_spec in He. subst e. cbn [ok_or res_bind].
  fold (whole (slc_exp l)). destruct (whole (slc_exp l) <? now); [done|].
  cbn [as_text ok_or res_bind].
  change (require _ "bits" _) with (Ok (E := MdocError) (CInt (slc_bits l))).
  change (require _ "lst" _) with (Ok (E := MdocError) (CBytes (slc_lst l))).
  cbn [res_bind as_integer mbind option_bind as_byte_string ok_or].
  rewrite (proj2 (Z.leb_le 0 _)), (proj2 (Z.ltb_lt _ 256)) by apply Hl. done.
Qed.
End Binding.

(** ** Witnesses *)
Module MdocDemo.
Import Toy ToyCbor ToyCurves ToyCose ToyCodec SysDemo ToyX509.

#[export] Instance toy_show : MdocShow :=
  {| debug_integer := pretty; json_to_string v := "json"%string |}.

Definition ed0_jwk : Jwk := Eval vm_compute in
  unwrap_or (mkJwk EmptyString None None None None None None None) (kp_public_jwk (ed_key_pair ed0)).

Definition request : IssueRequest := {|
  ir_doc_type := MDL_DOCTYPE;
  ir_namespaces := [(MDL_NAMESPACE, [("family_name"%string, CText "Doe"); ("age_in_years"%string, CInt 30)])];
  ir_device_key := ed0_jwk;
  ir_signed := 0; ir_valid_from := 0; ir_valid_until := 2000 * NANOS;
  ir_status := Some (mkStatusListRef 7 "https://issuer.example/status");
  ir_x5chain := [leaf_der] |}.

Definition world : World unit := mkWorld demo_sys tt.
Definition transcript : Cbor := Eval vm_compute in
  unwrap_or CNull (oid4vp_session_transcript "client" "nonce" None "https://verifier.example/response").

Lemma u32_of_repeat b : 0 <= b < 256 -> u32_of (replicate 4 b) = b * 16843009.
Proof. intros ?. unfold u32_of. simpl. rewrite Z.mod_small; lia. Qed.

(** One more draw than there are ids in use finds an id that is not. *)
Lemma demo_noise n : (n < 256)%nat -> noise_ok (S n) n demo_sys.
Proof.
  intros Hn. split.
  - intros i k. simpl. apply Forall_replicate. unfold is_u8. apply Z.mod_pos_bound. lia.
  - intros i ids Hs. simpl noise. set (draw := fun j : nat => u32_of (replicate 4 (Z.of_nat (i + j) mod 256))).
    assert (Hd : forall j, draw j = (Z.of_nat (i + j) mod 256) * 16843009).
    { intros j. apply u32_of_repeat. apply Z.mod_pos_bound. lia. }
    assert (Hnd : NoDup (map draw (seq 0 (S n)))).
    { apply NoDup_fmap_2_strong; [|apply NoDup_seq]. intros x y Hx%elem_of_seq Hy%elem_of_seq. rewrite !Hd.
      pose proof (Z.div_mod (Z.of_nat (i + x)) 256). pose proof (Z.div_mod (Z.of_nat (i + y)) 256). lia. }
    destruct (decide (Forall (fun j => draw j ∈ ids) (seq 0 (S n)))) as [Hall|Hno].
    + exfalso. assert (Hsub : (list_to_set (map draw (seq 0 (S n))) : gset Z) ⊆ ids).
      { intros z. rewrite elem_of_list_to_set. intros (j & -> & Hj)%list_elem_of_fmap.
        by eapply list.Forall_forall in Hall. }
      apply subseteq_size in Hsub. rewrite size_list_to_set in Hsub by done.
      rewrite length_map, length_seq in Hsub. lia.
    + apply not_Forall_Exists in Hno; [|apply _]. apply Exists_exists in Hno as (j & Hj%elem_of_seq & Hd').
      exists j. split; [lia|done].
Qed.

Lemma demo_request_ok : request_ok 2 request.
Proof.
  split; simpl.
  - repeat constructor.
  - apply NoDup_singleton.
  - constructor; [|constructor]. apply (bool_decide_unpack _). vm_compute. exact I.
  - unfold in_rfc, RFC3339_END, NANOS. lia.
  - done.
  - lia.
  - split; [done|]. constructor; [|constructor]. apply bytes_u8. vm_compute. reflexivity.
  - eexists. vm_compute. reflexivity.
Qed.

Lemma toy_keys_sign : signs (ec_key_pair ec1) /\ signs (ed_key_pair ed0).
Proof. split; intros m; eexists; reflexivity. Qed.

Lemma leaf_agrees : agrees ec1_jwk leaf_jwk.
Proof.
  split; [vm_compute; reflexivity|]. intros m s. unfold verify_with_jwk.
  assert (key_type leaf_jwk = Some ES256) as -> by (vm_compute; reflexivity).
  assert (key_type ec1_jwk = Some ES256) as -> by (vm_compute; reflexivity).
  assert (jwk_x leaf_jwk = jwk_x ec1_jwk) as -> by (vm_compute; reflexivity).
  assert (jwk_y leaf_jwk = jwk_y ec1_jwk) as -> by (vm_compute; reflexivity). done.
Qed.

Lemma mdoc_issue_present_verify_witness :
  exists issued resp v,
    (run (world_handler no_op) (issue 3 request (ec_key_pair ec1)) world).1 = Ok issued /\
    present issued [(MDL_NAMESPACE, "family_name"%string)] transcript (ed_key_pair ed0) = Ok resp /\
    verify_device_response resp transcript [root] (1000 * NANOS) = Ok [v] /\
    vm_doc_type v = ir_doc_type request /\ vm_status v = ir_status request /\
    vm_signed v = whole (ir_signed request) /\ vm_valid_until v = whole (ir_valid_until request) /\
    agrees (ir_device_key request) (vm_device_key v) /\
    forall ns id j, claim v ns id = Some j <->
      exists elements value, (ns, elements) ∈ ir_namespaces request /\ (id, value) ∈ elements /\
        (ns, id) ∈ [(MDL_NAMESPACE, "family_name"%string)] /\ j = cbor_to_json value.
Proof.
  apply (mdoc_issue_present_verify no_op (signer := ec_key_pair ec1) (device := ed_key_pair ed0)
    3 2 request world ec1_jwk).
  - apply demo_noise. lia.
  - apply demo_request_ok.
  - apply toy_keys_sign.
  - vm_compute. reflexivity.
  - apply toy_keys_sign.
  - vm_compute. reflexivity.
  - intros t Ht. exists leaf_jwk. split; [|apply leaf_agrees]. apply validate_leaf.
    destruct Ht as [->| ->]; [unfold NANOS; lia|]. vm_compute. split; discriminate.
  - vm_compute. split; discriminate.
  - vm_compute. reflexivity.
Defined.

Definition demo_signed_bytes : bytes := Eval vm_compute in
  unwrap_or [] (device_authentication_bytes transcript MDL_DOCTYPE CNull).

Lemma device_signature_binds_request_witness :
  MDL_DOCTYPE = MDL_DOCTYPE /\ CNull = CNull /\
  (("client", "nonce", None, "https://verifier.example/response")%string =
   ("client", "nonce", @None bytes, "https://verifier.example/response")%string \/
   exists x y,
     encode (handover "client" "nonce" None "https://verifier.example/response") = Ok x /\
     encode (handover "client" "nonce" None "https://verifier.example/response") = Ok y /\
     x <> y /\ sha256 x = sha256 y).
Proof.
  apply (device_signature_binds_request "client" "nonce" None "https://verifier.example/response"
    "client" "nonce" None "https://verifier.example/response" transcript transcript
    MDL_DOCTYPE MDL_DOCTYPE CNull CNull demo_signed_bytes);
    try exact I; try reflexivity; vm_compute; reflexivity.
Defined.

Definition demo_list : StatusListCwt :=
  mkStatusListCwt "https://issuer.example/status" 1 [120; 156; 3; 0] 0 (2000 * NANOS) (Some 300) [leaf_der].

Lemma demo_list_ok : list_ok demo_list.
Proof.
  split; simpl.
  - lia.
  - repeat constructor; unfold is_u8; lia.
  - lia.
  - unfold in_rfc, RFC3339_END, NANOS. lia.
  - split; [done|]. constructor; [|constructor]. apply bytes_u8. vm_compute. reflexivity.
Qed.

Lemma status_list_cwt_roundtrip_witness :
  exists token, sign_status_list_cwt demo_list (ec_key_pair ec1) = Ok token /\
    verify_status_list_cwt token [root] (1000 * NANOS) =
      if whole (slc_exp demo_list) <? 1000 * NANOS then Err (ME_Validity "the status list has expired")
      else Ok (mkVerifiedStatusList (slc_uri demo_list) (slc_bits demo_list) (slc_lst demo_list)
                 (whole (slc_exp demo_list))).
Proof.
  apply (status_list_cwt_roundtrip (signer := ec_key_pair ec1) demo_list ec1_jwk [root] (1000 * NANOS) leaf_jwk).
  - apply demo_list_ok.
  - apply toy_keys_sign.
  - vm_compute. reflexivity.
  - apply validate_leaf. unfold NANOS. lia.
  - apply leaf_agrees.
Defined.
End MdocDemo.
