(* ===== verification/Errors.v ===== *)
(** * Protocol errors

    [Oid4vcError] and its JSON body (crates/types/src/error.rs). *)
From S2P Require Import Prelude.

Inductive Oid4vcError :=
| OE_InvalidCredentialRequest (msg : string)
| OE_UnsupportedCredentialType (msg : string)
| OE_UnsupportedCredentialFormat (msg : string)
| OE_InvalidProof (msg : string)
| OE_InvalidNonce
| OE_IssuanceDenied
| OE_InvalidRequest (msg : string)
| OE_InvalidGrant (msg : string)
| OE_InvalidClient (msg : string)
| OE_UnauthorizedClient
| OE_UnsupportedGrantType (msg : string)
| OE_InvalidScope (msg : string)
| OE_InvalidPresentation (msg : string)
| OE_VpTokenValidationFailed (msg : string)
| OE_SessionNotFound (msg : string)
| OE_CryptoError (msg : string)
| OE_InvalidSignature
| OE_KeyNotFound (msg : string)
| OE_CredentialRevoked
| OE_CredentialSuspended
| OE_StatusListError (msg : string)
| OE_Internal (msg : string)
| OE_Configuration (msg : string).

(** [Display for Oid4vcError]. *)
Definition oid4vc_error_to_string (e : Oid4vcError) : string :=
  match e with
  | OE_InvalidCredentialRequest m => "invalid credential request: " +:+ m
  | OE_UnsupportedCredentialType m => "unsupported credential type: " +:+ m
  | OE_UnsupportedCredentialFormat m => "unsupported credential format: " +:+ m
  | OE_InvalidProof m => "invalid proof: " +:+ m
  | OE_InvalidNonce => "invalid or expired c_nonce"
  | OE_IssuanceDenied => "credential issuance denied"
  | OE_InvalidRequest m => "invalid request: " +:+ m
  | OE_InvalidGrant m => "invalid grant: " +:+ m
  | OE_InvalidClient m => "invalid client: " +:+ m
  | OE_UnauthorizedClient => "unauthorized client"
  | OE_UnsupportedGrantType m => "unsupported grant type: " +:+ m
  | OE_InvalidScope m => "invalid scope: " +:+ m
  | OE_InvalidPresentation m => "invalid presentation: " +:+ m
  | OE_VpTokenValidationFailed m => "vp_token validation failed: " +:+ m
  | OE_SessionNotFound m => "session not found or expired: " +:+ m
  | OE_CryptoError m => "cryptographic operation failed: " +:+ m
  | OE_InvalidSignature => "invalid signature"
  | OE_KeyNotFound m => "key not found: " +:+ m
  | OE_CredentialRevoked => "credential is revoked"
  | OE_CredentialSuspended => "credential is suspended"
  | OE_StatusListError m => "status list error: " +:+ m
  | OE_Internal m => "internal server error: " +:+ m
  | OE_Configuration m => "configuration error: " +:+ m
  end.

(** [Oid4vcError::error_code]. *)
Definition error_code (e : Oid4vcError) : string :=
  match e with
  | OE_InvalidCredentialRequest _ => "invalid_credential_request"
  | OE_UnsupportedCredentialType _ => "unsupported_credential_type"
  | OE_UnsupportedCredentialFormat _ => "unsupported_credential_format"
  | OE_InvalidProof _ => "invalid_proof"
  | OE_InvalidNonce => "invalid_proof"
  | OE_IssuanceDenied => "issuance_denied"
  | OE_InvalidRequest _ => "invalid_request"
  | OE_InvalidGrant _ => "invalid_grant"
  | OE_InvalidClient _ => "invalid_client"
  | OE_UnauthorizedClient => "unauthorized_client"
  | OE_UnsupportedGrantType _ => "unsupported_grant_type"
  | OE_InvalidScope _ => "invalid_scope"
  | OE_InvalidPresentation _ => "invalid_presentation"
  | OE_VpTokenValidationFailed _ => "invalid_presentation"
  | OE_SessionNotFound _ => "invalid_request"
  | OE_CryptoError _ => "server_error"
  | OE_InvalidSignature => "invalid_proof"
  | OE_KeyNotFound _ => "server_error"
  | OE_CredentialRevoked => "credential_revoked"
  | OE_CredentialSuspended => "credential_suspended"
  | OE_StatusListError _ => "server_error"
  | OE_Internal _ => "server_error"
  | OE_Configuration _ => "server_error"
  end.

(** [Oid4vcError::http_status_code]. *)
Definition http_status_code (e : Oid4vcError) : Z :=
  match e with
  | OE_InvalidCredentialRequest _ => 400
  | OE_UnsupportedCredentialType _ => 400
  | OE_UnsupportedCredentialFormat _ => 400
  | OE_InvalidProof _ => 400
  | OE_InvalidNonce => 400
  | OE_IssuanceDenied => 403
  | OE_InvalidRequest _ => 400
  | OE_InvalidGrant _ => 400
  | OE_InvalidClient _ => 401
  | OE_UnauthorizedClient => 401
  | OE_UnsupportedGrantType _ => 400
  | OE_InvalidScope _ => 400
  | OE_InvalidPresentation _ => 400
  | OE_VpTokenValidationFailed _ => 400
  | OE_SessionNotFound _ => 400
  | OE_CryptoError _ => 500
  | OE_InvalidSignature => 401
  | OE_KeyNotFound _ => 404
  | OE_CredentialRevoked => 403
  | OE_CredentialSuspended => 403
  | OE_StatusListError _ => 500
  | OE_Internal _ => 500
  | OE_Configuration _ => 500
  end.

Record ErrorResponse := mkErrorResponse {
  er_error : string;
  er_error_description : option string;
  er_c_nonce : option string;
  er_c_nonce_expires_in : option Z;
}.

(** [Oid4vcError::to_error_response]. *)
Definition to_error_response (e : Oid4vcError) : ErrorResponse := {|
  er_error := error_code e;
  er_error_description := Some (oid4vc_error_to_string e);
  er_c_nonce := None;
  er_c_nonce_expires_in := None;
|}.
