(* ===== verification/Oid4vci.v ===== *)
(** * OpenID4VCI data types

    The structs of crates/types/src/oid4vci.rs.  A field keeps its Rust name
    behind a short prefix that names its struct; [HashMap<String, _>] is a
    finite map, [Option] and [Vec] are [option] and [list], [u64], [u32] and
    [usize] are integers. *)
From S2P Require Import Prelude Externals Json.

Section Types.
Context `{UrlApi}.

Record BatchCredentialIssuance := mkBatchCredentialIssuance {
  bci_batch_size : Z;
}.

Record ProofTypeMetadata := mkProofTypeMetadata {
  ptm_proof_signing_alg_values_supported : list string;
}.

Record Logo := mkLogo {
  l_uri : string;
  l_alt_text : option string;
}.

Record CredentialDisplay := mkCredentialDisplay {
  cd_name : string;
  cd_locale : option string;
  cd_logo : option Logo;
  cd_description : option string;
  cd_background_color : option string;
  cd_text_color : option string;
}.

Record ClaimDescription := mkClaimDescription {
  cld_path : list Value;
  cld_mandatory : option bool;
}.

Record CredentialMetadata := mkCredentialMetadata {
  cm_display : option (list CredentialDisplay);
  cm_claims : option (list ClaimDescription);
}.

Record CredentialConfiguration := mkCredentialConfiguration {
  cc_format : string;
  cc_scope : option string;
  cc_cryptographic_binding_methods_supported : option (list string);
  cc_credential_signing_alg_values_supported : option (list Value);
  cc_proof_types_supported : option (gmap string ProofTypeMetadata);
  cc_credential_metadata : option CredentialMetadata;
  cc_vct : option string;
  cc_doctype : option string;
}.

Record IssuerDisplay := mkIssuerDisplay {
  id_name : string;
  id_locale : option string;
  id_logo : option Logo;
}.

Record CredentialIssuerMetadata := mkCredentialIssuerMetadata {
  cim_credential_issuer : string;
  cim_authorization_servers : option (list Url);
  cim_credential_endpoint : Url;
  cim_deferred_credential_endpoint : option Url;
  cim_nonce_endpoint : option Url;
  cim_batch_credential_issuance : option BatchCredentialIssuance;
  cim_credential_configurations_supported : gmap string CredentialConfiguration;
  cim_display : option (list IssuerDisplay);
}.

Record AuthorizationServerMetadata := mkAuthorizationServerMetadata {
  asm_issuer : string;
  asm_authorization_endpoint : Url;
  asm_token_endpoint : Url;
  asm_pushed_authorization_request_endpoint : option Url;
  asm_require_pushed_authorization_requests : bool;
  asm_jwks_uri : Url;
  asm_response_types_supported : list string;
  asm_grant_types_supported : list string;
  asm_code_challenge_methods_supported : list string;
  asm_token_endpoint_auth_methods_supported : list string;
  asm_pre_authorized_grant_anonymous_access_supported : bool;
  asm_dpop_signing_alg_values_supported : list string;
  asm_client_attestation_signing_alg_values_supported : list string;
  asm_client_attestation_pop_signing_alg_values_supported : list string;
  asm_authorization_response_iss_parameter_supported : bool;
}.

Record AuthorizationCodeGrant := mkAuthorizationCodeGrant {
  acg_issuer_state : option string;
  acg_authorization_server : option Url;
}.

Record TxCode := mkTxCode {
  tc_input_mode : option string;
  tc_length : option Z;
  tc_description : option string;
}.

Record PreAuthorizedCodeGrant := mkPreAuthorizedCodeGrant {
  pacg_pre_authorized_code : string;
  pacg_tx_code : option TxCode;
}.

Record Grants := mkGrants {
  g_authorization_code : option AuthorizationCodeGrant;
  g_pre_authorized_code : option PreAuthorizedCodeGrant;
}.

Record CredentialOffer := mkCredentialOffer {
  co_credential_issuer : string;
  co_credential_configuration_ids : list string;
  co_grants : option Grants;
}.

Record AuthorizationDetail := mkAuthorizationDetail {
  ad_detail_type : string;
  ad_credential_configuration_id : option string;
  ad_format : option string;
  ad_vct : option string;
  ad_doctype : option string;
}.

Record PushedAuthorizationRequest := mkPushedAuthorizationRequest {
  par_response_type : string;
  par_client_id : string;
  par_redirect_uri : Url;
  par_scope : option string;
  par_state : option string;
  par_code_challenge : string;
  par_code_challenge_method : string;
  par_authorization_details : option (list AuthorizationDetail);
  par_issuer_state : option string;
  par_dpop_jkt : option string;
  par_request_uri : option string;
}.

Record PushedAuthorizationResponse := mkPushedAuthorizationResponse {
  puar_request_uri : string;
  puar_expires_in : Z;
}.

Record TokenRequest := mkTokenRequest {
  tr_grant_type : string;
  tr_code : option string;
  tr_redirect_uri : option Url;
  tr_code_verifier : option string;
  tr_client_id : option string;
  tr_pre_authorized_code : option string;
  tr_tx_code : option string;
}.

Record AuthorizedDetail := mkAuthorizedDetail {
  aud_detail_type : string;
  aud_credential_configuration_id : string;
  aud_credential_identifiers : list string;
}.

Record TokenResponse := mkTokenResponse {
  tor_access_token : string;
  tor_token_type : string;
  tor_expires_in : Z;
  tor_authorization_details : option (list AuthorizedDetail);
}.

Record NonceResponse := mkNonceResponse {
  nr_c_nonce : string;
}.

Record Proofs := mkProofs {
  p_jwt : option (list string);
  p_other : gmap string Value;
}.

Record CredentialRequest := mkCredentialRequest {
  cr_credential_identifier : option string;
  cr_credential_configuration_id : option string;
  cr_proofs : option Proofs;
  cr_proof : option Value;
  cr_credential_response_encryption : option Value;
}.

Record IssuedCredential := mkIssuedCredential {
  ic_credential : Value;
}.

Record CredentialResponse := mkCredentialResponse {
  crr_credentials : option (list IssuedCredential);
  crr_transaction_id : option string;
  crr_interval : option Z;
  crr_notification_id : option string;
}.

End Types.

(** [json_or_json_string]: the value may be given as JSON or as a string of
    JSON.  [from_value] is the derived deserialization of the target type,
    [from_str] the parser of text. *)
Definition json_or_json_string {T} (from_value : Value -> T + string) (from_str : string -> T + string)
    (field : option Value) : res (option T) string :=
  match field with
  | None | Some VNull => Ok None
  | Some (VString s) => res_map Some (from_ext (from_str s))
  | Some value => res_map Some (from_ext (from_value value))
  end.
