(* ===== verification/Oid4vp.v ===== *)
(** * OpenID4VP data types

    The structs of crates/types/src/oid4vp.rs, written as in [Oid4vci]. *)
From S2P Require Import Prelude Externals Json.

Section Types.
Context `{UrlApi}.

Record ClaimQuery := mkClaimQuery {
  cq_path : list string;
  cq_namespace : option string;
  cq_id : option string;
  cq_values : option (list Value);
}.

Record CredentialQuery := mkCredentialQuery {
  crq_id : string;
  crq_format : string;
  crq_vct : option string;
  crq_doctype : option string;
  crq_claims : option (list ClaimQuery);
}.

Record DcqlQuery := mkDcqlQuery {
  dq_credentials : list CredentialQuery;
}.

Record FormatAlgorithms := mkFormatAlgorithms {
  fa_alg : option (list string);
}.

Record VpFormatsSupported := mkVpFormatsSupported {
  vfs_sd_jwt_vc : option FormatAlgorithms;
  vfs_mso_mdoc : option FormatAlgorithms;
}.

Record ClientMetadata := mkClientMetadata {
  clm_vp_formats : option VpFormatsSupported;
  clm_client_name : option string;
  clm_logo_uri : option string;
}.

Record AuthorizationRequest := mkAuthorizationRequest {
  ar_response_type : string;
  ar_client_id : string;
  ar_client_id_scheme : option string;
  ar_response_uri : Url;
  ar_response_mode : option string;
  ar_nonce : string;
  ar_state : option string;
  ar_dcql_query : option DcqlQuery;
  ar_presentation_definition : option Value;
  ar_client_metadata : option ClientMetadata;
}.

(** A recursive struct ([path_nested] is boxed): [id], [format], [path] and
    [path_nested], in the order of the source. *)
Inductive DescriptorMapEntry :=
| mkDescriptorMapEntry (id format path : string) (path_nested : option DescriptorMapEntry).

Record PresentationSubmission := mkPresentationSubmission {
  ps_id : string;
  ps_definition_id : string;
  ps_descriptor_map : list DescriptorMapEntry;
}.

Record AuthorizationResponse := mkAuthorizationResponse {
  aur_vp_token : option Value;
  aur_presentation_submission : option PresentationSubmission;
  aur_state : option string;
}.

Record VerifierSession := mkVerifierSession {
  vs_id : string;
  vs_nonce : string;
  vs_state : string;
  vs_request : AuthorizationRequest;
  vs_created_at : DateTime;
  vs_expires_at : DateTime;
}.

End Types.
