(* ===== verification/IssuerState.v ===== *)
(** * The issuer's storage

    The trait [IssuerState] as a signature of calls, and the in-memory
    implementation behind it (crates/issuer/src/state.rs), with the
    authorization session it stores (crates/issuer/src/authorization.rs). *)
From S2P Require Import Prelude Externals Effects.

Record AuthorizationSession := mkAuthorizationSession {
  ses_request_uri : string;
  ses_authorization_code : option string;
  ses_code_challenge : string;
  ses_client_id : string;
  ses_redirect_uri : string;
  ses_credential_configuration_ids : list string;
  ses_via_authorization_details : bool;
  ses_issuer_state : option string;
  ses_client_state : option string;
  ses_created_at : DateTime;
  ses_code_issued_at : option DateTime;
  ses_dpop_jkt : option string;
  ses_consumed : bool;
}.

(** [session.authorization_code = Some(code); session.code_issued_at = Some(now)] *)
Definition with_code (s : AuthorizationSession) (code : string) (now : DateTime) : AuthorizationSession := {|
  ses_request_uri := ses_request_uri s;
  ses_authorization_code := Some code;
  ses_code_challenge := ses_code_challenge s;
  ses_client_id := ses_client_id s;
  ses_redirect_uri := ses_redirect_uri s;
  ses_credential_configuration_ids := ses_credential_configuration_ids s;
  ses_via_authorization_details := ses_via_authorization_details s;
  ses_issuer_state := ses_issuer_state s;
  ses_client_state := ses_client_state s;
  ses_created_at := ses_created_at s;
  ses_code_issued_at := Some now;
  ses_dpop_jkt := ses_dpop_jkt s;
  ses_consumed := ses_consumed s |}.

(** [session.consumed = true] *)
Definition with_consumed (s : AuthorizationSession) : AuthorizationSession := {|
  ses_request_uri := ses_request_uri s;
  ses_authorization_code := ses_authorization_code s;
  ses_code_challenge := ses_code_challenge s;
  ses_client_id := ses_client_id s;
  ses_redirect_uri := ses_redirect_uri s;
  ses_credential_configuration_ids := ses_credential_configuration_ids s;
  ses_via_authorization_details := ses_via_authorization_details s;
  ses_issuer_state := ses_issuer_state s;
  ses_client_state := ses_client_state s;
  ses_created_at := ses_created_at s;
  ses_code_issued_at := ses_code_issued_at s;
  ses_dpop_jkt := ses_dpop_jkt s;
  ses_consumed := true |}.

(** What an access token is allowed to obtain. *)
Record AccessGrant := mkAccessGrant {
  ag_credential_configuration_ids : list string;
  ag_credential_identifiers : gmap string string;
  ag_dpop_jkt : option string;
}.

Inductive StateError :=
| SE_NotFound (what : string)
| SE_Storage (what : string)
| SE_LockPoisoned.

Definition state_error_to_string (e : StateError) : string :=
  match e with
  | SE_NotFound s => "not found: " +:+ s
  | SE_Storage s => "storage error: " +:+ s
  | SE_LockPoisoned => "lock poisoned"
  end.

(** ** The trait *)
Inductive IssuerStateE : Type -> Type :=
| StoreAuthorizationSession (request_uri : string) (session : AuthorizationSession)
  : IssuerStateE (res unit StateError)
| GetAuthorizationSession (request_uri : string)
  : IssuerStateE (res (option AuthorizationSession) StateError)
| SetAuthorizationCode (request_uri code : string) : IssuerStateE (res unit StateError)
| GetSessionByCode (code : string) : IssuerStateE (res (option AuthorizationSession) StateError)
| ConsumeAuthorizationCode (code : string) : IssuerStateE (res unit StateError)
| RecordTokenForCode (code access_token : string) : IssuerStateE (res unit StateError)
| RevokeTokensForCode (code : string) : IssuerStateE (res unit StateError)
| StorePreAuthorizedCode (code : string) (tx_code : option string)
    (credential_configuration_ids : list string) : IssuerStateE (res unit StateError)
| RedeemPreAuthorizedCode (code : string) (tx_code : option string)
  : IssuerStateE (res (option (list string)) StateError)
| StoreAccessToken (token : string) (grant : AccessGrant) (expires_in : Z)
  : IssuerStateE (res unit StateError)
| GetAccessGrant (token : string) : IssuerStateE (res (option AccessGrant) StateError)
| RecordJti (key : string) (ttl : Z) : IssuerStateE (res bool StateError)
| StoreCNonce (nonce : string) (expires_in : Z) : IssuerStateE (res unit StateError)
| ConsumeCNonce (nonce : string) : IssuerStateE (res bool StateError).

(** Issuer code: programs that read the clock, draw identifiers and call the
    trait's methods. *)
Definition IssuerF : Type -> Type := sumE SysE IssuerStateE.
#[export] Instance Sub_sys_issuer : Sub SysE IssuerF := fun X e => inlE e.
#[export] Instance Sub_state_issuer : Sub IssuerStateE IssuerF := fun X e => inrE e.

(** ** The in-memory implementation *)
Record PreAuthEntry := mkPreAuthEntry {
  pae_tx_code : option string;
  pae_credential_configuration_ids : list string;
  pae_consumed : bool;
}.

Record NonceEntry := mkNonceEntry {
  ne_created_at : DateTime;
  ne_expires_in : Z;
}.

Record TokenEntry := mkTokenEntry {
  te_grant : AccessGrant;
  te_expires_at : DateTime;
}.

Record InMemoryIssuerState := mkInMemoryIssuerState {
  sessions : Mutex (gmap string AuthorizationSession);
  code_to_uri : Mutex (gmap string string);
  pre_auth_codes : Mutex (gmap string PreAuthEntry);
  access_tokens : Mutex (gmap string TokenEntry);
  tokens_by_code : Mutex (gmap string string);
  seen_jtis : Mutex (gmap string DateTime);
  c_nonces : Mutex (gmap string NonceEntry);
}.

Module InMemory.

Definition new : InMemoryIssuerState := {|
  sessions := Mutex_new ∅; code_to_uri := Mutex_new ∅; pre_auth_codes := Mutex_new ∅;
  access_tokens := Mutex_new ∅; tokens_by_code := Mutex_new ∅; seen_jtis := Mutex_new ∅;
  c_nonces := Mutex_new ∅ |}.

Definition set_sessions v (s : InMemoryIssuerState) :=
  mkInMemoryIssuerState v (code_to_uri s) (pre_auth_codes s) (access_tokens s) (tokens_by_code s)
    (seen_jtis s) (c_nonces s).
Definition set_code_to_uri v (s : InMemoryIssuerState) :=
  mkInMemoryIssuerState (sessions s) v (pre_auth_codes s) (access_tokens s) (tokens_by_code s)
    (seen_jtis s) (c_nonces s).
Definition set_pre_auth_codes v (s : InMemoryIssuerState) :=
  mkInMemoryIssuerState (sessions s) (code_to_uri s) v (access_tokens s) (tokens_by_code s)
    (seen_jtis s) (c_nonces s).
Definition set_access_tokens v (s : InMemoryIssuerState) :=
  mkInMemoryIssuerState (sessions s) (code_to_uri s) (pre_auth_codes s) v (tokens_by_code s)
    (seen_jtis s) (c_nonces s).
Definition set_tokens_by_code v (s : InMemoryIssuerState) :=
  mkInMemoryIssuerState (sessions s) (code_to_uri s) (pre_auth_codes s) (access_tokens s) v
    (seen_jtis s) (c_nonces s).
Definition set_seen_jtis v (s : InMemoryIssuerState) :=
  mkInMemoryIssuerState (sessions s) (code_to_uri s) (pre_auth_codes s) (access_tokens s)
    (tokens_by_code s) v (c_nonces s).
Definition set_c_nonces v (s : InMemoryIssuerState) :=
  mkInMemoryIssuerState (sessions s) (code_to_uri s) (pre_auth_codes s) (access_tokens s)
    (tokens_by_code s) (seen_jtis s) v.

(** [m.lock().map_err(|_| StateError::LockPoisoned)?]: run the rest with the
    map behind the lock. *)
Definition locked {A X} (m : Mutex A) (st : InMemoryIssuerState)
    (k : A -> res X StateError * InMemoryIssuerState) : res X StateError * InMemoryIssuerState :=
  if poisoned m then (Err SE_LockPoisoned, st) else k (inner m).

Section Operations.
Context `{Chrono}.

Definition store_authorization_session (request_uri : string) (session : AuthorizationSession)
    (st : InMemoryIssuerState) : res unit StateError * InMemoryIssuerState :=
  locked (sessions st) st (fun m =>
  (Ok tt, set_sessions (Mutex_new (<[request_uri := session]> m)) st)).

Definition get_authorization_session (request_uri : string) (st : InMemoryIssuerState)
    : res (option AuthorizationSession) StateError * InMemoryIssuerState :=
  locked (sessions st) st (fun m => (Ok (m !! request_uri), st)).

(** The session is updated before the second lock is taken. *)
Definition set_authorization_code (request_uri code : string) (now : DateTime)
    (st : InMemoryIssuerState) : res unit StateError * InMemoryIssuerState :=
  locked (sessions st) st (fun m =>
  match m !! request_uri with
  | Some session =>
      let st := set_sessions (Mutex_new (<[request_uri := with_code session code now]> m)) st in
      locked (code_to_uri st) st (fun code_map =>
      (Ok tt, set_code_to_uri (Mutex_new (<[code := request_uri]> code_map)) st))
  | None => (Err (SE_NotFound request_uri), st)
  end).

Definition get_session_by_code (code : string) (st : InMemoryIssuerState)
    : res (option AuthorizationSession) StateError * InMemoryIssuerState :=
  locked (code_to_uri st) st (fun code_map =>
  match code_map !! code with
  | Some uri => locked (sessions st) st (fun m => (Ok (m !! uri), st))
  | None => (Ok None, st)
  end).

Definition consume_authorization_code (code : string) (st : InMemoryIssuerState)
    : res unit StateError * InMemoryIssuerState :=
  locked (code_to_uri st) st (fun code_map =>
  match code_map !! code with
  | Some uri =>
      locked (sessions st) st (fun m =>
      match m !! uri with
      | Some session =>
          (Ok tt, set_sessions (Mutex_new (<[uri := with_consumed session]> m)) st)
      | None => (Ok tt, st)
      end)
  | None => (Ok tt, st)
  end).

Definition record_token_for_code (code access_token : string) (st : InMemoryIssuerState)
    : res unit StateError * InMemoryIssuerState :=
  locked (tokens_by_code st) st (fun m =>
  (Ok tt, set_tokens_by_code (Mutex_new (<[code := access_token]> m)) st)).

(** The first lock is released before the second is taken. *)
Definition revoke_tokens_for_code (code : string) (st : InMemoryIssuerState)
    : res unit StateError * InMemoryIssuerState :=
  locked (tokens_by_code st) st (fun m =>
  let st := set_tokens_by_code (Mutex_new (delete code m)) st in
  match m !! code with
  | Some token =>
      locked (access_tokens st) st (fun tokens =>
      (Ok tt, set_access_tokens (Mutex_new (delete token tokens)) st))
  | None => (Ok tt, st)
  end).

(** A TTL out of chrono's range panics with the lock held: it is poisoned,
    and the purge has been done. *)
Definition record_jti (key : string) (ttl : Z) (now : DateTime) (st : InMemoryIssuerState)
    : res bool StateError * InMemoryIssuerState :=
  locked (seen_jtis st) st (fun m =>
  let seen := filter (fun kv => now < kv.2) m in
  match seen !! key with
  | Some _ => (Ok false, set_seen_jtis (Mutex_new seen) st)
  | None =>
      match add_seconds now (as_i64 ttl) with
      | Some expires => (Ok true, set_seen_jtis (Mutex_new (<[key := expires]> seen)) st)
      | None => (Panic, set_seen_jtis (poison seen) st)
      end
  end).

Definition store_pre_authorized_code (code : string) (tx_code : option string)
    (credential_configuration_ids : list string) (st : InMemoryIssuerState)
    : res unit StateError * InMemoryIssuerState :=
  locked (pre_auth_codes st) st (fun m =>
  (Ok tt, set_pre_auth_codes
     (Mutex_new (<[code := mkPreAuthEntry tx_code credential_configuration_ids false]> m)) st)).

Definition redeem_pre_authorized_code (code : string) (tx_code : option string)
    (st : InMemoryIssuerState) : res (option (list string)) StateError * InMemoryIssuerState :=
  locked (pre_auth_codes st) st (fun m =>
  match m !! code with
  | None => (Ok None, st)
  | Some entry =>
      if pae_consumed entry || bool_decide (pae_tx_code entry <> tx_code) then (Ok None, st)
      else
        let entry' := mkPreAuthEntry (pae_tx_code entry) (pae_credential_configuration_ids entry) true in
        (Ok (Some (pae_credential_configuration_ids entry)),
         set_pre_auth_codes (Mutex_new (<[code := entry']> m)) st)
  end).

Definition store_access_token (token : string) (grant : AccessGrant) (expires_in : Z)
    (now : DateTime) (st : InMemoryIssuerState) : res unit StateError * InMemoryIssuerState :=
  locked (access_tokens st) st (fun m =>
  match add_seconds now (as_i64 expires_in) with
  | Some expires_at =>
      (Ok tt, set_access_tokens (Mutex_new (<[token := mkTokenEntry grant expires_at]> m)) st)
  | None => (Panic, set_access_tokens (poison m) st)
  end).

Definition get_access_grant (token : string) (now : DateTime) (st : InMemoryIssuerState)
    : res (option AccessGrant) StateError * InMemoryIssuerState :=
  locked (access_tokens st) st (fun m =>
  match m !! token with
  | Some entry =>
      if now <? te_expires_at entry then (Ok (Some (te_grant entry)), st)
      else (Ok None, set_access_tokens (Mutex_new (delete token m)) st)
  | None => (Ok None, st)
  end).

Definition store_c_nonce (nonce : string) (expires_in : Z) (now : DateTime)
    (st : InMemoryIssuerState) : res unit StateError * InMemoryIssuerState :=
  locked (c_nonces st) st (fun m =>
  (Ok tt, set_c_nonces (Mutex_new (<[nonce := mkNonceEntry now expires_in]> m)) st)).

Definition consume_c_nonce (nonce : string) (now : DateTime) (st : InMemoryIssuerState)
    : res bool StateError * InMemoryIssuerState :=
  locked (c_nonces st) st (fun m =>
  match m !! nonce with
  | Some entry =>
      let elapsed := as_u64 (num_seconds_between now (ne_created_at entry)) in
      (Ok (elapsed <=? ne_expires_in entry), set_c_nonces (Mutex_new (delete nonce m)) st)
  | None => (Ok false, st)
  end).

(** [impl IssuerState for InMemoryIssuerState]. *)
Definition backend : backend IssuerStateE InMemoryIssuerState := fun X e now st =>
  match e in IssuerStateE X return X * InMemoryIssuerState with
  | StoreAuthorizationSession u s => store_authorization_session u s st
  | GetAuthorizationSession u => get_authorization_session u st
  | SetAuthorizationCode u c => set_authorization_code u c now st
  | GetSessionByCode c => get_session_by_code c st
  | ConsumeAuthorizationCode c => consume_authorization_code c st
  | RecordTokenForCode c t => record_token_for_code c t st
  | RevokeTokensForCode c => revoke_tokens_for_code c st
  | StorePreAuthorizedCode c t ids => store_pre_authorized_code c t ids st
  | RedeemPreAuthorizedCode c t => redeem_pre_authorized_code c t st
  | StoreAccessToken t g n => store_access_token t g n now st
  | GetAccessGrant t => get_access_grant t now st
  | RecordJti k n => record_jti k n now st
  | StoreCNonce n s => store_c_nonce n s now st
  | ConsumeCNonce n => consume_c_nonce n now st
  end.

(** The handler the server runs with. *)
Definition handler : handler IssuerF (World InMemoryIssuerState) := world_handler backend.

End Operations.
End InMemory.
