(* ===== verification/IssuerStateSpec.v ===== *)
(** * What the issuer's storage promises

    An abstract storage without locks, expiry purges or consumed flags: the
    contract the endpoints are verified against.  [in_memory_refines] shows
    that the in-memory implementation keeps it, for every program of allowed
    calls. *)
From S2P Require Import Prelude Externals Effects IssuerState.

(** ** The abstract storage

    [pending]: the offers not redeemed yet.  [jti_log]: when each identifier
    stops being refused; nothing is ever removed.  [grants]: what every token
    was minted for, until it is revoked. *)
Record IssuerStore := mkIssuerStore {
  auth_sessions : gmap string AuthorizationSession;
  codes : gmap string string;
  pending : gmap string (option string * list string);
  grants : gmap string (AccessGrant * DateTime);
  minted : gmap string string;
  jti_log : gmap string DateTime;
  nonces : gmap string (DateTime * Z);
}.

Module Spec.

Definition empty : IssuerStore := mkIssuerStore ∅ ∅ ∅ ∅ ∅ ∅ ∅.

Definition set_auth_sessions v s :=
  mkIssuerStore v (codes s) (pending s) (grants s) (minted s) (jti_log s) (nonces s).
Definition set_codes v s :=
  mkIssuerStore (auth_sessions s) v (pending s) (grants s) (minted s) (jti_log s) (nonces s).
Definition set_pending v s :=
  mkIssuerStore (auth_sessions s) (codes s) v (grants s) (minted s) (jti_log s) (nonces s).
Definition set_grants v s :=
  mkIssuerStore (auth_sessions s) (codes s) (pending s) v (minted s) (jti_log s) (nonces s).
Definition set_minted v s :=
  mkIssuerStore (auth_sessions s) (codes s) (pending s) (grants s) v (jti_log s) (nonces s).
Definition set_jti_log v s :=
  mkIssuerStore (auth_sessions s) (codes s) (pending s) (grants s) (minted s) v (nonces s).
Definition set_nonces v s :=
  mkIssuerStore (auth_sessions s) (codes s) (pending s) (grants s) (minted s) (jti_log s) v.

(** The session a code stands for. *)
Definition session_of (s : IssuerStore) (code : string) : option AuthorizationSession :=
  codes s !! code ≫= fun uri => auth_sessions s !! uri.

(** The grant behind a token at an instant. *)
Definition grant_at (s : IssuerStore) (token : string) (now : DateTime) : option AccessGrant :=
  match grants s !! token with
  | Some (g, expires) => if decide (now < expires) then Some g else None
  | None => None
  end.

(** The identifier is still remembered at an instant. *)
Definition jti_seen (s : IssuerStore) (key : string) (now : DateTime) : Prop :=
  exists expires, jti_log s !! key = Some expires /\ now < expires.

(** A nonce is good for its lifetime, to the second, after its creation; a
    clock a full second behind the creation invalidates it. *)
Definition nonce_good (now : DateTime) (n : DateTime * Z) : bool :=
  bool_decide (n.1 - NANOS < now < n.1 + (n.2 + 1) * NANOS).

Definition backend : backend IssuerStateE IssuerStore := fun X e now s =>
  match e in IssuerStateE X return X * IssuerStore with
  | StoreAuthorizationSession uri ses => (Ok tt, set_auth_sessions (<[uri := ses]> (auth_sessions s)) s)
  | GetAuthorizationSession uri => (Ok (auth_sessions s !! uri), s)
  | SetAuthorizationCode uri code =>
      match auth_sessions s !! uri with
      | Some ses =>
          (Ok tt, set_codes (<[code := uri]> (codes s))
                    (set_auth_sessions (<[uri := with_code ses code now]> (auth_sessions s)) s))
      | None => (Err (SE_NotFound uri), s)
      end
  | GetSessionByCode code => (Ok (session_of s code), s)
  | ConsumeAuthorizationCode code =>
      (Ok tt, match codes s !! code with
              | Some uri => set_auth_sessions (alter with_consumed uri (auth_sessions s)) s
              | None => s end)
  | RecordTokenForCode code t => (Ok tt, set_minted (<[code := t]> (minted s)) s)
  | RevokeTokensForCode code =>
      (Ok tt, match minted s !! code with
              | Some t => set_grants (delete t (grants s)) (set_minted (delete code (minted s)) s)
              | None => s end)
  | StorePreAuthorizedCode code tx ids => (Ok tt, set_pending (<[code := (tx, ids)]> (pending s)) s)
  | RedeemPreAuthorizedCode code tx =>
      match pending s !! code with
      | Some (tx', ids) =>
          if decide (tx' = tx) then (Ok (Some ids), set_pending (delete code (pending s)) s)
          else (Ok None, s)
      | None => (Ok None, s)
      end
  | StoreAccessToken t g ttl => (Ok tt, set_grants (<[t := (g, now + ttl * NANOS)]> (grants s)) s)
  | GetAccessGrant t => (Ok (grant_at s t now), s)
  | RecordJti key ttl =>
      match jti_log s !! key with
      | Some expires =>
          if decide (now < expires) then (Ok false, s)
          else (Ok true, set_jti_log (<[key := now + ttl * NANOS]> (jti_log s)) s)
      | None => (Ok true, set_jti_log (<[key := now + ttl * NANOS]> (jti_log s)) s)
      end
  | StoreCNonce n ttl => (Ok tt, set_nonces (<[n := (now, ttl)]> (nonces s)) s)
  | ConsumeCNonce n =>
      match nonces s !! n with
      | Some entry => (Ok (nonce_good now entry), set_nonces (delete n (nonces s)) s)
      | None => (Ok false, s)
      end
  end.

Definition handler : handler IssuerF (World IssuerStore) := world_handler backend.
End Spec.

(** The calls the contract covers: lifetimes of at most a century. *)
Definition ttl_ok (ttl : Z) : Prop := 0 <= ttl <= 3155760000.

Definition allowed X (e : IssuerF X) : Prop :=
  match e with
  | inrE (StoreAccessToken _ _ ttl) | inrE (RecordJti _ ttl) | inrE (StoreCNonce _ ttl) => ttl_ok ttl
  | _ => True
  end.

(** ** The refinement relation *)

(** The pending offers are the stored ones that were not consumed. *)
Definition pending_of (m : gmap string PreAuthEntry) : gmap string (option string * list string) :=
  omap (fun e => if pae_consumed e then None
                 else Some (pae_tx_code e, pae_credential_configuration_ids e)) m.

(** A map that may have dropped what expired by [now]. *)
Definition lazily {A B} (view : A -> B) (expiry : B -> DateTime) (now : DateTime)
    (m : gmap string A) (full : gmap string B) : Prop :=
  (forall k a, m !! k = Some a -> full !! k = Some (view a)) /\
  (forall k b, full !! k = Some b -> now < expiry b -> exists a, m !! k = Some a /\ view a = b).

Definition token_view (e : TokenEntry) : AccessGrant * DateTime := (te_grant e, te_expires_at e).
Definition nonce_view (e : NonceEntry) : DateTime * Z := (ne_created_at e, ne_expires_in e).

Record refines (now : DateTime) (m : InMemoryIssuerState) (s : IssuerStore) : Prop := {
  r_sessions : sessions m = Mutex_new (auth_sessions s);
  r_codes : code_to_uri m = Mutex_new (codes s);
  r_pending_lock : poisoned (pre_auth_codes m) = false;
  r_pending : pending s = pending_of (inner (pre_auth_codes m));
  r_grants_lock : poisoned (access_tokens m) = false;
  r_grants : lazily token_view snd now (inner (access_tokens m)) (grants s);
  r_minted : tokens_by_code m = Mutex_new (minted s);
  r_jti_lock : poisoned (seen_jtis m) = false;
  r_jti : lazily id id now (inner (seen_jtis m)) (jti_log s);
  r_nonces_lock : poisoned (c_nonces m) = false;
  r_nonces : nonces s = nonce_view <$> inner (c_nonces m);
  r_nonce_ok : map_Forall (fun _ e => ttl_ok (ne_expires_in e) /\
    0 <= ne_created_at e <= 1000000000000 * NANOS) (inner (c_nonces m));
}.

(** Related worlds: the same system, whose clock never goes back. *)
Definition world_refines (w : World InMemoryIssuerState) (v : World IssuerStore) : Prop :=
  sys w = sys v /\ monotone_clock (sys w) /\ clock_in_range (sys w) /\
  refines (clock (sys w) (ticks (sys w))) (store w) (store v).

Section Lazily.
Context {A B : Type} (view : A -> B) (expiry : B -> DateTime).

Lemma lazily_later now now' m full :
  now <= now' -> lazily view expiry now m full -> lazily view expiry now' m full.
Proof. intros ? [H1 H2]. split; [done|]. intros k b Hk ?. apply H2; [done|lia]. Qed.

Lemma lazily_insert now m full k a :
  lazily view expiry now m full -> lazily view expiry now (<[k := a]> m) (<[k := view a]> full).
Proof.
  intros [H1 H2]. split; intros k' x; rewrite !lookup_insert_Some.
  - naive_solver.
  - intros [[-> <-]|[? ?]] ?.
    + exists a. by rewrite lookup_insert_eq.
    + destruct (H2 k' x) as (a' & ? & ?); [done..|]. exists a'. by rewrite lookup_insert_ne.
Qed.

Lemma lazily_delete now m full k :
  lazily view expiry now m full -> lazily view expiry now (delete k m) (delete k full).
Proof.
  intros [H1 H2]. split; intros k' x; rewrite !lookup_delete_Some; [naive_solver|].
  intros [? ?] ?. destruct (H2 k' x) as (a' & ? & ?); [done..|].
  exists a'. by rewrite lookup_delete_ne.
Qed.

(** Dropping an expired entry. *)
Lemma lazily_drop now m full k a :
  lazily view expiry now m full -> m !! k = Some a -> expiry (view a) <= now ->
  lazily view expiry now (delete k m) full.
Proof.
  intros [H1 H2] Hk ?. split; intros k' x; rewrite ?lookup_delete_Some; [naive_solver|].
  intros Hx ?. destruct (H2 k' x) as (a' & Ha & ?); [done..|].
  exists a'. split; [|done]. rewrite lookup_delete_ne; [done|].
  intros ->. assert (a' = a) as -> by congruence. subst. lia.
Qed.

Lemma lazily_purge now m full :
  lazily view expiry now m full ->
  lazily view expiry now (filter (fun kv => now < expiry (view kv.2)) m) full.
Proof.
  intros [H1 H2]. split; intros k x.
  - rewrite map_lookup_filter_Some. naive_solver.
  - intros Hx ?. destruct (H2 k x) as (a & Ha & ?); [done..|].
    exists a. rewrite map_lookup_filter_Some. naive_solver.
Qed.

Lemma lazily_live now m full k b :
  lazily view expiry now m full -> full !! k = Some b -> now < expiry b ->
  exists a, m !! k = Some a /\ view a = b.
Proof. intros [_ H2]. apply H2. Qed.

Lemma lazily_none now m full k b :
  lazily view expiry now m full -> m !! k = None -> full !! k = Some b -> expiry b <= now.
Proof.
  intros [_ H2] Hk Hb. destruct (decide (now < expiry b)) as [Hl|]; [|lia].
  destruct (H2 k b Hb Hl) as (a & ? & ?). congruence.
Qed.
End Lazily.

(** ** The in-memory storage keeps the contract *)
Section Refinement.
Context `{CL : ChronoLaws}.

Lemma refines_later now now' m s : now <= now' -> refines now m s -> refines now' m s.
Proof. intros ? []. split; try done; by eapply lazily_later. Qed.

Lemma refines_new now : refines now InMemory.new Spec.empty.
Proof.
  split; try done; simpl; try (by split; intros ? ? ?%lookup_empty_Some).
Qed.

(** Reading a ttl as [i64] and adding it stays in range. *)
Lemma add_ttl now ttl :
  0 <= now <= 1000000000000 * NANOS -> ttl_ok ttl ->
  add_seconds now (as_i64 ttl) = Some (now + ttl * NANOS).
Proof.
  intros Hn Ht. rewrite as_i64_id.
  - destruct (add_seconds_total now ttl Hn Ht) as [t' Ht']. rewrite Ht'.
    by rewrite (add_seconds_spec _ _ _ Ht').
  - apply in_i64_spec. unfold ttl_ok, i64_min, i64_max in *. lia.
Qed.

(** The comparison of [consume_c_nonce], wrap-around of negative ages included. *)
Lemma nonce_good_elapsed now e :
  0 <= now <= 1000000000000 * NANOS ->
  ttl_ok (ne_expires_in e) -> 0 <= ne_created_at e <= 1000000000000 * NANOS ->
  (as_u64 (num_seconds_between now (ne_created_at e)) <=? ne_expires_in e)
  = Spec.nonce_good now (nonce_view e).
Proof.
  intros Hn Ht Hc. rewrite num_seconds_spec. unfold Spec.nonce_good, nonce_view, as_u64; simpl.
  unfold ttl_ok, NANOS in *.
  remember (now - ne_created_at e) as d eqn:Hd. remember (ne_expires_in e) as ttl.
  pose proof (Z.quot_rem d 1000000000 ltac:(lia)) as Hq.
  remember (Z.quot d 1000000000) as q eqn:Eq. clear Eq.
  destruct (decide (0 <= d)) as [Hpos|Hneg].
  - pose proof (Z.rem_bound_pos d 1000000000 ltac:(lia) ltac:(lia)).
    rewrite Z.mod_small by lia.
    apply eq_true_iff_eq. rewrite Z.leb_le, bool_decide_eq_true. lia.
  - pose proof (Z.rem_bound_pos_neg d 1000000000 ltac:(lia) ltac:(lia)).
    destruct (decide (q = 0)) as [->|].
    + rewrite Z.mod_0_l by lia.
      apply eq_true_iff_eq. rewrite Z.leb_le, bool_decide_eq_true. lia.
    + assert (Hm : q mod 2 ^ 64 = q + 2 ^ 64).
      { symmetry. apply (Z.mod_unique _ _ (-1)); lia. }
      rewrite Hm. apply eq_true_iff_eq. rewrite Z.leb_le, bool_decide_eq_true. lia.
Qed.

(** The lemmas of one call each: same answer, and the relation is kept. *)
Lemma pending_of_insert m code e :
  pending_of (<[code := e]> m) =
    (if pae_consumed e then delete code (pending_of m)
     else <[code := (pae_tx_code e, pae_credential_configuration_ids e)]> (pending_of m)).
Proof.
  apply map_eq. intros k. unfold pending_of. rewrite lookup_omap.
  destruct (decide (k = code)) as [->|].
  - rewrite lookup_insert_eq. simpl. destruct (pae_consumed e).
    + by rewrite lookup_delete_eq.
    + by rewrite lookup_insert_eq.
  - rewrite lookup_insert_ne by done. destruct (pae_consumed e).
    + by rewrite lookup_delete_ne, lookup_omap.
    + by rewrite lookup_insert_ne, lookup_omap.
Qed.

Context (now : DateTime) (Hnow : 0 <= now <= 1000000000000 * NANOS).

Ltac open_state R :=
  destruct R as [Hses Hcodes Hpl Hp Hgl Hg Hmi Hjl Hj Hnl Hn Hok];
  simpl in *; unfold InMemory.locked, Mutex_new in *; simpl in *; subst; simpl in *.

Lemma redeem_refines m s code tx :
  refines now m s ->
  let r := InMemory.redeem_pre_authorized_code code tx m in
  let q := Spec.backend _ (RedeemPreAuthorizedCode code tx) now s in
  r.1 = q.1 /\ refines now r.2 q.2.
Proof.
  intros R. pose proof R as R'.
  destruct m as [ms mc [pb mp] mt mm mj mn], s as [ss sc sp sg sm sj sn]. open_state R'.
  unfold InMemory.redeem_pre_authorized_code, InMemory.locked; simpl.
  assert (Hl : pending_of mp !! code = mp !! code ≫= fun e => if pae_consumed e then None
             else Some (pae_tx_code e, pae_credential_configuration_ids e)).
  { unfold pending_of. by rewrite lookup_omap. }
  rewrite Hl. destruct (mp !! code) as [e|] eqn:He; simpl; [|done].
  destruct (pae_consumed e) eqn:Hc; simpl; [done|].
  case_bool_decide; case_decide; try done. simpl. split; [done|].
  split; simpl; try done. by rewrite pending_of_insert.
Qed.

Lemma record_jti_refines m s key ttl :
  refines now m s -> ttl_ok ttl ->
  let r := InMemory.record_jti key ttl now m in
  let q := Spec.backend _ (RecordJti key ttl) now s in
  r.1 = q.1 /\ refines now r.2 q.2.
Proof.
  intros R Ht. pose proof R as R'.
  destruct m as [ms mc mp mt mm [pb mj] mn], s as [ss sc sp sg sm sj sn]. open_state R'.
  unfold InMemory.record_jti, InMemory.locked; simpl.
  pose proof (lazily_purge id id now mj sj Hj) as Hj'. simpl in Hj'.
  set (seen := filter _ mj) in *. rewrite (add_ttl now ttl) by done.
  destruct (seen !! key) as [e|] eqn:He; simpl.
  - assert (sj !! key = Some e) as -> by apply (proj1 Hj' _ _ He).
    assert (now < e).
    { apply map_lookup_filter_Some in He as [_ ?]. done. }
    rewrite decide_True by done. split; [done|]. split; simpl; try done.
  - assert (Hq : match sj !! key with
       | Some e => if decide (now < e) then False else True | None => True end).
    { destruct (sj !! key) as [b|] eqn:Hb; [|done]. case_decide; [|done].
      pose proof (lazily_none id id now seen sj key b Hj' He Hb) as Hle. unfold id in Hle. lia. }
    destruct (sj !! key) as [b|]; [destruct (decide (now < b)); [done|]|]; simpl;
      (split; [done|]; split; simpl; try done; by apply (lazily_insert id id)).
Qed.

Lemma get_access_grant_refines m s token :
  refines now m s ->
  let r := InMemory.get_access_grant token now m in
  let q := Spec.backend _ (GetAccessGrant token) now s in
  r.1 = q.1 /\ refines now r.2 q.2.
Proof.
  intros R. pose proof R as R'.
  destruct m as [ms mc mp [pb mt] mm mj mn], s as [ss sc sp sg sm sj sn]. open_state R'.
  unfold InMemory.get_access_grant, InMemory.locked, Spec.grant_at; simpl.
  destruct (mt !! token) as [e|] eqn:He.
  - rewrite (proj1 Hg _ _ He). unfold token_view. destruct (Z.ltb_spec now (te_expires_at e)).
    + rewrite decide_True by done. done.
    + rewrite decide_False by lia. split; [done|]. split; simpl; try done.
      eapply lazily_drop; [done..|]. unfold token_view. simpl. lia.
  - destruct (sg !! token) as [[g x]|] eqn:Hx; [|done].
    pose proof (lazily_none _ _ _ _ _ _ _ Hg He Hx) as Hle. simpl in Hle.
    rewrite decide_False by lia. done.
Qed.

Lemma store_access_token_refines m s token grant ttl :
  refines now m s -> ttl_ok ttl ->
  let r := InMemory.store_access_token token grant ttl now m in
  let q := Spec.backend _ (StoreAccessToken token grant ttl) now s in
  r.1 = q.1 /\ refines now r.2 q.2.
Proof.
  intros R Ht. pose proof R as R'.
  destruct m as [ms mc mp [pb mt] mm mj mn], s as [ss sc sp sg sm sj sn]. open_state R'.
  unfold InMemory.store_access_token, InMemory.locked; simpl. rewrite (add_ttl now ttl) by done.
  simpl. split; [done|]. split; simpl; try done.
  apply (lazily_insert token_view snd _ _ _ _ (mkTokenEntry grant (now + ttl * NANOS)) Hg).
Qed.

Lemma revoke_refines m s code :
  refines now m s ->
  let r := InMemory.revoke_tokens_for_code code m in
  let q := Spec.backend _ (RevokeTokensForCode code) now s in
  r.1 = q.1 /\ refines now r.2 q.2.
Proof.
  intros R. pose proof R as R'.
  destruct m as [ms mc mp [pb mt] mm mj mn], s as [ss sc sp sg sm sj sn]. open_state R'.
  unfold InMemory.revoke_tokens_for_code, InMemory.locked; simpl.
  destruct (sm !! code) as [t|] eqn:Hm; simpl.
  - split; [done|]. split; simpl; try done. by apply lazily_delete.
  - split; [done|]. split; try done. simpl. by rewrite delete_id.
Qed.

Lemma c_nonce_refines m s nonce :
  refines now m s ->
  let r := InMemory.consume_c_nonce nonce now m in
  let q := Spec.backend _ (ConsumeCNonce nonce) now s in
  r.1 = q.1 /\ refines now r.2 q.2.
Proof.
  intros R. pose proof R as R'.
  destruct m as [ms mc mp mt mm mj [pb mn]], s as [ss sc sp sg sm sj sn]. open_state R'.
  unfold InMemory.consume_c_nonce, InMemory.locked; simpl.
  rewrite lookup_fmap. destruct (mn !! nonce) as [e|] eqn:He; simpl; [|done].
  destruct (Hok _ _ He) as [Ht Hc]. rewrite nonce_good_elapsed by done.
  split; [done|]. split; try done; simpl.
  - by rewrite fmap_delete.
  - by apply map_Forall_delete.
Qed.

(** Every call of the trait, at an instant in range. *)
Lemma backend_refines X (e : IssuerStateE X) m s :
  refines now m s -> allowed X (inrE e) ->
  (InMemory.backend X e now m).1 = (Spec.backend X e now s).1 /\
  refines now (InMemory.backend X e now m).2 (Spec.backend X e now s).2.
Proof.
  intros R Ha. pose proof R as R'.
  destruct e; simpl in Ha; try (solve [eauto using redeem_refines, record_jti_refines,
    get_access_grant_refines, store_access_token_refines, revoke_refines, c_nonce_refines
    | by apply redeem_refines | by apply record_jti_refines | by apply get_access_grant_refines
    | by apply store_access_token_refines | by apply revoke_refines | by apply c_nonce_refines]);
  destruct m as [ms mc [pb mp] mt mm mj [nb mn]], s as [ss sc sp sg sm sj sn]; open_state R';
  unfold InMemory.store_authorization_session, InMemory.get_authorization_session,
    InMemory.set_authorization_code, InMemory.get_session_by_code,
    InMemory.consume_authorization_code, InMemory.record_token_for_code,
    InMemory.store_pre_authorized_code, InMemory.store_c_nonce, InMemory.locked,
    Spec.session_of; simpl.
  - split; [done|]. split; done.
  - done.
  - destruct (ss !! request_uri); simpl; [|done]. split; [done|]. split; done.
  - destruct (sc !! code); done.
  - destruct (sc !! code) as [uri|]; simpl; [|done].
    destruct (ss !! uri) as [ses|] eqn:Hu; simpl.
    + split; [done|]. split; simpl; try done.
      f_equal. apply map_eq. intros k. destruct (decide (k = uri)) as [->|].
      * by rewrite lookup_insert_eq, lookup_alter_eq, Hu.
      * by rewrite lookup_insert_ne, lookup_alter_ne.
    + split; [done|]. split; simpl; try done.
      f_equal. apply map_eq. intros k. destruct (decide (k = uri)) as [->|].
      * by rewrite lookup_alter_eq, Hu.
      * by rewrite lookup_alter_ne.
  - split; [done|]. split; done.
  - split; [done|]. split; simpl; try done. by rewrite pending_of_insert.
  - split; [done|]. split; simpl; try done.
    + by rewrite fmap_insert.
    + by apply map_Forall_insert_2.
Qed.
End Refinement.

Section Simulation.
Context `{CL : ChronoLaws}.

Lemma handler_refines : simulates world_refines allowed InMemory.handler Spec.handler.
Proof.
  intros X e w v Ha (Hs & Hm & Hr & R). destruct w as [sw m], v as [sv s]. simpl in *. subst sv.
  destruct e as [e|e]; simpl.
  - pose proof (handle_sys_after e sw) as (Hc & _ & _ & Ht & _).
    destruct (handle_sys e sw) as [x sw']. simpl in *. split; [done|].
    unfold world_refines, monotone_clock, clock_in_range. simpl. rewrite Hc.
    repeat (split; [done|]). eapply refines_later; [|done]. by apply Hm.
  - destruct (backend_refines (clock sw (ticks sw)) (Hr _) X e m s R Ha) as [H1 H2].
    unfold read_clock.
    destruct (InMemory.backend X e (clock sw (ticks sw)) m) as [x m'],
      (Spec.backend X e (clock sw (ticks sw)) s) as [y s']. simpl in *. subst y.
    split; [done|]. repeat (split; [done|]). eapply refines_later; [|done]. apply Hm. simpl. lia.
Qed.

(** The form the endpoints use: a run in memory is a run over the contract. *)
Lemma run_in_memory {A} (p : prog IssuerF A) w v r w' :
  calls_in allowed p -> world_refines w v -> run InMemory.handler p w = (r, w') ->
  exists v', run Spec.handler p v = (r, v') /\ world_refines w' v'.
Proof.
  intros Hc Hw Hr. destruct (run_simulates _ _ _ _ handler_refines p w v Hc Hw) as [H1 H2].
  rewrite Hr in H1, H2. simpl in *. exists (run Spec.handler p v).2.
  split; [|done]. rewrite (surjective_pairing (run Spec.handler p v)). by rewrite <- H1.
Qed.

(** C19: In-memory storage refines the abstract storage: a program made of calls
    with bounded lifetimes, run on related worlds, gives the same answer and
    leaves related worlds, whatever it does and however long it runs. *)
Theorem in_memory_refines {A} (p : prog IssuerF A) w v :
  calls_in allowed p -> world_refines w v ->
  (run InMemory.handler p w).1 = (run Spec.handler p v).1 /\
  world_refines (run InMemory.handler p w).2 (run Spec.handler p v).2.
Proof. apply run_simulates, handler_refines. Qed.
End Simulation.

(** ** Identifiers that must not be used twice *)

Lemma record_jti_spec s key ttl now :
  (Spec.jti_seen s key now /\ Spec.backend _ (RecordJti key ttl) now s = (Ok false, s)) \/
  (~ Spec.jti_seen s key now /\
   Spec.backend _ (RecordJti key ttl) now s
   = (Ok true, Spec.set_jti_log (<[key := now + ttl * NANOS]> (jti_log s)) s)).
Proof.
  unfold Spec.jti_seen. simpl. destruct (jti_log s !! key) as [e|] eqn:He; [case_decide|].
  - left. eauto.
  - right. split; [|done]. intros (e' & [= <-] & ?). done.
  - right. split; [|done]. intros (e' & ? & ?). done.
Qed.

(** What a call does to the log: nothing, or one entry that was not live. *)
Lemma spec_jti_log X (e : IssuerStateE X) now s :
  allowed X (inrE e) ->
  jti_log (Spec.backend X e now s).2 = jti_log s \/
  exists k ttl, 0 <= ttl /\ ~ Spec.jti_seen s k now /\
    jti_log (Spec.backend X e now s).2 = <[k := now + ttl * NANOS]> (jti_log s).
Proof.
  destruct e; intros Ha; try (left; simpl; repeat case_match; done).
  destruct (record_jti_spec s key ttl now) as [[? ->]|[? ->]]; [by left|].
  right. exists key, ttl. unfold allowed, ttl_ok in Ha. split; [lia|done].
Qed.

(** A recorded identifier is remembered, until then at least, by whatever runs. *)
Definition jti_until (key : string) (t : DateTime) (s : IssuerStore) : Prop :=
  exists e, jti_log s !! key = Some e /\ t <= e.

Lemma jti_until_run {A} (p : prog IssuerF A) key t v :
  calls_in allowed p -> jti_until key t (store v) -> jti_until key t (store (run Spec.handler p v).2).
Proof.
  intros Hp. apply (run_invariant (fun v => jti_until key t (store v)) allowed); [|done].
  clear. intros X [e|e] v Ha (ex & Hex & Hle); simpl.
  { destruct (handle_sys e (sys v)). by exists ex. }
  pose proof (spec_jti_log X e (clock (sys v) (ticks (sys v))) (store v) Ha) as Hs.
  destruct (Spec.backend X e _ (store v)) as [x s']. simpl in *. unfold jti_until.
  destruct Hs as [->|(k & ttl & Ht & Hn & ->)]; [by exists ex|].
  destruct (decide (k = key)) as [->|].
  - rewrite lookup_insert_eq. eexists. split; [done|].
    apply Z.le_trans with (1 := Hle), Z.nlt_ge. intros ?. apply Hn. exists ex.
    unfold NANOS in *. split; [done|lia].
  - rewrite lookup_insert_ne by done. by exists ex.
Qed.

Lemma jti_until_not_seen key t s now : jti_until key t s -> ~ Spec.jti_seen s key now -> t <= now.
Proof.
  intros (e & He & ?) Hn. apply Z.nlt_ge. intros ?. apply Hn. exists e. split; [done|lia].
Qed.

(** The two instants of a program that reads the clock, then calls the storage:
    the Unix time it reads and the time of the call. *)
Definition read_at `{Chrono} {St} (w : World St) : Z := timestamp (clock (sys w) (ticks (sys w))).
Definition stored_at {St} (w : World St) : DateTime := clock (sys w) (S (ticks (sys w))).

(** ** A concrete world, for the witnesses of this and later files *)
Module IssuerDemo.
Export SysDemo.
Import Toy.

Definition demo_world : World InMemoryIssuerState := mkWorld demo_sys InMemory.new.
Definition demo_spec : World IssuerStore := mkWorld demo_sys Spec.empty.

Lemma demo_refines : world_refines demo_world demo_spec.
Proof.
  split; [done|]. split; [|split].
  - intros i j Hij. simpl. lia.
  - intros i. unfold NANOS. simpl. unfold NANOS. lia.
  - apply refines_new.
Qed.

(** Two uses of one nonce, and a token looked up after its minting. *)
Definition demo_prog : prog IssuerF (bool * bool * bool) :=
  do _ <- trigger (StoreCNonce "n" 300);
  do a <- trigger (ConsumeCNonce "n");
  do b <- trigger (ConsumeCNonce "n");
  do _ <- trigger (StoreAccessToken "t" (mkAccessGrant ["id"] ∅ None) 3600);
  do c <- trigger (GetAccessGrant "t");
  Ret (match a with Ok x => x | _ => false end, match b with Ok x => x | _ => true end,
       match c with Ok (Some _) => true | _ => false end).

Lemma demo_prog_calls : calls_in allowed demo_prog.
Proof. unfold demo_prog, trigger. solve_calls; unfold ttl_ok; lia. Qed.

Lemma in_memory_refines_witness :
  (run InMemory.handler demo_prog demo_world).1 = (run Spec.handler demo_prog demo_spec).1 /\
  world_refines (run InMemory.handler demo_prog demo_world).2 (run Spec.handler demo_prog demo_spec).2.
Proof. apply in_memory_refines; [apply demo_prog_calls|apply demo_refines]. Defined.

Lemma demo_prog_result : (run InMemory.handler demo_prog demo_world).1 = (true, false, true).
Proof. vm_compute. reflexivity. Qed.
End IssuerDemo.
