(* ===== verification/Locks.v ===== *)
(** * The lock discipline of the in-memory issuer state

    [InMemoryIssuerState] keeps seven mutexes, and three of its operations
    hold two of them at once.  Here every operation is written at the grain of
    its [lock()] calls, guards dropped in the order Rust drops them, and
    threads interleave at that grain.  Run alone, an operation is the one of
    [IssuerState]; run together, [set_authorization_code] and
    [get_session_by_code] can block each other for ever. *)
From S2P Require Import Prelude Externals Effects Threads IssuerState.

Inductive lock_name :=
| L_sessions | L_code_to_uri | L_pre_auth_codes | L_access_tokens | L_tokens_by_code
| L_seen_jtis | L_c_nonces.

#[export] Instance lock_name_eq_dec : EqDecision lock_name.
Proof. solve_decision. Defined.

(** A thread of operations of the issuer's storage. *)
Abbreviation IssuerLockE := (@LockE lock_name InMemoryIssuerState).

Section Threads.
Context `{Chrono}.

(** [self.m.lock().map_err(|_| StateError::LockPoisoned)?] under the guards
    [held]. *)
Definition guarded {A X} (l : lock_name) (m : InMemoryIssuerState -> Mutex A) (held : list lock_name)
    (k : prog IssuerLockE (res X StateError)) : prog IssuerLockE (res X StateError) :=
  lock_or SE_LockPoisoned l m held k.

(** [sessions], then [code_to_uri] inside: a poisoned [code_to_uri] is found
    after the session was updated. *)
Definition set_authorization_code_thread (request_uri code : string) (now : DateTime)
    : prog IssuerLockE (res unit StateError) :=
  guarded L_sessions sessions [] (
  do found <- touch (fun st => match inner (sessions st) !! request_uri with
    | Some session => (true, InMemory.set_sessions
        (Mutex_new (<[request_uri := with_code session code now]> (inner (sessions st)))) st)
    | None => (false, st) end);
  if found : bool then
    guarded L_code_to_uri code_to_uri [L_sessions] (
    do _ <- touch (fun st => (tt, InMemory.set_code_to_uri
       (Mutex_new (<[code := request_uri]> (inner (code_to_uri st)))) st));
    do _ <- unlock_all [L_code_to_uri; L_sessions];
    Ret (Ok tt))
  else
    do _ <- unlock_all [L_sessions];
    Ret (Err (SE_NotFound request_uri))).

(** [code_to_uri], then [sessions] inside. *)
Definition get_session_by_code_thread (code : string)
    : prog IssuerLockE (res (option AuthorizationSession) StateError) :=
  guarded L_code_to_uri code_to_uri [] (
  do found <- touch (fun st => (inner (code_to_uri st) !! code, st));
  match found with
  | Some uri =>
      guarded L_sessions sessions [L_code_to_uri] (
      do session <- touch (fun st => (inner (sessions st) !! uri, st));
      do _ <- unlock_all [L_sessions; L_code_to_uri];
      Ret (Ok session))
  | None =>
      do _ <- unlock_all [L_code_to_uri];
      Ret (Ok None)
  end).

Definition consume_authorization_code_thread (code : string) : prog IssuerLockE (res unit StateError) :=
  guarded L_code_to_uri code_to_uri [] (
  do found <- touch (fun st => (inner (code_to_uri st) !! code, st));
  match found with
  | Some uri =>
      guarded L_sessions sessions [L_code_to_uri] (
      do _ <- touch (fun st => match inner (sessions st) !! uri with
        | Some session => (tt, InMemory.set_sessions
            (Mutex_new (<[uri := with_consumed session]> (inner (sessions st)))) st)
        | None => (tt, st) end);
      do _ <- unlock_all [L_sessions; L_code_to_uri];
      Ret (Ok tt))
  | None =>
      do _ <- unlock_all [L_code_to_uri];
      Ret (Ok tt)
  end).

(** The guard of [tokens_by_code] is a temporary: it is gone before
    [access_tokens] is locked. *)
Definition revoke_tokens_for_code_thread (code : string) : prog IssuerLockE (res unit StateError) :=
  guarded L_tokens_by_code tokens_by_code [] (
  do token <- touch (fun st => (inner (tokens_by_code st) !! code,
     InMemory.set_tokens_by_code (Mutex_new (delete code (inner (tokens_by_code st)))) st));
  do _ <- unlock_all [L_tokens_by_code];
  match token with
  | Some token =>
      guarded L_access_tokens access_tokens [] (
      do _ <- touch (fun st => (tt, InMemory.set_access_tokens
         (Mutex_new (delete token (inner (access_tokens st)))) st));
      do _ <- unlock_all [L_access_tokens];
      Ret (Ok tt))
  | None => Ret (Ok tt)
  end).

(** One call of the trait as a thread. *)
Definition thread_of {X} (e : IssuerStateE X) (now : DateTime) : prog IssuerLockE X :=
  match e in IssuerStateE X return prog IssuerLockE X with
  | StoreAuthorizationSession u s => under L_sessions (InMemory.store_authorization_session u s)
  | GetAuthorizationSession u => under L_sessions (InMemory.get_authorization_session u)
  | SetAuthorizationCode u c => set_authorization_code_thread u c now
  | GetSessionByCode c => get_session_by_code_thread c
  | ConsumeAuthorizationCode c => consume_authorization_code_thread c
  | RecordTokenForCode c t => under L_tokens_by_code (InMemory.record_token_for_code c t)
  | RevokeTokensForCode c => revoke_tokens_for_code_thread c
  | StorePreAuthorizedCode c t ids => under L_pre_auth_codes (InMemory.store_pre_authorized_code c t ids)
  | RedeemPreAuthorizedCode c t => under L_pre_auth_codes (InMemory.redeem_pre_authorized_code c t)
  | StoreAccessToken t g n => under L_access_tokens (InMemory.store_access_token t g n now)
  | GetAccessGrant t => under L_access_tokens (InMemory.get_access_grant t now)
  | RecordJti k n => under L_seen_jtis (InMemory.record_jti k n now)
  | StoreCNonce n s => under L_c_nonces (InMemory.store_c_nonce n s now)
  | ConsumeCNonce n => under L_c_nonces (InMemory.consume_c_nonce n now)
  end.
End Threads.

(** ** Threads that take locks in one order *)

(** [code_to_uri] below [sessions]; the other locks are never nested. *)
Definition rank (l : lock_name) : Z :=
  match l with L_sessions => 1 | _ => 0 end.

(** The calls that do not nest [code_to_uri] in [sessions]. *)
Definition ordered_call {X} (e : IssuerStateE X) : bool :=
  match e with SetAuthorizationCode _ _ => false | _ => true end.

Section LockFacts.
Context `{Chrono}.

Lemma thread_of_ordered {X} (e : IssuerStateE X) now :
  ordered_call e = true -> ordered rank (thread_of e now) [].
Proof. destruct e; intros Ho; try discriminate Ho; try apply under_ordered; simpl; held. Qed.

End LockFacts.

(** A call of the trait and the time it reads. *)
Definition call : Type := {X : Type & IssuerStateE X} * DateTime.

(** A thread that makes calls one after the other. *)
Fixpoint thread_of_calls `{Chrono} (cs : list call) : prog IssuerLockE unit :=
  match cs with
  | [] => Ret tt
  | (e, now) :: cs' => do _ <- thread_of (projT2 e) now; thread_of_calls cs'
  end.

Definition ordered_calls (cs : list call) : bool :=
  forallb (fun c => ordered_call (projT2 c.1)) cs.

Lemma thread_of_calls_ordered `{Chrono} cs :
  ordered_calls cs = true -> ordered rank (thread_of_calls cs) [].
Proof.
  induction cs as [|[e now] cs IH]; simpl; [done|]. intros [? ?]%andb_true_iff.
  apply ordered_bind; [by apply thread_of_ordered|]. auto.
Qed.

Section LockTheorems.
Context `{Chrono}.

(** The lock-by-lock thread of a call, run with no other thread, is the
    operation of [InMemory], poisoned locks included. *)
Theorem thread_alone X (e : IssuerStateE X) now st :
  run alone (thread_of e now) st = InMemory.backend X e now st.
Proof.
  destruct st as [[ps ms] [pc mc] [pp mp] [pt mt] [pm mm] [pj mj] [pn mn]].
  destruct e; try (apply under_alone); simpl;
    unfold InMemory.set_authorization_code, InMemory.get_session_by_code,
      InMemory.consume_authorization_code, InMemory.revoke_tokens_for_code, InMemory.locked,
      InMemory.set_sessions, InMemory.set_code_to_uri, InMemory.set_tokens_by_code,
      InMemory.set_access_tokens, Mutex_new; simpl.
  all: repeat (simpl; match goal with
    | |- context [match ?m !! ?k with Some _ => _ | None => _ end] => destruct (m !! k) eqn:?
    | |- context [if ?b then _ else _] => is_var b; destruct b end).
  all: simplify_eq; done.
Qed.

(** C23: Lock-order inversion: while some session waits for its code and some code
    is known, and neither of the two locks is poisoned, a thread that issues a
    code ([set_authorization_code]) and a thread that looks one up
    ([get_session_by_code]) can reach a state where each waits for the other's
    lock, for ever. *)
Theorem code_lookup_can_deadlock st request_uri code now code' uri' now' :
  poisoned (sessions st) = false -> poisoned (code_to_uri st) = false ->
  is_Some (inner (sessions st) !! request_uri) ->
  inner (code_to_uri st) !! code' = Some uri' ->
  exists s,
    rtc pool_step
      ([thread_of_calls [(existT _ (SetAuthorizationCode request_uri code), now)];
        thread_of_calls [(existT _ (GetSessionByCode code'), now')]], ([], st)) s
    /\ deadlocked s.
Proof.
  intros Hps Hpc [session Hs] Hc. eexists. split; [apply (pool_run_steps [0; 1; 1; 1; 0; 0]%nat)|].
  simpl. rewrite Hpc. simpl. rewrite Hc. simpl. rewrite Hps. simpl. rewrite Hs. simpl. split.
  - eexists. split; [left|done].
  - intros s' Hstep. inversion Hstep as [i ps c p p' c' Hi Hp]; subst.
    destruct i as [|[|i]]; simpl in Hi; try discriminate Hi; injection Hi as <-; discriminate Hp.
Qed.

(** Every other operation takes its locks in one order: however many threads
    make however many calls, as long as none of them is
    [set_authorization_code], some thread can always move until all are done. *)
Theorem other_calls_never_deadlock (threads : list (list call)) st s :
  Forall (fun cs => ordered_calls cs = true) threads ->
  rtc pool_step (map thread_of_calls threads, ([], st)) s -> ~ deadlocked s.
Proof.
  intros Ho Hr. apply (pool_inv_live rank 1); [by intros []|]. eapply pool_inv_steps; [|exact Hr].
  apply pool_inv_start, Forall_fmap. eapply Forall_impl; [exact Ho|].
  intros cs. apply thread_of_calls_ordered.
Qed.
End LockTheorems.

(** ** Concrete runs *)
Module LockDemo.
Import Toy.

Definition session : AuthorizationSession :=
  mkAuthorizationSession "urn:1" None "c" "client" "https://w/cb" ["id"] false None None 0 None None false.
Definition state : InMemoryIssuerState :=
  InMemory.set_sessions (Mutex_new {["urn:1" := session]})
    (InMemory.set_code_to_uri (Mutex_new {["code-0" := "urn:1"]}) InMemory.new).

(** A poisoned lock: the session has its code, nobody can look it up. *)
Lemma poisoned_thread :
  let st := InMemory.set_code_to_uri (poison ∅) state in
  let '(r, st') := run alone (thread_of (SetAuthorizationCode "urn:1" "code-1") 5) st in
  r = Err SE_LockPoisoned /\
  (ses_authorization_code <$> inner (sessions st') !! "urn:1"%string) = Some (Some "code-1"%string).
Proof. vm_compute. done. Qed.

Lemma code_lookup_can_deadlock_witness :
  exists s,
    rtc pool_step
      ([thread_of_calls [(existT _ (SetAuthorizationCode "urn:1" "code-1"), 5)];
        thread_of_calls [(existT _ (GetSessionByCode "code-0"), 6)]], ([], state)) s
    /\ deadlocked s.
Proof.
  apply (code_lookup_can_deadlock state "urn:1" "code-1" 5 "code-0" "urn:1" 6).
  - reflexivity.
  - reflexivity.
  - eexists. vm_compute. reflexivity.
  - vm_compute. reflexivity.
Defined.

Lemma other_calls_never_deadlock_witness :
  ~ deadlocked (pool_run [0; 1; 0; 1]%nat
      (map thread_of_calls
         [[(existT _ (ConsumeAuthorizationCode "code-0"), 5)];
          [(existT _ (GetSessionByCode "code-0"), 6); (existT _ (RecordJti "j" 60), 6)]],
       ([], state))).
Proof.
  apply (other_calls_never_deadlock
    [[(existT _ (ConsumeAuthorizationCode "code-0"), 5)];
     [(existT _ (GetSessionByCode "code-0"), 6); (existT _ (RecordJti "j" 60), 6)]] state).
  - repeat constructor.
  - apply pool_run_steps.
Defined.
End LockDemo.
