(* ===== verification/Authorization.v ===== *)
(** * Pushed authorization requests and PKCE

    crates/issuer/src/authorization.rs: what a PAR request is accepted with,
    which credential configurations it resolves to, the issue of the
    authorization code and the check of a code verifier. *)
From Stdlib Require Import Sorting.Sorted.
From stdpp Require Import sorting.
From S2P Require Import Prelude Externals Strings Json Effects Oid4vci IssuerState IssuerStateSpec.

Inductive AuthorizationError :=
| AE_InvalidCodeChallengeMethod
| AE_MissingParameter (what : string)
| AE_UnsupportedResponseType (what : string)
| AE_InvalidScope
| AE_InvalidAuthorizationDetails (what : string)
| AE_InvalidRequest (what : string)
| AE_DpopJktMismatch
| AE_InvalidRedirectUri
| AE_StateError (what : string)
| AE_InvalidAuthorizationCode
| AE_PkceVerificationFailed.

Definition authorization_error_to_string (e : AuthorizationError) : string :=
  match e with
  | AE_InvalidCodeChallengeMethod => "invalid code_challenge_method: must be S256"
  | AE_MissingParameter s => "missing required parameter: " +:+ s
  | AE_UnsupportedResponseType s => "unsupported response_type: " +:+ s
  | AE_InvalidScope => "no requested scope or authorization_details matches a supported credential"
  | AE_InvalidAuthorizationDetails s => "invalid authorization_details: " +:+ s
  | AE_InvalidRequest s => "invalid request: " +:+ s
  | AE_DpopJktMismatch => "dpop_jkt does not match the DPoP proof sent with the request"
  | AE_InvalidRedirectUri => "invalid redirect_uri"
  | AE_StateError s => "state error: " +:+ s
  | AE_InvalidAuthorizationCode => "invalid authorization code"
  | AE_PkceVerificationFailed => "PKCE verification failed"
  end.

Definition REQUEST_URI_TTL_SECS : Z := 60.
Definition AUTHORIZATION_CODE_TTL_SECS : Z := 60.

Record ParContext := mkParContext {
  pc_client_id : string;
  pc_dpop_jkt : option string;
}.

Section Authorization.
Context `{UrlApi} `{Sha2} `{Base64Url}.

(** The loop over [authorization_details]. *)
Fixpoint detail_ids (metadata : CredentialIssuerMetadata) (details : list AuthorizationDetail)
    : res (list string) AuthorizationError :=
  match details with
  | [] => Ok []
  | detail :: details' =>
      fail? bool_decide (ad_detail_type detail <> "openid_credential"%string) with
        AE_InvalidAuthorizationDetails ("unsupported type '" +:+ ad_detail_type detail +:+ "'");
      let? id := ok_or (ad_credential_configuration_id detail)
        (AE_InvalidAuthorizationDetails "credential_configuration_id is required") in
      fail? bool_decide (cim_credential_configurations_supported metadata !! id = None) with
        AE_InvalidAuthorizationDetails ("unknown credential_configuration_id '" +:+ id +:+ "'");
      let? ids := detail_ids metadata details' in
      Ok (id :: ids)
  end.

Definition scope_requested (scopes : list string) (cfg : CredentialConfiguration) : bool :=
  match cc_scope cfg with Some scope => bool_decide (scope ∈ scopes) | None => false end.

(** The configurations whose scope is asked for, in the order the map is
    iterated in. *)
Definition scope_ids (scopes : list string) (entries : list (string * CredentialConfiguration))
    : list string :=
  (filter (fun kv => scope_requested scopes kv.2 = true) entries).*1.

Definition requested_configurations (request : PushedAuthorizationRequest)
    (metadata : CredentialIssuerMetadata) : res (list string * bool) AuthorizationError :=
  match par_authorization_details request with
  | Some details =>
      let? ids := detail_ids metadata details in
      fail? bool_decide (ids = []) with
        AE_InvalidAuthorizationDetails "authorization_details is empty";
      Ok (ids, true)
  | None =>
      let scopes := split_whitespace (default EmptyString (par_scope request)) in
      let ids := merge_sort String.le
        (scope_ids scopes (map_to_list (cim_credential_configurations_supported metadata))) in
      fail? bool_decide (ids = []) with AE_InvalidScope;
      Ok (ids, false)
  end.

(** The DPoP key the session is bound to: the proof's, else the parameter's,
    and an error when both are given and differ. *)
Definition par_dpop_jkt_of (param proof : option string) : res (option string) AuthorizationError :=
  match param, proof with
  | Some p, Some q => if decide (p <> q) then Err AE_DpopJktMismatch else Ok (Some q)
  | _, Some q => Ok (Some q)
  | p, None => Ok p
  end.

(** The checks of [process_par] before anything is stored: the session's DPoP
    binding, its configurations, and whether it used [authorization_details]. *)
Definition par_checks (request : PushedAuthorizationRequest) (ctx : ParContext)
    (metadata : CredentialIssuerMetadata)
    : res (option string * (list string * bool)) AuthorizationError :=
  fail? bool_decide (is_Some (par_request_uri request)) with
    AE_InvalidRequest "request_uri is not allowed at the PAR endpoint";
  fail? bool_decide (par_client_id request <> pc_client_id ctx) with
    AE_InvalidRequest "client_id does not match the authenticated client";
  let? dpop_jkt := par_dpop_jkt_of (par_dpop_jkt request) (pc_dpop_jkt ctx) in
  fail? bool_decide (par_response_type request <> "code"%string) with
    AE_UnsupportedResponseType (par_response_type request);
  fail? bool_decide (par_code_challenge_method request <> "S256"%string) with
    AE_InvalidCodeChallengeMethod;
  fail? bool_decide (par_code_challenge request = EmptyString) with
    AE_MissingParameter "code_challenge";
  let? ids := requested_configurations request metadata in
  Ok (dpop_jkt, ids).

(** The session a request is stored as. *)
Definition par_session (request : PushedAuthorizationRequest) (request_uri : string)
    (ids : list string) (via : bool) (now : DateTime) (dpop_jkt : option string)
    : AuthorizationSession := {|
  ses_request_uri := request_uri;
  ses_authorization_code := None;
  ses_code_challenge := par_code_challenge request;
  ses_client_id := par_client_id request;
  ses_redirect_uri := url_as_str (par_redirect_uri request);
  ses_credential_configuration_ids := ids;
  ses_via_authorization_details := via;
  ses_issuer_state := par_issuer_state request;
  ses_client_state := par_state request;
  ses_created_at := now;
  ses_code_issued_at := None;
  ses_dpop_jkt := dpop_jkt;
  ses_consumed := false |}.

Definition request_uri_of (uuid : string) : string :=
  "urn:ietf:params:oauth:request_uri:" +:+ uuid.

Definition process_par (request : PushedAuthorizationRequest) (ctx : ParContext)
    (metadata : CredentialIssuerMetadata)
    : prog IssuerF (res PushedAuthorizationResponse AuthorizationError) :=
  do? ' (dpop_jkt, (ids, via)) <- Ret (par_checks request ctx metadata);
  do uuid <- new_v4;
  let request_uri := request_uri_of uuid in
  do now <- utc_now;
  let session := par_session request request_uri ids via now dpop_jkt in
  do? _ <- pmap_err (fun e => AE_StateError (state_error_to_string e))
    (trigger (StoreAuthorizationSession request_uri session));
  Ret (Ok (mkPushedAuthorizationResponse request_uri (as_u64 REQUEST_URI_TTL_SECS))).

Definition generate_authorization_code (request_uri : string)
    : prog IssuerF (res string AuthorizationError) :=
  do code <- new_v4;
  do? _ <- pmap_err (fun e => AE_StateError (state_error_to_string e))
    (trigger (SetAuthorizationCode request_uri code));
  Ret (Ok code).

Definition verify_pkce (code_verifier code_challenge : string) : bool :=
  let hash := sha256 (as_bytes code_verifier) in
  let computed_challenge := b64url_encode hash in
  bool_decide (computed_challenge = code_challenge).

End Authorization.

(** ** What a pushed request resolves to *)
Section AuthorizationFacts.
Context `{UrlApi} `{Sha2} `{Base64Url}.

Lemma detail_ids_Ok metadata details ids :
  detail_ids metadata details = Ok ids <->
  Forall2 (fun d id => ad_detail_type d = "openid_credential"%string
             /\ ad_credential_configuration_id d = Some id
             /\ is_Some (cim_credential_configurations_supported metadata !! id)) details ids.
Proof.
  revert ids. induction details as [|d ds IH]; intros ids; simpl.
  - split; [by intros [= <-]|].
    intros Hf. by apply Forall2_nil_inv_l in Hf as ->.
  - split.
    + intros Ho. inv_ok. b2p.
      constructor; [|by apply IH].
      repeat split; [by apply dec_stable|done|]. by apply not_eq_None_Some.
    + intros (id & ids' & (Ht & Hi & Hs) & Hf & ->)%Forall2_cons_inv_l.
      rewrite bool_decide_eq_false_2 by (intros ?; done). rewrite Hi. simpl.
      rewrite bool_decide_eq_false_2 by (destruct Hs; congruence).
      apply IH in Hf as ->. done.
Qed.

(** The iteration order of the map does not show in the sorted list. *)
Lemma scope_ids_perm scopes l k : l ≡ₚ k -> scope_ids scopes l ≡ₚ scope_ids scopes k.
Proof. intros Hp. unfold scope_ids. by rewrite Hp. Qed.

Lemma sorted_ids_order scopes l k :
  l ≡ₚ k -> merge_sort String.le (scope_ids scopes l) = merge_sort String.le (scope_ids scopes k).
Proof.
  intros Hp. apply (StronglySorted_unique String.le).
  - apply StronglySorted_merge_sort; apply _.
  - apply StronglySorted_merge_sort; apply _.
  - rewrite !merge_sort_Permutation. by apply scope_ids_perm.
Qed.

Lemma scope_ids_NoDup scopes entries : NoDup entries.*1 -> NoDup (scope_ids scopes entries).
Proof.
  unfold scope_ids. induction entries as [|[id cfg] l IH]; [done|].
  rewrite fmap_cons, NoDup_cons. intros [Hn Hd]. rewrite filter_cons. case_decide; [|by apply IH].
  rewrite fmap_cons, NoDup_cons. split; [|by apply IH]. simpl in *.
  rewrite list_elem_of_fmap. intros (x & -> & [_ Hx]%list_elem_of_filter).
  apply Hn, list_elem_of_fmap. eauto.
Qed.

Lemma scope_ids_elem scopes (m : gmap string CredentialConfiguration) id :
  id ∈ scope_ids scopes (map_to_list m) <->
  exists cfg, m !! id = Some cfg /\ scope_requested scopes cfg = true.
Proof.
  unfold scope_ids. rewrite list_elem_of_fmap. split.
  - intros ([id' cfg] & -> & [? Hm]%list_elem_of_filter).
    apply elem_of_map_to_list in Hm. eauto.
  - intros (cfg & Hm & ?). exists (id, cfg). split; [done|].
    apply list_elem_of_filter. split; [done|]. by apply elem_of_map_to_list.
Qed.

(** A PAR request resolves to a list of configurations exactly when the list
    is not empty and is: with [authorization_details], the configuration each
    entry names, in order, every entry of type [openid_credential] and every
    name supported; else, the supported configurations whose scope is one of
    the requested ones, without repetition, in byte order. *)
Theorem requested_configurations_exact request metadata ids via :
  requested_configurations request metadata = Ok (ids, via) <->
  ids <> [] /\
  match par_authorization_details request with
  | Some details =>
      via = true /\
      Forall2 (fun d id => ad_detail_type d = "openid_credential"%string
        /\ ad_credential_configuration_id d = Some id
        /\ is_Some (cim_credential_configurations_supported metadata !! id)) details ids
  | None =>
      via = false /\ StronglySorted String.le ids /\ NoDup ids /\
      forall id, id ∈ ids <-> exists cfg scope,
        cim_credential_configurations_supported metadata !! id = Some cfg /\
        cc_scope cfg = Some scope /\
        scope ∈ split_whitespace (default EmptyString (par_scope request))
  end.
Proof.
  unfold requested_configurations. destruct (par_authorization_details request) as [details|].
  - rewrite res_bind_Ok. setoid_rewrite detail_ids_Ok. split.
    + intros (l & Hf & Ho). inv_ok. b2p. naive_solver.
    + intros (? & -> & Hf). exists ids. split; [done|]. by rewrite bool_decide_eq_false_2.
  - set (scopes := split_whitespace _). set (m := cim_credential_configurations_supported metadata).
    set (sorted := merge_sort String.le _).
    assert (Hperm : sorted ≡ₚ scope_ids scopes (map_to_list m)) by apply merge_sort_Permutation.
    assert (Helem : forall id, id ∈ sorted <-> exists cfg scope,
      m !! id = Some cfg /\ cc_scope cfg = Some scope /\ scope ∈ scopes).
    { intros id. rewrite Hperm, scope_ids_elem. unfold scope_requested.
      split.
      - intros (cfg & ? & Hq). destruct (cc_scope cfg) as [scope|] eqn:?; [|done]. b2p. eauto.
      - intros (cfg & scope & ? & Hc & ?). exists cfg. rewrite Hc. by rewrite bool_decide_eq_true. }
    assert (Hdup : NoDup sorted).
    { rewrite Hperm. apply scope_ids_NoDup, NoDup_fst_map_to_list. }
    assert (Hsort : StronglySorted String.le sorted) by (apply StronglySorted_merge_sort; apply _).
    split.
    + intros Ho. inv_ok. b2p. simplify_eq. done.
    + intros (Hne & -> & Hs & Hd & He).
      assert (ids = sorted) as ->.
      { apply (StronglySorted_unique String.le); [done..|].
        apply NoDup_Permutation; [done..|]. intros id. by rewrite He, Helem. }
      by rewrite bool_decide_eq_false_2.
Qed.

(** What a PAR request must satisfy, and what it is then granted. *)
Record par_accepts (request : PushedAuthorizationRequest) (ctx : ParContext)
    (metadata : CredentialIssuerMetadata) (jkt : option string) (ids : list string) (via : bool) : Prop := {
  pa_no_request_uri : par_request_uri request = None;
  pa_client : par_client_id request = pc_client_id ctx;
  pa_jkt_agrees p q : par_dpop_jkt request = Some p -> pc_dpop_jkt ctx = Some q -> p = q;
  pa_jkt : jkt = match pc_dpop_jkt ctx with Some q => Some q | None => par_dpop_jkt request end;
  pa_response_type : par_response_type request = "code"%string;
  pa_method : par_code_challenge_method request = "S256"%string;
  pa_challenge : par_code_challenge request <> EmptyString;
  pa_ids : requested_configurations request metadata = Ok (ids, via);
}.

Lemma par_dpop_jkt_of_Ok p q jkt :
  par_dpop_jkt_of p q = Ok jkt <->
  (forall a b, p = Some a -> q = Some b -> a = b) /\
  jkt = match q with Some b => Some b | None => p end.
Proof.
  unfold par_dpop_jkt_of. destruct p as [a|], q as [b|]; try (case_decide); naive_solver.
Qed.

Lemma par_checks_Ok request ctx metadata jkt ids via :
  par_checks request ctx metadata = Ok (jkt, (ids, via)) <->
  par_accepts request ctx metadata jkt ids via.
Proof.
  unfold par_checks. split.
  - intros Ho. inv_ok. b2p. simplify_eq. match goal with H : par_dpop_jkt_of _ _ = _ |- _ => apply par_dpop_jkt_of_Ok in H as [? ?] end.
    repeat match goal with H : ~ (_ <> _) |- _ => apply dec_stable in H end.
    split; try done. by apply eq_None_not_Some.
  - intros []. rewrite !bool_decide_eq_false_2 by (rewrite ?eq_None_not_Some in *; auto).
    assert (par_dpop_jkt_of (par_dpop_jkt request) (pc_dpop_jkt ctx) = Ok jkt) as ->
      by (by apply par_dpop_jkt_of_Ok).
    simpl. by rewrite pa_ids0.
Qed.

Lemma detail_ids_np metadata ds : detail_ids metadata ds <> Panic.
Proof. induction ds as [|d ds IH]; simpl; solve_np. Qed.
#[local] Hint Resolve detail_ids_np : no_panic.

Lemma par_checks_np request ctx metadata : par_checks request ctx metadata <> Panic.
Proof. unfold par_checks, par_dpop_jkt_of, requested_configurations. solve_np. Qed.

Lemma process_par_calls request ctx metadata : calls_in allowed (process_par request ctx metadata).
Proof. unfold process_par, new_v4, utc_now, trigger. solve_calls. Qed.

Context `{CL : ChronoLaws}.

End AuthorizationFacts.

Module AuthorizationDemo.
Import Toy IssuerDemo.

Definition config : CredentialConfiguration :=
  mkCredentialConfiguration "dc+sd-jwt" (Some "identity"%string) None None None None None None.
Definition metadata : CredentialIssuerMetadata :=
  mkCredentialIssuerMetadata "https://i" None ("https://i/credential"%string : Url) None None None
    {["ID" := config]} None.
Definition request : PushedAuthorizationRequest :=
  mkPushedAuthorizationRequest "code" "client" ("https://w/cb"%string : Url)
    (Some "openid identity"%string) (Some "st"%string) (b64url_encode (sha256 (as_bytes "verifier")))
    "S256" None None None None.
Definition ctx : ParContext := mkParContext "client" (Some "jkt"%string).

Lemma requested_configurations_example :
  requested_configurations request metadata = Ok (["ID"%string], false).
Proof. vm_compute. reflexivity. Qed.

Definition outcome := run InMemory.handler (process_par request ctx metadata) demo_world.

End AuthorizationDemo.
