(* ===== verification/Token.v ===== *)
(** * The token endpoint

    crates/issuer/src/token.rs: the two grants, the binding of a code to its
    client, redirect URI, PKCE challenge and DPoP key, and the tokens minted. *)
From S2P Require Import Prelude Externals Strings Effects Oid4vci.
From S2P Require Import IssuerState IssuerStateSpec Authorization.

Definition ACCESS_TOKEN_TTL_SECS : Z := 3600.

Inductive TokenError :=
| TE_InvalidGrantType (what : string)
| TE_InvalidCode
| TE_CodeConsumed
| TE_PkceVerificationFailed
| TE_ClientMismatch
| TE_InvalidPreAuthorizedCode
| TE_InvalidClient (what : string)
| TE_DpopRequired
| TE_DpopKeyMismatch
| TE_StateError (what : string).

Definition token_error_to_string (e : TokenError) : string :=
  match e with
  | TE_InvalidGrantType s => "invalid grant type: " +:+ s
  | TE_InvalidCode => "invalid or expired authorization code"
  | TE_CodeConsumed => "authorization code already consumed"
  | TE_PkceVerificationFailed => "PKCE verification failed"
  | TE_ClientMismatch => "the authorization code was issued to a different client or redirect_uri"
  | TE_InvalidPreAuthorizedCode => "invalid pre-authorized code or transaction code"
  | TE_InvalidClient s => "client authentication failed: " +:+ s
  | TE_DpopRequired => "a DPoP proof is required"
  | TE_DpopKeyMismatch => "the DPoP key does not match the one bound at authorization"
  | TE_StateError s => "state error: " +:+ s
  end.

(** HTTP status and RFC 6749 error code. *)
Definition status_and_code (e : TokenError) : Z * string :=
  match e with
  | TE_InvalidCode | TE_CodeConsumed | TE_PkceVerificationFailed | TE_ClientMismatch
  | TE_InvalidPreAuthorizedCode | TE_DpopKeyMismatch => (400, "invalid_grant")
  | TE_InvalidGrantType _ => (400, "unsupported_grant_type")
  | TE_InvalidClient _ => (401, "invalid_client")
  | TE_DpopRequired => (400, "invalid_request")
  | TE_StateError _ => (500, "server_error")
  end.

Record TokenContext := mkTokenContext {
  tx_authenticated_client : option string;
  tx_dpop_jkt : option string;
}.

Definition token_state_error (e : StateError) : TokenError := TE_StateError (state_error_to_string e).

Definition PRE_AUTHORIZED : string := "urn:ietf:params:oauth:grant-type:pre-authorized_code".

Section Token.
Context `{UrlApi} `{Sha2} `{Base64Url} `{Chrono}.

(** One [credential_identifier] per configuration, each with a fresh UUID. *)
Fixpoint mint_identifiers (config_ids : list string) (identifiers : gmap string string)
    : prog IssuerF (list AuthorizedDetail * gmap string string) :=
  match config_ids with
  | [] => Ret ([], identifiers)
  | config_id :: config_ids' =>
      do uuid <- new_v4;
      let identifier := config_id +:+ ":" +:+ uuid in
      do rest <- mint_identifiers config_ids' (<[identifier := config_id]> identifiers);
      Ret (mkAuthorizedDetail "openid_credential" config_id [identifier] :: rest.1, rest.2)
  end.

Definition issue_access_token (config_ids : list string) (via_authorization_details : bool)
    (dpop_jkt : option string) : prog IssuerF (res TokenResponse TokenError) :=
  do access_token <- new_v4;
  do minted <- (if via_authorization_details
                then do m <- mint_identifiers config_ids ∅; Ret (Some m.1, m.2)
                else Ret (None, ∅));
  let token_type := match dpop_jkt with Some _ => "DPoP"%string | None => "Bearer"%string end in
  let grant := mkAccessGrant config_ids minted.2 dpop_jkt in
  do? _ <- pmap_err token_state_error
    (trigger (StoreAccessToken access_token grant ACCESS_TOKEN_TTL_SECS));
  Ret (Ok (mkTokenResponse access_token token_type ACCESS_TOKEN_TTL_SECS minted.1)).

(** The checks between the age of the code and its consumption; they make no
    call.  The result is the DPoP key the token is bound to. *)
Definition code_checks (request : TokenRequest) (ctx : TokenContext) (client_id : string)
    (session : AuthorizationSession) : res string TokenError :=
  fail? bool_decide (ses_client_id session <> client_id) with TE_ClientMismatch;
  fail? bool_decide (url_as_str <$> tr_redirect_uri request <> Some (ses_redirect_uri session))
    with TE_ClientMismatch;
  let? code_verifier := ok_or (tr_code_verifier request) TE_PkceVerificationFailed in
  fail? negb (verify_pkce code_verifier (ses_code_challenge session)) with TE_PkceVerificationFailed;
  let? dpop_jkt := ok_or (tx_dpop_jkt ctx) TE_DpopRequired in
  fail? match ses_dpop_jkt session with
        | Some bound => bool_decide (bound <> dpop_jkt) | None => false end
    with TE_DpopKeyMismatch;
  Ok dpop_jkt.

Definition process_authorization_code_grant (request : TokenRequest) (ctx : TokenContext)
    : prog IssuerF (res TokenResponse TokenError) :=
  do? client_id <- Ret (ok_or (tx_authenticated_client ctx)
                          (TE_InvalidClient "client attestation is required"));
  do? code <- Ret (ok_or (tr_code request) TE_InvalidCode);
  do? found <- pmap_err token_state_error (trigger (GetSessionByCode code));
  do? session <- Ret (ok_or found TE_InvalidCode);
  if ses_consumed session then
    do? _ <- pmap_err token_state_error (trigger (RevokeTokensForCode code));
    Ret (Err TE_CodeConsumed)
  else
    do? issued_at <- Ret (ok_or (ses_code_issued_at session) TE_InvalidCode);
    do now <- utc_now;
    pfail? AUTHORIZATION_CODE_TTL_SECS <? num_seconds_between now issued_at with TE_InvalidCode;
    do? dpop_jkt <- Ret (code_checks request ctx client_id session);
    do? _ <- pmap_err token_state_error (trigger (ConsumeAuthorizationCode code));
    do? response <- issue_access_token (ses_credential_configuration_ids session)
                      (ses_via_authorization_details session) (Some dpop_jkt);
    do? _ <- pmap_err token_state_error
               (trigger (RecordTokenForCode code (tor_access_token response)));
    Ret (Ok response).

Definition process_pre_authorized_code_grant (request : TokenRequest) (ctx : TokenContext)
    : prog IssuerF (res TokenResponse TokenError) :=
  do? pre_auth_code <- Ret (ok_or (tr_pre_authorized_code request) TE_InvalidPreAuthorizedCode);
  do? found <- pmap_err token_state_error
    (trigger (RedeemPreAuthorizedCode pre_auth_code (tr_tx_code request)));
  do? config_ids <- Ret (ok_or found TE_InvalidPreAuthorizedCode);
  issue_access_token config_ids false (tx_dpop_jkt ctx).

Definition process_token_request (request : TokenRequest) (ctx : TokenContext)
    : prog IssuerF (res TokenResponse TokenError) :=
  pfail? match tr_client_id request, tx_authenticated_client ctx with
         | Some param, Some authenticated => bool_decide (param <> authenticated)
         | _, _ => false end
    with TE_InvalidClient "client_id does not match the authenticated client";
  if bool_decide (tr_grant_type request = "authorization_code"%string) then
    process_authorization_code_grant request ctx
  else if bool_decide (tr_grant_type request = PRE_AUTHORIZED) then
    process_pre_authorized_code_grant request ctx
  else Ret (Err (TE_InvalidGrantType (tr_grant_type request))).

(** The calls stay within the contract of the storage. *)
Lemma mint_identifiers_calls (P : forall X, IssuerF X -> Prop) ids m :
  (forall X (e : SysE X), P X (inlE e)) -> calls_in P (mint_identifiers ids m).
Proof.
  intros HP. revert m. induction ids as [|id ids IH]; intros m; simpl; [constructor|].
  constructor; [apply HP|]. intros uuid. apply calls_in_bind; [apply IH|constructor].
Qed.

Lemma issue_access_token_calls ids via jkt : calls_in allowed (issue_access_token ids via jkt).
Proof.
  unfold issue_access_token, new_v4, trigger. solve_calls. by apply mint_identifiers_calls.
Qed.

Lemma process_token_request_calls request ctx : calls_in allowed (process_token_request request ctx).
Proof.
  unfold process_token_request, process_authorization_code_grant,
    process_pre_authorized_code_grant, utc_now.
  solve_calls; by apply mint_identifiers_calls.
Qed.

End Token.

(** ** Minting *)
Section Minting.
Context `{UrlApi} `{Sha2} `{Base64Url} `{Chrono}.

(** The identifiers minted from the [n]-th UUID on, with their configurations. *)
Fixpoint identifiers_from (config_ids : list string) (uuid : nat -> string) (n : nat)
    : list (string * string) :=
  match config_ids with
  | [] => []
  | id :: ids => (id +:+ ":" +:+ uuid n, id) :: identifiers_from ids uuid (S n)
  end.

Definition details_of (l : list (string * string)) : list AuthorizedDetail :=
  map (fun p => mkAuthorizedDetail "openid_credential" p.2 [p.1]) l.

Definition identifier_map (l : list (string * string)) : gmap string string :=
  fold_left (fun m p => <[p.1 := p.2]> m) l ∅.

Definition skip_uuids (n : nat) (s : Sys) : Sys :=
  mkSys (clock s) (ticks s) (uuids s) (n + uuids_used s) (noise s) (noise_used s).

Lemma mint_identifiers_run {S} (op : backend IssuerStateE S) ids m w :
  run (world_handler op) (mint_identifiers ids m) w =
    let l := identifiers_from ids (uuids (sys w)) (uuids_used (sys w)) in
    ((details_of l, fold_left (fun m p => <[p.1 := p.2]> m) l m),
     mkWorld (skip_uuids (length ids) (sys w)) (store w)).
Proof.
  revert m w. induction ids as [|id ids IH]; intros m [[c t u n b k] s]; simpl; [done|].
  rewrite run_bind, IH. unfold skip_uuids. simpl. by rewrite <- plus_n_Sm.
Qed.

(** The token and the grant minted from a system at an instant. *)
Definition minted_pairs (ids : list string) (via : bool) (s : Sys) : list (string * string) :=
  if via then identifiers_from ids (uuids s) (Datatypes.S (uuids_used s)) else [].

Definition minted_grant (ids : list string) (via : bool) (jkt : option string) (s : Sys) : AccessGrant :=
  mkAccessGrant ids (identifier_map (minted_pairs ids via s)) jkt.

Definition minted_response (ids : list string) (via : bool) (jkt : option string) (s : Sys)
    : TokenResponse :=
  mkTokenResponse (uuids s (uuids_used s))
    (match jkt with Some _ => "DPoP"%string | None => "Bearer"%string end) 3600
    (if via then Some (details_of (minted_pairs ids via s)) else None).

Lemma issue_access_token_run ids via jkt v :
  exists s',
  run Spec.handler (issue_access_token ids via jkt) v =
    (Ok (minted_response ids via jkt (sys v)),
     mkWorld s' (Spec.set_grants
       (<[uuids (sys v) (uuids_used (sys v)) :=
            (minted_grant ids via jkt (sys v), clock (sys v) (ticks (sys v)) + 3600 * NANOS)]>
          (grants (store v))) (store v))).
Proof.
  destruct v as [[c t u n b k] s]. unfold issue_access_token, minted_response, minted_grant, minted_pairs.
  destruct via.
  - eexists. rewrite run_bind. simpl (run _ new_v4 _). cbv beta iota zeta.
    unfold Spec.handler. rewrite run_bind, run_bind, mint_identifiers_run. cbn. done.
  - eexists. cbn. done.
Qed.
End Minting.

(** ** The authorization code grant *)
Section CodeGrant.
Context `{UrlApi} `{Sha2} `{Base64Url} `{Chrono}.

(** When a code may be redeemed, and for which DPoP key. *)
Record code_accepts (request : TokenRequest) (ctx : TokenContext) (s : AuthorizationSession)
    (now : DateTime) (jkt : string) : Prop := {
  ca_client : tx_authenticated_client ctx = Some (ses_client_id s);
  ca_client_param c : tr_client_id request = Some c -> c = ses_client_id s;
  ca_unused : ses_consumed s = false;
  ca_fresh : exists t, ses_code_issued_at s = Some t /\ num_seconds_between now t <= 60;
  ca_redirect : url_as_str <$> tr_redirect_uri request = Some (ses_redirect_uri s);
  ca_pkce : exists verifier, tr_code_verifier request = Some verifier /\
    b64url_encode (sha256 (as_bytes verifier)) = ses_code_challenge s;
  ca_dpop : tx_dpop_jkt ctx = Some jkt;
  ca_bound b : ses_dpop_jkt s = Some b -> b = jkt;
}.

Lemma code_checks_Ok request ctx client s jkt :
  code_checks request ctx client s = Ok jkt <->
  ses_client_id s = client /\
  url_as_str <$> tr_redirect_uri request = Some (ses_redirect_uri s) /\
  (exists verifier, tr_code_verifier request = Some verifier /\
    b64url_encode (sha256 (as_bytes verifier)) = ses_code_challenge s) /\
  tx_dpop_jkt ctx = Some jkt /\ (forall b, ses_dpop_jkt s = Some b -> b = jkt).
Proof.
  unfold code_checks, verify_pkce. split.
  - intros Ho. inv_ok. b2p.
    repeat match goal with H : ~ (_ <> _) |- _ => apply dec_stable in H end.
    repeat split; try done; [eauto|]. intros b Hb. rewrite Hb in *. b2p. by apply dec_stable.
  - intros (-> & Hr & (v & Hv & Hp) & Hj & Hb).
    rewrite Hr, Hv, Hj. rewrite !bool_decide_eq_false_2 by auto. simpl.
    rewrite bool_decide_eq_true_2 by done. simpl.
    destruct (ses_dpop_jkt s) as [b|]; [|done]. rewrite bool_decide_eq_false_2; [done|].
    intros Hn. apply Hn. by apply Hb.
Qed.

Lemma code_checks_not_panic request ctx client s : code_checks request ctx client s <> Panic.
Proof.
  unfold code_checks. repeat (case_bool_decide; [done|]).
  destruct (tr_code_verifier request); simpl; [|done]. destruct (negb _); [done|].
  destruct (tx_dpop_jkt ctx); simpl; [|done].
  destruct (ses_dpop_jkt s); [by case_bool_decide|done].
Qed.

Lemma code_checks_error request ctx client s : code_checks request ctx client s <> Err TE_CodeConsumed.
Proof.
  unfold code_checks. repeat (case_bool_decide; [done|]).
  destruct (tr_code_verifier request); simpl; [|done]. destruct (negb _); [done|].
  destruct (tx_dpop_jkt ctx); simpl; [|done].
  destruct (ses_dpop_jkt s); [by case_bool_decide|done].
Qed.

(** The storage after the code was redeemed at [v]. *)
Definition after_redeem (code : string) (ses : AuthorizationSession) (jkt : string)
    (minted_at : Sys) (s : IssuerStore) : IssuerStore :=
  let token := uuids minted_at (uuids_used minted_at) in
  let s := (Spec.backend _ (ConsumeAuthorizationCode code) 0 s).2 in
  let s := Spec.set_grants
    (<[token := (minted_grant (ses_credential_configuration_ids ses)
                   (ses_via_authorization_details ses) (Some jkt) minted_at,
                 clock minted_at (ticks minted_at) + 3600 * NANOS)]> (grants s)) s in
  Spec.set_minted (<[code := token]> (minted s)) s.

(** The storage after a replayed code was presented. *)
Definition after_replay (code : string) (s : IssuerStore) : IssuerStore :=
  (Spec.backend _ (RevokeTokensForCode code) 0 s).2.

Definition code_grant_outcome (request : TokenRequest) (ctx : TokenContext)
    (v v' : World IssuerStore) (r : res TokenResponse TokenError) : Prop :=
  match r with
  | Ok response =>
      exists code ses jkt at_,
        tr_code request = Some code /\
        Spec.session_of (store v) code = Some ses /\
        code_accepts request ctx ses (clock (sys v) (S (ticks (sys v)))) jkt /\
        sys_after (sys v) at_ /\
        response = minted_response (ses_credential_configuration_ids ses)
                     (ses_via_authorization_details ses) (Some jkt) at_ /\
        store v' = after_redeem code ses jkt at_ (store v)
  | Err e =>
      (forall code ses jkt,
        tr_code request = Some code -> Spec.session_of (store v) code = Some ses ->
        ~ code_accepts request ctx ses (clock (sys v) (S (ticks (sys v)))) jkt) /\
      (e <> TE_CodeConsumed /\ store v' = store v \/
       exists code ses, tr_code request = Some code /\
         Spec.session_of (store v) code = Some ses /\ ses_consumed ses = true /\
         e = TE_CodeConsumed /\ store v' = after_replay code (store v))
  | Panic => False
  end.

#[local] Opaque issue_access_token.

Lemma code_grant_run request ctx v :
  (forall c d, tr_client_id request = Some c -> tx_authenticated_client ctx = Some d -> c = d) ->
  let '(r, v') := run Spec.handler (process_authorization_code_grant request ctx) v in
  code_grant_outcome request ctx v v' r.
Proof.
  intros Hparam. destruct v as [[c t u n b k] s].
  unfold process_authorization_code_grant, pbind_res, pmap_err, pmap.
  destruct (tx_authenticated_client ctx) as [client|] eqn:Hclient; simpl.
  2:{ split; [|left; split; [discriminate|done]]. intros code ses jkt _ _ []. congruence. }
  destruct (tr_code request) as [code|] eqn:Hcode; simpl.
  2:{ split; [|left; split; [discriminate|done]]. naive_solver. }
  destruct (Spec.session_of s code) as [ses|] eqn:Hses; simpl.
  2:{ split; [|left; split; [discriminate|done]]. naive_solver. }
  destruct (ses_consumed ses) eqn:Hcons; simpl.
  { split; [|right; eauto 10]. intros ? ? ? ? ? []; simpl in *; simplify_eq; congruence. }
  destruct (ses_code_issued_at ses) as [issued|] eqn:Hiss; simpl.
  2:{ split; [|left; split; [discriminate|done]]. intros ? ? ? ? ? []; simplify_eq/=. naive_solver. }
  destruct (AUTHORIZATION_CODE_TTL_SECS <? num_seconds_between (c (S t)) issued) eqn:Hage; simpl.
  { b2p. split; [|left; split; [discriminate|done]]. intros ? ? ? ? ? [? ? ? (t0 & Ht0 & ?)]; simplify_eq/=.
    unfold AUTHORIZATION_CODE_TTL_SECS in Hage. lia. }
  b2p. pose proof (code_checks_Ok request ctx client ses) as Hck.
  destruct (code_checks request ctx client ses) as [jkt|e|] eqn:Hchecks; simpl.
  2:{ split; [|left; split; [|done]; intros ->; by eapply code_checks_error]. intros ? ? jkt ? ? []; simplify_eq/=.
      assert (Err e = Ok jkt) as Hc; [|discriminate Hc]. apply Hck. naive_solver. }
  2:{ exfalso. by eapply code_checks_not_panic. }
  destruct (proj1 (Hck jkt) eq_refl) as (Hcl & Hred & Hver & Hdp & Hbd).
  rewrite run_bind.
  edestruct (issue_access_token_run (ses_credential_configuration_ids ses)
    (ses_via_authorization_details ses) (Some jkt)) as [s' Hrun].
  rewrite Hrun. clear Hrun. simpl.
  exists code, ses, jkt, (mkSys c (S (S (S t))) u n b k). repeat split; try done; simpl.
  - by rewrite Hclient, Hcl.
  - intros c' Hc'. rewrite Hcl. by apply Hparam.
  - unfold AUTHORIZATION_CODE_TTL_SECS in Hage. eauto.
  - lia.
Qed.
End CodeGrant.

(** ** The pre-authorized code grant *)
Section PreAuthorizedGrant.
Context `{UrlApi} `{Sha2} `{Base64Url} `{Chrono}.

Definition client_param_ok (request : TokenRequest) (ctx : TokenContext) : Prop :=
  forall c d, tr_client_id request = Some c -> tx_authenticated_client ctx = Some d -> c = d.

Definition pre_authorized_outcome (request : TokenRequest) (ctx : TokenContext)
    (v v' : World IssuerStore) (r : res TokenResponse TokenError) : Prop :=
  let redeemable code ids :=
    client_param_ok request ctx /\
    tr_pre_authorized_code request = Some code /\
    pending (store v) !! code = Some (tr_tx_code request, ids) in
  match r with
  | Ok response =>
      exists code ids at_,
        redeemable code ids /\ sys_after (sys v) at_ /\
        response = minted_response ids false (tx_dpop_jkt ctx) at_ /\
        store v' = Spec.set_grants
          (<[uuids at_ (uuids_used at_) :=
               (minted_grant ids false (tx_dpop_jkt ctx) at_, clock at_ (ticks at_) + 3600 * NANOS)]>
             (grants (store v)))
          (Spec.set_pending (delete code (pending (store v))) (store v))
  | Err _ => (forall code ids, ~ redeemable code ids) /\ store v' = store v
  | Panic => False
  end.

#[local] Opaque issue_access_token.

Lemma pre_authorized_run request ctx v :
  client_param_ok request ctx ->
  let '(r, v') := run Spec.handler (process_pre_authorized_code_grant request ctx) v in
  pre_authorized_outcome request ctx v v' r.
Proof.
  intros Hparam. destruct v as [[c t u n b k] s].
  unfold process_pre_authorized_code_grant, pbind_res, pmap_err, pmap.
  destruct (tr_pre_authorized_code request) as [code|] eqn:Hcode; simpl.
  2:{ split; [|done]. intros ? ? (_ & ? & _). congruence. }
  destruct (pending s !! code) as [[tx ids]|] eqn:Hp; simpl.
  2:{ split; [|done]. intros ? ? (_ & ? & ?). simpl in *. simplify_eq. }
  destruct (decide (tx = tr_tx_code request)) as [->|Htx]; simpl.
  2:{ split; [|done]. intros ? ? (_ & ? & ?). simpl in *. simplify_eq. }
  edestruct (issue_access_token_run ids false (tx_dpop_jkt ctx)) as [s' Hrun].
  rewrite Hrun. clear Hrun. simpl.
  exists code, ids, (mkSys c (S t) u n b k). repeat split; try done; simpl; lia.
Qed.
End PreAuthorizedGrant.

Section TokenTheorems.
Context `{UrlApi} `{Sha2} `{Base64Url} `{CL : ChronoLaws}.

Lemma process_code_outcome request ctx v r v' :
  tr_grant_type request = "authorization_code"%string ->
  run Spec.handler (process_token_request request ctx) v = (r, v') ->
  code_grant_outcome request ctx v v' r.
Proof.
  intros Hg Hv. unfold process_token_request in Hv. rewrite (bool_decide_eq_true_2 _ Hg) in Hv.
  destruct (tr_client_id request) as [c|] eqn:Hc, (tx_authenticated_client ctx) as [d|] eqn:Hd;
    try case_bool_decide as Hcd;
    try (pose proof (code_grant_run request ctx v) as Hrun; rewrite Hv in Hrun; apply Hrun; naive_solver).
  simpl in Hv. injection Hv as <- <-. split; [|left; done].
  intros code ses jkt _ _ Ha. apply Hcd.
  pose proof (ca_client _ _ _ _ _ Ha). pose proof (ca_client_param _ _ _ _ _ Ha c Hc). congruence.
Qed.

(** C1: The authorization code grant over the in-memory storage.  A token is
    issued exactly when the code stands for an unused session that is at most
    60 seconds old, belongs to the authenticated client and to the redirect
    URI of the request, whose PKCE challenge the verifier hashes to, and whose
    DPoP key, if it has one, is the one of the proof.  Then the code is used,
    and one token is stored for 3600 seconds, for the session's
    configurations and that key.  A refused request changes nothing, but for
    a replayed code, which loses the token it had minted. *)
Theorem authorization_code_grant_exact request ctx w v r w' :
  world_refines w v -> tr_grant_type request = "authorization_code"%string ->
  run InMemory.handler (process_token_request request ctx) w = (r, w') ->
  exists v', world_refines w' v' /\ code_grant_outcome request ctx v v' r.
Proof.
  intros Hw Hg Hr.
  destruct (run_in_memory _ _ _ _ _ (process_token_request_calls _ _) Hw Hr) as (v' & Hv & Hw').
  exists v'. split; [done|]. by apply process_code_outcome.
Qed.

Lemma process_pre_authorized_outcome request ctx v r v' :
  tr_grant_type request = PRE_AUTHORIZED ->
  run Spec.handler (process_token_request request ctx) v = (r, v') ->
  pre_authorized_outcome request ctx v v' r.
Proof.
  intros Hg Hv. unfold process_token_request in Hv.
  rewrite Hg, (bool_decide_eq_true_2 (PRE_AUTHORIZED = PRE_AUTHORIZED) eq_refl) in Hv.
  rewrite bool_decide_eq_false_2 in Hv by done.
  destruct (tr_client_id request) as [c|] eqn:Hc, (tx_authenticated_client ctx) as [d|] eqn:Hd;
    try case_bool_decide as Hcd;
    try (pose proof (pre_authorized_run request ctx v) as Hrun; rewrite Hv in Hrun; apply Hrun;
         unfold client_param_ok; naive_solver).
  simpl in Hv. injection Hv as <- <-. split; [|done].
  intros code ids (Hp & _). by apply Hcd, Hp.
Qed.

(** The pre-authorized code grant over the in-memory storage: a token is
    issued exactly when the code was offered, was not redeemed since, and the
    request gives the very transaction code of the offer, none when the offer
    has none.  The code is then spent; a refused request changes nothing. *)
Theorem pre_authorized_grant_exact request ctx w v r w' :
  world_refines w v -> tr_grant_type request = PRE_AUTHORIZED ->
  run InMemory.handler (process_token_request request ctx) w = (r, w') ->
  exists v', world_refines w' v' /\ pre_authorized_outcome request ctx v v' r.
Proof.
  intros Hw Hg Hr.
  destruct (run_in_memory _ _ _ _ _ (process_token_request_calls _ _) Hw Hr) as (v' & Hv & Hw').
  exists v'. split; [done|]. by apply process_pre_authorized_outcome.
Qed.
End TokenTheorems.

(** ** A code is redeemed once *)

(** Calls that do not give the code, its session or its token a second life:
    fresh identifiers are never drawn twice. *)
Definition no_reuse (code uri token : string) X (e : IssuerF X) : Prop :=
  allowed X e /\
  match e with
  | inrE (StoreAuthorizationSession u _) => u <> uri
  | inrE (SetAuthorizationCode _ c) => c <> code
  | inrE (RecordTokenForCode c _) => c <> code
  | inrE (StoreAccessToken t _ _) => t <> token
  | _ => True
  end.

(** The code is used, and its token is known or gone. *)
Definition spent (code uri token : string) (s : IssuerStore) : Prop :=
  codes s !! code = Some uri /\
  (exists ses, auth_sessions s !! uri = Some ses /\ ses_consumed ses = true) /\
  (minted s !! code = Some token \/ grants s !! token = None).

Lemma spent_step code uri token X (e : IssuerF X) w :
  no_reuse code uri token X e -> spent code uri token (store w) ->
  spent code uri token (store (Spec.handler X e w).2).
Proof.
  intros [_ He] (Hc & (ses & Hs & Hu) & Ht). destruct w as [sw s]. simpl in *.
  destruct e as [e|e]; simpl.
  { destruct (handle_sys e sw). simpl. unfold spent. eauto. }
  destruct (Spec.backend X e (clock sw (ticks sw)) s) as [x s'] eqn:Hb.
  unfold spent. simpl. destruct e; simpl in Hb, He; 
    try (simplify_eq/=; split; [done|]; split; [by exists ses|done]).
  - simplify_eq/=. split; [done|]. split; [|done].
    exists ses. by rewrite lookup_insert_ne.
  - destruct (auth_sessions s !! request_uri) as [ses'|] eqn:Hr; simplify_eq/=; [|by eauto 10].
    split; [by rewrite lookup_insert_ne|]. split; [|done].
    destruct (decide (request_uri = uri)) as [->|].
    + rewrite lookup_insert_eq. simplify_eq. eauto.
    + rewrite lookup_insert_ne by done. eauto.
  - simplify_eq/=. destruct (codes s !! code0) as [u|]; simpl; [|by eauto 10].
    split; [done|]. split; [|done]. destruct (decide (u = uri)) as [->|].
    + rewrite lookup_alter_eq, Hs. simpl. eauto.
    + rewrite lookup_alter_ne by done. eauto.
  - simplify_eq/=. split; [done|]. split; [by eauto|]. by rewrite lookup_insert_ne.
  - simplify_eq/=. destruct (minted s !! code0) as [t|] eqn:Hm; simpl; [|by eauto 10].
    split; [done|]. split; [by eauto|].
    destruct (decide (t = token)) as [->|].
    + right. apply lookup_delete_eq.
    + destruct Ht as [Ht|Ht]; [left|right].
      * rewrite lookup_delete_ne; [done|]. intros ->. congruence.
      * by rewrite lookup_delete_None; right.
  - destruct (pending s !! code0) as [[tx ids]|]; [destruct (decide (tx = tx_code))|];
      simplify_eq/=; eauto 10.
  - simplify_eq/=. split; [done|]. split; [by eauto|]. by rewrite lookup_insert_ne.
  - destruct (jti_log s !! key) as [x'|]; [destruct (decide (clock sw (ticks sw) < x'))|];
      simplify_eq/=; eauto 10.
  - destruct (nonces s !! nonce); simplify_eq/=; eauto 10.
Qed.

Section SingleUse.
Context `{UrlApi} `{Sha2} `{Base64Url} `{CL : ChronoLaws}.

Lemma spent_after_redeem code uri ses jkt at_ s :
  codes s !! code = Some uri -> auth_sessions s !! uri = Some ses ->
  spent code uri (uuids at_ (uuids_used at_)) (after_redeem code ses jkt at_ s).
Proof.
  intros Hc Hs. unfold spent, after_redeem. simpl. rewrite Hc. simpl. split; [done|]. split.
  - exists (with_consumed ses). by rewrite lookup_alter_eq, Hs.
  - left. apply lookup_insert_eq.
Qed.

(** A request for a spent code gets no token, and its token is gone once the
    answer says the code was consumed. *)
Lemma spent_refused request ctx code uri token v v' r :
  spent code uri token (store v) -> tr_code request = Some code ->
  code_grant_outcome request ctx v v' r ->
  is_ok r = false /\ (r = Err TE_CodeConsumed -> grants (store v') !! token = None).
Proof.
  intros (Hc & (ses & Hs & Hu) & Ht) Hcode.
  assert (Hses : Spec.session_of (store v) code = Some ses).
  { unfold Spec.session_of. by rewrite Hc. }
  destruct r as [resp|e|]; simpl; [| |done].
  - intros (code' & ses' & jkt & at_ & Hcode' & Hses' & Ha & _).
    assert (code' = code) as -> by congruence. pose proof (ca_unused _ _ _ _ _ Ha). congruence.
  - intros [_ [[Hne _]|(code' & ses' & Hcode' & _ & _ & _ & Heq)]].
    + split; [done|]. congruence.
    + split; [done|]. intros _. rewrite Heq. assert (code' = code) as -> by congruence.
      unfold after_replay. simpl. destruct (minted (store v) !! code) as [t|] eqn:Hm; simpl.
      * destruct Ht as [Ht|Ht]; [simplify_eq; apply lookup_delete_eq|].
        by rewrite lookup_delete_None; right.
      * by destruct Ht.
Qed.


(** C2: Single use.  Once a request has redeemed a code, no request for that code
    gets a token again; and when it is answered that the code was consumed, the
    token minted from it no longer opens anything.  In between any program may
    run, whose calls, as it makes them, do not give the code, its session or its
    token a second life: none stores another session under the request URI, issues
    the same code again, records another token for it or stores another grant
    under the same token, as a system does that draws no identifier twice; and
    none asks for a lifetime of more than a century, the bound of the storage's
    contract. *)
Theorem code_redeemed_once request1 ctx1 request2 ctx2 code uri w v response w1
    {A} (history : prog IssuerF A) a w2 r w3 :
  world_refines w v ->
  tr_grant_type request1 = "authorization_code"%string -> tr_code request1 = Some code ->
  codes (store v) !! code = Some uri ->
  run InMemory.handler (process_token_request request1 ctx1) w = (Ok response, w1) ->
  calls_made (no_reuse code uri (tor_access_token response)) InMemory.handler history w1 ->
  run InMemory.handler history w1 = (a, w2) ->
  tr_grant_type request2 = "authorization_code"%string -> tr_code request2 = Some code ->
  run InMemory.handler (process_token_request request2 ctx2) w2 = (r, w3) ->
  is_ok r = false /\
  (r = Err TE_CodeConsumed ->
   (run InMemory.handler (trigger (GetAccessGrant (tor_access_token response))) w3).1 = Ok None).
Proof.
  intros Hw Hg1 Hc1 Huri Hr1 Hh Hr2 Hg2 Hc2 Hr3.
  destruct (run_in_memory _ _ _ _ _ (process_token_request_calls _ _) Hw Hr1) as (v1 & Hv1 & Hw1).
  apply process_code_outcome in Hv1 as (code' & ses & jkt & at_ & Hc' & Hses & _ & _ & -> & Hst); [|done].
  assert (code' = code) as -> by congruence.
  assert (Hau : auth_sessions (store v) !! uri = Some ses).
  { unfold Spec.session_of in Hses. by rewrite Huri in Hses. }
  pose proof (spent_after_redeem code uri ses jkt at_ (store v) Huri Hau) as Hsp.
  rewrite <- Hst in Hsp. simpl in Hh |- *.
  set (token := uuids at_ (uuids_used at_)) in *.
  destruct (made_simulates _ _ _ _ (simulates_mono _ _ (no_reuse code uri token) _ _
    (fun X e He => proj1 He) handler_refines) history w1 v1 Hw1 Hh) as (_ & Hw2 & Hm).
  rewrite Hr2 in Hw2. simpl in Hw2. set (v2 := (run Spec.handler history v1).2) in *.
  assert (spent code uri token (store v2)) as Hsp2 by exact (run_made_invariant (fun v => spent code uri token (store v)) _ _
    (fun X e w => spent_step code uri token X e w) history v1 Hm Hsp).
  destruct (run_in_memory _ _ _ _ _ (process_token_request_calls _ _) Hw2 Hr3) as (v3 & Hv3 & Hw3).
  apply process_code_outcome in Hv3; [|done].
  destruct (spent_refused _ _ _ _ _ _ _ _ Hsp2 Hc2 Hv3) as [Hno Hgone].
  split; [done|]. intros He. specialize (Hgone He).
  assert (calls_in allowed (@trigger IssuerStateE IssuerF _ _ (GetAccessGrant token))) as Hca
    by (by apply calls_in_trigger).
  destruct (run_in_memory _ _ _ _ _ Hca Hw3 (surjective_pairing _)) as (v4 & Hv4 & _).
  destruct v3 as [s3 st3]. simpl in Hv4, Hgone. unfold Spec.grant_at in Hv4. rewrite Hgone in Hv4.
  injection Hv4 as Heq _. simpl. by rewrite <- Heq.
Qed.
End SingleUse.

(** ** A pre-authorized code is redeemed once, even by requests that race *)

(** [needs code p]: the only way for [p] to succeed is a redemption of [code]
    answered with its configurations. *)
Definition needs_call (code : string) {X} (e : IssuerF X) (c : X -> Prop) : Prop :=
  match e with
  | inlE _ => forall x, c x
  | inrE e =>
      match e in IssuerStateE X return (X -> Prop) -> Prop with
      | RedeemPreAuthorizedCode code' _ => fun c =>
          forall x, (code' = code -> forall ids, x <> Ok (Some ids)) -> c x
      | _ => fun c => forall x, c x
      end c
  end.

Fixpoint needs {A Er} (code : string) (p : prog IssuerF (res A Er)) : Prop :=
  match p with
  | Ret r => is_ok r = false
  | Vis e k => needs_call code e (fun x => needs code (k x))
  end.

(** Calls that do not offer [code] again. *)
Definition no_offer (code : string) X (e : IssuerF X) : Prop :=
  match e with inrE (StorePreAuthorizedCode c _ _) => c <> code | _ => True end.

(** Whether a racing request has redeemed the code; [None] for other programs. *)
Definition flag_ok {A Er} (code : string) (p : prog IssuerF (res A Er)) (f : option bool) : Prop :=
  f = Some false -> needs code p.

Definition winners (fs : list (option bool)) : nat :=
  length (filter (fun f => f = Some true) fs).

Definition race_inv {A Er} (code : string)
    (c : list (prog IssuerF (res A Er)) * World IssuerStore) (fs : list (option bool)) : Prop :=
  Forall2 (flag_ok code) c.1 fs /\
  (winners fs + (if decide (is_Some (pending (store c.2) !! code)) then 1 else 0) <= 1)%nat.

Lemma pending_mono code X (e : IssuerF X) w :
  no_offer code X e -> pending (store w) !! code = None ->
  pending (store (Spec.handler X e w).2) !! code = None.
Proof.
  destruct w as [sw s]. simpl. intros He Hp. destruct e as [e|e]; simpl in *.
  { by destruct (handle_sys e sw). }
  destruct (Spec.backend X e (clock sw (ticks sw)) s) as [x s'] eqn:Hb. simpl.
  destruct e; simpl in *; try (simplify_eq/=; done);
    repeat match type of Hb with
    | context [match ?m with _ => _ end] => destruct m
    end; simplify_eq/=; try done.
  - by rewrite lookup_insert_ne.
  - by rewrite lookup_delete_None; right.
Qed.

(** What one call does to the pending offer, seen by a program that needs it. *)
Lemma needs_step {A Er} code X (e : IssuerF X) (k : X -> prog IssuerF (res A Er)) w :
  needs code (Vis e k) ->
  needs code (k (Spec.handler X e w).1) \/
  (is_Some (pending (store w) !! code) /\ pending (store (Spec.handler X e w).2) !! code = None).
Proof.
  destruct w as [sw s]. simpl. destruct e as [e|e]; simpl.
  { intros Hn. left. apply Hn. }
  destruct e; simpl; try (solve [intros Hn; left; apply Hn]).
  intros Hn. destruct (pending s !! code0) as [[tx ids]|] eqn:Hp; simpl.
  - destruct (decide (tx = tx_code)); simpl.
    + destruct (decide (code0 = code)) as [->|Hne].
      * right. split; [by eexists|]. apply lookup_delete_eq.
      * left. by apply Hn.
    + left. by apply Hn.
  - left. by apply Hn.
Qed.

Lemma winners_app fs gs : winners (fs ++ gs) = (winners fs + winners gs)%nat.
Proof. unfold winners. by rewrite filter_app, length_app. Qed.

Lemma winners_true fs : winners (Some true :: fs) = S (winners fs).
Proof. done. Qed.

Lemma winners_false fs : winners (Some false :: fs) = winners fs.
Proof. done. Qed.

Lemma winners_pos fs i : fs !! i = Some (Some true) -> (0 < winners fs)%nat.
Proof.
  intros Hi%list_elem_of_lookup_2. unfold winners.
  assert (Some true ∈ filter (fun f => f = Some true) fs) as Hin by (by apply list_elem_of_filter).
  destruct (filter _ fs); simpl; [by apply not_elem_of_nil in Hin|lia].
Qed.

Lemma winners_unique fs i j :
  (winners fs <= 1)%nat -> fs !! i = Some (Some true) -> fs !! j = Some (Some true) -> i = j.
Proof.
  revert i j. induction fs as [|f fs IH]; [done|]. intros [|i] [|j] Hle Hi Hj; simpl in *.
  - done.
  - simplify_eq. rewrite winners_true in Hle. pose proof (winners_pos _ _ Hj). lia.
  - simplify_eq. rewrite winners_true in Hle. pose proof (winners_pos _ _ Hi). lia.
  - f_equal. apply IH; [|done..]. destruct f as [[|]|].
    + rewrite winners_true in Hle. lia.
    + by rewrite winners_false in Hle.
    + done.
Qed.

Lemma race_inv_step {A Er} code l1 l2 X (e : IssuerF X) (k : X -> prog IssuerF (res A Er)) w fs :
  no_offer code X e -> race_inv code (l1 ++ Vis e k :: l2, w) fs ->
  exists fs', race_inv code (l1 ++ k (Spec.handler X e w).1 :: l2, (Spec.handler X e w).2) fs' /\
    length fs' = length fs /\ forall i, fs !! i = Some None <-> fs' !! i = Some None.
Proof.
  intros He [HF Hw]. destruct (Spec.handler X e w) as [x w'] eqn:Hx. simpl in *.
  apply Forall2_app_inv_l in HF as (f1 & f2 & HF1 & HF2 & ->).
  apply Forall2_cons_inv_l in HF2 as (f & f3 & Hneed & HF3 & ->).
  pose proof (pending_mono code X e w He) as Hmono.
  assert (Hstep : f = Some false -> needs code (k x) \/
    (is_Some (pending (store w) !! code) /\ pending (store w') !! code = None)).
  { intros ->. pose proof (needs_step code X e k w (Hneed eq_refl)) as Hn'. by rewrite Hx in Hn'. }
  rewrite Hx in Hmono. simpl in Hmono.
  assert (Hpend : ((if decide (is_Some (pending (store w') !! code)) then 1 else 0)
                  <= (if decide (is_Some (pending (store w) !! code)) then 1 else 0))%nat).
  { destruct (decide (is_Some (pending (store w) !! code))) as [|Hnone]; [by case_decide; lia|].
    apply eq_None_not_Some in Hnone. rewrite decide_False; [lia|].
    rewrite Hmono by done. by intros [? ?]. }
  destruct (decide (f = Some false)) as [->|Hf].
  - destruct (Hstep eq_refl) as [Hk'|[Hs Hn']].
    + exists (f1 ++ Some false :: f3). split; [split|]; simpl; [|lia|done].
      apply Forall2_app; [done|]. constructor; [|done]. by intros _.
    + exists (f1 ++ Some true :: f3). split; [split|]; simpl.
      * apply Forall2_app; [done|]. constructor; [|done]. by intros [=].
      * rewrite winners_app, winners_true. rewrite winners_app, winners_false in Hw.
        rewrite decide_True in Hw by done. rewrite decide_False by (rewrite Hn'; by intros [? ?]).
        lia.
      * rewrite !length_app. simpl. split; [done|]. intros i.
        destruct (decide (i = length f1)) as [->|].
        -- by rewrite !list_lookup_middle.
        -- destruct (decide (i < length f1)%nat).
           ++ by rewrite !lookup_app_l.
           ++ rewrite !lookup_app_r by lia.
              destruct (i - length f1)%nat eqn:Ei; [lia|done].
  - exists (f1 ++ f :: f3). split; [split|]; simpl; [|lia|done].
    apply Forall2_app; [done|]. constructor; [|done]. by intros ?.
Qed.

Lemma race_inv_steps {A Er} code (c c' : list (prog IssuerF (res A Er)) * World IssuerStore) fs :
  race_inv code c fs -> csteps_where (fun X e _ => no_offer code X e) Spec.handler c c' ->
  exists fs', race_inv code c' fs' /\ length fs' = length fs /\
    forall i, fs !! i = Some None <-> fs' !! i = Some None.
Proof.
  intros HI Hs. revert fs HI. induction Hs as [c|l1 l2 X e k w c He _ IH]; intros fs HI; [by eauto|].
  destruct (race_inv_step _ _ _ _ _ _ _ _ He HI) as (f2 & HI2 & Hl2 & Hn2).
  destruct (IH f2 HI2) as (f3 & HI3 & Hl3 & Hn3). exists f3.
  split; [done|]. split; [congruence|]. intros i. by rewrite Hn2.
Qed.

Section Races.
Context `{UrlApi} `{Sha2} `{Base64Url} `{CL : ChronoLaws}.

#[local] Opaque issue_access_token.

Lemma pre_authorized_needs request ctx code :
  tr_grant_type request = PRE_AUTHORIZED -> tr_pre_authorized_code request = Some code ->
  needs code (process_token_request request ctx).
Proof.
  intros Hg Hc. unfold process_token_request. rewrite Hg.
  rewrite (bool_decide_eq_true_2 (PRE_AUTHORIZED = PRE_AUTHORIZED)) by done.
  rewrite bool_decide_eq_false_2 by done.
  assert (needs code (process_pre_authorized_code_grant request ctx)).
  { unfold process_pre_authorized_code_grant, pbind_res, pmap_err, pmap. rewrite Hc. simpl.
    intros [[ids|]|e|] Hx; simpl; try done. exfalso. by eapply Hx. }
  destruct (tr_client_id request), (tx_authenticated_client ctx); try case_bool_decide; done.
Qed.

(** A request for [code] by the pre-authorized grant. *)
Definition redeems (code : string) (q : TokenRequest * TokenContext) : Prop :=
  tr_grant_type q.1 = PRE_AUTHORIZED /\ tr_pre_authorized_code q.1 = Some code.

Definition race_flags {A} (requests : list (TokenRequest * TokenContext)) (others : list A)
    : list (option bool) :=
  replicate (length requests) (Some false) ++ replicate (length others) None.

Lemma race_inv_start code requests others v :
  Forall (redeems code) requests ->
  race_inv code (map (fun q => process_token_request q.1 q.2) requests ++ others, v)
    (race_flags requests others).
Proof.
  intros Hreq. unfold race_flags. split; simpl.
  - apply Forall2_app.
    + apply Forall2_same_length_lookup_2; [by rewrite length_map, length_replicate|].
      intros n p f Hp [-> _]%lookup_replicate.
      rewrite list_lookup_fmap in Hp. destruct (requests !! n) as [q|] eqn:Hq; [|done].
      injection Hp as <-. destruct (Forall_lookup_1 _ _ _ _ Hreq Hq). intros _. by apply pre_authorized_needs.
    + apply Forall2_same_length_lookup_2; [by rewrite length_replicate|].
      by intros n p f Hp [-> _]%lookup_replicate.
  - rewrite winners_app.
    assert (winners (replicate (length requests) (Some false)) = 0%nat) as ->
      by (clear; by induction (length requests)).
    assert (winners (replicate (length others) None) = 0%nat) as ->
      by (clear; by induction (length others)).
    case_decide; lia.
Qed.

(** C11: However many requests for one pre-authorized code run at the same time,
    interleaved call by call with each other and with any other programs, at
    most one of them gets a token, as long as no call that is made offers the
    code anew (and none asks for a lifetime of more than a century).  The calls
    are those of the run: a program may make offers, of other codes. *)
Theorem pre_authorized_code_redeemed_once code (requests : list (TokenRequest * TokenContext))
    (others : list (prog IssuerF (res TokenResponse TokenError))) w v ps' w' i j a b :
  world_refines w v ->
  Forall (redeems code) requests ->
  csteps_where (fun X e _ => allowed X e /\ no_offer code X e) InMemory.handler
    (map (fun q => process_token_request q.1 q.2) requests ++ others, w) (ps', w') ->
  (i < length requests)%nat -> (j < length requests)%nat ->
  ps' !! i = Some (Ret (Ok a)) -> ps' !! j = Some (Ret (Ok b)) -> i = j.
Proof.
  intros Hw Hreq Hs Hi Hj Ha Hb.
  destruct (csteps_where_simulates _ _ _ (fun X e _ => no_offer code X e) _ _ _ _ handler_refines
    (fun X e _ _ _ He => He) Hs v Hw) as (v' & Hs' & _). simpl in Hs'.
  destruct (race_inv_steps _ _ _ _ (race_inv_start code requests others v Hreq) Hs')
    as (fs' & [HF Hwin] & _ & Hnone). simpl in *.
  assert (Hflag : forall n x, (n < length requests)%nat -> ps' !! n = Some (Ret (Ok x)) ->
    fs' !! n = Some (Some true)).
  { intros n x Hn Hx. destruct (Forall2_lookup_l _ _ _ _ _ HF Hx) as (f & Hf & Hneed).
    destruct f as [[|]|]; [done|by specialize (Hneed eq_refl)|].
    apply Hnone in Hf. unfold race_flags in Hf.
    rewrite lookup_app_l in Hf by (by rewrite length_replicate).
    apply lookup_replicate in Hf as [? _]. done. }
  apply (winners_unique fs'); eauto. lia.
Qed.
End Races.

(** ** Concrete runs *)
Module TokenDemo.
Import Toy IssuerDemo AuthorizationDemo.

(** A pushed request, the code issued for it, and an offered code. *)
Definition setup : prog IssuerF (res string AuthorizationError) :=
  do? par <- process_par AuthorizationDemo.request AuthorizationDemo.ctx metadata;
  do _ <- trigger (StorePreAuthorizedCode "pre" (Some "123456"%string) ["ID"%string]);
  generate_authorization_code (puar_request_uri par).

Definition world1 : World InMemoryIssuerState := (run InMemory.handler setup demo_world).2.
Definition spec1 : World IssuerStore := (run Spec.handler setup demo_spec).2.

Lemma setup_calls : calls_in allowed setup.
Proof.
  unfold setup, generate_authorization_code, new_v4. apply calls_in_bind_res; [apply process_par_calls|].
  intros. solve_calls.
Qed.

Lemma world1_refines : world_refines world1 spec1.
Proof.
  exact (proj2 (run_simulates world_refines allowed InMemory.handler Spec.handler handler_refines
    setup demo_world demo_spec setup_calls demo_refines)).
Qed.

Definition code : string := "uuid-1".
Definition token_request : TokenRequest :=
  mkTokenRequest "authorization_code" (Some code) (Some ("https://w/cb"%string : Url))
    (Some "verifier"%string) (Some "client"%string) None None.
Definition token_ctx : TokenContext := mkTokenContext (Some "client"%string) (Some "jkt"%string).
Definition pre_request : TokenRequest :=
  mkTokenRequest PRE_AUTHORIZED None None None None (Some "pre"%string) (Some "123456"%string).

Definition first := run InMemory.handler (process_token_request token_request token_ctx) world1.
Definition replay := run InMemory.handler (process_token_request token_request token_ctx) first.2.
Definition pre := run InMemory.handler (process_token_request pre_request token_ctx) world1.

Lemma first_result :
  first.1 = Ok (mkTokenResponse "uuid-2" "DPoP" 3600 None) /\ replay.1 = Err TE_CodeConsumed.
Proof. split; vm_compute; reflexivity. Qed.

Lemma authorization_code_grant_exact_witness :
  is_ok first.1 = true /\
  exists v', world_refines first.2 v' /\ code_grant_outcome token_request token_ctx spec1 v' first.1.
Proof.
  split; [vm_compute; reflexivity|].
  apply (authorization_code_grant_exact token_request token_ctx world1 spec1 first.1 first.2).
  - apply world1_refines.
  - reflexivity.
  - apply surjective_pairing.
Defined.

Lemma pre_authorized_grant_exact_witness :
  is_ok pre.1 = true /\
  exists v', world_refines pre.2 v' /\ pre_authorized_outcome pre_request token_ctx spec1 v' pre.1.
Proof.
  split; [vm_compute; reflexivity|].
  apply (pre_authorized_grant_exact pre_request token_ctx world1 spec1 pre.1 pre.2).
  - apply world1_refines.
  - reflexivity.
  - apply surjective_pairing.
Defined.

(** Another pushed request, another token and another offer in between. *)
Definition history : prog IssuerF unit :=
  do _ <- process_par AuthorizationDemo.request AuthorizationDemo.ctx metadata;
  do token <- new_v4;
  do _ <- trigger (StoreAccessToken token (mkAccessGrant [] ∅ None) 3600);
  do _ <- trigger (StorePreAuthorizedCode "other" None ["ID"%string]);
  Ret tt.
Definition between := run InMemory.handler history first.2.
Definition late_replay := run InMemory.handler (process_token_request token_request token_ctx) between.2.

Lemma code_redeemed_once_witness :
  is_ok late_replay.1 = false /\
  (late_replay.1 = Err TE_CodeConsumed ->
   (run InMemory.handler (trigger (GetAccessGrant "uuid-2")) late_replay.2).1 = Ok None).
Proof.
  apply (code_redeemed_once token_request token_ctx token_request token_ctx code
    (request_uri_of "uuid-0") world1 spec1 (mkTokenResponse "uuid-2" "DPoP" 3600 None) first.2
    history between.1 between.2).
  - apply world1_refines.
  - reflexivity.
  - reflexivity.
  - vm_compute. reflexivity.
  - rewrite <- (proj1 first_result). apply surjective_pairing.
  - vm_compute. repeat split; discriminate.
  - apply surjective_pairing.
  - reflexivity.
  - reflexivity.
  - apply surjective_pairing.
Defined.

(** Two racing redemptions of the offered code, while a fresh code is offered. *)
Definition race : list (prog IssuerF (res TokenResponse TokenError)) :=
  map (fun q => process_token_request q.1 q.2) [(pre_request, token_ctx); (pre_request, token_ctx)]
  ++ [do fresh <- new_v4; do _ <- trigger (StorePreAuthorizedCode fresh None ["ID"%string]); Ret (Err TE_InvalidCode)].
Definition race_end := run_schedule InMemory.handler [0; 2; 1; 2; 0; 0; 1; 1; 1]%nat race world1.

Lemma pre_authorized_code_redeemed_once_witness :
  (exists a, race_end.1 !! 0%nat = Some (Ret (Ok a))) /\
  race_end.1 !! 1%nat = Some (Ret (Err TE_InvalidPreAuthorizedCode)) /\ 0%nat = 0%nat.
Proof.
  assert (exists a, race_end.1 !! 0%nat = Some (Ret (Ok a))) as [a Ha].
  { eexists. vm_compute. reflexivity. }
  split; [by eexists|]. split; [vm_compute; reflexivity|].
  apply (pre_authorized_code_redeemed_once "pre"
    [(pre_request, token_ctx); (pre_request, token_ctx)]
    [do fresh <- new_v4; do _ <- trigger (StorePreAuthorizedCode fresh None ["ID"%string]); Ret (Err TE_InvalidCode)]
    world1 spec1 race_end.1 race_end.2 0%nat 0%nat a a).
  - apply world1_refines.
  - repeat constructor.
  - rewrite <- surjective_pairing. apply run_schedule_where. vm_compute. repeat split; discriminate.
  - simpl. lia.
  - simpl. lia.
  - exact Ha.
  - exact Ha.
Defined.

Definition code_race : list (prog IssuerF (res TokenResponse TokenError)) :=
  [process_token_request token_request token_ctx; process_token_request token_request token_ctx].
Definition code_race_end :=
  run_schedule InMemory.handler [0; 1; 0; 0; 0; 0; 0; 1; 1; 1; 1; 1]%nat code_race world1.

(** The race on an authorization code is not prevented: the code is looked up
    in one call and marked used in another, without a test.  Two requests that
    both look it up first both get a token, and only the second token is
    remembered for revocation: a replay of the code leaves the first one
    valid. *)
Theorem code_race_mints_two_tokens :
  exists ps w a b,
    csteps InMemory.handler (code_race, world1) (ps, w) /\
    ps = [Ret (Ok a); Ret (Ok b)] /\ tor_access_token a <> tor_access_token b /\
    let '(r, w') := run InMemory.handler (process_token_request token_request token_ctx) w in
    r = Err TE_CodeConsumed /\
    (run InMemory.handler (trigger (GetAccessGrant (tor_access_token b))) w').1 = Ok None /\
    exists grant, (run InMemory.handler (trigger (GetAccessGrant (tor_access_token a))) w').1
                  = Ok (Some grant).
Proof.
  exists code_race_end.1, code_race_end.2,
    (mkTokenResponse "uuid-2" "DPoP" 3600 None), (mkTokenResponse "uuid-3" "DPoP" 3600 None).
  split; [|split; [|split]].
  - rewrite <- surjective_pairing. apply run_schedule_csteps.
  - vm_compute. reflexivity.
  - done.
  - vm_compute. split; [done|]. split; [done|]. eexists. reflexivity.
Qed.
End TokenDemo.
