(* ===== verification/Dpop.v ===== *)
(** * DPoP proofs

    crates/issuer/src/dpop.rs: the checks of a proof of possession sent with a
    request, what an accepted proof satisfies, and how long its identifier
    keeps it from being used again. *)
From S2P Require Import Prelude Externals Strings Json Effects Keys Jws IssuerState IssuerStateSpec.

Definition DPOP_SIGNING_ALGS : list string := ["ES256"%string; "EdDSA"%string].
Definition MAX_AGE_SECS : Z := 300.
Definition MAX_SKEW_SECS : Z := 60.

Record DpopError := mkDpopError { dpop_reason : string }.

Definition dpop_error_to_string (e : DpopError) : string := "invalid DPoP proof: " +:+ dpop_reason e.

Record DpopContext := mkDpopContext {
  dc_htm : string;
  dc_htu : string;
  dc_access_token : option string;
}.

Section Dpop.
Context `{Sha2} `{Base64Url} `{P256} `{Ed25519} `{HeaderSerde} `{SerdeJson} `{Chrono} `{UrlApi}.

Definition normalize_htu (value : string) : option string :=
  match url_parse value with
  | inl url => Some (url_as_str (url_set_fragment (url_set_query url None) None))
  | inr _ => None
  end.

(** The digest an access token is named by in [ath]. *)
Definition token_hash (token : string) : string := b64url_encode (sha256 (as_bytes token)).

(** Up to the reading of the clock: the key, the claims and their [iat]. *)
Definition dpop_claims (proof : string) (ctx : DpopContext) : res (Jwk * Value * Z) DpopError :=
  let? decoded := map_err (fun e => mkDpopError (jws_error_to_string e)) (decode_compact proof) in
  let header := dj_header decoded in
  fail? bool_decide (hdr_typ header <> Some "dpop+jwt"%string) with
    mkDpopError "typ must be 'dpop+jwt'";
  fail? bool_decide (hdr_alg header ∉ DPOP_SIGNING_ALGS) with
    mkDpopError ("unsupported alg '" +:+ hdr_alg header +:+ "'");
  let? jwk := ok_or (hdr_jwk header) (mkDpopError "header must carry the public key in 'jwk'") in
  fail? bool_decide (is_Some (jwk_d jwk)) with mkDpopError "'jwk' must not contain a private key";
  let? _ := map_err (fun e => mkDpopError ("signature: " +:+ jws_error_to_string e))
    (verify_with_public_jwk proof jwk) in
  let? claims := map_err mkDpopError (from_ext (value_from_slice (dj_payload decoded))) in
  fail? bool_decide (get_str claims "htm" <> Some (dc_htm ctx)) with
    mkDpopError "'htm' does not match the request method";
  let? htu := ok_or (get_str claims "htu") (mkDpopError "'htu' is missing") in
  fail? bool_decide (normalize_htu htu <> normalize_htu (dc_htu ctx)) with
    mkDpopError "'htu' does not match the request URL";
  let? iat := ok_or (get_i64 claims "iat") (mkDpopError "'iat' is missing") in
  Ok (jwk, claims, iat).

(** At a Unix time: the identifier of an acceptable proof. *)
Definition dpop_fresh (ctx : DpopContext) (claims : Value) (iat now : Z) : res string DpopError :=
  fail? (now + MAX_SKEW_SECS <? iat) || (iat <? now - MAX_AGE_SECS) with
    mkDpopError "'iat' is outside the accepted window";
  fail? match dc_access_token ctx with
        | Some token => bool_decide (get_str claims "ath" <> Some (token_hash token))
        | None => false
        end with mkDpopError "'ath' does not match the access token";
  ok_or (get_str claims "jti") (mkDpopError "'jti' is missing").

Definition dpop_key (jti : string) : string := "dpop:" +:+ jti.

Definition verify_dpop_proof (proof : string) (ctx : DpopContext)
    : prog IssuerF (res string DpopError) :=
  do? ' (jwk, claims, iat) <- Ret (dpop_claims proof ctx);
  do t <- utc_now;
  do? jti <- Ret (dpop_fresh ctx claims iat (timestamp t));
  do? fresh <- pmap_err (fun e => mkDpopError (state_error_to_string e))
    (trigger (RecordJti (dpop_key jti) (as_u64 (MAX_AGE_SECS + MAX_SKEW_SECS))));
  pfail? negb fresh with mkDpopError "'jti' has already been used";
  Ret (Ok (compute_thumbprint jwk)).
End Dpop.

(** ** What an accepted proof satisfies *)
Section DpopFacts.
Context `{Sha2} `{Base64Url} `{P256} `{Ed25519} `{HeaderSerde} `{SerdeJson} `{UrlApi}.

(** The checks that do not depend on the time. *)
Record dpop_proof (proof : string) (ctx : DpopContext) (jwk : Jwk) (claims : Value) (iat : Z)
    : Prop := {
  dp_signed : exists d, verify_with_public_jwk proof jwk = Ok d /\
    hdr_typ (dj_header d) = Some "dpop+jwt"%string /\ hdr_alg (dj_header d) ∈ DPOP_SIGNING_ALGS /\
    hdr_jwk (dj_header d) = Some jwk /\ value_from_slice (dj_payload d) = inl claims;
  dp_public : jwk_d jwk = None;
  dp_method : get_str claims "htm" = Some (dc_htm ctx);
  dp_url : exists htu, get_str claims "htu" = Some htu /\ normalize_htu htu = normalize_htu (dc_htu ctx);
  dp_iat : get_i64 claims "iat" = Some iat;
}.

Lemma dpop_claims_Ok proof ctx jwk claims iat :
  dpop_claims proof ctx = Ok (jwk, claims, iat) <-> dpop_proof proof ctx jwk claims iat.
Proof.
  unfold dpop_claims. split.
  - intros Ho. inv_ok. b2p. simplify_eq.
    repeat match goal with H : ~ (_ <> _) |- _ => apply dec_stable in H end.
    match goal with Hv : verify_with_public_jwk _ _ = Ok ?d' |- _ =>
      pose proof (verify_decodes _ _ _ Hv); assert (d' = a) as -> by congruence end.
    split; [exists a|..]; eauto.
    + repeat split; try done. by apply dec_stable.
    + by apply eq_None_not_Some.
  - intros [(d & Hv & Ht & Ha & Hj & Hp) Hd Hm (htu & Hu & Hn) Hi].
    rewrite (verify_decodes _ _ _ Hv). simpl. rewrite Hj. simpl. rewrite Hv. simpl.
    rewrite Hp. simpl. rewrite Hu. simpl. rewrite Hi. simpl.
    rewrite !bool_decide_eq_false_2; [done|..]; rewrite ?Hd; (auto || by intros []).
Qed.

Lemma dpop_claims_np proof ctx : dpop_claims proof ctx <> Panic.
Proof. unfold dpop_claims. solve_np. Qed.

(** What a proof must satisfy at a Unix time, with its key and identifier. *)
Definition dpop_accepts (proof : string) (ctx : DpopContext) (now : Z) (jwk : Jwk) (jti : string)
    : Prop :=
  exists claims iat, dpop_proof proof ctx jwk claims iat /\
    now - 300 <= iat <= now + 60 /\
    (forall token, dc_access_token ctx = Some token ->
       get_str claims "ath" = Some (token_hash token)) /\
    get_str claims "jti" = Some jti.

Lemma dpop_fresh_Ok ctx claims iat now jti :
  dpop_fresh ctx claims iat now = Ok jti <->
  now - 300 <= iat <= now + 60 /\
  (forall token, dc_access_token ctx = Some token ->
     get_str claims "ath" = Some (token_hash token)) /\
  get_str claims "jti" = Some jti.
Proof.
  unfold dpop_fresh, MAX_SKEW_SECS, MAX_AGE_SECS. split.
  - intros Ho. inv_ok. b2p. split; [lia|]. split; [|done]. intros token Ht. rewrite Ht in *. b2p.
    by apply dec_stable.
  - intros (? & Ht & ->). rewrite (proj2 (Z.ltb_ge _ _)), (proj2 (Z.ltb_ge _ _)) by lia. simpl.
    destruct (dc_access_token ctx) as [token|]; [|done].
    by rewrite bool_decide_eq_false_2 by auto.
Qed.

Lemma dpop_fresh_np ctx claims iat now : dpop_fresh ctx claims iat now <> Panic.
Proof. unfold dpop_fresh. solve_np. Qed.

Lemma dpop_accepts_fun proof ctx ctx' now now' jwk jwk' jti jti' :
  dpop_accepts proof ctx now jwk jti -> dpop_accepts proof ctx' now' jwk' jti' ->
  jwk = jwk' /\ jti = jti' /\ now' <= now + 360.
Proof.
  intros (c & i & [(d & Hv & _ & _ & Hj & Hc) _ _ _ Hi] & ? & _ & Hjti)
    (c' & i' & [(d' & Hv' & _ & _ & Hj' & Hc') _ _ _ Hi'] & ? & _ & Hjti').
  apply verify_decodes in Hv, Hv'. assert (d' = d) as -> by congruence.
  assert (c' = c) as -> by congruence. assert (i' = i) as -> by congruence.
  repeat split; (congruence || lia).
Qed.

Context `{CL : ChronoLaws}.

Lemma verify_dpop_calls proof ctx : calls_in allowed (verify_dpop_proof proof ctx).
Proof. unfold verify_dpop_proof, utc_now, trigger. solve_calls. Qed.

(** A verification over the contract of the storage. *)
Lemma dpop_run proof ctx v r v' :
  run Spec.handler (verify_dpop_proof proof ctx) v = (r, v') ->
  match r with
  | Ok jkt =>
      exists jwk jti, dpop_accepts proof ctx (read_at v) jwk jti /\ jkt = compute_thumbprint jwk /\
        ~ Spec.jti_seen (store v) (dpop_key jti) (stored_at v) /\
        store v' = Spec.set_jti_log
          (<[dpop_key jti := stored_at v + 360 * NANOS]> (jti_log (store v))) (store v)
  | Err _ =>
      store v' = store v /\
      forall jwk jti, dpop_accepts proof ctx (read_at v) jwk jti ->
        Spec.jti_seen (store v) (dpop_key jti) (stored_at v)
  | Panic => False
  end.
Proof.
  intros Hr. unfold verify_dpop_proof in Hr.
  pose proof (dpop_claims_np proof ctx) as Hnp.
  pose proof (dpop_claims_Ok proof ctx) as Hc.
  destruct (dpop_claims proof ctx) as [[[jwk claims] iat]|e|]; [|..|done]; simpl in Hr.
  2:{ simplify_eq. split; [done|]. intros jwk jti (c & i & Hp & _). apply Hc in Hp. done. }
  fold (read_at v) in Hr. pose proof (proj1 (Hc jwk claims iat) eq_refl) as Hp.
  pose proof (dpop_fresh_Ok ctx claims iat (read_at v)) as Hf.
  assert (Hany : forall jwk' jti, dpop_accepts proof ctx (read_at v) jwk' jti ->
    jwk' = jwk /\ dpop_fresh ctx claims iat (read_at v) = Ok jti).
  { intros jwk' jti (c & i & Hp' & Hrest). apply Hc in Hp'. simplify_eq. split; [done|]. by apply Hf. }
  destruct (dpop_fresh ctx claims iat (read_at v)) as [jti|e|] eqn:Hfr; simpl in Hr.
  - pose proof (proj1 (Hf jti) eq_refl) as Hok.
    change (as_u64 (MAX_AGE_SECS + MAX_SKEW_SECS)) with 360 in Hr.
    change (clock (sys v) _) with (stored_at v) in Hr.
    assert (Hacc : dpop_accepts proof ctx (read_at v) jwk jti) by (exists claims, iat; done).
    destruct (record_jti_spec (store v) (dpop_key jti) 360 (stored_at v)) as [[Hs He]|[Hs He]];
      simpl in He; rewrite He in Hr; simpl in Hr; simplify_eq; simpl.
    + split; [done|]. intros jwk' jti' Ha. destruct (Hany _ _ Ha) as [_ ?]. by simplify_eq.
    + exists jwk, jti. done.
  - simplify_eq. split; [done|]. intros jwk' jti Ha. destruct (Hany _ _ Ha). done.
  - by apply dpop_fresh_np in Hfr.
Qed.

(** C28: A DPoP proof is accepted over the in-memory storage exactly when it is a
    [dpop+jwt] signed with a supported algorithm by the public key its header
    carries, made for this method and URL and, if one is presented, for this
    access token, dated at most 300 seconds ago and at most 60 seconds ahead,
    and with an identifier that is not remembered.  The answer is the key's
    thumbprint and the identifier is then remembered for 360 seconds; a refused
    proof changes nothing, and no proof makes the code panic. *)
Theorem verify_dpop_proof_exact proof ctx w v r w' :
  world_refines w v ->
  run InMemory.handler (verify_dpop_proof proof ctx) w = (r, w') ->
  exists v', world_refines w' v' /\
  match r with
  | Ok jkt =>
      exists jwk jti, dpop_accepts proof ctx (read_at w) jwk jti /\ jkt = compute_thumbprint jwk /\
        ~ Spec.jti_seen (store v) (dpop_key jti) (stored_at w) /\
        store v' = Spec.set_jti_log
          (<[dpop_key jti := stored_at w + 360 * NANOS]> (jti_log (store v))) (store v)
  | Err _ =>
      store v' = store v /\
      forall jwk jti, dpop_accepts proof ctx (read_at w) jwk jti ->
        Spec.jti_seen (store v) (dpop_key jti) (stored_at w)
  | Panic => False
  end.
Proof.
  intros Hw Hr. destruct (run_in_memory _ _ _ _ _ (verify_dpop_calls _ _) Hw Hr) as (v' & Hv & Hw').
  exists v'. split; [done|]. apply dpop_run in Hv. unfold read_at, stored_at in *.
  destruct Hw as (-> & _). done.
Qed.

(** Replay protection.  If one proof is accepted twice, for any two requests
    and with any allowed calls of the issuer in between, then the second visit
    to the storage is at least 360 seconds after the first, although the second
    reading of the clock is at most 360 seconds after the first. *)
Theorem dpop_replay_bound {A} proof ctx ctx' (p : prog IssuerF A) w v jkt w1 a w2 jkt' w3 :
  world_refines w v -> calls_in allowed p ->
  run InMemory.handler (verify_dpop_proof proof ctx) w = (Ok jkt, w1) ->
  run InMemory.handler p w1 = (a, w2) ->
  run InMemory.handler (verify_dpop_proof proof ctx') w2 = (Ok jkt', w3) ->
  jkt' = jkt /\ stored_at w + 360 * NANOS <= stored_at w2 /\ read_at w2 <= read_at w + 360.
Proof.
  intros Hw Hp R1 R2 R3.
  destruct (run_in_memory _ _ _ _ _ (verify_dpop_calls _ _) Hw R1) as (v1 & Hv1 & Hw1).
  destruct (run_in_memory _ _ _ _ _ Hp Hw1 R2) as (v2 & Hv2 & Hw2).
  destruct (run_in_memory _ _ _ _ _ (verify_dpop_calls _ _) Hw2 R3) as (v3 & Hv3 & _).
  apply dpop_run in Hv1 as (jwk & jti & Ha & -> & _ & Hs1).
  apply dpop_run in Hv3 as (jwk' & jti' & Ha' & -> & Hn & _).
  destruct (dpop_accepts_fun _ _ _ _ _ _ _ _ _ Ha Ha') as (-> & -> & Hle).
  unfold read_at, stored_at in *. destruct Hw as (-> & _), Hw2 as (-> & _).
  split; [done|]. split; [|done]. revert Hn. apply jti_until_not_seen.
  replace v2 with (run Spec.handler p v1).2 by by rewrite Hv2.
  apply jti_until_run; [done|]. rewrite Hs1. eexists. simpl. split; [by rewrite lookup_insert_eq|lia].
Qed.
End DpopFacts.

(** ** A proof, accepted twice *)
Module DpopDemo.
Import Toy ToyCurves ToyCodec JwsDemo IssuerDemo.

Definition dpop_header : JwsHeader :=
  mkJwsHeader "ES256" (Some "dpop+jwt"%string) None (Some ec1_jwk) None.
Definition claims : Value := json_obj
  [("htm"%string, VString "POST"); ("htu"%string, VString "https://i/token");
   ("iat"%string, VNumber (NInt 1060)); ("jti"%string, VString "j")].
Definition proof : string := Eval vm_compute in
  unwrap_or EmptyString (sign_compact (ec_key_pair ec1) dpop_header (value_to_vec claims)).
Definition ctx : DpopContext := mkDpopContext "POST" "https://i/token" None.

(** The first two readings are at 1000 seconds, the later ones at 1360. *)
Definition late_sys : Sys := {|
  clock i := (if (i <? 2)%nat then 1000 else 1360) * NANOS;
  ticks := 0; uuids := uuids demo_sys; uuids_used := 0; noise := noise demo_sys; noise_used := 0 |}.
Definition late_world : World InMemoryIssuerState := mkWorld late_sys InMemory.new.
Definition late_spec : World IssuerStore := mkWorld late_sys Spec.empty.

Lemma late_clock : monotone_clock late_sys /\ clock_in_range late_sys.
Proof.
  split; intros i; [intros j Hij|]; unfold NANOS; simpl; unfold NANOS;
    repeat match goal with |- context [(?a <? 2)%nat] => destruct (Nat.ltb_spec a 2) end; lia.
Qed.

Lemma late_refines : world_refines late_world late_spec.
Proof. split; [done|]. split; [apply late_clock|]. split; [apply late_clock|apply refines_new]. Qed.

Definition jkt : string := compute_thumbprint ec1_jwk.
Definition first := run InMemory.handler (verify_dpop_proof proof ctx) late_world.
Definition again := run InMemory.handler (verify_dpop_proof proof ctx) first.2.

#[local] Strategy expand [first again].

Lemma first_Ok : first.1 = Ok jkt.
Proof. vm_compute. reflexivity. Qed.
Lemma again_Ok : again.1 = Ok jkt.
Proof. vm_compute. reflexivity. Qed.

Lemma first_run : run InMemory.handler (verify_dpop_proof proof ctx) late_world = (Ok jkt, first.2).
Proof. change (first = (Ok jkt, first.2)). rewrite <- first_Ok. apply surjective_pairing. Qed.
Lemma again_run : run InMemory.handler (verify_dpop_proof proof ctx) first.2 = (Ok jkt, again.2).
Proof. change (again = (Ok jkt, again.2)). rewrite <- again_Ok. apply surjective_pairing. Qed.

Lemma verify_dpop_proof_exact_witness :
  exists v', world_refines first.2 v' /\
    exists jwk jti, dpop_accepts proof ctx (read_at late_world) jwk jti /\ jkt = compute_thumbprint jwk /\
      ~ Spec.jti_seen (store late_spec) (dpop_key jti) (stored_at late_world) /\
      store v' = Spec.set_jti_log
        (<[dpop_key jti := stored_at late_world + 360 * NANOS]> (jti_log (store late_spec)))
        (store late_spec).
Proof.
  apply (verify_dpop_proof_exact proof ctx late_world late_spec (Ok jkt) first.2).
  - apply late_refines.
  - exact first_run.
Defined.

Lemma dpop_replay_bound_witness :
  jkt = jkt /\ stored_at late_world + 360 * NANOS <= stored_at first.2 /\
  read_at first.2 <= read_at late_world + 360.
Proof.
  apply (dpop_replay_bound proof ctx ctx (Ret tt) late_world late_spec jkt first.2 tt first.2 jkt again.2).
  - apply late_refines.
  - constructor.
  - exact first_run.
  - reflexivity.
  - exact again_run.
Defined.

(** The two bounds meet: a proof dated 60 seconds ahead is accepted, and
    accepted again 360 seconds later, within its validity window. *)
Theorem dpop_proof_replayed :
  exists w : World InMemoryIssuerState,
    monotone_clock (sys w) /\ clock_in_range (sys w) /\ store w = InMemory.new /\
    let '(r1, w1) := run InMemory.handler (verify_dpop_proof proof ctx) w in
    let '(r2, w2) := run InMemory.handler (verify_dpop_proof proof ctx) w1 in
    r1 = Ok jkt /\ r2 = Ok jkt.
Proof.
  exists late_world. split; [apply late_clock|]. split; [apply late_clock|]. split; [done|].
  rewrite first_run, again_run. done.
Qed.
End DpopDemo.
