(* ===== verification/ClientAttestation.v ===== *)
(** * Client authentication by attestation

    crates/issuer/src/client_attestation.rs: a trusted attester vouches for a
    wallet instance's key, and a fresh JWT signed by that key proves that the
    caller holds it. *)
From S2P Require Import Prelude Externals Strings Json Effects Keys Jws SdJwt IssuerState IssuerStateSpec.

Definition ATTESTATION_SIGNING_ALGS : list string := ["ES256"%string].
Definition AUTH_METHOD : string := "attest_jwt_client_auth".
Definition SKEW_SECS : Z := 60.
Definition POP_MAX_AGE_SECS : Z := 300.

Record AttestationError := mkAttestationError { attestation_reason : string }.

Definition attestation_error_to_string (e : AttestationError) : string :=
  "client attestation rejected: " +:+ attestation_reason e.


Record AttestedClient := mkAttestedClient {
  atc_client_id : string;
  atc_instance_key : Jwk;
}.

Definition same_issuer (a b : string) : bool :=
  bool_decide (trim_end_matches slash a = trim_end_matches slash b).

(** [aud], a string or an array, names this server. *)
Definition aud_ok (aud : option Value) (audience : string) : bool :=
  match aud with
  | Some (VString aud) => same_issuer aud audience
  | Some (VArray auds) => existsb (fun aud => same_issuer aud audience) (omap as_str auds)
  | _ => false
  end.

Section ClientAttestation.
Context `{Profile} `{Base64Url} `{P256} `{Ed25519} `{HeaderSerde} `{SerdeJson} `{ClaimsSerde} `{Chrono}.

Definition check_exp (claims : Value) (now : Z) (what : string) (exp_required : bool)
    : res unit AttestationError :=
  match get_i64 claims "exp" with
  | Some exp =>
      let? limit := i64_add exp SKEW_SECS in
      fail? limit <? now with mkAttestationError (what +:+ " has expired"); Ok tt
  | None =>
      fail? exp_required with mkAttestationError (what +:+ " is missing 'exp'"); Ok tt
  end.

Definition check_time_window (claims : Value) (now : Z) (what : string) (exp_required : bool)
    : res unit AttestationError :=
  let? _ := check_exp claims now what exp_required in
  fail? match get_i64 claims "nbf" with Some nbf => now + SKEW_SECS <? nbf | None => false end with
    mkAttestationError (what +:+ " is not yet valid");
  Ok tt.

(** The attesters whose key may have signed, by key identifier. *)
Definition kid_matches (kid : option string) (key : Jwk) : bool :=
  bool_decide (kid = None) || bool_decide (jwk_kid key = None) || bool_decide (jwk_kid key = kid).

Definition signed_by_trusted (attestation : string) (kid : option string) (trusted : list Jwk) : bool :=
  existsb (fun key => kid_matches kid key && is_ok (verify_with_public_jwk attestation key)) trusted.

(** The attestation: the client it vouches for. *)
Definition check_attestation (attestation : string) (trusted_attesters : list Jwk) (now : Z)
    : res AttestedClient AttestationError :=
  let? decoded := map_err (fun e => mkAttestationError ("attestation: " +:+ jws_error_to_string e))
    (decode_compact attestation) in
  fail? bool_decide (hdr_typ (dj_header decoded) <> Some "oauth-client-attestation+jwt"%string) with
    mkAttestationError "attestation typ must be 'oauth-client-attestation+jwt'";
  fail? bool_decide (hdr_alg (dj_header decoded) ∉ ATTESTATION_SIGNING_ALGS) with
    mkAttestationError ("attestation alg '" +:+ hdr_alg (dj_header decoded) +:+ "' is not supported");
  fail? negb (signed_by_trusted attestation (hdr_kid (dj_header decoded)) trusted_attesters) with
    mkAttestationError "attestation is not signed by a trusted attester";
  let? claims := map_err (fun e => mkAttestationError ("attestation: " +:+ e))
    (from_ext (value_from_slice (dj_payload decoded))) in
  fail? bool_decide (get_str claims "iss" = None) with mkAttestationError "attestation is missing 'iss'";
  let? client_id := ok_or (get_str claims "sub" ≫= fun s => if bool_decide (s = EmptyString) then None else Some s)
    (mkAttestationError "attestation is missing 'sub'") in
  let? _ := check_time_window claims now "attestation" true in
  let? instance_key := ok_or
    (pointer2 claims "cnf" "jwk" ≫= fun jwk => match jwk_from_value jwk with inl k => Some k | inr _ => None end)
    (mkAttestationError "attestation is missing 'cnf.jwk'") in
  fail? bool_decide (is_Some (jwk_d instance_key)) with
    mkAttestationError "attestation 'cnf.jwk' must not contain a private key";
  Ok (mkAttestedClient client_id instance_key).

(** The proof of possession of an attested client: its identifier. *)
Definition check_pop (pop : string) (client : AttestedClient) (audience : string) (now : Z)
    : res string AttestationError :=
  let? decoded := map_err (fun e => mkAttestationError ("PoP signature: " +:+ jws_error_to_string e))
    (verify_with_public_jwk pop (atc_instance_key client)) in
  fail? bool_decide (hdr_typ (dj_header decoded) <> Some "oauth-client-attestation-pop+jwt"%string) with
    mkAttestationError "PoP typ must be 'oauth-client-attestation-pop+jwt'";
  let? pop_claims := map_err (fun e => mkAttestationError ("PoP: " +:+ e))
    (from_ext (value_from_slice (dj_payload decoded))) in
  fail? match get_str pop_claims "iss" with
        | Some iss => bool_decide (iss <> atc_client_id client) | None => false end with
    mkAttestationError "PoP 'iss' does not match the attested client";
  fail? negb (aud_ok (get pop_claims "aud") audience) with
    mkAttestationError "PoP 'aud' is not this authorization server";
  let? iat := ok_or (get_i64 pop_claims "iat") (mkAttestationError "PoP is missing 'iat'") in
  fail? (now + SKEW_SECS <? iat) || (iat <? now - POP_MAX_AGE_SECS) with
    mkAttestationError "PoP 'iat' is outside the accepted window";
  let? _ := check_time_window pop_claims now "PoP" false in
  ok_or (get_str pop_claims "jti") (mkAttestationError "PoP is missing 'jti'").

Definition pop_key (client_id jti : string) : string :=
  "attestation-pop:" +:+ client_id +:+ ":" +:+ jti.

Definition verify_client_attestation (attestation pop : string) (trusted_attesters : list Jwk)
    (audience : string) : prog IssuerF (res AttestedClient AttestationError) :=
  do t <- utc_now;
  let now := timestamp t in
  do? client <- Ret (check_attestation attestation trusted_attesters now);
  do? jti <- Ret (check_pop pop client audience now);
  do? fresh <- pmap_err (fun e => mkAttestationError (state_error_to_string e))
    (trigger (RecordJti (pop_key (atc_client_id client) jti)
                (as_u64 (POP_MAX_AGE_SECS + SKEW_SECS))));
  pfail? negb fresh with mkAttestationError "PoP 'jti' has already been used";
  Ret (Ok client).
End ClientAttestation.

(** ** What an accepted client satisfies *)
Section AttestationFacts.
Context `{Profile} `{Base64Url} `{P256} `{Ed25519} `{HeaderSerde} `{SerdeJson} `{ClaimsSerde}.

(** Inside [exp] and [nbf], with the tolerated skew on both sides. *)
Definition in_window (claims : Value) (now : Z) (exp_required : bool) : Prop :=
  (exp_required = true -> is_Some (get_i64 claims "exp")) /\
  (forall exp, get_i64 claims "exp" = Some exp -> now <= exp + 60 <= i64_max) /\
  (forall nbf, get_i64 claims "nbf" = Some nbf -> nbf <= now + 60).

Lemma exp_check_Ok claims now (what : string) req :
  0 <= now ->
  check_exp claims now what req = Ok tt <->
  (req = true -> is_Some (get_i64 claims "exp")) /\
  (forall exp, get_i64 claims "exp" = Some exp -> now <= exp + 60 <= i64_max).
Proof.
  intros Hnow. unfold check_exp, i64_add, SKEW_SECS. destruct (get_i64 claims "exp") as [exp|] eqn:He.
  2:{ destruct req; [|done]. split; [done|]. intros [Hs _]. by destruct Hs. }
  apply get_i64_range, in_i64_spec in He. unfold i64_result.
  assert (Hin : in_i64 (exp + 60) = true <-> exp + 60 <= i64_max).
  { rewrite in_i64_spec. unfold i64_min, i64_max in *. lia. }
  transitivity (now <= exp + 60 <= i64_max).
  2:{ split; [|intros [_ Ha]; by apply Ha]. intros ?. split; [done|]. by intros e [= <-]. }
  destruct (in_i64 (exp + 60)); simpl.
  - destruct (Z.ltb_spec (exp + 60) now); split; (done || lia).
  - assert (~ exp + 60 <= i64_max) by (intros ?; intuition done).
    destruct overflow_checks; simpl; [split; [done|lia]|].
    rewrite (proj2 (Z.ltb_lt _ _)); [split; [done|lia]|].
    rewrite as_i64_above; unfold i64_max, i64_min in *; lia.
Qed.

Lemma check_time_window_Ok claims now what req :
  0 <= now -> check_time_window claims now what req = Ok tt <-> in_window claims now req.
Proof.
  intros Hnow. pose proof (exp_check_Ok claims now what req Hnow) as He.
  unfold check_time_window, in_window, SKEW_SECS. rewrite res_bind_Ok. split.
  - intros ([] & [? ?]%He & Hn). repeat (split; [done|]). intros nbf Hnbf. rewrite Hnbf in Hn.
    destruct (Z.ltb_spec (now + 60) nbf); [done|lia].
  - intros (? & ? & Hn). exists tt. split; [by apply He|].
    destruct (get_i64 claims "nbf") as [nbf|]; [|done].
    by rewrite (proj2 (Z.ltb_ge _ _) (Hn _ eq_refl)).
Qed.

(** The overflow of [exp + SKEW_SECS] is the only way to panic. *)
Lemma check_time_window_Panic claims now what req :
  check_time_window claims now what req = Panic -> overflow_checks = true.
Proof.
  unfold check_time_window, check_exp, i64_add, i64_result.
  destruct (get_i64 claims "exp") as [exp|];
    [destruct (in_i64 _); [|destruct overflow_checks; [done|]]|destruct req]; simpl; try done;
    repeat match goal with |- context [if ?c then _ else _] => destruct c end; simpl; try done;
    destruct (get_i64 claims "nbf"); simpl; try done;
    repeat match goal with |- context [if ?c then _ else _] => destruct c end; done.
Qed.
(** What an attestation must be at a Unix time to vouch for a client. *)
Record attests (attestation : string) (trusted : list Jwk) (now : Z) (client : AttestedClient)
    : Prop := {
  at_jwt : exists d claims key,
    decode_compact attestation = Ok d /\ key ∈ trusted /\
    kid_matches (hdr_kid (dj_header d)) key = true /\
    verify_with_public_jwk attestation key = Ok d /\
    hdr_typ (dj_header d) = Some "oauth-client-attestation+jwt"%string /\
    hdr_alg (dj_header d) = "ES256"%string /\
    value_from_slice (dj_payload d) = inl claims /\
    is_Some (get_str claims "iss") /\ get_str claims "sub" = Some (atc_client_id client) /\
    in_window claims now true /\
    exists jwk, pointer2 claims "cnf" "jwk" = Some jwk /\
      jwk_from_value jwk = inl (atc_instance_key client);
  at_client : atc_client_id client <> EmptyString;
  at_public : jwk_d (atc_instance_key client) = None;
}.

Lemma signed_by_trusted_spec attestation kid trusted d :
  decode_compact attestation = Ok d ->
  signed_by_trusted attestation kid trusted = true <->
  exists key, key ∈ trusted /\ kid_matches kid key = true /\
    verify_with_public_jwk attestation key = Ok d.
Proof.
  intros Hd. unfold signed_by_trusted. rewrite existsb_exists.
  apply exist_proper. intros key. rewrite <- list_elem_of_In.
  apply and_iff_compat_l. rewrite andb_true_iff. apply and_iff_compat_l.
  destruct (verify_with_public_jwk attestation key) as [d'| |] eqn:E; simpl; [|by split..].
  apply verify_decodes in E. split; [congruence|done].
Qed.

Lemma check_attestation_Ok attestation trusted now client :
  0 <= now ->
  check_attestation attestation trusted now = Ok client <-> attests attestation trusted now client.
Proof.
  intros Hnow. unfold check_attestation. split.
  - intros Ho. inv_ok. b2p. simplify_eq.
    repeat match goal with H : ~ (_ <> _) |- _ => apply dec_stable in H end.
    match goal with u : () |- _ => destruct u end.
    match goal with Hw : check_time_window _ _ _ _ = Ok tt |- _ => apply check_time_window_Ok in Hw; [|done] end.
    match goal with Hs : signed_by_trusted _ _ _ = true, Hd : decode_compact _ = Ok _ |- _ =>
      apply (signed_by_trusted_spec _ _ _ _ Hd) in Hs as (key & ? & ? & ?) end.
    destruct (get_str _ "sub") as [sub|] eqn:Hsub; simpl in *; [|done].
    case_bool_decide; [done|]. simplify_eq.
    destruct (pointer2 _ _ _) as [j|] eqn:Hj; simpl in *; [|done].
    destruct (jwk_from_value j) as [k|] eqn:Hk; [|done]. simplify_eq.
    split; simpl; [|done|by apply eq_None_not_Some].
    match goal with Hd : decode_compact _ = Ok ?d, Hc : value_from_slice _ = inl ?c |- _ =>
      exists d, c, key end.
    repeat (split; try done); try (by apply not_eq_None_Some); eauto.
    match goal with H : ~ (_ ∉ ATTESTATION_SIGNING_ALGS) |- _ => apply dec_stable in H end.
    by apply list_elem_of_singleton.
  - intros [(d & claims & key & Hd & Hin & Hkid & Hv & Ht & Ha & Hc & Hiss & Hsub & Hw & jwk & Hp & Hj) Hne Hpub].
    rewrite Hd. simpl. rewrite Hc. simpl. rewrite Hsub, Hp. simpl. rewrite Hj. simpl.
    rewrite (bool_decide_eq_false_2 (atc_client_id client = _)) by done. simpl.
    rewrite (proj2 (check_time_window_Ok claims now "attestation" true Hnow) Hw). simpl.
    rewrite (proj2 (signed_by_trusted_spec attestation (hdr_kid (dj_header d)) trusted d Hd)) by eauto.
    rewrite !bool_decide_eq_false_2; [by destruct client|..].
    + rewrite Hpub. by intros [].
    + by apply not_eq_None_Some.
    + rewrite Ha. intros Hx. apply Hx. constructor.
    + auto.
Qed.

(** What the proof of possession must be. *)
Definition possesses (pop : string) (client : AttestedClient) (audience : string) (now : Z)
    (jti : string) : Prop :=
  exists d claims iat,
    verify_with_public_jwk pop (atc_instance_key client) = Ok d /\
    hdr_typ (dj_header d) = Some "oauth-client-attestation-pop+jwt"%string /\
    value_from_slice (dj_payload d) = inl claims /\
    (forall iss, get_str claims "iss" = Some iss -> iss = atc_client_id client) /\
    aud_ok (get claims "aud") audience = true /\
    get_i64 claims "iat" = Some iat /\ now - 300 <= iat <= now + 60 /\
    in_window claims now false /\ get_str claims "jti" = Some jti.

Lemma check_pop_Ok pop client audience now jti :
  0 <= now -> check_pop pop client audience now = Ok jti <-> possesses pop client audience now jti.
Proof.
  intros Hnow. unfold check_pop, POP_MAX_AGE_SECS, SKEW_SECS. split.
  - intros Ho. inv_ok. b2p.
    repeat match goal with H : ~ (_ <> _) |- _ => apply dec_stable in H end.
    match goal with u : () |- _ => destruct u end.
    match goal with Hw : check_time_window _ _ _ _ = Ok tt |- _ => apply check_time_window_Ok in Hw; [|done] end.
    do 3 eexists. repeat (split; try done); try lia.
    intros iss Hiss. rewrite Hiss in *. b2p. by apply dec_stable.
  - intros (d & claims & iat & -> & Ht & Hc & Hiss & Hau & Hi & ? & Hw & Hj). simpl. rewrite Hc. simpl.
    rewrite Hau, Hi, Hj. simpl.
    rewrite (proj2 (Z.ltb_ge _ _)), (proj2 (Z.ltb_ge _ _)) by lia. simpl.
    rewrite (proj2 (check_time_window_Ok claims now "PoP" false Hnow) Hw). simpl.
    rewrite (bool_decide_eq_false_2 (hdr_typ _ <> _)) by auto.
    destruct (get_str claims "iss") as [iss|]; [|done].
    by rewrite bool_decide_eq_false_2 by (rewrite (Hiss iss eq_refl); auto).
Qed.

(** The only panic is the overflow of the validity window. *)
Lemma check_time_window_np claims now what req :
  overflow_checks = false -> check_time_window claims now what req <> Panic.
Proof. intros Ho Hp. apply check_time_window_Panic in Hp. congruence. Qed.

Lemma check_attestation_np attestation trusted now :
  overflow_checks = false -> check_attestation attestation trusted now <> Panic.
Proof.
  intros Ho. pose proof (fun c n w r => check_time_window_np c n w r Ho).
  unfold check_attestation. solve_np.
Qed.

Lemma check_pop_np pop client audience now :
  overflow_checks = false -> check_pop pop client audience now <> Panic.
Proof.
  intros Ho. pose proof (fun c n w r => check_time_window_np c n w r Ho).
  unfold check_pop. solve_np.
Qed.

Context `{CL : ChronoLaws}.

Lemma verify_attestation_calls attestation pop trusted audience :
  calls_in allowed (verify_client_attestation attestation pop trusted audience).
Proof. unfold verify_client_attestation, utc_now, trigger. solve_calls. Qed.

Lemma attestation_run attestation pop trusted audience v r v' :
  0 <= read_at v ->
  run Spec.handler (verify_client_attestation attestation pop trusted audience) v = (r, v') ->
  match r with
  | Ok client =>
      attests attestation trusted (read_at v) client /\
      exists jti, possesses pop client audience (read_at v) jti /\
        ~ Spec.jti_seen (store v) (pop_key (atc_client_id client) jti) (stored_at v) /\
        store v' = Spec.set_jti_log
          (<[pop_key (atc_client_id client) jti := stored_at v + 360 * NANOS]> (jti_log (store v)))
          (store v)
  | Err _ =>
      store v' = store v /\
      forall client jti, attests attestation trusted (read_at v) client ->
        possesses pop client audience (read_at v) jti ->
        Spec.jti_seen (store v) (pop_key (atc_client_id client) jti) (stored_at v)
  | Panic => store v' = store v /\ overflow_checks = true
  end.
Proof.
  intros Hnow Hr. unfold verify_client_attestation, pbind_res, pmap_err, pmap in Hr. simpl in Hr.
  fold (read_at v) in Hr.
  pose proof (fun c => check_attestation_Ok attestation trusted (read_at v) c Hnow) as Hat.
  pose proof (check_attestation_np attestation trusted (read_at v)) as Hnp.
  destruct (check_attestation attestation trusted (read_at v)) as [client|e|]; simpl in Hr; simplify_eq.
  2:{ split; [done|]. intros client jti Ha. by apply Hat in Ha. }
  2:{ split; [done|]. destruct overflow_checks; [done|]. by destruct (Hnp eq_refl). }
  pose proof (proj1 (Hat client) eq_refl) as Ha.
  assert (Hany : forall c, attests attestation trusted (read_at v) c -> c = client).
  { intros c Hc. apply Hat in Hc. congruence. }
  pose proof (fun j => check_pop_Ok pop client audience (read_at v) j Hnow) as Hpo.
  pose proof (check_pop_np pop client audience (read_at v)) as Hnp'.
  destruct (check_pop pop client audience (read_at v)) as [jti|e|]; simpl in Hr; simplify_eq.
  2:{ split; [done|]. intros c jti ->%Hany Hj. by apply Hpo in Hj. }
  2:{ split; [done|]. destruct overflow_checks; [done|]. by destruct (Hnp' eq_refl). }
  change (as_u64 (POP_MAX_AGE_SECS + SKEW_SECS)) with 360 in Hr.
  change (clock (sys v) _) with (stored_at v) in Hr.
  destruct (record_jti_spec (store v) (pop_key (atc_client_id client) jti) 360 (stored_at v))
    as [[Hs He]|[Hs He]]; simpl in He; rewrite He in Hr; simpl in Hr; simplify_eq; simpl.
  - split; [done|]. intros c jti' ->%Hany Hj. apply Hpo in Hj. by simplify_eq.
  - split; [done|]. exists jti. split; [by apply Hpo|done].
Qed.

(** The proof of possession has the algorithm of the attested key, whichever
    the crate supports for it. *)
Lemma possesses_algorithm pop client audience now jti :
  possesses pop client audience now jti ->
  exists d alg, decode_compact pop = Ok d /\ algorithm_for_jwk (atc_instance_key client) = Ok alg /\
    hdr_alg (dj_header d) = alg_as_str alg.
Proof.
  intros (d & _ & _ & Hv & _). unfold verify_with_public_jwk in Hv. inv_ok. b2p. simplify_eq.
  match goal with H : ~ (_ <> _) |- _ => apply dec_stable in H end. eauto.
Qed.

(** C29: A client is authenticated over the in-memory storage exactly when the
    attestation is an unexpired ES256 JWT of a trusted attester, with the
    attester's key identifier if both name one, that binds a public key to a
    client, and the proof of possession is a JWT of that key, addressed to this
    server, dated at most 300 seconds ago and at most 60 seconds ahead, with an
    identifier not remembered for this client; it is then remembered for 360
    seconds.  Only the attestation has to be ES256: the proof of possession has
    the algorithm of the attested key, so an Ed25519 key proves itself with
    EdDSA, although the constant of the source and the metadata name ES256 for
    both.  A refusal changes nothing, and the only panic is the overflow of an
    expiry date in a build with overflow checks. *)
Theorem verify_client_attestation_exact attestation pop trusted audience w v r w' :
  world_refines w v ->
  run InMemory.handler (verify_client_attestation attestation pop trusted audience) w = (r, w') ->
  exists v', world_refines w' v' /\
  match r with
  | Ok client =>
      attests attestation trusted (read_at w) client /\
      exists jti, possesses pop client audience (read_at w) jti /\
        ~ Spec.jti_seen (store v) (pop_key (atc_client_id client) jti) (stored_at w) /\
        store v' = Spec.set_jti_log
          (<[pop_key (atc_client_id client) jti := stored_at w + 360 * NANOS]> (jti_log (store v)))
          (store v) /\
        exists d alg, decode_compact pop = Ok d /\ algorithm_for_jwk (atc_instance_key client) = Ok alg /\
          hdr_alg (dj_header d) = alg_as_str alg
  | Err _ =>
      store v' = store v /\
      forall client jti, attests attestation trusted (read_at w) client ->
        possesses pop client audience (read_at w) jti ->
        Spec.jti_seen (store v) (pop_key (atc_client_id client) jti) (stored_at w)
  | Panic => store v' = store v /\ overflow_checks = true
  end.
Proof.
  intros Hw Hr.
  destruct (run_in_memory _ _ _ _ _ (verify_attestation_calls _ _ _ _) Hw Hr) as (v' & Hv & Hw').
  exists v'. split; [done|]. destruct Hw as (Hs & _ & Hc & _). unfold read_at, stored_at in *.
  rewrite Hs in *. apply attestation_run in Hv.
  - destruct r as [client|e|]; [|exact Hv..]. destruct Hv as (Ha & jti & Hp & Hf & He). split; [done|].
    exists jti. split_and!; [done..|]. by eapply possesses_algorithm.
  - unfold read_at. rewrite timestamp_spec. apply Z.div_pos; [|unfold NANOS; lia]. apply Hc.
Qed.
End AttestationFacts.

(** ** An attested client *)
Module AttestationDemo.
Import Toy ToyCurves ToyCodec JwsDemo IssuerDemo SdJwtDemo.

#[local] Instance debug : Profile := {| overflow_checks := true |}.

Definition obj_of_jwk (k : Jwk) : Value := json_obj
  [("kty"%string, VString (jwk_kty k)); ("crv"%string, opt_value (jwk_crv k));
   ("x"%string, opt_value (jwk_x k))].
Definition instance : Jwk := mkJwk "OKP" (Some "Ed25519"%string) (jwk_x holder) None None None None None.
Definition client : AttestedClient := mkAttestedClient "w" instance.

Definition attestation_claims (exp : Z) : Value := json_obj
  [("iss"%string, VString "a"); ("sub"%string, VString "w"); ("exp"%string, VInt exp);
   ("cnf"%string, json_obj [("jwk"%string, obj_of_jwk instance)])].
Definition pop_claims : Value := json_obj
  [("aud"%string, VArray [VString "https://o"; VString "https://i/"]); ("iat"%string, VInt 990);
   ("jti"%string, VString "j")].

Definition sign (k : KeyPair) (typ : string) (v : Value) : string :=
  unwrap_or EmptyString (sign_compact k (build_header k (Some typ)) (value_to_vec v)).
Definition attestation : string := Eval vm_compute in
  sign (ec_key_pair ec1) "oauth-client-attestation+jwt" (attestation_claims 2000).
Definition pop : string := Eval vm_compute in
  sign (ed_key_pair ed0) "oauth-client-attestation-pop+jwt" pop_claims.

Definition authenticated := run InMemory.handler
  (verify_client_attestation attestation pop [ec1_jwk] "https://i") demo_world.

#[local] Strategy expand [authenticated].

Lemma authenticated_Ok : authenticated.1 = Ok client.
Proof. vm_compute. reflexivity. Qed.

Lemma verify_client_attestation_exact_witness :
  exists v', world_refines authenticated.2 v' /\
    attests attestation [ec1_jwk] (read_at demo_world) client /\
    exists jti, possesses pop client "https://i" (read_at demo_world) jti /\
      ~ Spec.jti_seen (store demo_spec) (pop_key (atc_client_id client) jti) (stored_at demo_world) /\
      store v' = Spec.set_jti_log
        (<[pop_key (atc_client_id client) jti := stored_at demo_world + 360 * NANOS]>
          (jti_log (store demo_spec))) (store demo_spec) /\
      exists d alg, decode_compact pop = Ok d /\ algorithm_for_jwk (atc_instance_key client) = Ok alg /\
        hdr_alg (dj_header d) = alg_as_str alg.
Proof.
  apply (verify_client_attestation_exact attestation pop [ec1_jwk] "https://i" demo_world demo_spec
    (Ok client) authenticated.2).
  - apply demo_refines.
  - apply pair_eq_fst, authenticated_Ok.
Defined.

(** The proof of possession was EdDSA, which is not among the algorithms said to
    be accepted for both JWTs. *)
Lemma pop_algorithm_unrestricted :
  authenticated.1 = Ok client /\
  (exists d, decode_compact pop = Ok d /\ hdr_alg (dj_header d) = "EdDSA"%string) /\
  "EdDSA"%string ∉ ATTESTATION_SIGNING_ALGS.
Proof.
  split; [exact authenticated_Ok|]. split.
  - eexists. split; vm_compute; reflexivity.
  - apply (bool_decide_unpack _). vm_compute. exact I.
Qed.

(** An attestation that is valid for ever: a build with overflow checks
    panics on it. *)
Definition eternal : string := Eval vm_compute in
  sign (ec_key_pair ec1) "oauth-client-attestation+jwt" (attestation_claims i64_max).

Lemma eternal_attestation_panics :
  (run InMemory.handler (verify_client_attestation eternal pop [ec1_jwk] "https://i") demo_world).1
  = Panic.
Proof. vm_compute. reflexivity. Qed.
End AttestationDemo.
