(* ===== verification/Metadata.v ===== *)
(** * Issuer metadata

    crates/issuer/src/metadata.rs: the documents the issuer publishes about
    itself. *)
From S2P Require Import Prelude Externals Strings Json Oid4vci Dpop ClientAttestation.

Definition BATCH_SIZE : Z := 10.
Definition COSE_ES256 : Z := -7.

Definition MDL_ELEMENTS : list string :=
  ["family_name"; "given_name"; "birth_date"; "issue_date"; "expiry_date"; "issuing_country";
   "issuing_authority"; "document_number"; "portrait"; "driving_privileges"; "un_distinguishing_sign";
   "age_over_18"; "age_over_21"].

Definition claim_description (path : list string) (mandatory : bool) : ClaimDescription :=
  mkClaimDescription (map VString path) (Some mandatory).

Definition IDENTITY_VCT_PATH : string := "/credentials/identity".

Section Metadata.
Context `{UrlApi}.

Record MetadataConfig := mkMetadataConfig {
  mc_issuer_url : Url;
  mc_issuer_name : string;
}.

Definition issuer_id (config : MetadataConfig) : string :=
  trim_end_matches slash (url_as_str (mc_issuer_url config)).

(** [issuer_url.join(path).expect(..)] *)
Definition join_path {E} (config : MetadataConfig) (path : string) : res Url E :=
  unwrap (from_ext (url_join (mc_issuer_url config) path)).

Definition identity_configuration (config : MetadataConfig) : CredentialConfiguration := {|
  cc_format := "dc+sd-jwt";
  cc_scope := Some "identity_credential"%string;
  cc_cryptographic_binding_methods_supported := Some ["jwk"%string];
  cc_credential_signing_alg_values_supported := Some [VString "ES256"];
  cc_proof_types_supported := Some {[ "jwt"%string := mkProofTypeMetadata ["ES256"; "EdDSA"]%string ]};
  cc_credential_metadata := Some {|
    cm_display := Some [{|
      cd_name := "Identity Credential"; cd_locale := Some "en"%string; cd_logo := None;
      cd_description := Some "A verifiable identity credential"%string;
      cd_background_color := Some "#1a1a2e"%string; cd_text_color := Some "#ffffff"%string |}];
    cm_claims := Some [claim_description ["given_name"%string] true;
      claim_description ["family_name"%string] true; claim_description ["birth_date"%string] true] |};
  cc_vct := Some (issuer_id config +:+ IDENTITY_VCT_PATH);
  cc_doctype := None |}.

Definition mdl_configuration : CredentialConfiguration := {|
  cc_format := "mso_mdoc";
  cc_scope := Some "org.iso.18013.5.1.mDL"%string;
  cc_cryptographic_binding_methods_supported := Some ["cose_key"%string];
  cc_credential_signing_alg_values_supported := Some [VNumber (NInt COSE_ES256)];
  cc_proof_types_supported := Some {[ "jwt"%string := mkProofTypeMetadata ["ES256"%string] ]};
  cc_credential_metadata := Some {|
    cm_display := Some [{|
      cd_name := "Mobile Driver's License"; cd_locale := Some "en"%string; cd_logo := None;
      cd_description := Some "ISO/IEC 18013-5 compliant mobile driving license"%string;
      cd_background_color := Some "#0e4d92"%string; cd_text_color := Some "#ffffff"%string |}];
    cm_claims := Some (map (fun name => claim_description ["org.iso.18013.5.1"%string; name] true) MDL_ELEMENTS) |};
  cc_vct := None;
  cc_doctype := Some "org.iso.18013.5.1.mDL"%string |}.

Definition build_metadata {E} (config : MetadataConfig) : res CredentialIssuerMetadata E :=
  let configurations : gmap string CredentialConfiguration :=
    <["mDL_mso_mdoc"%string := mdl_configuration]>
      (<["IdentityCredential_SD_JWT_VC"%string := identity_configuration config]> ∅) in
  let? credential_endpoint := join_path config "/credential" in
  let? nonce_endpoint := join_path config "/nonce" in
  Ok {|
    cim_credential_issuer := issuer_id config;
    cim_authorization_servers := None;
    cim_credential_endpoint := credential_endpoint;
    cim_deferred_credential_endpoint := None;
    cim_nonce_endpoint := Some nonce_endpoint;
    cim_batch_credential_issuance := Some (mkBatchCredentialIssuance BATCH_SIZE);
    cim_credential_configurations_supported := configurations;
    cim_display := Some [mkIssuerDisplay (mc_issuer_name config) (Some "en"%string) None] |}.

Definition type_claim (name label : string) : Value :=
  json_obj [
    ("path"%string, VArray [VString name]);
    ("display"%string, VArray [json_obj [("locale"%string, VString "en"); ("label"%string, VString label)]]);
    ("sd"%string, VString "always");
    ("mandatory"%string, VBool true)].

Definition build_identity_type_metadata (config : MetadataConfig) : Value :=
  json_obj [
    ("vct"%string, VString (issuer_id config +:+ IDENTITY_VCT_PATH));
    ("name"%string, VString "Identity Credential");
    ("description"%string, VString "A verifiable identity credential");
    ("display"%string, VArray [json_obj [
      ("locale"%string, VString "en");
      ("name"%string, VString "Identity Credential");
      ("description"%string, VString "A verifiable identity credential")]]);
    ("claims"%string, VArray [
      type_claim "given_name" "Given name";
      type_claim "family_name" "Family name";
      type_claim "birth_date" "Date of birth"])].

(** [to_strings]: the same strings, owned. *)
Definition to_strings (values : list string) : list string := map (fun v => v) values.

Definition build_authorization_server_metadata {E} (config : MetadataConfig)
    : res AuthorizationServerMetadata E :=
  let? authorization_endpoint := join_path config "/authorize" in
  let? token_endpoint := join_path config "/token" in
  let? par_endpoint := join_path config "/authorize/par" in
  let? jwks_uri := join_path config "/.well-known/jwks.json" in
  Ok {|
    asm_issuer := issuer_id config;
    asm_authorization_endpoint := authorization_endpoint;
    asm_token_endpoint := token_endpoint;
    asm_pushed_authorization_request_endpoint := Some par_endpoint;
    asm_require_pushed_authorization_requests := true;
    asm_jwks_uri := jwks_uri;
    asm_response_types_supported := ["code"%string];
    asm_grant_types_supported :=
      ["authorization_code"%string; "urn:ietf:params:oauth:grant-type:pre-authorized_code"%string];
    asm_code_challenge_methods_supported := ["S256"%string];
    asm_token_endpoint_auth_methods_supported := [AUTH_METHOD];
    asm_pre_authorized_grant_anonymous_access_supported := true;
    asm_dpop_signing_alg_values_supported := to_strings DPOP_SIGNING_ALGS;
    asm_client_attestation_signing_alg_values_supported := to_strings ATTESTATION_SIGNING_ALGS;
    asm_client_attestation_pop_signing_alg_values_supported := to_strings ATTESTATION_SIGNING_ALGS;
    asm_authorization_response_iss_parameter_supported := true |}.

Definition validate_credential_config (metadata : CredentialIssuerMetadata) (config_id : string)
    : option CredentialConfiguration :=
  cim_credential_configurations_supported metadata !! config_id.
End Metadata.
