(* ===== verification/Offer.v ===== *)
(** * Credential offers

    crates/issuer/src/offer.rs. *)
From S2P Require Import Prelude Externals Strings Effects Oid4vci.

Record OfferParams := mkOfferParams {
  op_credential_configuration_ids : list string;
  op_use_authorization_code : bool;
  op_use_pre_authorized_code : bool;
  op_require_tx_code : bool;
}.

(** [serde_json::to_string] of an offer, and [urlencoding::encode]. *)
Class OfferSerde `{UrlApi} := {
  offer_to_string : CredentialOffer -> string + string;
  percent_encode : string -> string;
}.

Section Offer.
Context `{UrlApi}.
Context {F : Type -> Type} `{Sub SysE F}.

Definition offered_tx_code : TxCode :=
  mkTxCode (Some "numeric"%string) (Some 6) (Some "Please enter the 6-digit PIN"%string).

Definition create_offer (issuer_url : Url) (params : OfferParams)
    : prog F (CredentialOffer * option string) :=
  do authorization_code <-
    (if op_use_authorization_code params then
       do state <- new_v4;
       Ret (Some (mkAuthorizationCodeGrant (Some state) None))
     else Ret None);
  do pre_auth_code <- (if op_use_pre_authorized_code params then pmap Some new_v4 else Ret None);
  let pre_authorized_code :=
    (fun code => mkPreAuthorizedCodeGrant code
      (if op_require_tx_code params then Some offered_tx_code else None)) <$> pre_auth_code in
  let offer := {|
    co_credential_issuer := trim_end_matches slash (url_as_str issuer_url);
    co_credential_configuration_ids := op_credential_configuration_ids params;
    co_grants := Some (mkGrants authorization_code pre_authorized_code) |} in
  Ret (offer, pre_auth_code).

Definition encode_offer_uri `{!OfferSerde} (issuer_url : Url) (offer : CredentialOffer) : string :=
  let offer_json := match offer_to_string offer with inl s => s | inr _ => EmptyString end in
  "openid-credential-offer://?credential_offer=" +:+ percent_encode offer_json.
End Offer.
