(* ===== verification/Credential.v ===== *)
(** * The Credential Endpoint

    crates/issuer/src/credential.rs: what a request may ask for, the proofs of
    possession, and issuing one credential per proof.  A request is processed
    by a program over the storage and the system; allocating a status entry is
    a program of the caller's. *)
From S2P Require Import Prelude Externals Strings Effects Json Keys Jws Credentials SdJwt X509 Cbor Cose Mdoc.
From S2P Require Import Oid4vci IssuerState Metadata.

Definition PROOF_MAX_AGE_SECS : Z := 300.
Definition MSO_VALIDITY_DAYS : Z := 365.
Definition DEMO_BIRTH_DATE : string := "1990-01-01".
Definition ISSUING_AUTHORITY : string := "oid4vc-rs Development Issuing Authority".
Definition DEMO_DOCUMENT_NUMBER : string := "D1234567".

(** The bytes of assets/portrait.jpg. *)
Class Assets := { PORTRAIT_JPEG : bytes }.

(** The order in which a [HashSet] and a [HashMap] are iterated: any. *)
Class HashIter := {
  iter_set : gset string -> list string;
  iter_map : gmap string Value -> list (string * Value);
}.
Class HashIterLaws (H : HashIter) : Prop := {
  iter_set_perm s : iter_set s ≡ₚ elements s;
  iter_map_perm m : iter_map m ≡ₚ map_to_list m;
}.

Inductive CredentialError :=
| CR_InvalidAccessToken
| CR_InvalidCredentialRequest (msg : string)
| CR_UnknownCredentialConfiguration (id : string)
| CR_UnknownCredentialIdentifier (id : string)
| CR_InvalidProof (msg : string)
| CR_InvalidNonce
| CR_UnsupportedFormat (msg : string)
| CR_IssuanceError (msg : string)
| CR_StateError (msg : string).

Definition credential_error_to_string (e : CredentialError) : string :=
  match e with
  | CR_InvalidAccessToken => "invalid access token"
  | CR_InvalidCredentialRequest s => "invalid credential request: " +:+ s
  | CR_UnknownCredentialConfiguration s => "unknown credential configuration: " +:+ s
  | CR_UnknownCredentialIdentifier s => "unknown credential identifier: " +:+ s
  | CR_InvalidProof s => "invalid or missing proof of possession: " +:+ s
  | CR_InvalidNonce => "invalid or expired c_nonce"
  | CR_UnsupportedFormat s => "unsupported credential format: " +:+ s
  | CR_IssuanceError s => "issuance error: " +:+ s
  | CR_StateError s => "state error: " +:+ s
  end.

Definition credential_error_code (e : CredentialError) : string :=
  match e with
  | CR_InvalidAccessToken => "invalid_token"
  | CR_InvalidCredentialRequest _ | CR_UnsupportedFormat _ => "invalid_credential_request"
  | CR_UnknownCredentialConfiguration _ => "unknown_credential_configuration"
  | CR_UnknownCredentialIdentifier _ => "unknown_credential_identifier"
  | CR_InvalidProof _ => "invalid_proof"
  | CR_InvalidNonce => "invalid_nonce"
  | CR_IssuanceError _ | CR_StateError _ => "server_error"
  end.

(** The allocators are programs over the caller's signature. *)
Record MdocSigner (F : Type -> Type) := mkMdocSigner {
  ms_certificate : IssuerCertificate;
  ms_allocate_status : prog F (res (option Mdoc.StatusListRef) string);
}.
Arguments ms_certificate {F} m.
Arguments ms_allocate_status {F} m.

Record IssuanceContext `{UrlApi} (F : Type -> Type) := mkIssuanceContext {
  ic_issuer_key : KeyPair;
  ic_issuer_url : string;
  ic_metadata : CredentialIssuerMetadata;
  ic_allocate_status : prog F (res (option Value) string);
  ic_x5c : option (list string);
  ic_mdoc : option (MdocSigner F);
}.
Arguments ic_issuer_key {_ F} i.
Arguments ic_issuer_url {_ F} i.
Arguments ic_metadata {_ F} i.
Arguments ic_allocate_status {_ F} i.
Arguments ic_x5c {_ F} i.
Arguments ic_mdoc {_ F} i.

(** The derived serialization of a JWK. *)
Definition jwk_json (k : Jwk) : Value :=
  json_obj (
    [("kty"%string, VString (jwk_kty k))] ++
    opt_member "crv" VString (jwk_crv k) ++ opt_member "x" VString (jwk_x k) ++
    opt_member "y" VString (jwk_y k) ++ opt_member "d" VString (jwk_d k) ++
    opt_member "alg" VString (jwk_alg k) ++ opt_member "kid" VString (jwk_kid k) ++
    opt_member "use" VString (jwk_use k)).

Section Credential.
Context `{Sha2} `{Base64Url} `{Base64Std} `{P256} `{Ed25519} `{HeaderSerde} `{SerdeJson} `{ClaimsSerde}.
Context `{Chrono} `{UrlApi} `{CT : CosetTypes} `{!Coset} `{Ciborium} `{DebugStr} `{X509Api}.
Context `{Profile} `{Assets} `{HashIter}.
Context {F : Type -> Type} `{Sub SysE F} `{Sub IssuerStateE F}.

(** ** What may be asked for *)

Definition named_configuration (request : CredentialRequest) (grant : AccessGrant)
    (metadata : CredentialIssuerMetadata) : res string CredentialError :=
  match cr_credential_identifier request, cr_credential_configuration_id request with
  | Some _, Some _ =>
      Err (CR_InvalidCredentialRequest "send credential_identifier or credential_configuration_id, not both")
  | None, None =>
      Err (CR_InvalidCredentialRequest "credential_identifier or credential_configuration_id is required")
  | Some identifier, None =>
      ok_or (ag_credential_identifiers grant !! identifier) (CR_UnknownCredentialIdentifier identifier)
  | None, Some config_id =>
      fail? bool_decide (is_Some (cim_credential_configurations_supported metadata !! config_id))
            && negb (bool_decide (ag_credential_identifiers grant = ∅)) with
        CR_InvalidCredentialRequest "this access token was issued with credential_identifiers; use one";
      Ok config_id
  end.

Definition resolve_configuration (request : CredentialRequest) (grant : AccessGrant)
    (metadata : CredentialIssuerMetadata) : res (string * CredentialConfiguration) CredentialError :=
  let? id := named_configuration request grant metadata in
  let? config := ok_or (cim_credential_configurations_supported metadata !! id)
    (CR_UnknownCredentialConfiguration id) in
  fail? bool_decide (id ∉ ag_credential_configuration_ids grant) with
    CR_UnknownCredentialConfiguration (id +:+ " was not authorized for this access token");
  Ok (id, config).

(** The proofs of a request: JWTs, at least one and at most a batch. *)
Definition request_proofs (request : CredentialRequest) (metadata : CredentialIssuerMetadata)
    : res (list string) CredentialError :=
  fail? bool_decide (is_Some (cr_proof request)) with
    CR_InvalidCredentialRequest "'proof' was removed in OID4VCI 1.0; send 'proofs'";
  let? proofs := ok_or (cr_proofs request) (CR_InvalidProof "proofs is required") in
  let? _ := match iter_map (p_other proofs) with
            | (other, _) :: _ => Err (CR_InvalidProof ("unsupported proof type: " +:+ other))
            | [] => Ok tt
            end in
  let? jwts := ok_or (p_jwt proofs ≫= fun jwts => match jwts with [] => None | _ => Some jwts end)
    (CR_InvalidProof "proofs.jwt is required") in
  let batch_size := from_option bci_batch_size 1 (cim_batch_credential_issuance metadata) in
  fail? batch_size <? Z.of_nat (length jwts) with
    CR_InvalidProof (pretty (length jwts) +:+ " proofs sent, batch_size is " +:+ pretty batch_size);
  Ok jwts.

(** ** Proofs of possession *)

(** Whether the configuration lists an algorithm for JWT proofs. *)
Definition advertised (config : CredentialConfiguration) (alg : string) : bool :=
  match cc_proof_types_supported config ≫= fun types => types !! "jwt"%string with
  | Some jwt => existsb (fun a => bool_decide (a = alg)) (ptm_proof_signing_alg_values_supported jwt)
  | None => false
  end.

(** Up to the reading of the clock: the key, the payload and its [iat]. *)
Definition proof_claims (jwt issuer_url : string) (config : CredentialConfiguration)
    : res (Jwk * Value * Z) CredentialError :=
  let? decoded := map_err (fun e => CR_InvalidProof (jws_error_to_string e)) (decode_compact jwt) in
  let header := dj_header decoded in
  fail? bool_decide (hdr_typ header <> Some "openid4vci-proof+jwt"%string) with
    CR_InvalidProof "proof JWT must have typ 'openid4vci-proof+jwt'";
  let? holder_jwk := ok_or (hdr_jwk header)
    (CR_InvalidProof "proof JWT header must carry the holder's public key in 'jwk'") in
  let? expected_alg := map_err (fun e => CR_InvalidProof (key_error_to_string e))
    (algorithm_for_jwk holder_jwk) in
  fail? bool_decide (hdr_alg header <> alg_as_str expected_alg) with
    CR_InvalidProof ("proof alg '" +:+ hdr_alg header +:+ "' does not match the supplied key ("
      +:+ alg_as_str expected_alg +:+ ")");
  fail? negb (advertised config (hdr_alg header)) with
    CR_InvalidProof ("proof alg '" +:+ hdr_alg header +:+ "' is not in proof_signing_alg_values_supported");
  let? _ := map_err (fun e => CR_InvalidProof ("proof signature invalid: " +:+ key_error_to_string e))
    (verify_with_jwk holder_jwk (as_bytes (dj_signing_input decoded)) (dj_signature decoded)) in
  let? payload := map_err CR_InvalidProof (from_ext (value_from_slice (dj_payload decoded))) in
  let? aud := ok_or (get_str payload "aud") (CR_InvalidProof "proof is missing 'aud'") in
  fail? bool_decide (trim_end_matches slash aud <> trim_end_matches slash issuer_url) with
    CR_InvalidProof ("proof 'aud' is '" +:+ aud +:+ "', expected '" +:+ issuer_url +:+ "'");
  let? iat := ok_or (get_i64 payload "iat") (CR_InvalidProof "proof is missing 'iat'") in
  Ok (holder_jwk, payload, iat).

(** At a Unix time, in machine arithmetic: the nonce of an acceptable proof. *)
Definition proof_nonce (payload : Value) (iat now : Z) : res string CredentialError :=
  let? age := i64_sub now iat in
  let? distance := i64_abs age in
  fail? PROOF_MAX_AGE_SECS <? distance with CR_InvalidProof "proof 'iat' is outside the accepted window";
  ok_or (get_str payload "nonce") CR_InvalidNonce.

Definition verify_proof_jwt (jwt issuer_url : string) (config : CredentialConfiguration)
    : prog F (res (Jwk * string) CredentialError) :=
  do? ' (holder_jwk, payload, iat) <- Ret (proof_claims jwt issuer_url config);
  do t <- utc_now;
  do? nonce <- Ret (proof_nonce payload iat (timestamp t));
  Ret (Ok (holder_jwk, nonce)).

(** Every proof, before any nonce is spent. *)
Fixpoint verify_proofs (jwts : list string) (issuer_url : string) (config : CredentialConfiguration)
    : prog F (res (list Jwk * gset string) CredentialError) :=
  match jwts with
  | [] => Ret (Ok ([], ∅))
  | jwt :: jwts' =>
      do? ' (key, nonce) <- verify_proof_jwt jwt issuer_url config;
      do? ' (keys, nonces) <- verify_proofs jwts' issuer_url config;
      Ret (Ok (key :: keys, {[nonce]} ∪ nonces))
  end.

Fixpoint consume_nonces (nonces : list string) : prog F (res unit CredentialError) :=
  match nonces with
  | [] => Ret (Ok tt)
  | nonce :: nonces' =>
      do? valid <- pmap_err (fun e => CR_StateError (state_error_to_string e)) (trigger (ConsumeCNonce nonce));
      pfail? negb valid with CR_InvalidNonce;
      consume_nonces nonces'
  end.

(** The part of the handler that decides: the configuration and the keys to
    issue for. *)
Definition check_request (request : CredentialRequest) (access_token : string) (ctx : IssuanceContext F)
    : prog F (res (string * CredentialConfiguration * list Jwk) CredentialError) :=
  do? found <- pmap_err (fun e => CR_StateError (state_error_to_string e)) (trigger (GetAccessGrant access_token));
  do? grant <- Ret (ok_or found CR_InvalidAccessToken);
  do? ' (config_id, config) <- Ret (resolve_configuration request grant (ic_metadata ctx));
  do? jwts <- Ret (request_proofs request (ic_metadata ctx));
  do? ' (holder_keys, nonces) <- verify_proofs jwts (ic_issuer_url ctx) config;
  do? _ <- consume_nonces (iter_set nonces);
  Ret (Ok (config_id, config, holder_keys)).

(** ** Issuing *)
Definition demo_claims : gmap string Value :=
  <["given_name"%string := VString "John"]> (<["family_name"%string := VString "Doe"]>
    (<["birth_date"%string := VString DEMO_BIRTH_DATE]> ∅)).

Definition issue_sd_jwt_credential (config : CredentialConfiguration) (ctx : IssuanceContext F)
    (holder_jwk : Jwk) : prog F (res Value CredentialError) :=
  do? vct <- Ret (ok_or (cc_vct config) (CR_IssuanceError "dc+sd-jwt configuration has no vct"));
  do? status_claim <- pmap_err CR_IssuanceError (ic_allocate_status ctx);
  let cnf := json_obj [("jwk"%string, jwk_json holder_jwk)] in
  do? issued <- pmap_err (fun e => CR_IssuanceError (sd_jwt_error_to_string e))
    (issue_sd_jwt_vc_with_x5c (ic_issuer_key ctx) (ic_issuer_url ctx) vct ∅ (iter_map demo_claims)
       (Some cnf) status_claim (ic_x5c ctx));
  Ret (Ok (VString issued.1)).

Definition start_of_day (at_time : DateTime) : DateTime := midnight (date_naive at_time).

Definition mdl_elements {E} (issuing_country : string) (today : Z) : res (list (string * Cbor)) E :=
  let? birth_date := unwrap (from_ext (parse_ymd DEMO_BIRTH_DATE)) in
  let? expiry_date := match add_months today (5 * 12) with Some d => Ok d | None => Panic end in
  let age := default 0 (years_since today birth_date) in
  Ok ([("family_name"%string, CText "Doe");
       ("given_name"%string, CText "John");
       ("birth_date"%string, Mdoc.full_date birth_date);
       ("issue_date"%string, Mdoc.full_date today);
       ("expiry_date"%string, Mdoc.full_date expiry_date);
       ("issuing_country"%string, CText issuing_country);
       ("issuing_authority"%string, CText ISSUING_AUTHORITY);
       ("document_number"%string, CText DEMO_DOCUMENT_NUMBER);
       ("portrait"%string, CBytes PORTRAIT_JPEG);
       ("driving_privileges"%string, CArray [CMap [
          (CText "vehicle_category_code", CText "B");
          (CText "issue_date", Mdoc.full_date today);
          (CText "expiry_date", Mdoc.full_date expiry_date)]]);
       ("un_distinguishing_sign"%string, CText issuing_country)] ++
      map (fun nn => ("age_over_" +:+ pretty nn, CBool (nn <=? age))) [18; 21]).

(** The request for an mDL: everything up to signing. *)
Definition mdl_request (signer : MdocSigner F) (doc_type country : string) (now : DateTime) (holder_jwk : Jwk)
    : prog F (res Mdoc.IssueRequest CredentialError) :=
  let today := start_of_day now in
  do? elements <- Ret (mdl_elements country (date_naive today));
  do? limit <- Ret (match add_seconds today (MSO_VALIDITY_DAYS * DAY_SECS) with Some t => Ok t | None => Panic end);
  do? expiry <- Ret (not_after (ms_certificate signer));
  do? status <- pmap_err CR_IssuanceError (ms_allocate_status signer);
  Ret (Ok {|
    Mdoc.ir_doc_type := doc_type;
    Mdoc.ir_namespaces := [(Mdoc.MDL_NAMESPACE, elements)];
    Mdoc.ir_device_key := holder_jwk;
    Mdoc.ir_signed := today;
    Mdoc.ir_valid_from := today;
    Mdoc.ir_valid_until := start_of_day (Z.min limit expiry);
    Mdoc.ir_status := status;
    Mdoc.ir_x5chain := [icert_der (ms_certificate signer)] |}).

(** An error [None]: the digest id loop of mdoc issuance used up its fuel. *)
Definition issue_mdoc_credential (fuel : nat) (config : CredentialConfiguration) (ctx : IssuanceContext F)
    (holder_jwk : Jwk) : prog F (res Value (option CredentialError)) :=
  do? signer <- Ret (ok_or (ic_mdoc ctx) (Some (CR_IssuanceError "no mdoc document signer is configured")));
  let doc_type := default EmptyString (cc_doctype config) in
  pfail? bool_decide (doc_type <> Mdoc.MDL_DOCTYPE) with
    Some (CR_UnsupportedFormat ("mso_mdoc doctype '" +:+ doc_type +:+ "'"));
  do? country <- Ret (ok_or (subject_country (ms_certificate signer))
    (Some (CR_IssuanceError "the document signer certificate names no country")));
  do now <- utc_now;
  do? request <- pmap_err Some (mdl_request signer doc_type country now holder_jwk);
  do? issuer_signed <- pmap_err (option_map (fun e => CR_IssuanceError (Mdoc.mdoc_error_to_string e)))
    (Mdoc.issue fuel request (ic_issuer_key ctx));
  Ret (Ok (VString (b64url_encode issuer_signed))).

Definition issue_one (fuel : nat) (config_id : string) (config : CredentialConfiguration)
    (ctx : IssuanceContext F) (holder_jwk : Jwk) : prog F (res IssuedCredential (option CredentialError)) :=
  do? credential <-
    (if bool_decide (cc_format config = "dc+sd-jwt"%string) then
       pmap_err Some (issue_sd_jwt_credential config ctx holder_jwk)
     else if bool_decide (cc_format config = "mso_mdoc"%string) then
       issue_mdoc_credential fuel config ctx holder_jwk
     else Ret (Err (Some (CR_UnsupportedFormat (config_id +:+ " has format " +:+ cc_format config)))));
  Ret (Ok (mkIssuedCredential credential)).

(** One credential per key, in order; the first error ends it. *)
Fixpoint issue_all (fuel : nat) (config_id : string) (config : CredentialConfiguration)
    (ctx : IssuanceContext F) (holder_keys : list Jwk)
    : prog F (res (list IssuedCredential) (option CredentialError)) :=
  match holder_keys with
  | [] => Ret (Ok [])
  | key :: keys =>
      do? credential <- issue_one fuel config_id config ctx key;
      do? credentials <- issue_all fuel config_id config ctx keys;
      Ret (Ok (credential :: credentials))
  end.

Definition process_credential_request (fuel : nat) (request : CredentialRequest) (access_token : string)
    (ctx : IssuanceContext F) : prog F (res CredentialResponse (option CredentialError)) :=
  do? ' (config_id, config, holder_keys) <- pmap_err Some (check_request request access_token ctx);
  do? credentials <- issue_all fuel config_id config ctx holder_keys;
  Ret (Ok (mkCredentialResponse (Some credentials) None None None)).
End Credential.
