(* ===== verification/CredentialSpec.v ===== *)
(** * What the credential endpoint guarantees

    The conditions under which a request is served, stated once without the
    order and the effects of the checks, and the theorems that the endpoint of
    Credential.v applies them: over the in-memory storage, nonces and clock
    readings included. *)
From S2P Require Import Prelude Externals Strings Effects Json Keys Jws Credentials SdJwt X509 Cbor Cose Mdoc.
From S2P Require Import Oid4vci IssuerState IssuerStateSpec Metadata Credential.

(** ** The checks that read neither the clock nor the storage *)
Section Checks.
Context `{UrlApi}.

(** The configuration a request asks for, under a grant. *)
Definition asks_for (request : CredentialRequest) (grant : AccessGrant) (id : string) : Prop :=
  (exists identifier, cr_credential_identifier request = Some identifier /\
     cr_credential_configuration_id request = None /\
     ag_credential_identifiers grant !! identifier = Some id) \/
  (cr_credential_identifier request = None /\ cr_credential_configuration_id request = Some id /\
   ag_credential_identifiers grant = ∅).

Definition resolves (request : CredentialRequest) (grant : AccessGrant) (metadata : CredentialIssuerMetadata)
    (id : string) (config : CredentialConfiguration) : Prop :=
  asks_for request grant id /\
  cim_credential_configurations_supported metadata !! id = Some config /\
  id ∈ ag_credential_configuration_ids grant.

Lemma resolve_configuration_Ok request grant metadata id config :
  resolve_configuration request grant metadata = Ok (id, config) <->
  resolves request grant metadata id config.
Proof.
  unfold resolve_configuration, named_configuration, resolves, asks_for. split.
  - intros Ho. inv_ok. simplify_eq. b2p.
    destruct (cr_credential_identifier request) as [i|], (cr_credential_configuration_id request) as [c|];
      inv_ok; simplify_eq; (split; [|split; [done|apply dec_stable; assumption]]);
      [left; eauto|right].
    split; [done|]. split; [done|]. apply andb_false_iff in C0 as [C0|C0]; b2p; [|done].
    destruct C0. by eexists.
  - intros ([(i & -> & -> & Hg)|(-> & -> & Hi)] & Hc & Hin).
    + rewrite Hg. simpl. rewrite Hc. simpl. rewrite bool_decide_eq_false_2 by auto. done.
    + rewrite Hi, (bool_decide_eq_true_2 (∅ = ∅)), andb_false_r by done. simpl.
      rewrite Hc. simpl. rewrite bool_decide_eq_false_2 by auto. done.
Qed.

Definition batch_limit (metadata : CredentialIssuerMetadata) : Z :=
  from_option bci_batch_size 1 (cim_batch_credential_issuance metadata).

(** The proofs a request sends: only JWTs, at least one, at most a batch. *)
Definition sends (request : CredentialRequest) (metadata : CredentialIssuerMetadata) (jwts : list string) : Prop :=
  cr_proof request = None /\
  (exists p, cr_proofs request = Some p /\ p_other p = ∅ /\ p_jwt p = Some jwts) /\
  jwts <> [] /\ Z.of_nat (length jwts) <= batch_limit metadata.

Lemma request_proofs_Ok `{HashIter} `{!HashIterLaws H0} request metadata jwts :
  request_proofs request metadata = Ok jwts <-> sends request metadata jwts.
Proof.
  unfold request_proofs, sends, batch_limit. split.
  - intros Ho. inv_ok. b2p. apply eq_None_not_Some in C. destruct (p_jwt a) as [[|j l]|] eqn:Hj; simplify_eq/=.
    split; [done|]. split; [|done]. exists a. repeat split; try done.
    pose proof (iter_map_perm (p_other a)) as Hp.
    destruct (iter_map (p_other a)) as [|[]]; [|done].
    apply Permutation_nil_l in Hp. by apply map_to_list_empty_iff.
  - intros (-> & (p & -> & Hp & Hj) & Hne & Hle). simpl.
    pose proof (iter_map_perm (p_other p)) as Hperm. rewrite Hp, map_to_list_empty in Hperm.
    apply Permutation_nil_r in Hperm. rewrite Hp, Hperm. simpl.
    rewrite Hj. simpl. destruct jwts; [done|]. simpl. by rewrite (proj2 (Z.ltb_ge _ _)).
Qed.
End Checks.

(** ** One proof of possession *)
Section Possession.
Context `{Base64Url} `{P256} `{Ed25519} `{HeaderSerde} `{SerdeJson}.

(** What does not depend on the time: the proof is signed by the key it names,
    with an algorithm the configuration lists, and is meant for this issuer. *)
Record possession (issuer_url : string) (config : CredentialConfiguration) (jwt : string)
    (key : Jwk) (payload : Value) (iat : Z) : Prop := {
  po_signed : exists d, verify_with_public_jwk jwt key = Ok d /\
    hdr_typ (dj_header d) = Some "openid4vci-proof+jwt"%string /\ hdr_jwk (dj_header d) = Some key /\
    advertised config (hdr_alg (dj_header d)) = true /\ value_from_slice (dj_payload d) = inl payload;
  po_aud : exists aud, get_str payload "aud" = Some aud /\
    trim_end_matches slash aud = trim_end_matches slash issuer_url;
  po_iat : get_i64 payload "iat" = Some iat;
}.

Lemma proof_claims_Ok jwt issuer_url config key payload iat :
  proof_claims jwt issuer_url config = Ok (key, payload, iat) <->
  possession issuer_url config jwt key payload iat.
Proof.
  unfold proof_claims. split.
  - intros Ho. inv_ok. b2p. simplify_eq.
    split; [|exists a4; split; [done|by apply dec_stable]|done]. exists a. unfold verify_with_public_jwk.
    repeat match goal with u : () |- _ => destruct u end.
    rewrite Ho0. simpl. rewrite Ho2. simpl. rewrite bool_decide_eq_false_2 by auto.
    rewrite Ho3. simpl. repeat split; try done; by apply dec_stable.
  - intros [(d & Hv & Ht & Hj & Hadv & Hp) (aud & Ha & Htr) Hi].
    rewrite (verify_decodes _ _ _ Hv). simpl. rewrite Ht, bool_decide_eq_false_2 by auto.
    rewrite Hj. simpl. unfold verify_with_public_jwk in Hv. inv_ok. b2p. simplify_eq.
    rewrite Hv1. simpl. rewrite bool_decide_eq_false_2 by auto. rewrite Hadv. simpl. rewrite Hv2. simpl.
    rewrite Hp. simpl. rewrite Ha. simpl. rewrite bool_decide_eq_false_2 by auto. by rewrite Hi.
Qed.

Lemma proof_claims_np jwt issuer_url config : proof_claims jwt issuer_url config <> Panic.
Proof. unfold proof_claims. solve_np. Qed.

Lemma possession_fun issuer_url config jwt key key' payload payload' iat iat' :
  possession issuer_url config jwt key payload iat -> possession issuer_url config jwt key' payload' iat' ->
  key' = key /\ payload' = payload /\ iat' = iat.
Proof. intros Hp%proof_claims_Ok Hq%proof_claims_Ok. rewrite Hp in Hq. by injection Hq as <- <- <-. Qed.
End Possession.

(** ** The age of a proof *)
Section Freshness.
Context `{Profile}.

(** Dated at most 300 seconds away.  Without overflow checks the one date
    [2^63] seconds back is accepted too: its age wraps around to [i64::MIN],
    which is its own absolute value. *)
Definition fresh_proof (iat now : Z) : Prop :=
  Z.abs (now - iat) <= 300 \/ overflow_checks = false /\ now - iat = 2 ^ 63.

(** A date so far back that its age is not an [i64] stops a build with overflow
    checks. *)
Definition age_overflows (iat now : Z) : Prop := overflow_checks = true /\ 2 ^ 63 <= now - iat.

#[export] Instance fresh_proof_dec iat now : Decision (fresh_proof iat now).
Proof. unfold fresh_proof. apply _. Defined.
#[export] Instance age_overflows_dec iat now : Decision (age_overflows iat now).
Proof. unfold age_overflows. apply _. Defined.

(** The Unix times the clock can show. *)
Definition unix_time (now : Z) : Prop := 0 <= now <= 1000000000000.

Lemma proof_nonce_eq payload iat now :
  in_i64 iat = true -> unix_time now ->
  proof_nonce payload iat now =
    if decide (age_overflows iat now) then Panic
    else if decide (fresh_proof iat now) then ok_or (get_str payload "nonce") CR_InvalidNonce
    else Err (CR_InvalidProof "proof 'iat' is outside the accepted window").
Proof.
  unfold proof_nonce, unix_time, PROOF_MAX_AGE_SECS, i64_sub, i64_abs.
  intros Hi%in_i64_spec Hn. unfold i64_min, i64_max in Hi.
  assert (Hin : forall z, - 2 ^ 63 <= z < 2 ^ 63 -> forall E, i64_result (E := E) z = Ok z).
  { intros z Hz E. apply i64_result_in, in_i64_spec. unfold i64_min, i64_max. lia. }
  destruct (decide (2 ^ 63 <= now - iat)) as [Hbig|Hsmall].
  - unfold i64_result at 1. replace (in_i64 (now - iat)) with false.
    2:{ symmetry. apply not_true_iff_false. rewrite in_i64_spec. unfold i64_min, i64_max. lia. }
    destruct overflow_checks eqn:Hoc; simpl.
    { by rewrite decide_True by done. }
    rewrite decide_False by (intros [? _]; congruence).
    rewrite as_i64_above by (unfold i64_max; lia).
    destruct (decide (now - iat = 2 ^ 63)) as [He|He].
    + rewrite decide_True by (right; done). unfold i64_result. by rewrite He, Hoc.
    + rewrite Hin by lia. simpl. rewrite (proj2 (Z.ltb_lt _ _)) by lia.
      rewrite decide_False; [done|]. intros [?|[_ ?]]; lia.
  - rewrite decide_False by (intros [_ ?]; lia). rewrite !Hin by lia. simpl. rewrite Hin by lia. simpl.
    destruct (Z.ltb_spec 300 (Z.abs (now - iat))).
    + rewrite decide_False; [done|]. intros [?|[_ ?]]; lia.
    + by rewrite decide_True by (left; done).
Qed.
End Freshness.

(** ** The loops over the proofs and the nonces, over any storage *)

(** The instants of the next [n] readings of the clock, and the system after
    them. *)
Definition instants (s : Sys) (n : nat) : list DateTime := map (clock s) (seq (ticks s) n).
Definition ticked (n : nat) (s : Sys) : Sys :=
  mkSys (clock s) (n + ticks s) (uuids s) (uuids_used s) (noise s) (noise_used s).

Lemma ticked_ticked n m s : ticked n (ticked m s) = ticked (n + m) s.
Proof. unfold ticked. simpl. f_equal. lia. Qed.

Section Loops.
Context `{Base64Url} `{P256} `{Ed25519} `{HeaderSerde} `{SerdeJson} `{Profile} `{CL : ChronoLaws}.

Definition accepted_proof (issuer_url : string) (config : CredentialConfiguration) (jwt : string) (now : Z)
    (held : Jwk * string) : Prop :=
  exists payload iat, possession issuer_url config jwt held.1 payload iat /\ fresh_proof iat now /\
    get_str payload "nonce" = Some held.2.

(** A proof that stops a build with overflow checks. *)
Definition dated_too_early (issuer_url : string) (config : CredentialConfiguration) (now : Z) (jwt : string) : Prop :=
  exists key payload iat, possession issuer_url config jwt key payload iat /\ age_overflows iat now.

Lemma accepted_proof_fun issuer_url config jwt now held held' :
  accepted_proof issuer_url config jwt now held -> accepted_proof issuer_url config jwt now held' -> held = held'.
Proof.
  destruct held as [k n], held' as [k' n']. intros (p & i & Hp & _ & Hn) (p' & i' & Hp' & _ & Hn'). simpl in *.
  destruct (possession_fun _ _ _ _ _ _ _ _ _ Hp Hp') as (-> & -> & _). congruence.
Qed.

Lemma accepted_proofs_fun issuer_url config jwts ts helds helds' :
  Forall3 (accepted_proof issuer_url config) jwts ts helds ->
  Forall3 (accepted_proof issuer_url config) jwts ts helds' -> helds = helds'.
Proof.
  intros Hf. revert helds'. induction Hf as [|j t h js ts hs Hj _ IH]; intros helds' Hf'; inversion Hf'; subst; [done|].
  f_equal; [by eapply accepted_proof_fun|by apply IH].
Qed.

Context {E : Type -> Type} {St : Type} (op : backend E St).

Lemma timestamp_unix s i : clock_in_range s -> unix_time (timestamp (clock s i)).
Proof.
  intros Hr. specialize (Hr i). rewrite timestamp_spec. unfold unix_time, NANOS in *.
  split; [apply Z.div_pos; lia|]. apply Z.div_le_upper_bound; lia.
Qed.

Lemma verify_proof_run jwt issuer_url config w r w' :
  clock_in_range (sys w) ->
  run (world_handler op) (verify_proof_jwt jwt issuer_url config) w = (r, w') ->
  let now := timestamp (clock (sys w) (ticks (sys w))) in
  store w' = store w /\
  match r with
  | Ok held => accepted_proof issuer_url config jwt now held /\ sys w' = ticked 1 (sys w)
  | Err _ => forall held, ~ accepted_proof issuer_url config jwt now held
  | Panic => dated_too_early issuer_url config now jwt
  end.
Proof.
  intros Hc Hr now. unfold verify_proof_jwt in Hr.
  pose proof (proof_claims_np jwt issuer_url config) as Hnp.
  pose proof (proof_claims_Ok jwt issuer_url config) as Hok.
  destruct (proof_claims jwt issuer_url config) as [[[key payload] iat]|e|]; [|..|done]; simpl in Hr.
  2:{ simplify_eq. split; [done|]. intros held (p & i & Hp & _). apply Hok in Hp. done. }
  fold now in Hr. pose proof (proj1 (Hok key payload iat) eq_refl) as Hp.
  rewrite proof_nonce_eq in Hr; [|by eapply get_i64_range, po_iat|by apply timestamp_unix].
  assert (Hno : forall held, accepted_proof issuer_url config jwt now held ->
    fresh_proof iat now /\ get_str payload "nonce" = Some held.2).
  { intros held (p & i & Hp' & Hrest). by destruct (possession_fun _ _ _ _ _ _ _ _ _ Hp Hp') as (_ & -> & ->). }
  destruct (decide (age_overflows iat now)); simpl in Hr; [simplify_eq; split; [done|]; by exists key, payload, iat|].
  destruct (decide (fresh_proof iat now)); simpl in Hr.
  2:{ simplify_eq. split; [done|]. intros held Hh. by apply Hno in Hh as []. }
  destruct (get_str payload "nonce") as [nonce|] eqn:Hn; simpl in Hr; simplify_eq; (split; [done|]).
  - split; [|done]. by exists payload, iat.
  - intros held Hh. by apply Hno in Hh as [].
Qed.

Lemma verify_proofs_run jwts issuer_url config w r w' :
  clock_in_range (sys w) ->
  run (world_handler op) (verify_proofs jwts issuer_url config) w = (r, w') ->
  let now := map timestamp (instants (sys w) (length jwts)) in
  store w' = store w /\
  match r with
  | Ok (keys, nonces) =>
      exists held, Forall3 (accepted_proof issuer_url config) jwts now held /\
        keys = held.*1 /\ nonces = list_to_set held.*2 /\ sys w' = ticked (length jwts) (sys w)
  | Err _ => forall held, ~ Forall3 (accepted_proof issuer_url config) jwts now held
  | Panic => exists k jwt t, jwts !! k = Some jwt /\ now !! k = Some t /\ dated_too_early issuer_url config t jwt
  end.
Proof.
  revert w r w'. induction jwts as [|jwt jwts IH]; intros w r w' Hc Hr now.
  { simpl in Hr. simplify_eq. split; [done|]. exists []. split; [constructor|].
    repeat split; try done. by destruct w' as [[]]. }
  simpl verify_proofs in Hr. rewrite run_bind_res in Hr.
  destruct (run _ (verify_proof_jwt _ _ _) w) as [r1 w1] eqn:Hq.
  apply verify_proof_run in Hq as [Hs1 Hq]; [|done].
  destruct r1 as [[key nonce]|e|].
  2:{ simplify_eq. split; [done|]. intros held Hf. inversion Hf; subst. by eapply Hq. }
  2:{ simplify_eq. split; [done|]. exists 0%nat, jwt. eexists. done. }
  destruct Hq as [Hacc Hsys]. rewrite run_bind_res in Hr.
  destruct (run _ (verify_proofs _ _ _) w1) as [r2 w2] eqn:Ht.
  apply IH in Ht as [Hs2 Ht]; [|by rewrite Hsys]. rewrite Hsys in Ht.
  change (instants (ticked 1 (sys w)) (length jwts)) with (map (clock (sys w)) (seq (S (ticks (sys w))) (length jwts))) in Ht.
  destruct r2 as [[keys nonces]|e|]; simpl in Hr; simplify_eq.
  - split; [congruence|]. destruct Ht as (held & Hf & -> & -> & Hsys2).
    exists ((key, nonce) :: held). split; [by constructor|].
    repeat split; try done. rewrite Hsys2, ticked_ticked. f_equal. simpl. lia.
  - split; [congruence|]. intros held Hf. inversion Hf; subst. by eapply Ht.
  - split; [congruence|]. destruct Ht as (k & j & t & ? & ? & ?). by exists (S k), j, t.
Qed.
End Loops.

(** ** Spending nonces *)
Definition live_nonce (s : IssuerStore) (now : DateTime) (nonce : string) : Prop :=
  exists entry, nonces s !! nonce = Some entry /\ Spec.nonce_good now entry = true.

Definition spend (ns : list string) (s : IssuerStore) : IssuerStore :=
  Spec.set_nonces (fold_left (fun m n => delete n m) ns (nonces s)) s.

Lemma spend_nil s : spend [] s = s.
Proof. by destruct s. Qed.

Lemma live_nonce_spend n s now k : k <> n -> live_nonce (spend [n] s) now k <-> live_nonce s now k.
Proof. intros ?. unfold live_nonce. simpl. by rewrite lookup_delete_ne. Qed.

Lemma live_nonces_spend n s ts ns :
  n ∉ ns -> Forall2 (live_nonce (spend [n] s)) ts ns <-> Forall2 (live_nonce s) ts ns.
Proof.
  intros Hn. rewrite !Forall2_same_length_lookup.
  split; (intros [? Hl]; split; [done|]; intros i t k Ht Hk; specialize (Hl i t k Ht Hk);
    apply list_elem_of_lookup_2 in Hk; revert Hl; apply live_nonce_spend; by intros ->).
Qed.

Lemma consume_nonce_run n v :
  run Spec.handler (trigger (ConsumeCNonce n)) v =
    (Ok (match nonces (store v) !! n with
         | Some entry => Spec.nonce_good (clock (sys v) (ticks (sys v))) entry | None => false end),
     mkWorld (ticked 1 (sys v)) (spend [n] (store v))).
Proof.
  destruct v as [s st]. rewrite run_trigger. simpl. destruct (nonces st !! n) as [e|] eqn:He; simpl; [done|].
  do 2 f_equal. unfold spend. simpl. rewrite delete_id by done. by destruct st.
Qed.

Lemma consume_nonces_run ns v r v' :
  NoDup ns ->
  run Spec.handler (consume_nonces ns) v = (r, v') ->
  match r with
  | Ok _ => Forall2 (live_nonce (store v)) (instants (sys v) (length ns)) ns /\
      v' = mkWorld (ticked (length ns) (sys v)) (spend ns (store v))
  | Err e => e = CR_InvalidNonce /\ ~ Forall2 (live_nonce (store v)) (instants (sys v) (length ns)) ns /\
      exists k, store v' = spend (take k ns) (store v)
  | Panic => False
  end.
Proof.
  revert v r v'. induction ns as [|n ns IH]; intros v r v' Hnd Hr.
  { simpl in Hr. simplify_eq. rewrite spend_nil. by destruct v' as [[] []]. }
  apply NoDup_cons in Hnd as [Hn Hnd]. cbn [consume_nonces] in Hr.
  unfold pmap_err in Hr. rewrite run_bind_res in Hr. unfold pmap in Hr.
  rewrite run_bind, consume_nonce_run in Hr. cbn [run map_err] in Hr.
  assert (Hhead : live_nonce (store v) (clock (sys v) (ticks (sys v))) n <->
    match nonces (store v) !! n with
    | Some entry => Spec.nonce_good (clock (sys v) (ticks (sys v))) entry | None => false end = true).
  { unfold live_nonce. destruct (nonces (store v) !! n); naive_solver. }
  destruct (match nonces (store v) !! n with Some _ => _ | None => _ end) eqn:Hg; simpl in Hr.
  2:{ simplify_eq. split; [done|]. split; [|by exists 1%nat].
      intros Hf. apply Forall2_cons_1 in Hf as [?%Hhead _]. done. }
  specialize (IH _ _ _ Hnd Hr). destruct r as [u|e|]; [|..|done]; simpl in IH.
  - destruct IH as [Hf ->]. split.
    + apply Forall2_cons. split; [by apply Hhead|]. by apply live_nonces_spend in Hf.
    + rewrite ticked_ticked. do 2 f_equal; simpl. lia.
  - destruct IH as (-> & Hf & k & Hk). split; [done|]. split; [|by exists (S k)].
    intros [_ Hf']%Forall2_cons_1. apply Hf. by apply live_nonces_spend.
Qed.

(** ** Deciding a request *)
Section Deciding.
Context `{Sha2} `{Base64Url} `{P256} `{Ed25519} `{HeaderSerde} `{SerdeJson} `{UrlApi}.
Context `{Profile} `{HI : HashIter} `{HIL : !HashIterLaws HI} `{CL : ChronoLaws}.

(** At the instants the storage is called and the clock is read: the token is
    live and covers the configuration, and every proof is accepted. *)
Record proven (request : CredentialRequest) (access_token : string) (ctx : IssuanceContext IssuerF)
    (v : World IssuerStore) (id : string) (config : CredentialConfiguration) (held : list (Jwk * string))
    : Prop := {
  pv_grant : exists grant, Spec.grant_at (store v) access_token (clock (sys v) (ticks (sys v))) = Some grant /\
    resolves request grant (ic_metadata ctx) id config;
  pv_proofs : exists jwts, sends request (ic_metadata ctx) jwts /\
    Forall3 (accepted_proof (ic_issuer_url ctx) config) jwts
      (map timestamp (instants (ticked 1 (sys v)) (length jwts))) held;
}.

(** The nonces of the proofs, once each, and the instants they are spent at. *)
Definition spent_nonces (held : list (Jwk * string)) : list string := iter_set (list_to_set held.*2).

Definition nonces_live (v : World IssuerStore) (held : list (Jwk * string)) : Prop :=
  let ns := spent_nonces held in
  Forall2 (live_nonce (store v)) (instants (ticked (length held) (ticked 1 (sys v))) (length ns)) ns.

(** The token and the configuration are in order, and one of the proofs, when
    its turn comes, is found to be dated too far back for the machine. *)
Definition early_proof (request : CredentialRequest) (access_token : string) (ctx : IssuanceContext IssuerF)
    (v : World IssuerStore) : Prop :=
  exists grant id config jwts k jwt t,
    Spec.grant_at (store v) access_token (clock (sys v) (ticks (sys v))) = Some grant /\
    resolves request grant (ic_metadata ctx) id config /\
    sends request (ic_metadata ctx) jwts /\ jwts !! k = Some jwt /\
    map timestamp (instants (ticked 1 (sys v)) (length jwts)) !! k = Some t /\
    dated_too_early (ic_issuer_url ctx) config t jwt.

Lemma spent_nonces_elem held n : n ∈ spent_nonces held <-> n ∈ held.*2.
Proof. unfold spent_nonces. by rewrite (iter_set_perm _), elem_of_elements, elem_of_list_to_set. Qed.

Lemma spent_nonces_NoDup held : NoDup (spent_nonces held).
Proof. unfold spent_nonces. rewrite (iter_set_perm _). apply NoDup_elements. Qed.

Lemma resolve_configuration_np request grant metadata : resolve_configuration request grant metadata <> Panic.
Proof. unfold resolve_configuration, named_configuration. solve_np. Qed.

Lemma request_proofs_np request metadata : request_proofs request metadata <> Panic.
Proof. unfold request_proofs. solve_np. Qed.

Lemma check_request_run request access_token ctx v r v' :
  clock_in_range (sys v) ->
  run Spec.handler (check_request request access_token ctx) v = (r, v') ->
  match r with
  | Ok (id, config, keys) =>
      exists held, proven request access_token ctx v id config held /\ nonces_live v held /\
        keys = held.*1 /\ store v' = spend (spent_nonces held) (store v)
  | Err e =>
      (forall id config held, proven request access_token ctx v id config held -> ~ nonces_live v held) /\
      (store v' = store v \/
       e = CR_InvalidNonce /\ exists id config held k, proven request access_token ctx v id config held /\
         store v' = spend (take k (spent_nonces held)) (store v))
  | Panic => early_proof request access_token ctx v
  end.
Proof.
  intros Hc Hr. unfold check_request in Hr. destruct v as [s st]. simpl in Hc.
  unfold pmap_err in Hr. rewrite run_bind_res in Hr. unfold pmap in Hr. rewrite run_bind, run_trigger in Hr.
  simpl in Hr.
  change (mkSys (clock s) (S (ticks s)) (uuids s) (uuids_used s) (noise s) (noise_used s)) with (ticked 1 s) in Hr.
  rewrite run_bind_res in Hr. simpl in Hr.
  destruct (Spec.grant_at st access_token (clock s (ticks s))) as [grant|] eqn:Hg; simpl in Hr.
  2:{ simplify_eq. split; [|by left]. intros id config held [(g & Hg' & _) _]. simpl in Hg'. congruence. }
  rewrite run_bind_res in Hr. simpl in Hr.
  pose proof (resolve_configuration_Ok request grant (ic_metadata ctx)) as Hres.
  pose proof (resolve_configuration_np request grant (ic_metadata ctx)) as Hnp.
  destruct (resolve_configuration _ _ _) as [[id config]|e|]; [|..|done]; simpl in Hr.
  2:{ simplify_eq. split; [|by left]. intros id config held [(g & Hg' & Hr) _]. simpl in Hg'.
      assert (g = grant) as -> by congruence. apply Hres in Hr. done. }
  pose proof (proj1 (Hres id config) eq_refl) as Hid.
  rewrite run_bind_res in Hr. simpl in Hr.
  pose proof (request_proofs_Ok request (ic_metadata ctx)) as Hsend.
  pose proof (request_proofs_np request (ic_metadata ctx)) as Hnp'.
  destruct (request_proofs _ _) as [jwts|e|]; [|..|done]; simpl in Hr.
  2:{ simplify_eq. split; [|by left]. intros id' config' held [_ (js & Hs & _)]. apply Hsend in Hs. done. }
  pose proof (proj1 (Hsend jwts) eq_refl) as Hjwts.
  assert (Hfun : forall id' config' held, proven request access_token ctx (mkWorld s st) id' config' held ->
    id' = id /\ config' = config /\ Forall3 (accepted_proof (ic_issuer_url ctx) config) jwts
      (map timestamp (instants (ticked 1 s) (length jwts))) held).
  { intros id' config' held [(g & Hg' & Hr') (js & Hs & Hf)]. simpl in Hg'.
    assert (g = grant) as -> by congruence. apply Hres in Hr'. apply Hsend in Hs. by simplify_eq. }
  rewrite run_bind_res in Hr.
  destruct (run _ (verify_proofs _ _ _) _) as [r1 v1] eqn:Hv.
  apply verify_proofs_run in Hv as [Hs1 Hv]; [|done]. simpl in Hs1.
  destruct r1 as [[keys nonces]|e|].
  2:{ simplify_eq. split; [|by left]. intros id' config' held Hp _. apply Hfun in Hp as (_ & _ & Hp). by eapply Hv. }
  2:{ simplify_eq. destruct Hv as (k & jwt & t & Hj & Ht & He). exists grant, id, config, jwts, k, jwt, t. done. }
  destruct Hv as (held & Hf & -> & -> & Hsys). simpl sys in *. rewrite run_bind_res in Hr.
  pose proof (Forall3_length_lr _ _ _ _ Hf) as Hlen.
  change (iter_set (list_to_set held.*2)) with (spent_nonces held) in Hr.
  destruct (run _ (consume_nonces _) v1) as [r2 v2] eqn:Hn.
  apply consume_nonces_run in Hn; [|apply spent_nonces_NoDup].
  rewrite Hsys, Hs1, Hlen in Hn.
  assert (Hp : proven request access_token ctx (mkWorld s st) id config held).
  { split; [by exists grant|]. by exists jwts. }
  destruct r2 as [u|e|]; [|..|done]; simpl in Hr; simplify_eq.
  - destruct Hn as [Hl ->]. exists held. split; [done|]. done.
  - destruct Hn as (-> & Hl & k & Hk). split; [|right; split; [done|by exists id, config, held, k]].
    intros id' config' held' (_ & _ & Hf')%Hfun.
    by rewrite (accepted_proofs_fun _ _ _ _ _ _ Hf' Hf).
Qed.

(** Such a request is not one that is granted. *)
Lemma early_proof_not_proven request access_token ctx v id config held :
  early_proof request access_token ctx v -> ~ proven request access_token ctx v id config held.
Proof.
  intros (grant & id' & config' & jwts & k & jwt & t & Hg & Hres & Hsend & Hj & Ht & Hearly)
    [(grant' & Hg' & Hres') (jwts' & Hsend' & Hall)].
  assert (grant' = grant) as -> by congruence.
  apply resolve_configuration_Ok in Hres, Hres'. rewrite Hres in Hres'. injection Hres' as <- <-.
  apply request_proofs_Ok in Hsend, Hsend'. rewrite Hsend in Hsend'. injection Hsend' as <-.
  destruct (Forall3_lookup_l _ _ _ _ _ _ Hall Hj) as (t' & h & Ht' & _ & Hacc).
  assert (t' = t) as -> by congruence.
  destruct Hearly as (key & p & iat & Hp & Ho & Hfar), Hacc as (p' & iat' & Hp' & Hfresh & _).
  destruct (possession_fun _ _ _ _ _ _ _ _ _ Hp Hp') as (_ & _ & ->).
  destruct Hfresh as [?|[? _]]; [lia|congruence].
Qed.

(** A request that is granted passes the checks. *)
Lemma check_request_granted request access_token ctx v id config held :
  clock_in_range (sys v) ->
  proven request access_token ctx v id config held -> nonces_live v held ->
  exists v', run Spec.handler (check_request request access_token ctx) v = (Ok (id, config, held.*1), v').
Proof.
  intros Hc Hp Hl. destruct (run _ _ v) as [r v'] eqn:Hr. exists v'. f_equal.
  apply check_request_run in Hr; [|done]. destruct r as [[[id' config'] keys]|e|].
  - destruct Hr as (held' & Hp' & _ & -> & _).
    destruct Hp as [(g & Hg & Hres) (js & Hs & Hf)], Hp' as [(g' & Hg' & Hres') (js' & Hs' & Hf')].
    assert (g' = g) as -> by congruence.
    apply resolve_configuration_Ok in Hres, Hres'. apply request_proofs_Ok in Hs, Hs'.
    rewrite Hres in Hres'. injection Hres' as <- <-. rewrite Hs in Hs'. injection Hs' as <-.
    by rewrite (accepted_proofs_fun _ _ _ _ _ _ Hf' Hf).
  - destruct Hr as [Hno _]. by destruct (Hno _ _ _ Hp).
  - by destruct (early_proof_not_proven _ _ _ _ _ _ _ Hr Hp).
Qed.
End Deciding.

(** ** The calls the endpoint makes *)
Section Calls.
Context `{Sha2} `{Base64Url} `{Base64Std} `{P256} `{Ed25519} `{HeaderSerde} `{SerdeJson} `{ClaimsSerde}.
Context `{UrlApi} `{CT : CosetTypes} `{K : !Coset} `{Ciborium} `{DebugStr} `{X509Api}.
Context `{Profile} `{Assets} `{HI : HashIter} `{Chrono}.
Context {F : Type -> Type} `{Sub SysE F} `{Sub IssuerStateE F} (P : forall X, F X -> Prop).
Hypothesis sys_in : forall X (e : SysE X), P X (inj1 e).
Hypothesis grants_in : forall token, P _ (inj1 (GetAccessGrant token)).
Hypothesis nonces_in : forall nonce, P _ (inj1 (ConsumeCNonce nonce)).

(** The calls of the allocators of status entries. *)
Definition allocators_in (ctx : IssuanceContext F) : Prop :=
  calls_in P (ic_allocate_status ctx) /\
  forall signer, ic_mdoc ctx = Some signer -> calls_in P (ms_allocate_status signer).

Lemma make_disclosures_calls {E} entries :
  calls_in P (make_disclosures (F := F) (E := E) entries).
Proof using sys_in.
  induction entries as [|[k v] es IH]; [constructor|]. simpl. unfold disclosure_new, random_bytes.
  solve_calls; auto.
Qed.

Lemma draw_digest_id_calls fuel ids : calls_in P (Mdoc.draw_digest_id (F := F) fuel ids).
Proof using sys_in.
  induction fuel as [|fuel IH]; [constructor|]. simpl. unfold random_bytes. solve_calls; auto.
Qed.

Lemma issue_elements_calls fuel ids elements :
  calls_in P (Mdoc.issue_elements (F := F) fuel ids elements).
Proof using sys_in.
  revert ids. induction elements as [|[i v] es IH]; intros ids; [constructor|]. cbn [Mdoc.issue_elements].
  unfold random_bytes. solve_calls; auto using draw_digest_id_calls.
Qed.

Lemma issue_namespaces_calls fuel namespaces :
  calls_in P (Mdoc.issue_namespaces (F := F) fuel namespaces).
Proof using sys_in.
  induction namespaces as [|[n es] nss IH]; [constructor|]. cbn [Mdoc.issue_namespaces].
  solve_calls; auto using issue_elements_calls.
Qed.

Lemma issue_sd_jwt_calls config ctx key :
  allocators_in ctx -> calls_in P (issue_sd_jwt_credential config ctx key).
Proof using sys_in.
  intros [Hs _]. unfold issue_sd_jwt_credential, issue_sd_jwt_vc_with_x5c, utc_now.
  solve_calls; auto using make_disclosures_calls.
Qed.

Lemma issue_mdoc_calls fuel config ctx key :
  allocators_in ctx -> calls_in P (issue_mdoc_credential fuel config ctx key).
Proof using sys_in.
  intros [_ Hm]. unfold issue_mdoc_credential.
  destruct (ic_mdoc ctx) as [signer|]; [|constructor]. specialize (Hm signer eq_refl).
  unfold pbind_res at 1. cbn [pbind ok_or]. unfold mdl_request, Mdoc.issue, utc_now.
  solve_calls; auto using issue_namespaces_calls.
Qed.

Lemma issue_one_calls fuel id config ctx key :
  allocators_in ctx -> calls_in P (issue_one fuel id config ctx key).
Proof using sys_in.
  intros Hq. unfold issue_one. apply calls_in_bind_res; [|constructor].
  repeat case_bool_decide; [|by apply issue_mdoc_calls|constructor].
  by apply calls_in_map_err, issue_sd_jwt_calls.
Qed.

Lemma issue_all_calls fuel id config ctx keys :
  allocators_in ctx -> calls_in P (issue_all fuel id config ctx keys).
Proof using sys_in.
  intros Hq. induction keys as [|key keys IH]; [constructor|]. cbn [issue_all].
  apply calls_in_bind_res; [by apply issue_one_calls|]. intros c.
  apply calls_in_bind_res; [apply IH|constructor].
Qed.

Lemma verify_proofs_calls jwts issuer_url config :
  calls_in P (verify_proofs (F := F) jwts issuer_url config).
Proof using sys_in.
  induction jwts as [|jwt jwts IH]; [constructor|]. cbn [verify_proofs]. unfold verify_proof_jwt, utc_now.
  solve_calls; auto.
Qed.

Lemma consume_nonces_calls ns : calls_in P (consume_nonces (F := F) ns).
Proof using nonces_in. induction ns as [|n ns IH]; [constructor|]. cbn [consume_nonces]. solve_calls; auto. Qed.

Lemma check_request_calls request access_token (ctx : IssuanceContext F) :
  calls_in P (check_request request access_token ctx).
Proof using sys_in grants_in nonces_in.
  unfold check_request. solve_calls; auto using verify_proofs_calls, consume_nonces_calls.
Qed.

Lemma credential_request_calls fuel request access_token ctx :
  allocators_in ctx -> calls_in P (process_credential_request fuel request access_token ctx).
Proof using sys_in grants_in nonces_in.
  intros Hq. unfold process_credential_request. apply calls_in_bind_res.
  - by apply calls_in_map_err, check_request_calls.
  - intros [[id config] keys]. apply calls_in_bind_res; [by apply issue_all_calls|constructor].
Qed.
End Calls.

(** ** Issuing leaves the storage alone *)

(** A program that reads the clock and draws randomness, no more. *)
Definition sys_call X (e : IssuerF X) : Prop := match e with inlE _ => True | inrE _ => False end.

Lemma sys_only_store {A} (p : prog IssuerF A) v :
  calls_in sys_call p -> store (run Spec.handler p v).2 = store v.
Proof.
  intros Hp. apply (run_invariant (fun w => store w = store v) sys_call); [|done..].
  intros X [e|e] w Hc Hw; [|done]. simpl. by destruct (handle_sys e (sys w)).
Qed.

Lemma spec_run_after {A} (p : prog IssuerF A) v : sys_after (sys v) (sys (run Spec.handler p v).2).
Proof. apply run_after. Qed.

Lemma sys_only_allowed {A} (p : prog IssuerF A) : calls_in sys_call p -> calls_in allowed p.
Proof. apply calls_in_mono. by intros X [e|e]. Qed.

Section Issuing.
Context `{Sha2} `{Base64Url} `{Base64Std} `{P256} `{Ed25519} `{HeaderSerde} `{SerdeJson} `{ClaimsSerde}.
Context `{UrlApi} `{CT : CosetTypes} `{K : !Coset} `{Ciborium} `{DebugStr} `{X509Api}.
Context `{Profile} `{Assets} `{HI : HashIter} `{HIL : !HashIterLaws HI} `{CL : ChronoLaws}.

(** The allocators of status entries do not touch the issuer's storage. *)
Definition quiet (ctx : IssuanceContext IssuerF) : Prop := allocators_in sys_call ctx.

Lemma process_credential_request_calls fuel request access_token ctx :
  quiet ctx -> calls_in allowed (process_credential_request fuel request access_token ctx).
Proof.
  intros [Hs Hm]. apply credential_request_calls; [done..|]. split; [by apply sys_only_allowed|].
  intros signer Hsig. by apply sys_only_allowed, Hm.
Qed.

(** What issuing for a key ends in, at some moment between [s] and [s']. *)
Definition issue_at (fuel : nat) (id : string) (config : CredentialConfiguration) (ctx : IssuanceContext IssuerF)
    (s s' : Sys) (key : Jwk) (r : res IssuedCredential (option CredentialError)) : Prop :=
  exists w w', sys_after s (sys w) /\ sys_after (sys w') s' /\
    run Spec.handler (issue_one fuel id config ctx key) w = (r, w').

Lemma issue_at_wider fuel id config ctx s s1 s2 s' key r :
  sys_after s s1 -> sys_after s2 s' -> issue_at fuel id config ctx s1 s2 key r ->
  issue_at fuel id config ctx s s' key r.
Proof.
  intros Hs1 Hs2 (w & w' & Hw & Hw' & Hr). exists w, w'. split; [by eapply sys_after_trans|].
  split; [by eapply sys_after_trans|done].
Qed.

Lemma issue_all_run fuel id config ctx keys v r v' :
  quiet ctx ->
  run Spec.handler (issue_all fuel id config ctx keys) v = (r, v') ->
  let at_some_time := issue_at fuel id config ctx (sys v) (sys v') in
  store v' = store v /\
  match r with
  | Ok credentials => Forall2 (fun key c => at_some_time key (Ok c)) keys credentials
  | Err e => Exists (fun key => at_some_time key (Err e)) keys
  | Panic => Exists (fun key => at_some_time key Panic) keys
  end.
Proof.
  intros Hq Hr. cbv zeta. split.
  { pose proof (sys_only_store _ v (issue_all_calls sys_call (fun _ _ => Logic.I) fuel id config ctx keys Hq)) as Hs. by rewrite Hr in Hs. }
  revert v r v' Hr. induction keys as [|key keys IH]; intros v r v' Hr.
  { simpl in Hr. simplify_eq. constructor. }
  cbn [issue_all] in Hr. rewrite run_bind_res in Hr.
  destruct (run _ (issue_one _ _ _ _ _) v) as [r1 v1] eqn:Hone.
  pose proof (spec_run_after (issue_one fuel id config ctx key) v) as Hv1. rewrite Hone in Hv1. simpl in Hv1.
  assert (Hhere : forall s', sys_after (sys v1) s' -> issue_at fuel id config ctx (sys v) s' key r1).
  { intros s' Hs'. exists v, v1. split; [apply sys_after_refl|done]. }
  destruct r1 as [c|e|]; [|simplify_eq; left; apply Hhere, sys_after_refl..].
  rewrite run_bind_res in Hr. destruct (run _ (issue_all _ _ _ _ _) v1) as [r2 v2] eqn:Hall.
  pose proof (spec_run_after (issue_all fuel id config ctx keys) v1) as Hv2. rewrite Hall in Hv2. simpl in Hv2.
  specialize (IH _ _ _ Hall).
  assert (Hlater : forall k r, issue_at fuel id config ctx (sys v1) (sys v2) k r ->
    issue_at fuel id config ctx (sys v) (sys v2) k r).
  { intros k r'. by apply issue_at_wider; [|apply sys_after_refl]. }
  destruct r2 as [cs|e|]; simpl in Hr; simplify_eq.
  - constructor; [by apply Hhere|]. eapply Forall2_impl; [exact IH|]. intros; by apply Hlater.
  - right. eapply Exists_impl; [exact IH|]. intros; by apply Hlater.
  - right. eapply Exists_impl; [exact IH|]. intros; by apply Hlater.
Qed.

(** What a request to the credential endpoint comes to: [v] and [v'] are the
    worlds before and after it. *)
Definition credential_outcome (fuel : nat) (request : CredentialRequest) (access_token : string)
    (ctx : IssuanceContext IssuerF) (v : World IssuerStore)
    (r : res CredentialResponse (option CredentialError)) (v' : World IssuerStore) : Prop :=
  let granted id config held := proven request access_token ctx v id config held /\ nonces_live v held in
  let spent held := store v' = spend (spent_nonces held) (store v) in
  let issuing id config key r := issue_at fuel id config ctx (sys v) (sys v') key r in
  match r with
  | Ok response =>
      exists id config held credentials, granted id config held /\ spent held /\
        response = mkCredentialResponse (Some credentials) None None None /\
        Forall2 (fun h c => issuing id config h.1 (Ok c)) held credentials
  | Err e =>
      (forall id config held, ~ granted id config held) /\
      (store v' = store v \/
       e = Some CR_InvalidNonce /\ exists id config held k, proven request access_token ctx v id config held /\
         store v' = spend (take k (spent_nonces held)) (store v)) \/
      exists id config held, granted id config held /\ spent held /\
        Exists (fun h => issuing id config h.1 (Err e)) held
  | Panic =>
      early_proof request access_token ctx v \/
      exists id config held, granted id config held /\ spent held /\
        Exists (fun h => issuing id config h.1 Panic) held
  end.

Lemma Exists_held (P Q : Jwk -> Prop) (held : list (Jwk * string)) :
  (forall k, P k -> Q k) -> Exists P held.*1 -> Exists (fun h => Q h.1) held.
Proof.
  intros HPQ. induction held as [|h held IH]; intros He; inversion He; subst; [left|right]; auto.
Qed.

Lemma credential_request_run fuel request access_token ctx v r v' :
  quiet ctx -> clock_in_range (sys v) ->
  run Spec.handler (process_credential_request fuel request access_token ctx) v = (r, v') ->
  credential_outcome fuel request access_token ctx v r v'.
Proof.
  intros Hq Hc Hr. unfold process_credential_request in Hr. rewrite run_bind_res, run_map_err in Hr.
  pose proof (spec_run_after (check_request request access_token ctx) v) as Hafter.
  destruct (run _ (check_request _ _ _) v) as [r1 v1] eqn:Hck. simpl in Hafter.
  apply check_request_run in Hck; [|done].
  destruct r1 as [[[id config] keys]|e|]; simpl in Hr; [|simplify_eq; left..]; [|naive_solver|done].
  destruct Hck as (held & Hp & Hl & -> & Hs). rewrite run_bind_res in Hr.
  destruct (run _ (issue_all _ _ _ _ _) v1) as [r2 v2] eqn:Hall.
  apply issue_all_run in Hall as [Hs2 Hall]; [|done].
  assert (Hat : forall s' key r, issue_at fuel id config ctx (sys v1) s' key r ->
    issue_at fuel id config ctx (sys v) s' key r).
  { intros s' key r'. by apply issue_at_wider; [|apply sys_after_refl]. }
  destruct r2 as [cs|e|]; simpl in Hr; simplify_eq; simpl.
  - exists id, config, held, cs. split; [done|]. split; [congruence|]. split; [done|].
    apply Forall2_fmap_l in Hall. eapply Forall2_impl; [exact Hall|]. intros; by apply Hat.
  - right. exists id, config, held. split; [done|]. split; [congruence|].
    revert Hall. apply (Exists_held _ (fun k => issue_at fuel id config ctx (sys v) (sys v') k (Err e))).
    intros k. apply Hat.
  - right. exists id, config, held. split; [done|]. split; [congruence|].
    revert Hall. apply (Exists_held _ (fun k => issue_at fuel id config ctx (sys v) (sys v') k Panic)).
    intros k. apply Hat.
Qed.

(** The same over the in-memory storage. *)
Lemma credential_request_in_memory fuel request access_token ctx w v r w' :
  quiet ctx -> world_refines w v ->
  run InMemory.handler (process_credential_request fuel request access_token ctx) w = (r, w') ->
  exists v', world_refines w' v' /\
    run Spec.handler (process_credential_request fuel request access_token ctx) v = (r, v') /\
    credential_outcome fuel request access_token ctx v r v'.
Proof.
  intros Hq Hw Hr.
  destruct (run_in_memory _ _ _ _ _ (process_credential_request_calls _ _ _ _ Hq) Hw Hr) as (v' & Hv & Hw').
  exists v'. split; [done|]. split; [done|]. apply credential_request_run in Hv; [done..|].
  destruct Hw as (<- & _ & Hrange & _). done.
Qed.
End Issuing.

(** C34: The window of a proof in machine arithmetic.  For every date a proof can
    carry and every time the clock can show, the proof is accepted when the two
    are at most 300 seconds apart; a build with overflow checks panics when the
    date is [2^63] or more seconds back, and a build without accepts the date
    exactly [2^63] seconds back as well. *)
Theorem proof_window `{Profile} payload iat now nonce :
  in_i64 iat = true -> unix_time now -> get_str payload "nonce" = Some nonce ->
  (proof_nonce payload iat now = Ok nonce <->
     Z.abs (now - iat) <= 300 \/ overflow_checks = false /\ now - iat = 2 ^ 63) /\
  (proof_nonce payload iat now = Panic <-> overflow_checks = true /\ 2 ^ 63 <= now - iat).
Proof.
  intros Hi Hn Hp. rewrite proof_nonce_eq, Hp by done. unfold age_overflows at 3. unfold fresh_proof at 3.
  destruct (decide (age_overflows iat now)) as [[Ho ?]|Hno].
  { split; [|done]. split; [done|]. intros [?|[? _]]; [lia|congruence]. }
  destruct (decide (fresh_proof iat now)); simpl; split; split; try done.
Qed.
