(* ===== verification/CredentialIssuance.v ===== *)
(** * The credentials the endpoint issues

    The composition of the credential endpoint with the SD-JWT and mdoc
    libraries: an issued credential verifies, is bound to the key of the proof
    it was issued for, lives no longer than it may, and has the elements the
    published metadata announces. *)
From S2P Require Import Prelude Externals Strings Effects Json Keys Jws Credentials SdJwt X509 Cbor Cose Mdoc.
From S2P Require Import Oid4vci IssuerState IssuerStateSpec Metadata Credential CredentialSpec.

(** The derived (de)serialization of a JWK. *)
Class JwkSerdeLaws (S : ClaimsSerde) : Prop := {
  jwk_roundtrip k : jwk_from_value (jwk_json k) = inl k;
}.

Lemma jwk_json_fits d k : fits (S d) (jwk_json k) = true.
Proof.
  apply json_obj_fits. unfold opt_member.
  repeat (apply Forall_app; split); repeat case_match; repeat constructor; apply fits_string.
Qed.

Section SdJwtCredential.
Context `{S2 : Sha2} `{B64 : Base64Url} `{BL : !Base64UrlLaws B64} `{P : P256} `{D : Ed25519}.
Context `{HS : HeaderSerde} `{HL : !HeaderSerdeLaws HS} `{J : SerdeJson} `{JL : !SerdeJsonLaws J}.
Context `{CS : ClaimsSerde} `{CSL : !ClaimsSerdeLaws CS J} `{KSL : !JwkSerdeLaws CS}.
Context `{UA : UrlApi} `{CT : CosetTypes} `{K : !Coset} `{CB : Ciborium} `{DS : DebugStr} `{XA : X509Api}.
Context `{B64S : Base64Std} `{PR : Profile} `{AS : Assets} `{HI : HashIter} `{HIL : !HashIterLaws HI}.
Context `{CH : Chrono} `{CHL : !ChronoLaws CH}.

(** The verifier runs over a storage of its own. *)
Context {E : Type -> Type} {St : Type} (op : backend E St).

(** A credential whose every presentation verifies under the issuer's key
    during its year, reporting the selected claims and the holder's key. *)
Definition bound_credential (issuer_key : KeyPair) (config : CredentialConfiguration) (holder : Jwk)
    (credential : Value) : Prop :=
  exists vct jwt ds t,
    cc_vct config = Some vct /\
    credential = VString (join TILDE (jwt :: map di_encoded ds ++ [EmptyString])) /\
    map (fun d => (di_claim_name d, di_claim_value d)) ds ≡ₚ map_to_list demo_claims /\
    (NoDup (map di_hash ds) ->
     forall shown (v : World St), shown `sublist_of` ds ->
     (let now := timestamp (clock (sys v) (ticks (sys v))) in
      t - t mod DAY_SECS <= now < t - t mod DAY_SECS + DAY_SECS * 365) ->
     exists vc, (run (world_handler op) (verify_sd_jwt_vc
         (join TILDE (jwt :: map di_encoded shown ++ [EmptyString])) issuer_key) v).1 = Ok vc /\
       vs_claims vc = shown_claims shown /\ holder_jwk vc = Some holder /\ verified_vct vc = Some vct).

(** The status entries are small documents. *)
Definition statuses_fit (ctx : IssuanceContext IssuerF) : Prop :=
  forall w status w', run Spec.handler (ic_allocate_status ctx) w = (Ok (Some status), w') ->
    fits 126 status = true.

Lemma demo_claims_fit : Forall (fun e => fits 126 e.2 = true) (iter_map demo_claims).
Proof.
  apply list.Forall_forall. intros [k v]. rewrite (iter_map_perm _), elem_of_map_to_list.
  unfold demo_claims. rewrite !lookup_insert_Some, lookup_empty. intros Hin.
  repeat destruct Hin as [[_ <-]|[_ Hin]]; [reflexivity..|done].
Qed.

Lemma demo_claims_NoDup : NoDup (iter_map demo_claims).*1.
Proof. rewrite (iter_map_perm _). apply NoDup_fst_map_to_list. Qed.

Lemma discloses_entries entries ds :
  Forall2 discloses entries ds -> map (fun d => (di_claim_name d, di_claim_value d)) ds = entries.
Proof.
  induction 1 as [|[k v] d es ds (Hn & Hv & _) _ IH]; [done|]. simpl in *. by rewrite Hn, Hv, IH.
Qed.

Lemma issue_sd_jwt_bound config ctx holder w c w' :
  KeyPairLaws (ic_issuer_key ctx) -> statuses_fit ctx -> clock_in_range (sys w) ->
  run Spec.handler (issue_sd_jwt_credential config ctx holder) w = (Ok c, w') ->
  bound_credential (ic_issuer_key ctx) config holder c.
Proof.
  intros KL Hstatus Hclk Hr. unfold issue_sd_jwt_credential in Hr. rewrite run_bind_res in Hr. simpl in Hr.
  destruct (cc_vct config) as [vct|] eqn:Hvct; simpl in Hr; [|done].
  rewrite run_bind_res, run_map_err in Hr.
  pose proof (spec_run_after (ic_allocate_status ctx) w) as (Hclk1 & _).
  destruct (run _ (ic_allocate_status ctx) w) as [r1 w1] eqn:Hst. simpl in Hclk1.
  destruct r1 as [status|e|]; simpl in Hr; [|done..].
  rewrite run_bind_res, run_map_err in Hr.
  set (cnf := json_obj [("jwk"%string, jwk_json holder)]) in Hr.
  destruct (run _ (issue_sd_jwt_vc_with_x5c _ _ _ _ _ _ _ _) w1) as [r2 w2] eqn:Hi.
  destruct r2 as [[sd_jwt ds]|e|]; simpl in Hr; simplify_eq.
  destruct (issue_run Spec.backend _ _ _ _ _ _ _ _ _ _ _ demo_claims_fit Hi)
    as (jwt & now & -> & Hds & Hsign & n & ->).
  rewrite Hclk1 in *. set (t := timestamp (clock (sys w) n)) in *.
  assert (Ht : unix_time t) by by apply timestamp_unix. unfold unix_time in Ht.
  exists vct, jwt, ds, t. split; [done|]. split; [done|]. split.
  { rewrite (discloses_entries _ _ Hds). apply iter_map_perm. }
  intros Hnd shown v Hsub Hwin.
  assert (Hfit : fits 127 (claims_value (issued_claims (ic_issuer_url ctx) vct ∅ (map di_hash ds)
    (Some cnf) status t)) = true).
  { apply issued_fits; [done|by intros k v' ?%lookup_empty_Some| |].
    - intros v' [= <-]. apply (json_obj_fits 125). constructor; [apply (jwk_json_fits 124)|constructor].
    - intros v' ->. by eapply Hstatus. }
  assert (Hpl : forall k, is_Some ((∅ : gmap string Value) !! k) -> reserved k = false).
  { by intros k [? ?%lookup_empty_Some]. }
  eexists. split; [eapply issued_verifies; try done; [apply demo_claims_NoDup|by left]|].
  simpl. split; [by rewrite (left_id_L ∅ (∪))|].
  unfold holder_jwk, verified_vct, get_str. cbn [vs_payload].
  rewrite !claims_get by done.
  set (fixed := fixed_members _).
  assert (obj_get fixed "cnf" = Some cnf) as ->
    by (unfold fixed, fixed_members; destruct (bool_decide _); reflexivity).
  assert (obj_get fixed "vct" = Some (VString vct)) as ->
    by (unfold fixed, fixed_members; destruct (bool_decide _); reflexivity).
  simpl. split; [|done]. by rewrite jwk_roundtrip.
Qed.

(** C4: The credentials of a served request are bound to the keys of its proofs.
    In the configuration's SD-JWT format, the credential for each proof can be
    presented with any selection of its claims; every presentation verifies
    under the issuer's key during the credential's year, and reports the
    selected claims, the configuration's type, and as the holder's key the very
    key the proof was signed with. *)
Theorem served_credentials_bound fuel request access_token ctx w v response w' :
  KeyPairLaws (ic_issuer_key ctx) -> quiet ctx -> statuses_fit ctx -> world_refines w v ->
  run InMemory.handler (process_credential_request fuel request access_token ctx) w = (Ok response, w') ->
  exists id config held credentials,
    proven request access_token ctx v id config held /\
    response = mkCredentialResponse (Some credentials) None None None /\
    length credentials = length held /\
    (cc_format config = "dc+sd-jwt"%string ->
     Forall2 (fun h c => bound_credential (ic_issuer_key ctx) config h.1 (ic_credential c)) held credentials).
Proof.
  intros KL Hq Hst Hw Hr.
  destruct (run_in_memory _ _ _ _ _ (process_credential_request_calls _ _ _ _ Hq) Hw Hr) as (v' & Hv & _).
  destruct Hw as (Hsys & _ & Hrange & _). rewrite Hsys in Hrange.
  apply credential_request_run in Hv; [|done..].
  destruct Hv as (id & config & held & cs & (Hp & _) & _ & -> & Hall).
  exists id, config, held, cs. split; [done|]. split; [done|].
  split; [symmetry; by eapply Forall2_length|]. intros Hf.
  eapply Forall2_impl; [exact Hall|]. intros h c (u & u' & Hu & _ & Hone).
  unfold issue_one in Hone. rewrite bool_decide_eq_true_2 in Hone by done.
  rewrite run_bind_res, run_map_err in Hone.
  destruct (run _ (issue_sd_jwt_credential _ _ _) u) as [r1 u1] eqn:Hi.
  destruct r1 as [cred|e|]; simpl in Hone; simplify_eq.
  apply (issue_sd_jwt_bound config ctx h.1 u cred u' KL Hst); [|done].
  destruct Hu as (Hc & _). unfold clock_in_range. rewrite Hc. apply Hrange.
Qed.
End SdJwtCredential.

(** ** What is issued is what is published *)
Section Published.
Context `{UA : UrlApi} `{CH : Chrono} `{AS : Assets}.

(** The paths a configuration announces for its claims. *)
Definition claim_paths (config : CredentialConfiguration) : list (list Value) :=
  map cld_path (from_option (fun m => default [] (cm_claims m)) [] (cc_credential_metadata config)).

Lemma mdl_elements_names {Er} country today elements :
  mdl_elements (E := Er) country today = Ok elements -> map fst elements = MDL_ELEMENTS.
Proof. unfold mdl_elements. intros Ho. inv_ok. reflexivity. Qed.

Lemma demo_claims_names : map fst (map_to_list demo_claims) ≡ₚ ["given_name"; "family_name"; "birth_date"]%string.
Proof.
  unfold demo_claims. rewrite !map_to_list_insert by (by rewrite ?lookup_insert_ne, ?lookup_empty by done).
  by rewrite map_to_list_empty.
Qed.

(** Every published configuration can be issued.  Each is in one of the two
    formats the endpoint supports, with the type that format needs, takes
    proofs signed with ES256, and announces exactly the claims its credentials
    are issued with: for the mDL the elements of its namespace, in order. *)
Theorem published_as_issued {Er} config metadata id c :
  build_metadata (E := Er) config = Ok metadata ->
  cim_credential_configurations_supported metadata !! id = Some c ->
  advertised c "ES256" = true /\
  ((cc_format c = "dc+sd-jwt"%string /\ is_Some (cc_vct c) /\
    claim_paths c ≡ₚ map (fun name => [VString name]) (map fst (map_to_list demo_claims))) \/
   (cc_format c = "mso_mdoc"%string /\ cc_doctype c = Some Mdoc.MDL_DOCTYPE /\
    forall country today elements, mdl_elements (E := Er) country today = Ok elements ->
      claim_paths c = map (fun e => [VString Mdoc.MDL_NAMESPACE; VString e.1]) elements)).
Proof.
  unfold build_metadata. intros Ho Hid. inv_ok. simpl in Hid.
  apply lookup_insert_Some in Hid as [[_ <-]|[_ Hid]]; [|apply lookup_insert_Some in Hid as [[_ <-]|[_ Hid]];
    [|by apply lookup_empty_Some in Hid]].
  - split; [reflexivity|]. right. split; [done|]. split; [done|]. intros country today elements Hel.
    transitivity (map (fun n => [VString Mdoc.MDL_NAMESPACE; VString n]) (map fst elements));
      [|by rewrite List.map_map].
    by rewrite (mdl_elements_names _ _ _ Hel).
  - split; [reflexivity|]. left. split; [done|]. split; [by eexists|].
    by rewrite (Permutation_map (fun name => [VString name]) demo_claims_names).
Qed.
End Published.

Section MdlValidity.
Context `{CH : Chrono} `{CHL : !ChronoLaws CH} `{XA : X509Api} `{AS : Assets}.
Context {E : Type -> Type} {St : Type} (op : backend E St).

Lemma start_of_day_bounds t : start_of_day t <= t < start_of_day t + DAY_NANOS.
Proof.
  unfold start_of_day. rewrite date_naive_spec, midnight_spec.
  pose proof (Z.div_mod t DAY_NANOS ltac:(done)).
  pose proof (Z.mod_pos_bound t DAY_NANOS ltac:(unfold DAY_NANOS, NANOS; lia)). lia.
Qed.

(** The validity of an issued mDL, in whole days so that it does not tell
    when on the day it was signed: from the day of signing, to the day at most
    365 days later on which the signer's certificate is still valid, and not
    to an earlier one.  The device key is the key of the proof. *)
Theorem mdl_validity signer doc_type country now holder w request w' :
  run (world_handler op) (mdl_request signer doc_type country now holder : prog (sumE SysE E) _) w
    = (Ok request, w') ->
  exists expiry, not_after (E := CredentialError) (ms_certificate signer) = Ok expiry /\
    let limit := Z.min (Mdoc.ir_signed request + 365 * DAY_NANOS) expiry in
    Mdoc.ir_device_key request = holder /\
    Mdoc.ir_signed request <= now < Mdoc.ir_signed request + DAY_NANOS /\
    Mdoc.ir_valid_from request = Mdoc.ir_signed request /\
    Mdoc.ir_valid_until request <= limit < Mdoc.ir_valid_until request + DAY_NANOS /\
    (Mdoc.ir_signed request mod DAY_NANOS = 0 /\ Mdoc.ir_valid_until request mod DAY_NANOS = 0).
Proof.
  intros Hr. unfold mdl_request in Hr. rewrite run_bind_res in Hr. simpl in Hr.
  destruct (mdl_elements _ _) as [elements|e|]; [|done..]. rewrite run_bind_res in Hr. simpl in Hr.
  destruct (add_seconds _ _) as [limit|] eqn:Hadd; [|done]. apply add_seconds_spec in Hadd.
  rewrite run_bind_res in Hr. simpl in Hr.
  destruct (not_after (ms_certificate signer)) as [expiry|e|]; [|done..].
  rewrite run_bind_res, run_map_err in Hr.
  destruct (run _ (ms_allocate_status signer) w) as [[status|e|] w1]; simpl in Hr; [|done..].
  simplify_eq. exists expiry. split; [done|]. simpl.
  change (start_of_day now + MSO_VALIDITY_DAYS * DAY_SECS * NANOS)
    with (start_of_day now + 365 * DAY_NANOS).
  split; [done|]. split; [apply start_of_day_bounds|]. split; [done|]. split; [apply start_of_day_bounds|].
  unfold start_of_day. rewrite !midnight_spec. split; apply Z_mod_mult.
Qed.
End MdlValidity.
