(* ===== verification/CredentialServing.v ===== *)
(** * When the credential endpoint serves a request

    Issuing succeeds when the issuer is ready for the configuration: what its
    keys, its allocators of status entries and, for an mDL, its certificate,
    the dates and the random numbers must be.  With that the conditions of
    CredentialSpec.v on the request are not only necessary but sufficient. *)
From S2P Require Import Prelude Externals Strings Effects Json Keys Jws Credentials SdJwt X509 Cbor Cose Mdoc MdocFlow.
From S2P Require Import Oid4vci IssuerState IssuerStateSpec Metadata Credential CredentialSpec CredentialIssuance.

Section Serving.
Context `{S2 : Sha2} `{S2L : !Sha2Laws S2} `{B64 : Base64Url} `{BL : !Base64UrlLaws B64} `{B64S : Base64Std}.
Context `{P : P256} `{D : Ed25519} `{HS : HeaderSerde} `{J : SerdeJson} `{JL : !SerdeJsonLaws J}.
Context `{CS : ClaimsSerde} `{UA : UrlApi} `{CT : CosetTypes} `{K : !Coset} `{CB : Ciborium}.
Context `{CBL : !CiboriumLaws CB} `{KL : !CosetLaws K CB} `{DS : DebugStr} `{XA : X509Api}.
Context `{PR : Profile} `{AS : Assets} `{HI : HashIter} `{HIL : !HashIterLaws HI}.
Context `{CH : Chrono} `{CHL : !ChronoLaws CH}.

(** ** What the issuer needs *)

(** An allocator that always has an entry left. *)
Definition allocates {A} (ok : A -> Prop) (p : prog IssuerF (res A string)) : Prop :=
  forall w, exists a, (run Spec.handler p w).1 = Ok a /\ ok a.

(** Headers and claims are structures of strings, numbers and JSON values:
    writing them does not fail. *)
Definition serializes : Prop :=
  (forall h, exists b, header_to_vec h = inl b) /\ (forall c, exists b, claims_to_vec c = inl b).

Record issues_sd_jwt (config : CredentialConfiguration) (ctx : IssuanceContext IssuerF) : Prop := {
  is_format : cc_format config = "dc+sd-jwt"%string;
  is_vct : is_Some (cc_vct config);
  is_key : signs (ic_issuer_key ctx);
  is_status : allocates (fun _ => True) (ic_allocate_status ctx);
}.

(** The readings of the clock between [s] and [s']. *)
Definition during (s s' : Sys) (t : DateTime) : Prop :=
  exists n, (ticks s <= n < ticks s')%nat /\ t = clock s n.

(** The number of the elements of an mDL. *)
Definition MDL_SIZE : nat := length MDL_ELEMENTS.

(** The signer names a country, and its certificate is valid for a day more
    than the clock shows; the calendar goes on for five years and RFC 3339 for
    one; within [fuel] draws there is a digest id that is not in use. *)
Record issues_mdl (fuel : nat) (config : CredentialConfiguration) (ctx : IssuanceContext IssuerF)
    (signer : MdocSigner IssuerF) (s s' : Sys) : Prop := {
  im_format : cc_format config = "mso_mdoc"%string;
  im_doctype : cc_doctype config = Some Mdoc.MDL_DOCTYPE;
  im_signer : ic_mdoc ctx = Some signer;
  im_country : is_Some (subject_country (ms_certificate signer));
  im_issuer_key : signs (ic_issuer_key ctx);
  im_status : allocates status_ok (ms_allocate_status signer);
  im_birth : exists d, parse_ymd DEMO_BIRTH_DATE = inl d;
  im_portrait : Forall is_u8 PORTRAIT_JPEG;
  im_der : Forall is_u8 (icert_der (ms_certificate signer));
  im_clock : forall t, during s s' t ->
    t + 366 * DAY_NANOS < RFC3339_END * NANOS /\ is_Some (add_months (date_naive (start_of_day t)) (5 * 12)) /\
    forall expiry, not_after (E := CredentialError) (ms_certificate signer) = Ok expiry -> t + DAY_NANOS <= expiry;
  im_noise : noise_ok fuel MDL_SIZE s;
}.

(** The issuer is ready to issue the configuration, between [s] and [s']. *)
Definition can_issue (fuel : nat) (config : CredentialConfiguration) (ctx : IssuanceContext IssuerF)
    (s s' : Sys) : Prop :=
  issues_sd_jwt config ctx \/ exists signer, issues_mdl fuel config ctx signer s s'.

(** ** SD-JWT VCs *)
Lemma make_disclosures_total {Er} entries (w : World IssuerStore) :
  Forall (fun e => fits 126 e.2 = true) entries ->
  exists ds, (run Spec.handler (make_disclosures (E := Er) entries) w).1 = Ok ds.
Proof.
  intros Hfit. revert w. induction Hfit as [|[name value] entries He _ IH]; intros w; [by exists []|].
  cbn [make_disclosures]. rewrite run_bind_res.
  assert (exists d w1, run Spec.handler (disclosure_new (E := Er) name value) w = (Ok d, w1)) as (d & w1 & ->).
  { unfold disclosure_new, random_bytes. rewrite run_bind. simpl (run _ (trigger _) _). cbv beta iota zeta.
    rewrite run_bind_res. simpl. destruct (value_to_vec_total (VArray [VString
      (b64url_encode (noise (sys w) (noise_used (sys w)) 16)); VString name; value])) as [b Hb].
    { rewrite (fits_array 126). cbn [forallb]. change (fits 126 value = true) in He. by rewrite !fits_string, He. }
    rewrite Hb. simpl. eauto. }
  rewrite run_bind_res. destruct (IH w1) as [ds Hds].
  destruct (run _ (make_disclosures entries) w1) as [r2 w2]. simpl in Hds. subst r2. by eexists.
Qed.

Lemma sign_compact_total key header payload :
  serializes -> signs key -> exists jwt, sign_compact key header (inl payload) = Ok jwt.
Proof.
  intros [Hh _] Hs. unfold sign_compact. destruct (Hh header) as [b ->]. simpl.
  match goal with |- context [kp_sign key ?m] => destruct (Hs m) as [sg ->] end. by eexists.
Qed.

Lemma issue_sd_jwt_total config ctx holder w :
  serializes -> issues_sd_jwt config ctx ->
  exists c, (run Spec.handler (issue_sd_jwt_credential config ctx holder) w).1 = Ok c.
Proof.
  intros Hser [_ [vct Hvct] Hkey Hst]. unfold issue_sd_jwt_credential. rewrite Hvct, run_bind_res. simpl.
  rewrite run_bind_res, run_map_err. destruct (Hst w) as (status & Hs & _).
  destruct (run _ (ic_allocate_status ctx) w) as [r1 w1]. simpl in Hs. subst r1. simpl.
  rewrite run_bind_res, run_map_err. unfold issue_sd_jwt_vc_with_x5c. rewrite run_bind_res.
  destruct (make_disclosures_total (Er := SdJwtError) (iter_map demo_claims) w1 demo_claims_fit) as [ds Hds].
  destruct (run _ (make_disclosures _) w1) as [r2 w2]. simpl in Hds. subst r2.
  rewrite run_bind. simpl.
  match goal with |- context [claims_to_vec ?c] => destruct (proj2 Hser c) as [b ->] end.
  match goal with |- context [sign_compact ?k ?h (inl b)] =>
    destruct (sign_compact_total k h b Hser Hkey) as [jwt ->] end.
  by eexists.
Qed.

(** ** Mobile driving licences *)
Lemma mdl_elements_total {Er} country today birth expiry :
  parse_ymd DEMO_BIRTH_DATE = inl birth -> add_months today (5 * 12) = Some expiry ->
  Forall is_u8 PORTRAIT_JPEG ->
  exists elements, mdl_elements (E := Er) country today = Ok elements /\ elements_fit elements /\
    length elements = MDL_SIZE /\ NoDup elements.*1.
Proof.
  intros Hb He Hp. unfold mdl_elements. rewrite Hb, He. simpl. eexists. split; [reflexivity|].
  split; [|split; [done|apply (bool_decide_unpack _); reflexivity]].
  unfold elements_fit. repeat constructor. simpl. by apply u8_fits.
Qed.

Lemma start_of_day_later t u : t + DAY_NANOS <= u -> start_of_day t + DAY_NANOS <= start_of_day u.
Proof.
  intros Hu. unfold start_of_day. rewrite !date_naive_spec, !midnight_spec.
  assert (0 < DAY_NANOS) by (unfold DAY_NANOS, NANOS; lia).
  assert (t / DAY_NANOS + 1 <= u / DAY_NANOS); [|nia].
  rewrite <- (Z.div_add t 1 DAY_NANOS) by lia. apply Z.div_le_mono; lia.
Qed.

Lemma start_of_day_whole t : whole (start_of_day t) = start_of_day t.
Proof.
  unfold start_of_day, whole. rewrite midnight_spec. unfold DAY_NANOS.
  rewrite Z.mul_assoc, Z.div_mul by done. done.
Qed.

Lemma subject_country_parses c country :
  subject_country c = Some country -> exists expiry, not_after (E := CredentialError) c = Ok expiry.
Proof.
  unfold subject_country, not_after. destruct (parse_cert (icert_der c)) as [cert|e|]; [|done..].
  intros _. by eexists.
Qed.

(** The request for an mDL is made, and can be issued. *)
Lemma mdl_request_total signer country t holder w birth expiry :
  parse_ymd DEMO_BIRTH_DATE = inl birth -> Forall is_u8 PORTRAIT_JPEG ->
  Forall is_u8 (icert_der (ms_certificate signer)) -> allocates status_ok (ms_allocate_status signer) ->
  0 <= t -> t + 366 * DAY_NANOS < RFC3339_END * NANOS ->
  is_Some (add_months (date_naive (start_of_day t)) (5 * 12)) ->
  not_after (E := CredentialError) (ms_certificate signer) = Ok expiry -> t + DAY_NANOS <= expiry ->
  (exists dk, cose_key holder = Ok dk) ->
  exists request w1,
    run Spec.handler (mdl_request signer Mdoc.MDL_DOCTYPE country t holder) w = (Ok request, w1) /\
    request_ok MDL_SIZE request.
Proof.
  intros Hb Hp Hd Hst Ht Hend [m Hm] Hexp Hlong Hkey. unfold mdl_request. rewrite run_bind_res. simpl.
  destruct (mdl_elements_total (Er := CredentialError) country (date_naive (start_of_day t)) birth m Hb Hm Hp)
    as (els & -> & Hfit & Hlen & Hnd). rewrite run_bind_res. simpl.
  pose proof (start_of_day_bounds t) as Hday.
  assert (Hpos : 0 <= start_of_day t).
  { unfold start_of_day. rewrite date_naive_spec, midnight_spec. apply Z.mul_nonneg_nonneg; [|done].
    apply Z.div_pos; [done|]. unfold DAY_NANOS, NANOS. lia. }
  assert (Hunit : 0 < DAY_NANOS < RFC3339_END * NANOS) by (unfold RFC3339_END, DAY_NANOS, NANOS; lia).
  destruct (add_seconds_total (start_of_day t) (MSO_VALIDITY_DAYS * DAY_SECS)) as [limit Hlimit];
    [unfold RFC3339_END, DAY_NANOS, NANOS in *; lia|unfold MSO_VALIDITY_DAYS, DAY_SECS; lia|].
  rewrite Hlimit. apply add_seconds_spec in Hlimit.
  change (MSO_VALIDITY_DAYS * DAY_SECS * NANOS) with (365 * DAY_NANOS) in Hlimit.
  rewrite run_bind_res. simpl. rewrite Hexp.
  rewrite run_bind_res, run_map_err. destruct (Hst w) as (status & Hs & Hok).
  destruct (run _ (ms_allocate_status signer) w) as [r1 w1]. simpl in Hs. subst r1. simpl.
  eexists _, w1. split; [reflexivity|].
  assert (Hlim : start_of_day t + DAY_NANOS <= start_of_day (Z.min limit expiry)) by (apply start_of_day_later; lia).
  pose proof (start_of_day_bounds (Z.min limit expiry)) as Hlast.
  split; simpl; try done.
  - constructor; [|constructor]. simpl. split; [done|]. by rewrite Hlen.
  - apply NoDup_singleton.
  - by repeat constructor.
  - unfold in_rfc. lia.
  - rewrite !start_of_day_whole. lia.
  - split; [done|]. by repeat constructor.
Qed.

(** A proof that was accepted names a key COSE can carry. *)
Lemma possession_cose_key issuer_url config jwt key payload iat :
  possession issuer_url config jwt key payload iat -> exists dk, cose_key key = Ok dk.
Proof.
  intros [(d & Hv & _) _ _]. unfold verify_with_public_jwk in Hv. inv_ok.
  match goal with Hk : verify_with_jwk _ _ _ = Ok _ |- _ => revert Hk end.
  unfold verify_with_jwk, cose_key, decode_coordinate, coordinate_bytes.
  destruct (key_type key) as [[|]|]; [..|done]; intros Hk; inv_ok;
    repeat match goal with Hc : _ = Some _ |- _ => rewrite Hc; clear Hc end; simpl;
    repeat match goal with Hc : b64url_decode _ = inl _ |- _ => rewrite Hc; clear Hc end; by eexists.
Qed.

(** What is left of the handler of an mDL once its signer is known. *)
Definition issue_mdl (fuel : nat) (ctx : IssuanceContext IssuerF) (signer : MdocSigner IssuerF) (country : string)
    (holder : Jwk) (now : DateTime) : prog IssuerF (res Value (option CredentialError)) :=
  do? request <- pmap_err Some (mdl_request signer Mdoc.MDL_DOCTYPE country now holder);
  do? issuer_signed <- pmap_err (option_map (fun e => CR_IssuanceError (Mdoc.mdoc_error_to_string e)))
    (Mdoc.issue fuel request (ic_issuer_key ctx));
  Ret (Ok (VString (b64url_encode issuer_signed))).

Lemma issue_mdoc_ready fuel config ctx signer country holder w :
  cc_doctype config = Some Mdoc.MDL_DOCTYPE -> ic_mdoc ctx = Some signer ->
  subject_country (ms_certificate signer) = Some country ->
  run Spec.handler (issue_mdoc_credential fuel config ctx holder) w =
  run Spec.handler (issue_mdl fuel ctx signer country holder (clock (sys w) (ticks (sys w))))
    (mkWorld (ticked 1 (sys w)) (store w)).
Proof. intros Hdt Hsig Hc. unfold issue_mdoc_credential. by rewrite Hsig, Hdt; cbn; rewrite Hc. Qed.

Lemma issue_mdoc_total fuel config ctx signer holder w s s' :
  KeyPairLaws (ic_issuer_key ctx) ->
  issues_mdl fuel config ctx signer s s' -> clock_in_range s -> sys_after s (sys w) ->
  sys_after (sys (run Spec.handler (issue_mdoc_credential fuel config ctx holder) w).2) s' ->
  (exists dk, cose_key holder = Ok dk) ->
  exists c, (run Spec.handler (issue_mdoc_credential fuel config ctx holder) w).1 = Ok c.
Proof.
  intros Hlaws [_ Hdt Hsig [country Hc] Hkey Hst [birth Hb] Hp Hd Hclk Hn] Hrange Hw Hend Hdk.
  destruct (subject_country_parses _ _ Hc) as [expiry Hexp].
  rewrite (issue_mdoc_ready _ _ _ signer country) in Hend |- * by done.
  set (t := clock (sys w) (ticks (sys w))) in *. set (w1 := mkWorld _ _) in *.
  assert (Hw1 : sys_after s (sys w1)).
  { eapply sys_after_trans; [exact Hw|]. apply (handle_sys_after UtcNow). }
  assert (Ht : during s s' t).
  { exists (ticks (sys w)). destruct Hw as (Hck & _ & _ & Hle & _). unfold t. rewrite Hck.
    split; [|done]. split; [done|].
    pose proof (spec_run_after (issue_mdl fuel ctx signer country holder t) w1) as (_ & _ & _ & Ha & _).
    destruct Hend as (_ & _ & _ & Hend & _). change (ticks (sys w1)) with (S (ticks (sys w))) in Ha. lia. }
  destruct (Hclk t Ht) as (Hrfc & Hmonths & Hlong). specialize (Hlong _ Hexp).
  assert (Hpos : 0 <= t) by (destruct Hw as (Hck & _); unfold t; rewrite Hck; apply Hrange).
  destruct (mdl_request_total signer country t holder w1 birth expiry) as (request & w2 & Hreq & Hok); [done..|].
  unfold issue_mdl. rewrite run_bind_res, run_map_err.
  pose proof (spec_run_after (mdl_request signer Mdoc.MDL_DOCTYPE country t holder) w1) as Hw2.
  rewrite Hreq in Hw2 |- *. simpl in Hw2. cbn [map_err]. rewrite run_bind_res, run_map_err.
  pose proof Hlaws as [_ _ _ (jwk & Hjwk & Hrest)].
  destruct (issue_ok (signer := ic_issuer_key ctx) Spec.backend fuel MDL_SIZE request w2 jwk)
    as (b & spaces & digests & av & auth & dk & mso & Hrun & _).
  - eapply noise_ok_after; [|exact Hn]. eapply sys_after_trans; [exact Hw1|exact Hw2].
  - done.
  - done.
  - done.
  - destruct (run _ (Mdoc.issue _ _ _) w2) as [r2 w3]. simpl in Hrun. subst r2. by eexists.
Qed.

(** ** The endpoint *)
Lemma issue_at_total fuel id config ctx s s' holder r :
  KeyPairLaws (ic_issuer_key ctx) -> serializes -> clock_in_range s -> can_issue fuel config ctx s s' ->
  (exists dk, cose_key holder = Ok dk) -> issue_at fuel id config ctx s s' holder r -> exists c, r = Ok c.
Proof.
  intros Hlaws Hser Hrange Hcan Hdk (w & w' & Hw & Hw' & Hr). unfold issue_one in Hr. rewrite run_bind_res in Hr.
  destruct Hcan as [Hsd|[signer Hm]].
  - rewrite bool_decide_eq_true_2 in Hr by apply Hsd. rewrite run_map_err in Hr.
    destruct (issue_sd_jwt_total config ctx holder w Hser Hsd) as [c Hc].
    destruct (run _ (issue_sd_jwt_credential _ _ _) w) as [r1 w1]. simpl in Hc. subst r1.
    simpl in Hr. simplify_eq. by eexists.
  - pose proof (im_format _ _ _ _ _ _ Hm) as Hf. rewrite Hf in Hr.
    rewrite bool_decide_eq_false_2, bool_decide_eq_true_2 in Hr by done.
    pose proof (issue_mdoc_total fuel config ctx signer holder w s s' Hlaws Hm Hrange Hw) as Hok.
    destruct (run _ (issue_mdoc_credential _ _ _ _) w) as [r1 w1].
    assert (w1 = w') as -> by (by destruct r1; simpl in Hr; simplify_eq).
    destruct (Hok Hw' Hdk) as [c Hc]. simpl in Hc. subst r1. simpl in Hr. simplify_eq. by eexists.
Qed.

Lemma accepted_cose_keys issuer_url config jwts ts held :
  Forall3 (accepted_proof issuer_url config) jwts ts held ->
  Forall (fun h : Jwk * string => exists dk, cose_key h.1 = Ok dk) held.
Proof.
  induction 1 as [|jwt t h jwts ts held (p & i & Hp & _) _ IH]; constructor; [|done].
  by eapply possession_cose_key.
Qed.

(** A request that is granted is answered with credentials. *)
Lemma granted_served fuel request access_token ctx v r v' id config held :
  KeyPairLaws (ic_issuer_key ctx) -> serializes -> quiet ctx -> clock_in_range (sys v) ->
  run Spec.handler (process_credential_request fuel request access_token ctx) v = (r, v') ->
  proven request access_token ctx v id config held -> nonces_live v held ->
  can_issue fuel config ctx (sys v) (sys v') -> exists response, r = Ok response.
Proof.
  intros Hlaws Hser Hq Hrange Hr Hp Hl Hcan. unfold process_credential_request in Hr.
  rewrite run_bind_res, run_map_err in Hr.
  destruct (check_request_granted _ _ _ _ _ _ _ Hrange Hp Hl) as [v1 Hck].
  pose proof (spec_run_after (check_request request access_token ctx) v) as Hafter.
  rewrite Hck in Hafter, Hr. cbn [map_err fst snd] in Hafter, Hr. rewrite run_bind_res in Hr.
  destruct (run _ (issue_all _ _ _ _ _) v1) as [r2 v2] eqn:Hall.
  apply issue_all_run in Hall as [_ Hall]; [|done].
  assert (Hkeys : Forall (fun k => exists dk, cose_key k = Ok dk) held.*1).
  { destruct Hp as [_ (jwts & _ & Hf)]. apply Forall_fmap. by eapply accepted_cose_keys. }
  assert (Htotal : forall key r, key ∈ held.*1 -> v2 = v' ->
    issue_at fuel id config ctx (sys v1) (sys v2) key r -> exists c, r = Ok c).
  { intros key r' Hkey -> Hat. eapply issue_at_total; [done..| |eapply issue_at_wider; [exact Hafter| |exact Hat]];
      [by eapply list.Forall_forall in Hkeys|apply sys_after_refl]. }
  destruct r2 as [cs|e|]; simpl in Hr; simplify_eq; [by eexists|..];
    apply Exists_exists in Hall as (key & Hkey & Hat); by destruct (Htotal _ _ Hkey eq_refl Hat).
Qed.

(** C3: The credential endpoint over the in-memory storage, with allocators of
    status entries that leave the issuer's storage alone.  A request is granted
    when its token is live, it names one configuration the token covers, and it
    sends at least one proof and at most a batch, each an
    [openid4vci-proof+jwt] for this issuer signed by the key it carries with an
    advertised algorithm, fresh, and with a nonce that is live.  Only a request
    that is granted is answered with credentials, and it is whenever the issuer
    is ready for the configuration: in the SD-JWT format, it has a type, the
    key signs and the allocator has an entry; for an mDL, the signer's
    certificate names a country and outlives the day, the dates are in the
    calendar and a fresh digest id is drawn within the fuel.  The answer has one
    credential per proof, in order, issued for that proof's key; each nonce is
    spent.  A request refused before the nonces changes nothing, and only the
    nonces of a request whose proofs were all accepted are ever spent.  The code
    panics only when it comes to a proof dated [2^63] seconds back or more, in a
    build with overflow checks, or when issuing does. *)
Theorem credential_request_exact fuel request access_token ctx w v r w' :
  KeyPairLaws (ic_issuer_key ctx) -> serializes -> quiet ctx -> world_refines w v ->
  run InMemory.handler (process_credential_request fuel request access_token ctx) w = (r, w') ->
  exists v', world_refines w' v' /\
    credential_outcome fuel request access_token ctx v r v' /\
    forall id config held,
      proven request access_token ctx v id config held -> nonces_live v held ->
      can_issue fuel config ctx (sys v) (sys v') -> exists response, r = Ok response.
Proof.
  intros Hlaws Hser Hq Hw Hr.
  destruct (credential_request_in_memory _ _ _ _ _ _ _ _ Hq Hw Hr) as (v' & Hw' & Hv & Hout).
  exists v'. split; [done|]. split; [done|]. intros id config held. apply granted_served; try done.
  destruct Hw as (<- & _ & Hrange & _). done.
Qed.
End Serving.
