(* ===== verification/CredentialDemo.v ===== *)
(** * A served credential request

    A concrete issuer, holder and request, the run that serves it, and the
    witnesses of the theorems about the credential endpoint. *)
From S2P Require Import Prelude Externals Strings Effects Json Keys Jws Credentials SdJwt X509 Cbor Cose Mdoc MdocFlow MdocBinding.
From S2P Require Import Oid4vci IssuerState IssuerStateSpec Metadata Credential CredentialSpec CredentialIssuance CredentialServing.

Module CredentialDemo.
Import Toy ToyCurves ToyCodec JwsDemo IssuerDemo SdJwtDemo ToyX509 ToyCbor ToyCose.

(** A release build. *)
#[export] Instance release : Profile := {| overflow_checks := false |}.
#[export] Instance assets : Assets := {| PORTRAIT_JPEG := [255; 216] |}.
#[export] Instance hash_iter : HashIter := {| iter_set := elements; iter_map := map_to_list |}.
#[export] Instance hash_iter_laws : HashIterLaws hash_iter.
Proof. by split. Qed.

#[export] Instance jwk_laws : JwkSerdeLaws claims_serde.
Proof.
  split. intros [kty crv x y d alg kid use]. simpl jwk_from_value. unfold get_str.
  assert (Hn : NoDup (map fst (
    [("kty"%string, VString kty)] ++ opt_member "crv" VString crv ++ opt_member "x" VString x ++
    opt_member "y" VString y ++ opt_member "d" VString d ++ opt_member "alg" VString alg ++
    opt_member "kid" VString kid ++ opt_member "use" VString use))).
  { destruct crv, x, y, d, alg, kid, use; apply (bool_decide_unpack _); reflexivity. }
  unfold jwk_json. simpl jwk_kty. rewrite !json_obj_get by exact Hn.
  destruct crv, x, y, d, alg, kid, use; reflexivity.
Qed.

Definition config : MetadataConfig := mkMetadataConfig "https://i" "I".
Definition metadata : CredentialIssuerMetadata :=
  match build_metadata (E := string) config with
  | Ok m => m
  | _ => mkCredentialIssuerMetadata EmptyString None EmptyString None None None ∅ None
  end.
Definition IDENTITY : string := "IdentityCredential_SD_JWT_VC".

Definition holder_proof : string := Eval vm_compute in
  unwrap_or EmptyString (sign_compact (ec_key_pair ec1)
    (mkJwsHeader "ES256" (Some "openid4vci-proof+jwt"%string) None (Some ec1_jwk) None)
    (value_to_vec (json_obj [("aud"%string, VString "https://i"); ("iat"%string, VInt 1000);
      ("nonce"%string, VString "n")]))).

Definition request : CredentialRequest :=
  mkCredentialRequest None (Some IDENTITY) (Some (mkProofs (Some [holder_proof]) ∅)) None None.

Definition signer : MdocSigner IssuerF := mkMdocSigner _ leaf (Ret (Ok None)).
Definition ctx : IssuanceContext IssuerF :=
  mkIssuanceContext _ _ (ec_key_pair ec1) "https://i" metadata (Ret (Ok None)) None (Some signer).

(** A token and a nonce, stored before the request. *)
Definition setup : prog IssuerF unit :=
  do _ <- trigger (StoreAccessToken "t" (mkAccessGrant [IDENTITY] ∅ None) 3600);
  do _ <- trigger (StoreCNonce "n" 300);
  Ret tt.
Definition before : World InMemoryIssuerState := (run InMemory.handler setup demo_world).2.
Definition before_spec : World IssuerStore := (run Spec.handler setup demo_spec).2.

Lemma before_refines : world_refines before before_spec.
Proof.
  apply (run_simulates _ _ _ _ handler_refines setup); [|apply demo_refines].
  unfold setup, trigger. solve_calls; unfold ttl_ok; lia.
Qed.

Lemma ctx_quiet : quiet ctx.
Proof. split; [constructor|]. intros s [= <-]. constructor. Qed.

Definition served := run InMemory.handler (process_credential_request 10 request "t" ctx) before.
Definition response : CredentialResponse := Eval vm_compute in
  unwrap_or (mkCredentialResponse None None None None) served.1.

#[local] Strategy expand [served].

Lemma served_run :
  run InMemory.handler (process_credential_request 10 request "t" ctx) before = (Ok response, served.2).
Proof. change (served = (Ok response, served.2)). apply pair_eq_fst. vm_compute. reflexivity. Qed.

Lemma demo_serializes : serializes.
Proof. split; intros x; by eexists. Qed.

Lemma credential_request_exact_witness :
  exists v', world_refines served.2 v' /\
    credential_outcome 10 request "t" ctx before_spec (Ok response) v' /\
    forall id config held,
      proven request "t" ctx before_spec id config held -> nonces_live before_spec held ->
      can_issue 10 config ctx (sys before_spec) (sys v') -> exists r, (Ok response : res _ (option CredentialError)) = Ok r.
Proof.
  apply (credential_request_exact 10 request "t" ctx before before_spec (Ok response) served.2).
  - apply ec1_laws.
  - apply demo_serializes.
  - apply ctx_quiet.
  - apply before_refines.
  - exact served_run.
Defined.

(** The issuer is ready for both of the configurations it publishes, for mDLs
    when its certificate lasts. *)
Lemma ctx_issues_identity s s' : can_issue 10 (identity_configuration config) ctx s s'.
Proof.
  left. split; [done|by eexists|intros m; by eexists|]. intros w. by exists None.
Qed.

Definition lasting : IssuerCertificate := Eval vm_compute in
  mkIssuerCertificate (cert_der (mkCert 0 40000000 "R" "L" (@p256_sec1 p256 true) false (Some "ZZ"%string) [])).
Definition mdl_signer : MdocSigner IssuerF := mkMdocSigner _ lasting (Ret (Ok None)).
Definition mdl_ctx : IssuanceContext IssuerF :=
  mkIssuanceContext _ _ (ec_key_pair ec1) "https://i" metadata (Ret (Ok None)) None (Some mdl_signer).

Lemma ctx_issues_mdl : can_issue 14 mdl_configuration mdl_ctx (sys before_spec) (ticked 10 (sys before_spec)).
Proof.
  right. exists mdl_signer. split; try done.
  - intros m. by eexists.
  - intros w. by exists None.
  - by eexists.
  - by repeat constructor.
  - apply u8_fits. vm_compute. reflexivity.
  - intros t (n & _ & Ht). assert (t <= 1001000000000).
    { rewrite Ht. change (1000000000000 + Z.min (Z.of_nat n) 1000 * 1000000 <= 1001000000000). lia. }
    split; [unfold RFC3339_END, DAY_NANOS, NANOS; lia|]. split; [by eexists|].
    intros expiry He. vm_compute in He. injection He as <-. unfold DAY_NANOS, NANOS. lia.
  - apply (MdocDemo.demo_noise 13). lia.
Qed.

Lemma served_credentials_bound_witness :
  exists id config held credentials,
    proven request "t" ctx before_spec id config held /\
    response = mkCredentialResponse (Some credentials) None None None /\
    length credentials = length held /\
    (cc_format config = "dc+sd-jwt"%string ->
     Forall2 (fun h c => bound_credential no_backend (ic_issuer_key ctx) config h.1 (ic_credential c))
       held credentials).
Proof.
  apply (served_credentials_bound no_backend 10 request "t" ctx before before_spec response served.2).
  - apply ec1_laws.
  - apply ctx_quiet.
  - intros w s w' Hr. simpl in Hr. simplify_eq.
  - apply before_refines.
  - exact served_run.
Defined.

(** The date that a build without overflow checks takes for a fresh one. *)
Definition old_payload : Value := json_obj [("nonce"%string, VString "n")].

Lemma proof_window_witness :
  (proof_nonce old_payload (1000 - 2 ^ 63) 1000 = Ok "n"%string <->
     Z.abs (1000 - (1000 - 2 ^ 63)) <= 300 \/ overflow_checks = false /\ 1000 - (1000 - 2 ^ 63) = 2 ^ 63) /\
  (proof_nonce old_payload (1000 - 2 ^ 63) 1000 = Panic <->
     overflow_checks = true /\ 2 ^ 63 <= 1000 - (1000 - 2 ^ 63)).
Proof.
  apply (proof_window old_payload (1000 - 2 ^ 63) 1000 "n").
  - reflexivity.
  - unfold unix_time. lia.
  - reflexivity.
Defined.

Lemma old_proof_accepted : proof_nonce old_payload (1000 - 2 ^ 63) 1000 = Ok "n"%string.
Proof. vm_compute. reflexivity. Qed.

Lemma published_as_issued_witness :
  advertised (identity_configuration config) "ES256" = true /\
  ((cc_format (identity_configuration config) = "dc+sd-jwt"%string /\
    is_Some (cc_vct (identity_configuration config)) /\
    claim_paths (identity_configuration config)
      ≡ₚ map (fun name => [VString name]) (map fst (map_to_list demo_claims))) \/
   (cc_format (identity_configuration config) = "mso_mdoc"%string /\
    cc_doctype (identity_configuration config) = Some Mdoc.MDL_DOCTYPE /\
    forall country today elements, mdl_elements (E := string) country today = Ok elements ->
      claim_paths (identity_configuration config)
      = map (fun e => [VString Mdoc.MDL_NAMESPACE; VString e.1]) elements)).
Proof.
  apply (published_as_issued (Er := string) config metadata IDENTITY (identity_configuration config)).
  - reflexivity.
  - vm_compute. reflexivity.
Defined.

Definition mdl := run (world_handler no_backend)
  (mdl_request (F := sumE SysE NoE) (mkMdocSigner _ leaf (Ret (Ok None))) Mdoc.MDL_DOCTYPE "ZZ" (1000 * NANOS) ec1_jwk)
  SdJwtDemo.world.
Definition mdl_requested : Mdoc.IssueRequest := Eval vm_compute in
  match mdl.1 with Ok r => r | _ => MdocDemo.request end.

Lemma mdl_validity_witness :
  exists expiry, not_after (E := CredentialError) leaf = Ok expiry /\
    let limit := Z.min (Mdoc.ir_signed mdl_requested + 365 * DAY_NANOS) expiry in
    Mdoc.ir_device_key mdl_requested = ec1_jwk /\
    Mdoc.ir_signed mdl_requested <= 1000 * NANOS < Mdoc.ir_signed mdl_requested + DAY_NANOS /\
    Mdoc.ir_valid_from mdl_requested = Mdoc.ir_signed mdl_requested /\
    Mdoc.ir_valid_until mdl_requested <= limit < Mdoc.ir_valid_until mdl_requested + DAY_NANOS /\
    (Mdoc.ir_signed mdl_requested mod DAY_NANOS = 0 /\ Mdoc.ir_valid_until mdl_requested mod DAY_NANOS = 0).
Proof.
  apply (mdl_validity no_backend (mkMdocSigner _ leaf (Ret (Ok None))) Mdoc.MDL_DOCTYPE "ZZ" (1000 * NANOS) ec1_jwk
    SdJwtDemo.world mdl_requested mdl.2).
  change (mdl = (Ok mdl_requested, mdl.2)). apply pair_eq_fst. vm_compute. reflexivity.
Defined.
End CredentialDemo.
