(* ===== verification/Dcql.v ===== *)
(** * DCQL queries

    crates/verifier/src/dcql.rs: the query builder, and the evaluation of one
    credential query against the claims a presentation disclosed. *)
From S2P Require Import Prelude Externals Json Oid4vp.

(** [DcqlQueryBuilder]: the credential queries so far. *)
Record DcqlQueryBuilder := mkDcqlQueryBuilder { dqb_credentials : list CredentialQuery }.

Definition dcql_builder_new : DcqlQueryBuilder := mkDcqlQueryBuilder [].

Definition none_if_empty {A} (l : list A) : option (list A) :=
  match l with [] => None | _ => Some l end.

Definition add_sd_jwt_vc_query (b : DcqlQueryBuilder) (id vct : string) (claims : list (string * bool))
    : DcqlQueryBuilder :=
  let claim_queries := map (fun c => mkClaimQuery [c.1] None (Some c.1) None) claims in
  mkDcqlQueryBuilder (dqb_credentials b ++
    [mkCredentialQuery id "dc+sd-jwt" (Some vct) None (none_if_empty claim_queries)]).

Definition add_mdoc_query (b : DcqlQueryBuilder) (id doctype namespace : string) (claims : list string)
    : DcqlQueryBuilder :=
  let claim_queries := map (fun c => mkClaimQuery [c] (Some namespace) (Some c) None) claims in
  mkDcqlQueryBuilder (dqb_credentials b ++
    [mkCredentialQuery id "mso_mdoc" None (Some doctype) (none_if_empty claim_queries)]).

Definition dcql_build (b : DcqlQueryBuilder) : DcqlQuery := mkDcqlQuery (dqb_credentials b).

(** The body of the loop; [false] is its early return. *)
Definition claim_satisfied (disclosed_claims : gmap string Value) (claim : ClaimQuery) : bool :=
  match cq_path claim with
  | [] => true
  | first_path :: _ =>
      if negb (bool_decide (is_Some (disclosed_claims !! first_path))) then false
      else
        match cq_values claim with
        | Some expected_values =>
            match disclosed_claims !! first_path with
            | Some actual_value => bool_decide (actual_value ∈ expected_values)
            | None => true
            end
        | None => true
        end
  end.

Fixpoint claims_satisfied (disclosed_claims : gmap string Value) (claims : list ClaimQuery) : bool :=
  match claims with
  | [] => true
  | claim :: claims' =>
      if claim_satisfied disclosed_claims claim then claims_satisfied disclosed_claims claims' else false
  end.

Definition evaluate_credential_query (query : CredentialQuery) (disclosed_claims : gmap string Value) : bool :=
  match crq_claims query with
  | Some claims => claims_satisfied disclosed_claims claims
  | None => true
  end.

(** ** What a satisfied query means *)

(** A claim of a query: the member its path starts with is disclosed, with one
    of the expected values. *)
Definition answered (disclosed : gmap string Value) (claim : ClaimQuery) : Prop :=
  forall name, head (cq_path claim) = Some name ->
  exists value, disclosed !! name = Some value /\
    forall expected, cq_values claim = Some expected -> value ∈ expected.

Lemma claim_satisfied_true disclosed claim :
  claim_satisfied disclosed claim = true <-> answered disclosed claim.
Proof.
  unfold claim_satisfied, answered. destruct (cq_path claim) as [|name path]; simpl; [naive_solver|].
  destruct (disclosed !! name) as [value|] eqn:Hn; simpl.
  - split.
    + intros Hv n [= <-]. exists value. split; [done|]. intros expected He. rewrite He in Hv. by b2p.
    + intros Ha. destruct (Ha name eq_refl) as (v & Hv & He). simplify_eq.
      destruct (cq_values claim); [|done]. apply bool_decide_eq_true. by apply He.
  - split; [done|].
    intros Ha. by destruct (Ha name eq_refl) as (v & ? & _); simplify_eq.
Qed.

Lemma evaluate_true query disclosed :
  evaluate_credential_query query disclosed = true <->
  forall claim, claim ∈ default [] (crq_claims query) -> answered disclosed claim.
Proof.
  unfold evaluate_credential_query. destruct (crq_claims query) as [claims|]; simpl;
    [|by split; [intros _ c ?%not_elem_of_nil|]].
  rewrite <- list.Forall_forall. induction claims as [|c claims IH]; simpl; [by split; [constructor|]|].
  rewrite Forall_cons, <- IH, <- claim_satisfied_true. destruct (claim_satisfied disclosed c); naive_solver.
Qed.

(** More disclosed claims satisfy as many queries. *)
Lemma evaluate_mono query disclosed more :
  disclosed ⊆ more -> evaluate_credential_query query disclosed = true ->
  evaluate_credential_query query more = true.
Proof.
  rewrite !evaluate_true. intros Hsub He claim Hc name Hn. destruct (He claim Hc name Hn) as (v & Hv & ?).
  exists v. split; [by eapply lookup_weaken|done].
Qed.

(** Evaluation.  A credential query is satisfied exactly when every one of
    its claims that names a member is answered by a disclosed claim of that
    name, with an expected value if values are listed.  Nothing else of the
    query is looked at: not its format, credential type or document type, not
    the rest of a path, nor the namespace of a claim. *)
Theorem evaluate_credential_query_exact id format vct doctype claims id' format' vct' doctype' disclosed :
  (evaluate_credential_query (mkCredentialQuery id format vct doctype claims) disclosed = true <->
   forall claim, claim ∈ default [] claims -> answered disclosed claim) /\
  evaluate_credential_query (mkCredentialQuery id format vct doctype claims) disclosed =
  evaluate_credential_query (mkCredentialQuery id' format' vct' doctype' claims) disclosed.
Proof. split; [apply evaluate_true|reflexivity]. Qed.

(** The builder.  The query built for an SD-JWT VC is satisfied exactly when
    every listed claim is disclosed, whether it was marked mandatory or not. *)
Theorem built_query_exact b id vct claims :
  exists query,
    dq_credentials (dcql_build (add_sd_jwt_vc_query b id vct claims)) = dq_credentials (dcql_build b) ++ [query] /\
    crq_id query = id /\ crq_vct query = Some vct /\
    forall disclosed, evaluate_credential_query query disclosed = true <->
      forall name mandatory, (name, mandatory) ∈ claims -> is_Some (disclosed !! name).
Proof.
  eexists. split; [reflexivity|]. split; [done|]. split; [done|]. intros disclosed.
  rewrite evaluate_true. simpl. set (queries := map _ claims).
  assert (default [] (none_if_empty queries) = queries) as -> by by destruct queries.
  unfold queries, answered. split.
  - intros Ha name m Hin. destruct (Ha (mkClaimQuery [name] None (Some name) None)) with name as (v & ? & _);
      [|done|by eexists].
    apply list_elem_of_fmap. by exists (name, m).
  - intros Hd c ([name m] & -> & Hin)%list_elem_of_fmap n [= <-].
    destruct (Hd name m Hin) as [v Hv]. exists v. by split; [|intros ? [=]].
Qed.
