(* ===== verification/VerifierState.v ===== *)
(** * The verifier's sessions

    The trait [VerifierState] as a signature of calls and the in-memory store
    behind it (crates/verifier/src/session.rs): two maps, sessions by id and
    ids by state, kept consistent as long as fresh identifiers are stored. *)
From S2P Require Import Prelude Externals Effects Threads Json Oid4vp.

Inductive SessionError :=
| SeE_NotFound (what : string)
| SeE_Storage (what : string)
| SeE_LockPoisoned.

Definition session_error_to_string (e : SessionError) : string :=
  match e with
  | SeE_NotFound s => "session not found: " +:+ s
  | SeE_Storage s => "storage error: " +:+ s
  | SeE_LockPoisoned => "lock poisoned"
  end.

Section Sessions.
Context `{UrlApi}.

(** ** The trait *)
Inductive VerifierStateE : Type -> Type :=
| StoreSession (session : VerifierSession) : VerifierStateE (res unit SessionError)
| GetSession (id : string) : VerifierStateE (res (option VerifierSession) SessionError)
| GetSessionByState (state : string) : VerifierStateE (res (option VerifierSession) SessionError)
| DeleteSession (id : string) : VerifierStateE (res unit SessionError).

(** ** The in-memory store *)
Record InMemoryVerifierState := mkInMemoryVerifierState {
  v_sessions : Mutex (gmap string VerifierSession);
  v_state_to_id : Mutex (gmap string string);
}.

Definition verifier_state_new : InMemoryVerifierState :=
  mkInMemoryVerifierState (Mutex_new ∅) (Mutex_new ∅).

(** [lock().map_err(|_| LockPoisoned)?] *)
Definition v_locked {A X} (m : Mutex A) (st : InMemoryVerifierState)
    (k : A -> res X SessionError * InMemoryVerifierState) : res X SessionError * InMemoryVerifierState :=
  if poisoned m then (Err SeE_LockPoisoned, st) else k (inner m).

Definition store_session (session : VerifierSession) (st : InMemoryVerifierState)
    : res unit SessionError * InMemoryVerifierState :=
  v_locked (v_sessions st) st (fun sessions =>
  v_locked (v_state_to_id st) st (fun state_map =>
  (Ok tt, mkInMemoryVerifierState
     (Mutex_new (<[vs_id session := session]> sessions))
     (Mutex_new (<[vs_state session := vs_id session]> state_map))))).

Definition get_session (id : string) (st : InMemoryVerifierState)
    : res (option VerifierSession) SessionError * InMemoryVerifierState :=
  v_locked (v_sessions st) st (fun sessions => (Ok (sessions !! id), st)).

Definition get_session_by_state (state : string) (st : InMemoryVerifierState)
    : res (option VerifierSession) SessionError * InMemoryVerifierState :=
  v_locked (v_state_to_id st) st (fun state_map =>
  match state_map !! state with
  | Some id => v_locked (v_sessions st) st (fun sessions => (Ok (sessions !! id), st))
  | None => (Ok None, st)
  end).

(** The session is removed before the second lock is taken. *)
Definition delete_session (id : string) (st : InMemoryVerifierState)
    : res unit SessionError * InMemoryVerifierState :=
  v_locked (v_sessions st) st (fun sessions =>
  match sessions !! id with
  | Some session =>
      let st := mkInMemoryVerifierState (Mutex_new (delete id sessions)) (v_state_to_id st) in
      v_locked (v_state_to_id st) st (fun state_map =>
      (Ok tt, mkInMemoryVerifierState (v_sessions st) (Mutex_new (delete (vs_state session) state_map))))
  | None => (Ok tt, st)
  end).

(** [impl VerifierState for InMemoryVerifierState]. *)
Definition verifier_backend : backend VerifierStateE InMemoryVerifierState := fun X e now st =>
  match e in VerifierStateE X return X * InMemoryVerifierState with
  | StoreSession s => store_session s st
  | GetSession id => get_session id st
  | GetSessionByState state => get_session_by_state state st
  | DeleteSession id => delete_session id st
  end.
End Sessions.

(** Programs of the verifier. *)
Definition VerifierF `{UrlApi} : Type -> Type := sumE SysE VerifierStateE.
#[export] Instance Sub_sys_verifier `{UrlApi} : Sub SysE VerifierF := fun X e => inlE e.
#[export] Instance Sub_state_verifier `{UrlApi} : Sub VerifierStateE VerifierF := fun X e => inrE e.

Definition verifier_handler `{UrlApi} : handler VerifierF (World InMemoryVerifierState) :=
  world_handler verifier_backend.

(** ** The two maps are consistent *)
Section Consistency.
Context `{UrlApi}.

(** No lock is poisoned, every session is stored under its id and found by its
    state, and every state leads to its session. *)
Record sessions_ok (st : InMemoryVerifierState) : Prop := {
  so_sessions_lock : poisoned (v_sessions st) = false;
  so_states_lock : poisoned (v_state_to_id st) = false;
  so_by_id id s : inner (v_sessions st) !! id = Some s ->
    vs_id s = id /\ inner (v_state_to_id st) !! vs_state s = Some id;
  so_by_state state id : inner (v_state_to_id st) !! state = Some id ->
    exists s, inner (v_sessions st) !! id = Some s /\ vs_state s = state;
}.

(** The session a state stands for. *)
Definition session_of_state (st : InMemoryVerifierState) (state : string) : option VerifierSession :=
  inner (v_state_to_id st) !! state ≫= fun id => inner (v_sessions st) !! id.

Definition fresh_session (st : InMemoryVerifierState) (s : VerifierSession) : Prop :=
  inner (v_sessions st) !! vs_id s = None /\ inner (v_state_to_id st) !! vs_state s = None.

(** The calls that keep the maps consistent. *)
Definition storable {X} (e : VerifierStateE X) (st : InMemoryVerifierState) : Prop :=
  match e with StoreSession s => fresh_session st s | _ => True end.

Lemma sessions_ok_new : sessions_ok verifier_state_new.
Proof. split; try done; by intros ? ? ?%lookup_empty_Some. Qed.

(** The state maps without the lock records. *)
Ltac open_sessions st H :=
  destruct st as [[? sessions] [? states]]; destruct H as [? ? Hid Hst]; simpl in *; subst.

Lemma store_session_ok s st :
  sessions_ok st -> fresh_session st s ->
  (store_session s st).1 = Ok tt /\ sessions_ok (store_session s st).2 /\
  forall state, session_of_state (store_session s st).2 state =
    if decide (state = vs_state s) then Some s else session_of_state st state.
Proof.
  intros Hok [Hf1 Hf2]. open_sessions st Hok. unfold store_session, v_locked, session_of_state. simpl.
  split; [done|]. split.
  - split; simpl; try done.
    + intros id s'. rewrite !lookup_insert_Some. intros [[<- <-]|[Hne Hs]]; [by auto|].
      destruct (Hid _ _ Hs) as [? Hs']. split; [done|]. right. split; [|done]. intros Heq. by rewrite Heq, Hs' in Hf2.
    + intros state id. rewrite lookup_insert_Some. intros [[<- <-]|[Hne Hs]].
      * exists s. by rewrite lookup_insert_eq.
      * destruct (Hst _ _ Hs) as (s' & Hs' & ?). exists s'. split; [|done].
        rewrite lookup_insert_ne; [done|]. intros Heq. by rewrite Heq, Hs' in Hf1.
  - intros state. case_decide as Hd.
    + subst. rewrite lookup_insert_eq. simpl. by rewrite lookup_insert_eq.
    + rewrite lookup_insert_ne by done. destruct (states !! state) as [id|] eqn:Hs; simpl; [|done].
      destruct (Hst _ _ Hs) as (s' & Hs' & _). rewrite lookup_insert_ne; [done|]. intros Heq. by rewrite Heq, Hs' in Hf1.
Qed.

Lemma delete_session_ok id st :
  sessions_ok st ->
  (delete_session id st).1 = Ok tt /\ sessions_ok (delete_session id st).2 /\
  forall state, session_of_state (delete_session id st).2 state =
    if decide (vs_id <$> session_of_state st state = Some id) then None else session_of_state st state.
Proof.
  intros Hok. pose proof Hok as Hok'. open_sessions st Hok. unfold delete_session, v_locked, session_of_state. simpl.
  destruct (sessions !! id) as [s|] eqn:Hs; simpl.
  - destruct (Hid _ _ Hs) as [<- Hstate]. split; [done|].
    assert (Huniq : forall state id', states !! state = Some id' -> state <> vs_state s -> id' <> vs_id s).
    { intros state id' Hst' Hne ->. apply Hne. by destruct (Hst _ _ Hst') as (s' & Hs' & <-); simplify_eq. }
    split.
    + split; simpl; try done.
      * intros id' s'. rewrite !lookup_delete_Some. intros [Hne Hs']. destruct (Hid _ _ Hs') as [<- Hs2].
        split; [done|]. split; [|done]. intros Heq. rewrite Heq in Hstate. congruence.
      * intros state id'. rewrite lookup_delete_Some. intros [Hne Hs'].
        destruct (Hst _ _ Hs') as (s' & Hs2 & ?). exists s'. split; [|done].
        rewrite lookup_delete_ne; [done|]. by apply not_eq_sym, (Huniq state).
    + intros state. destruct (decide (state = vs_state s)) as [->|Hne].
      * rewrite lookup_delete_eq, Hstate. simpl. by rewrite Hs, decide_True.
      * rewrite lookup_delete_ne by done. destruct (states !! state) as [id'|] eqn:Hs'; simpl; [|done].
        pose proof (Huniq _ _ Hs' Hne). rewrite lookup_delete_ne by done.
        destruct (Hst _ _ Hs') as (s' & Hs2 & _). rewrite Hs2. simpl. destruct (Hid _ _ Hs2) as [-> _].
        rewrite decide_False; congruence.
  - split; [done|]. split; [done|]. intros state. case_decide as Hd; [|done].
    destruct (states !! state) as [id'|]; [|done]. simpl in *.
    destruct (sessions !! id') as [s|] eqn:Hs'; [|done]. simpl in Hd. destruct (Hid _ _ Hs') as [Heq _]. congruence.
Qed.

Lemma get_session_by_state_ok state st :
  sessions_ok st -> get_session_by_state state st = (Ok (session_of_state st state), st).
Proof.
  intros Hok. open_sessions st Hok. unfold get_session_by_state, v_locked, session_of_state. simpl.
  by destruct (states !! state).
Qed.

(** The session store.  Its two maps stay consistent under every call, as
    long as the id and the state of a stored session are new; then no call
    fails, a session is found by its state from the call that stores it to
    the call that deletes its id, and no other call changes what is found. *)
Theorem verifier_sessions_consistent X (e : VerifierStateE X) now st :
  sessions_ok st -> storable e st ->
  let '(x, st') := verifier_backend X e now st in
  sessions_ok st' /\
  match e in VerifierStateE X return X -> Prop with
  | StoreSession s => fun x => x = Ok tt /\
      forall state, session_of_state st' state = if decide (state = vs_state s) then Some s else session_of_state st state
  | GetSession id => fun x => x = Ok (inner (v_sessions st) !! id) /\ st' = st
  | GetSessionByState state => fun x => x = Ok (session_of_state st state) /\ st' = st
  | DeleteSession id => fun x => x = Ok tt /\
      forall state, session_of_state st' state =
        if decide (vs_id <$> session_of_state st state = Some id) then None else session_of_state st state
  end x.
Proof.
  intros Hok Hs. destruct (verifier_backend X e now st) as [x st'] eqn:He. destruct e; simpl in He, Hs.
  - pose proof (store_session_ok _ _ Hok Hs) as (H1 & H2 & H3). rewrite He in *. done.
  - open_sessions st Hok. unfold get_session, v_locked in He. simpl in He. simplify_eq. by split; [split|].
  - rewrite (get_session_by_state_ok _ _ Hok) in He. by simplify_eq.
  - pose proof (delete_session_ok id _ Hok) as (H1 & H2 & H3). rewrite He in *. done.
Qed.
End Consistency.
