(* ===== verification/VerifierLocks.v ===== *)
(** * The lock discipline of the session store

    The calls of the in-memory session store (crates/verifier/src/session.rs)
    lock by lock, their guards dropped in the reverse order of their
    declaration.  Storing and deleting take [sessions] before [state_to_id],
    the lookup by state the other way round. *)
From S2P Require Import Prelude Externals Effects Threads Json Oid4vp VerifierState.

Inductive session_lock := L_v_sessions | L_v_state_to_id.

#[export] Instance session_lock_eq_dec : EqDecision session_lock.
Proof. solve_decision. Defined.

Section Threads.
Context `{UrlApi}.

Definition SessionLockE : Type -> Type := @LockE session_lock InMemoryVerifierState.

Definition set_sessions (m : gmap string VerifierSession) (st : InMemoryVerifierState) : InMemoryVerifierState :=
  mkInMemoryVerifierState (Mutex_new m) (v_state_to_id st).
Definition set_states (m : gmap string string) (st : InMemoryVerifierState) : InMemoryVerifierState :=
  mkInMemoryVerifierState (v_sessions st) (Mutex_new m).

(** [self.m.lock().map_err(|_| SessionError::LockPoisoned)?] under the guards
    [held]. *)
Definition session_guarded {A X} (l : session_lock) (m : InMemoryVerifierState -> Mutex A) (held : list session_lock)
    (k : prog SessionLockE (res X SessionError)) : prog SessionLockE (res X SessionError) :=
  lock_or SeE_LockPoisoned l m held k.

Definition store_session_thread (session : VerifierSession) : prog SessionLockE (res unit SessionError) :=
  session_guarded L_v_sessions v_sessions [] (
  session_guarded L_v_state_to_id v_state_to_id [L_v_sessions] (
  do _ <- touch (fun st => (tt, set_states
    (<[vs_state session := vs_id session]> (inner (v_state_to_id st))) st));
  do _ <- touch (fun st => (tt, set_sessions (<[vs_id session := session]> (inner (v_sessions st))) st));
  do _ <- unlock_all [L_v_state_to_id; L_v_sessions];
  Ret (Ok tt))).

Definition get_session_by_state_thread (state : string)
    : prog SessionLockE (res (option VerifierSession) SessionError) :=
  session_guarded L_v_state_to_id v_state_to_id [] (
  do found <- touch (fun st => (inner (v_state_to_id st) !! state, st));
  match found with
  | Some id =>
      session_guarded L_v_sessions v_sessions [L_v_state_to_id] (
      do session <- touch (fun st => (inner (v_sessions st) !! id, st));
      do _ <- unlock_all [L_v_sessions; L_v_state_to_id];
      Ret (Ok session))
  | None =>
      do _ <- unlock_all [L_v_state_to_id];
      Ret (Ok None)
  end).

Definition delete_session_thread (id : string) : prog SessionLockE (res unit SessionError) :=
  session_guarded L_v_sessions v_sessions [] (
  do removed <- touch (fun st => match inner (v_sessions st) !! id with
    | Some session => (Some session, set_sessions (delete id (inner (v_sessions st))) st)
    | None => (None, st) end);
  match removed with
  | Some session =>
      session_guarded L_v_state_to_id v_state_to_id [L_v_sessions] (
      do _ <- touch (fun st => (tt, set_states (delete (vs_state session) (inner (v_state_to_id st))) st));
      do _ <- unlock_all [L_v_state_to_id; L_v_sessions];
      Ret (Ok tt))
  | None =>
      do _ <- unlock_all [L_v_sessions];
      Ret (Ok tt)
  end).

Definition session_thread_of {X} (e : VerifierStateE X) : prog SessionLockE X :=
  match e in VerifierStateE X return prog SessionLockE X with
  | StoreSession s => store_session_thread s
  | GetSession id => under L_v_sessions (get_session id)
  | GetSessionByState state => get_session_by_state_thread state
  | DeleteSession id => delete_session_thread id
  end.

Fixpoint session_calls (es : list {X : Type & VerifierStateE X}) : prog SessionLockE unit :=
  match es with
  | [] => Ret tt
  | e :: es' => do _ <- session_thread_of (projT2 e); session_calls es'
  end.

(** Run alone, a thread is the call of the in-memory store, poisoned locks
    included. *)
Lemma session_thread_alone X (e : VerifierStateE X) now st :
  run alone (session_thread_of e) st = verifier_backend X e now st.
Proof.
  destruct st as [[ps sessions] [pt states]].
  destruct e; try apply under_alone; simpl;
    unfold store_session, get_session_by_state, delete_session, v_locked, set_sessions, set_states, Mutex_new;
    simpl; repeat (simpl; match goal with
      | |- context [match ?m !! ?k with Some _ => _ | None => _ end] => destruct (m !! k) eqn:?
      | |- context [if ?b then _ else _] => is_var b; destruct b end); simplify_eq; done.
Qed.

(** Lock-order inversion in the verifier: while no lock is poisoned and some
    request waits for its response, a thread that stores a new request and a
    thread that looks the response's session up can each come to wait for the
    other's lock, for ever. *)
Theorem session_lookup_can_deadlock st session state id :
  poisoned (v_sessions st) = false -> poisoned (v_state_to_id st) = false ->
  inner (v_state_to_id st) !! state = Some id ->
  exists s,
    rtc pool_step
      ([session_calls [existT _ (StoreSession session)];
        session_calls [existT _ (GetSessionByState state)]], ([], st)) s
    /\ deadlocked s.
Proof.
  intros Hps Hpt Hs. eexists. split; [apply (pool_run_steps [0; 1; 1; 1; 0]%nat)|].
  simpl. rewrite Hpt. simpl. rewrite Hs. simpl. rewrite Hps. simpl. split.
  - eexists. split; [left|done].
  - intros s' Hstep. inversion Hstep as [i ps c p p' c' Hi Hp]; subst.
    destruct i as [|[|i]]; simpl in Hi; try discriminate Hi; injection Hi as <-; discriminate Hp.
Qed.

(** [sessions] below [state_to_id]: the order of every call but the lookup. *)
Definition session_rank (l : session_lock) : Z :=
  match l with L_v_sessions => 0 | L_v_state_to_id => 1 end.

Definition keeps_order {X} (e : VerifierStateE X) : bool :=
  match e with GetSessionByState _ => false | _ => true end.

Lemma session_thread_ordered {X} (e : VerifierStateE X) :
  keeps_order e = true -> ordered session_rank (session_thread_of e) [].
Proof. destruct e; intros Ho; try discriminate Ho; try apply under_ordered; simpl; held. Qed.

(** Without the lookup there is one order, and no deadlock. *)
Lemma ordered_sessions_never_deadlock (threads : list (list {X : Type & VerifierStateE X})) st s :
  Forall (fun es => forallb (fun e => keeps_order (projT2 e)) es = true) threads ->
  rtc pool_step (map session_calls threads, ([], st)) s -> ~ deadlocked s.
Proof.
  intros Ho Hr. apply (pool_inv_live session_rank 1); [by intros []|]. eapply pool_inv_steps; [|exact Hr].
  apply pool_inv_start, Forall_fmap. eapply Forall_impl; [exact Ho|].
  intros es. induction es as [|e es IH]; simpl; [done|]. intros [? ?]%andb_true_iff.
  apply ordered_bind; [by apply session_thread_ordered|]. intros _. by apply IH.
Qed.
End Threads.

Module VerifierLockDemo.
Import Toy.

Definition request : AuthorizationRequest :=
  mkAuthorizationRequest "vp_token" "v" None "https://v/cb" None "n" (Some "s"%string) None None None.
Definition session (id state : string) : VerifierSession := mkVerifierSession id "n" state request 0 (600 * NANOS).
Definition waiting : InMemoryVerifierState := Eval vm_compute in
  (store_session (session "1" "s") verifier_state_new).2.

Lemma session_lookup_can_deadlock_witness :
  exists s,
    rtc pool_step
      ([session_calls [existT _ (StoreSession (session "2" "t"))];
        session_calls [existT _ (GetSessionByState "s")]], ([], waiting)) s
    /\ deadlocked s.
Proof.
  apply (session_lookup_can_deadlock waiting (session "2" "t") "s" "1"); vm_compute; reflexivity.
Defined.

Lemma waiting_ok : sessions_ok waiting.
Proof.
  change waiting with (store_session (session "1" "s") verifier_state_new).2.
  apply store_session_ok; [apply sessions_ok_new|]. split; reflexivity.
Qed.

Lemma verifier_sessions_consistent_witness :
  let '(x, st') := verifier_backend _ (StoreSession (session "2" "t")) 0 waiting in
  sessions_ok st' /\ (x = Ok tt /\
    forall state, session_of_state st' state =
      if decide (state = "t"%string) then Some (session "2" "t") else session_of_state waiting state).
Proof.
  apply (verifier_sessions_consistent _ (StoreSession (session "2" "t")) 0 waiting).
  - apply waiting_ok.
  - split; reflexivity.
Defined.
End VerifierLockDemo.
