(* ===== verification/VerifierRequest.v ===== *)
(** * Authorization requests of the verifier

    crates/verifier/src/request.rs: creating a request with its session, and
    the request as a signed JWT. *)
From S2P Require Import Prelude Externals Strings Effects Json Keys Jws Oid4vp VerifierState.

Section Request.
Context `{UrlApi}.

Record RequestParams := mkRequestParams {
  rp_client_id : string;
  rp_response_uri : Url;
  rp_dcql_query : option DcqlQuery;
  rp_session_expiry_secs : Z;
}.

(** The derived serialization of a request. *)
Class RequestSerde := { request_to_vec : AuthorizationRequest -> bytes + string }.

Definition es256_only : option FormatAlgorithms := Some (mkFormatAlgorithms (Some ["ES256"%string])).

Definition vp_request (params : RequestParams) (nonce request_state : string) : AuthorizationRequest := {|
  ar_response_type := "vp_token";
  ar_client_id := rp_client_id params;
  ar_client_id_scheme := Some "redirect_uri"%string;
  ar_response_uri := rp_response_uri params;
  ar_response_mode := Some "direct_post"%string;
  ar_nonce := nonce;
  ar_state := Some request_state;
  ar_dcql_query := rp_dcql_query params;
  ar_presentation_definition := None;
  ar_client_metadata := Some {|
    clm_vp_formats := Some {| vfs_sd_jwt_vc := es256_only; vfs_mso_mdoc := es256_only |};
    clm_client_name := Some "OID4VC-RS Verifier"%string;
    clm_logo_uri := None |} |}.

Definition create_authorization_request `{Chrono} {F} `{Sub SysE F} `{Sub VerifierStateE F}
    (params : RequestParams) : prog F (res (AuthorizationRequest * string) string) :=
  do session_id <- new_v4;
  do nonce <- new_v4;
  do request_state <- new_v4;
  let request := vp_request params nonce request_state in
  do created_at <- utc_now;
  do now <- utc_now;
  do? expires_at <- Ret (match add_seconds now (Prelude.as_i64 (rp_session_expiry_secs params)) with
                         | Some t => Ok t | None => Panic end);
  let session := {|
    vs_id := session_id; vs_nonce := nonce; vs_state := request_state; vs_request := request;
    vs_created_at := created_at; vs_expires_at := expires_at |} in
  do? _ <- pmap_err session_error_to_string (trigger (StoreSession session));
  Ret (Ok (request, session_id)).

Definition encode_request_as_jwt `{Sha2} `{Base64Url} `{P256} `{Ed25519} `{HeaderSerde} `{!RequestSerde}
    (request : AuthorizationRequest) (key : KeyPair) : res string string :=
  let header := build_header key (Some "oauth-authz-req+jwt"%string) in
  map_err jws_error_to_string (sign_compact key header (request_to_vec request)).
End Request.

Section RequestFacts.
Context `{UrlApi} `{Chrono} `{CL : !ChronoLaws H0}.

(** The identifiers of the next request are not in use. *)
Definition fresh_ids (w : World InMemoryVerifierState) : Prop :=
  inner (v_sessions (store w)) !! uuids (sys w) (uuids_used (sys w)) = None /\
  inner (v_state_to_id (store w)) !! uuids (sys w) (S (S (uuids_used (sys w)))) = None.

(** A request with a lifetime of up to a century is always created.  It
    carries a nonce and a state of its own, its session is then found by that
    state, with the nonce and the request, until it expires the lifetime
    after its creation; and the sessions of other states are as they were. *)
Theorem create_request_exact params w :
  sessions_ok (store w) -> fresh_ids w -> clock_in_range (sys w) ->
  0 <= rp_session_expiry_secs params <= 3155760000 ->
  exists session w',
    run verifier_handler (create_authorization_request params) w = (Ok (vs_request session, vs_id session), w') /\
    sessions_ok (store w') /\
    (forall state, session_of_state (store w') state =
       if decide (state = vs_state session) then Some session else session_of_state (store w) state) /\
    vs_request session = vp_request params (vs_nonce session) (vs_state session) /\
    vs_id session = uuids (sys w) (uuids_used (sys w)) /\
    vs_nonce session = uuids (sys w) (S (uuids_used (sys w))) /\
    vs_state session = uuids (sys w) (S (S (uuids_used (sys w)))) /\
    vs_expires_at session = clock (sys w) (S (ticks (sys w))) + rp_session_expiry_secs params * NANOS.
Proof.
  intros Hok [Hid Hst] Hclk Hsecs. destruct w as [s st]. simpl in *.
  destruct (add_seconds_total (clock s (S (ticks s))) (rp_session_expiry_secs params)) as [t Ht];
    [apply Hclk|done|].
  assert (Has : Prelude.as_i64 (rp_session_expiry_secs params) = rp_session_expiry_secs params).
  { apply as_i64_id, in_i64_spec. unfold i64_min, i64_max. lia. }
  unfold create_authorization_request, new_v4, utc_now, pbind_res, pmap_err, pmap. simpl.
  rewrite Has, Ht. simpl.
  match goal with |- context [store_session ?session st] =>
    pose proof (store_session_ok session st Hok (conj Hid Hst)) as (H1 & H2 & H3);
    destruct (store_session session st) as [r st'] eqn:Hstore; exists session end.
  simpl in H1. subst r. eexists. simpl. split; [reflexivity|]. split; [done|]. split; [done|].
  repeat (split; [done|]). by apply add_seconds_spec.
Qed.
End RequestFacts.
