(* ===== verification/VerifierResponse.v ===== *)
(** * Authorization responses

    crates/verifier/src/response.rs: the checks of a VP token, exactly when a
    response is accepted, that a session serves one response after the other
    only once, and what the plain JWT branch accepts. *)
From S2P Require Import Prelude Externals Strings Effects Json Keys Jws Credentials SdJwt Oid4vp Dcql VerifierState.

Inductive ResponseError :=
| RE_MissingVpToken
| RE_InvalidState
| RE_SessionExpired
| RE_NonceMismatch
| RE_KeyBindingFailed (msg : string)
| RE_VerificationFailed (msg : string)
| RE_QueryNotSatisfied (msg : string)
| RE_StateError (msg : string).

Definition response_error_to_string (e : ResponseError) : string :=
  match e with
  | RE_MissingVpToken => "missing vp_token"
  | RE_InvalidState => "invalid state: session not found"
  | RE_SessionExpired => "session expired"
  | RE_NonceMismatch => "nonce mismatch"
  | RE_KeyBindingFailed s => "key binding verification failed: " +:+ s
  | RE_VerificationFailed s => "credential verification failed: " +:+ s
  | RE_QueryNotSatisfied s => "presentation does not satisfy the request: " +:+ s
  | RE_StateError s => "state error: " +:+ s
  end.

Record VerificationResult := mkVerificationResult {
  vr_session_id : string;
  vr_disclosed_claims : gmap string Value;
}.

Section Response.
Context `{Sha2} `{Base64Url} `{P256} `{Ed25519} `{HeaderSerde} `{SerdeJson} `{ClaimsSerde} `{Chrono} `{UrlApi}.
Context {F : Type -> Type} `{Sub SysE F} `{Sub VerifierStateE F}.

(** The error of a key binding: a message that mentions a nonce is taken for a
    nonce mismatch. *)
Definition key_binding_error (e : SdJwtError) : ResponseError :=
  match e with
  | SJ_KeyBinding msg => if contains "nonce" msg then RE_NonceMismatch
                         else RE_KeyBindingFailed (sd_jwt_error_to_string e)
  | _ => RE_KeyBindingFailed (sd_jwt_error_to_string e)
  end.

(** Once the credential is verified: its claims, for the holder only. *)
Definition holder_claims (sd_jwt : string) (verified : VerifiedSdJwtVc) (expected_nonce expected_audience : string)
    : res (gmap string Value) ResponseError :=
  let? holder := ok_or (holder_jwk verified)
    (RE_KeyBindingFailed "credential has no 'cnf' claim, so holder possession cannot be proven") in
  let? _ := map_err key_binding_error (verify_key_binding sd_jwt holder expected_nonce expected_audience) in
  Ok (vs_claims verified).

Definition verify_sd_jwt_vp (sd_jwt : string) (issuer_key : KeyPair) (expected_nonce expected_audience : string)
    : prog F (res (gmap string Value) ResponseError) :=
  do? verified <- pmap_err (fun e => RE_VerificationFailed (sd_jwt_error_to_string e))
    (verify_sd_jwt_vc sd_jwt issuer_key);
  Ret (holder_claims sd_jwt verified expected_nonce expected_audience).

(** The members of a JSON object, inserted in turn. *)
Definition object_claims (payload : Value) : gmap string Value :=
  match payload with
  | VObject m => fold_left (fun claims kv => <[kv.1 := kv.2]> claims) m ∅
  | _ => ∅
  end.

Definition verify_jwt_vp (jwt : string) (issuer_key : KeyPair) : res (gmap string Value) ResponseError :=
  let? decoded := map_err (fun e => RE_VerificationFailed (jws_error_to_string e)) (verify_compact jwt issuer_key) in
  let? payload := map_err RE_VerificationFailed (from_ext (value_from_slice (dj_payload decoded))) in
  Ok (object_claims payload).

Definition verify_vp_token (vp_token : Value) (issuer_key : KeyPair) (session : VerifierSession)
    : prog F (res (gmap string Value) ResponseError) :=
  match vp_token with
  | VString token_str =>
      if has_char tilde token_str then
        verify_sd_jwt_vp token_str issuer_key (vs_nonce session) (ar_client_id (vs_request session))
      else Ret (verify_jwt_vp token_str issuer_key)
  | _ => Ret (Err (RE_VerificationFailed "unsupported vp_token format"))
  end.

Fixpoint check_queries (queries : list CredentialQuery) (disclosed_claims : gmap string Value)
    : res unit ResponseError :=
  match queries with
  | [] => Ok tt
  | query :: queries' =>
      fail? negb (evaluate_credential_query query disclosed_claims) with
        RE_QueryNotSatisfied ("credential query '" +:+ crq_id query +:+ "' is unsatisfied");
      check_queries queries' disclosed_claims
  end.

Definition session_queries (session : VerifierSession) : list CredentialQuery :=
  from_option dq_credentials [] (ar_dcql_query (vs_request session)).

Definition process_response (response : AuthorizationResponse) (issuer_key : KeyPair)
    : prog F (res VerificationResult ResponseError) :=
  do? request_state <- Ret (ok_or (aur_state response) RE_InvalidState);
  do? found <- pmap_err (fun e => RE_StateError (session_error_to_string e)) (trigger (GetSessionByState request_state));
  do? session <- Ret (ok_or found RE_InvalidState);
  do now <- utc_now;
  if vs_expires_at session <? now then
    do _ <- trigger (DeleteSession (vs_id session));
    Ret (Err RE_SessionExpired)
  else
    do? vp_token <- Ret (ok_or (aur_vp_token response) RE_MissingVpToken);
    do? disclosed_claims <- verify_vp_token vp_token issuer_key session;
    do? _ <- Ret (check_queries (session_queries session) disclosed_claims);
    do _ <- trigger (DeleteSession (vs_id session));
    Ret (Ok (mkVerificationResult (vs_id session) disclosed_claims)).
End Response.

(** ** When a response is accepted *)
Section Accepted.
Context `{Sha2} `{Base64Url} `{P256} `{Ed25519} `{HeaderSerde} `{SerdeJson} `{ClaimsSerde} `{UrlApi}.

(** An SD-JWT VC whose holder bound this presentation to the session. *)
Definition bound_presentation (session : VerifierSession) (key : KeyPair) (token : string) (now : Z)
    (claims : gmap string Value) : Prop :=
  exists parsed payload vc holder,
    verify_issuer token key = Ok (parsed, payload) /\ verify_payload parsed payload now = Ok vc /\
    holder_jwk vc = Some holder /\
    verify_key_binding token holder (vs_nonce session) (ar_client_id (vs_request session)) = Ok tt /\
    claims = vs_claims vc.

(** A bare JWT under the issuer's key, bound to nothing. *)
Definition bearer_token (key : KeyPair) (token : string) (claims : gmap string Value) : Prop :=
  exists d payload, verify_compact token key = Ok d /\ value_from_slice (dj_payload d) = inl payload /\
    claims = object_claims payload.

Definition accepted_token (session : VerifierSession) (key : KeyPair) (vp_token : Value) (now : Z)
    (claims : gmap string Value) : Prop :=
  exists token, vp_token = VString token /\
    (if has_char tilde token then bound_presentation session key token now claims
     else bearer_token key token claims).

Definition queries_answered (session : VerifierSession) (claims : gmap string Value) : Prop :=
  forall query, query ∈ session_queries session -> evaluate_credential_query query claims = true.

Lemma accepted_token_unique session key vp_token now claims1 claims2 :
  accepted_token session key vp_token now claims1 -> accepted_token session key vp_token now claims2 ->
  claims1 = claims2.
Proof.
  intros (t & -> & H1') (? & [= <-] & H2'). destruct (has_char _ t).
  - destruct H1' as (? & ? & ? & ? & Hi & Hp & _ & _ & ->), H2' as (? & ? & ? & ? & Hi' & Hp' & _ & _ & ->).
    rewrite Hi in Hi'. simplify_eq. rewrite Hp in Hp'. by simplify_eq.
  - destruct H1' as (? & ? & Hd & Hp & ->), H2' as (? & ? & Hd' & Hp' & ->).
    rewrite Hd in Hd'. simplify_eq. rewrite Hp in Hp'. by simplify_eq.
Qed.

Lemma check_queries_Ok queries claims :
  check_queries queries claims = Ok tt <->
  forall query, query ∈ queries -> evaluate_credential_query query claims = true.
Proof.
  rewrite <- list.Forall_forall. induction queries as [|q queries IH]; simpl; [by split; [constructor|]|].
  rewrite Forall_cons, <- IH. destruct (evaluate_credential_query q claims); simpl; naive_solver.
Qed.

Lemma check_queries_np queries claims : check_queries queries claims <> Panic.
Proof. induction queries; simpl; [done|]. by apply np_if. Qed.

Lemma key_pair_np key `{!KeyPairLaws key} m s : kp_verify key m s <> Panic.
Proof. destruct kp_jwk as (jwk & _ & _ & _ & _ & _ & Hv). rewrite <- Hv. apply verify_with_jwk_np. Qed.

Lemma verify_compact_np key `{!KeyPairLaws key} jws : verify_compact jws key <> Panic.
Proof. pose proof (key_pair_np key). unfold verify_compact. solve_np. Qed.

Lemma verify_jwt_vp_Ok token key claims :
  verify_jwt_vp token key = Ok claims <-> bearer_token key token claims.
Proof.
  unfold verify_jwt_vp, bearer_token. split.
  - intros Ho. inv_ok. eauto 10.
  - intros (d & payload & -> & Hp & ->). simpl. by rewrite Hp.
Qed.

Lemma verify_jwt_vp_np token key `{!KeyPairLaws key} : verify_jwt_vp token key <> Panic.
Proof. pose proof (verify_compact_np key). unfold verify_jwt_vp. solve_np. Qed.

Lemma holder_claims_Ok token vc nonce audience claims :
  holder_claims token vc nonce audience = Ok claims <->
  exists holder, holder_jwk vc = Some holder /\ verify_key_binding token holder nonce audience = Ok tt /\
    claims = vs_claims vc.
Proof.
  unfold holder_claims. split.
  - intros Ho. inv_ok. repeat match goal with u : () |- _ => destruct u end. eauto.
  - intros (holder & -> & Hv & ->). simpl. by rewrite Hv.
Qed.

Lemma parse_np s : parse s <> Panic.
Proof. unfold parse. solve_np. Qed.

Lemma holder_claims_np token vc nonce audience : holder_claims token vc nonce audience <> Panic.
Proof.
  unfold holder_claims. apply np_bind; [solve_np|]. intros holder. apply np_bind; [|solve_np]. apply np_map_err.
  pose proof parse_np. unfold verify_key_binding, kb_member. solve_np.
Qed.
End Accepted.

(** ** Runs *)
Section Runs.
Context `{Sha2} `{Base64Url} `{P256} `{Ed25519} `{HeaderSerde} `{SerdeJson} `{ClaimsSerde} `{Chrono} `{UrlApi}.

Lemma verify_issuer_np token key `{!KeyPairLaws key} : verify_issuer token key <> Panic.
Proof. pose proof (verify_compact_np key). pose proof parse_np. unfold verify_issuer. solve_np. Qed.

Lemma check_disclosures_np encoded sd seen acc : check_disclosures encoded sd seen acc <> Panic.
Proof.
  revert seen acc. induction encoded as [|e encoded IH]; intros seen acc; simpl; [done|].
  apply np_bind; [unfold from_encoded; solve_np|]. intros d. repeat apply np_if; solve_np.
Qed.

Lemma verify_payload_np parsed payload now : verify_payload parsed payload now <> Panic.
Proof. pose proof check_disclosures_np. unfold verify_payload, check_window. solve_np. Qed.

Lemma verify_vp_token_run vp_token key session w r w' `{!KeyPairLaws key} :
  run verifier_handler (verify_vp_token vp_token key session) w = (r, w') ->
  let now := timestamp (clock (sys w) (ticks (sys w))) in
  store w' = store w /\
  match r with
  | Ok claims => accepted_token session key vp_token now claims
  | Err _ => forall claims, ~ accepted_token session key vp_token now claims
  | Panic => False
  end.
Proof.
  intros Hr now. unfold verify_vp_token in Hr. unfold accepted_token.
  destruct vp_token as [| | |token| |]; try (simpl in Hr; simplify_eq; split; [done|]; by intros claims (? & [=] & _)).
  destruct (has_char tilde token) eqn:Ht.
  2:{ simpl in Hr. simplify_eq. split; [done|]. pose proof (verify_jwt_vp_Ok token key) as Hok.
      pose proof (verify_jwt_vp_np token key) as Hnp.
      destruct (verify_jwt_vp token key) as [claims|e|]; [|..|done].
      - exists token. split; [done|]. rewrite Ht. by apply Hok.
      - intros claims (? & [= <-] & Hb). rewrite Ht in Hb. by apply Hok in Hb. }
  unfold verify_sd_jwt_vp in Hr. rewrite run_bind_res, run_map_err in Hr.
  rewrite (verify_sd_jwt_vc_run verifier_backend token key w :
    run verifier_handler (verify_sd_jwt_vc token key) w = _) in Hr. fold now in Hr.
  pose proof (verify_issuer_np token key) as Hnp.
  destruct (verify_issuer token key) as [[parsed payload]|e|] eqn:Hi; [|simpl in Hr; simplify_eq|done].
  2:{ split; [done|]. intros claims (? & [= <-] & Hb). rewrite Ht in Hb.
      destruct Hb as (? & ? & ? & ? & Hi' & _). congruence. }
  pose proof (verify_payload_np parsed payload now) as Hnp2.
  destruct (verify_payload parsed payload now) as [vc|e|] eqn:Hv; [|simpl in Hr; simplify_eq|done].
  2:{ split; [done|]. intros claims (? & [= <-] & Hb). rewrite Ht in Hb.
      destruct Hb as (? & ? & ? & ? & Hi' & Hv' & _). congruence. }
  simpl in Hr. simplify_eq. split; [done|].
  pose proof (holder_claims_Ok token vc (vs_nonce session) (ar_client_id (vs_request session))) as Hok.
  pose proof (holder_claims_np token vc (vs_nonce session) (ar_client_id (vs_request session))) as Hnp3.
  destruct (holder_claims _ _ _ _) as [claims|e|]; [|..|done].
  - destruct (proj1 (Hok claims) eq_refl) as (holder & ? & ? & ?).
    exists token. split; [done|]. rewrite Ht. by exists parsed, payload, vc, holder.
  - intros claims (? & [= <-] & Hb). rewrite Ht in Hb.
    destruct Hb as (p' & pl' & vc' & holder & Hi' & Hv' & Hh & Hk & ->). rewrite Hi in Hi'. simplify_eq. rewrite Hv in Hv'. simplify_eq.
    assert (Err e = Ok (vs_claims vc')) as Hx; [|discriminate Hx]. apply Hok. eauto.
Qed.

(** The session of a response, if it has not expired at the clock's next reading
    after the lookup. *)
Definition live_session (response : AuthorizationResponse) (w : World InMemoryVerifierState)
    (session : VerifierSession) : Prop :=
  exists state, aur_state response = Some state /\ session_of_state (store w) state = Some session /\
    clock (sys w) (S (ticks (sys w))) <= vs_expires_at session.

(** What makes a response acceptable, and the claims it discloses. *)
Definition acceptable (response : AuthorizationResponse) (key : KeyPair) (w : World InMemoryVerifierState)
    (session : VerifierSession) (claims : gmap string Value) : Prop :=
  live_session response w session /\
  (exists vp_token, aur_vp_token response = Some vp_token /\
     accepted_token session key vp_token (timestamp (clock (sys w) (S (S (ticks (sys w)))))) claims) /\
  queries_answered session claims.

(** The store without a session. *)
Definition without_session (session : VerifierSession) (st : InMemoryVerifierState) : InMemoryVerifierState :=
  (delete_session (vs_id session) st).2.

Lemma process_response_run response key w r w' `{!KeyPairLaws key} :
  sessions_ok (store w) ->
  run verifier_handler (process_response response key) w = (r, w') ->
  match r with
  | Ok result => exists session claims, acceptable response key w session claims /\
      result = mkVerificationResult (vs_id session) claims /\ store w' = without_session session (store w)
  | Err e => (forall session claims, ~ acceptable response key w session claims) /\
      (store w' = store w \/
       e = RE_SessionExpired /\ exists state session, aur_state response = Some state /\
         session_of_state (store w) state = Some session /\
         vs_expires_at session < clock (sys w) (S (ticks (sys w))) /\
         store w' = without_session session (store w))
  | Panic => False
  end.
Proof.
  intros Hok Hr. destruct w as [s st]. unfold process_response in Hr. rewrite run_bind_res in Hr. simpl in Hr, Hok.
  unfold acceptable, live_session. simpl.
  destruct (aur_state response) as [state|]; simpl in Hr.
  2:{ simplify_eq. split; [|by left]. by intros session claims [(? & [=] & _) _]. }
  rewrite (get_session_by_state_ok _ _ Hok) in Hr. simpl in Hr. rewrite run_bind_res in Hr. simpl in Hr.
  destruct (session_of_state st state) as [session|] eqn:Hs; simpl in Hr.
  2:{ simplify_eq. split; [|by left]. intros session claims [(? & [= <-] & ? & _) _]. simpl in *. congruence. }
  assert (Hses : forall session' : VerifierSession, (exists state', Some state = Some state' /\
    session_of_state st state' = Some session' /\ clock s (S (ticks s)) <= vs_expires_at session') ->
    session' = session /\ clock s (S (ticks s)) <= vs_expires_at session).
  { intros session' (? & [= <-] & ? & ?). by simplify_eq. }
  destruct (Z.ltb_spec (vs_expires_at session) (clock s (S (ticks s)))) as [Hexp|Hlive].
  { simpl in Hr. destruct (delete_session_ok (vs_id session) _ Hok) as (Hd & _ & _).
    destruct (delete_session (vs_id session) st) as [x st'] eqn:Hdel. simpl in Hr. simplify_eq.
    split.
    - intros session' claims [Hl _]. apply Hses in Hl as [_ ?]. lia.
    - right. split; [done|]. exists state, session. repeat (split; [done|]). unfold without_session. by rewrite Hdel. }
  rewrite run_bind_res in Hr. simpl in Hr.
  destruct (aur_vp_token response) as [vp_token|]; simpl in Hr.
  2:{ simplify_eq. split; [|by left]. by intros session' claims (_ & (? & [=] & _) & _). }
  rewrite run_bind_res in Hr.
  destruct (run _ (verify_vp_token _ _ _) _) as [r1 w1] eqn:Hv.
  apply verify_vp_token_run in Hv as [Hw1 Hv]; [|done]. simpl in Hw1, Hv.
  destruct r1 as [claims|e|]; [|..|done].
  2:{ simplify_eq. split; [|by left]. intros session' claims (Hl & (? & [= <-] & Ha) & _).
      apply Hses in Hl as [-> _]. by eapply Hv. }
  rewrite run_bind_res in Hr. simpl in Hr.
  pose proof (check_queries_Ok (session_queries session) claims) as Hq.
  pose proof (check_queries_np (session_queries session) claims) as Hnp.
  destruct (check_queries _ _) as [[]|e|]; [|..|done]; simpl in Hr.
  - destruct w1 as [s1 st1]. simpl in *. subst st1.
    destruct (delete_session (vs_id session) st) as [x st'] eqn:Hdel. simpl in Hr. simplify_eq.
    exists session, claims. split; [|split; [done|]].
    + split; [by exists state|]. split; [by exists vp_token|]. intros q. by apply Hq.
    + unfold without_session. by rewrite Hdel.
  - simplify_eq. split; [|by left]. intros session' claims' (Hl & (? & [= <-] & Ha) & Hans).
    apply Hses in Hl as [-> _].
    rewrite (accepted_token_unique _ _ _ _ _ _ Ha Hv) in Hans. by apply Hq in Hans.
Qed.

Lemma acceptable_accepted response key w session claims `{!KeyPairLaws key} :
  sessions_ok (store w) -> acceptable response key w session claims ->
  exists w', run verifier_handler (process_response response key) w
    = (Ok (mkVerificationResult (vs_id session) claims), w').
Proof.
  intros Hok Ha. destruct (run verifier_handler (process_response response key) w) as [r w'] eqn:Hr. exists w'. f_equal.
  apply process_response_run in Hr; [|done..]. destruct r as [result|e|]; [|by destruct Hr as [Hn _]; destruct (Hn _ _ Ha)|done].
  destruct Hr as (session' & claims' & ((st' & Hst' & Hs' & _) & (vt' & Hvt' & Hacc') & _) & -> & _).
  destruct Ha as ((st & Hst & Hs & _) & (vt & Hvt & Hacc) & _).
  assert (session' = session) as -> by congruence. assert (vt' = vt) as -> by congruence.
  by rewrite (accepted_token_unique _ _ _ _ _ _ Hacc' Hacc).
Qed.
End Runs.

(** ** What acceptance means, and that it happens once *)
Section ResponseTheorems.
Context `{Sha2} `{Base64Url} `{P256} `{Ed25519} `{HeaderSerde} `{SerdeJson} `{ClaimsSerde} `{Chrono} `{UrlApi}.

(** C5: A response is accepted exactly when its state names a session that has
    not expired, its token is a string that the issuer's key vouches for (an
    SD-JWT VC within its validity whose holder signed for the session's nonce
    and this verifier, or a plain JWT, bound to nothing), and the disclosed
    claims answer every query of the request.  The result names the session
    and those claims, and the session is gone.  A refused response changes
    nothing, but that an expired session is removed; nothing panics. *)
Theorem process_response_exact response key w r w' `{!KeyPairLaws key} :
  sessions_ok (store w) ->
  run verifier_handler (process_response response key) w = (r, w') ->
  sessions_ok (store w') /\
  match r with
  | Ok result => exists session claims, acceptable response key w session claims /\
      result = mkVerificationResult (vs_id session) claims /\ store w' = without_session session (store w)
  | Err e => (forall session claims, ~ acceptable response key w session claims) /\
      (store w' = store w \/
       e = RE_SessionExpired /\ exists state session, aur_state response = Some state /\
         session_of_state (store w) state = Some session /\
         vs_expires_at session < clock (sys w) (S (ticks (sys w))) /\
         store w' = without_session session (store w))
  | Panic => False
  end.
Proof.
  intros Hok Hr. apply process_response_run in Hr; [|done..]. split; [|done].
  assert (Hdel : forall session, sessions_ok (without_session session (store w))).
  { intros session. by apply delete_session_ok. }
  destruct r as [result|e|]; [|destruct Hr as [_ [->|(_ & _ & session & _ & _ & _ & ->)]]|]; try done.
  by destruct Hr as (session & claims & _ & _ & ->).
Qed.

(** No call stores a session for the state. *)
Definition never_stores (state : string) X (e : VerifierF X) : Prop :=
  match e with inrE (StoreSession s) => vs_state s <> state | _ => True end.

Definition forgotten (state : string) (w : World InMemoryVerifierState) : Prop :=
  inner (v_state_to_id (store w)) !! state = None.

Lemma forgotten_run {A} state (p : prog VerifierF A) w :
  calls_made (never_stores state) verifier_handler p w -> forgotten state w -> forgotten state (run verifier_handler p w).2.
Proof.
  intros Hp. apply (run_made_invariant (forgotten state) (never_stores state)); [|done].
  clear. intros X [e|e] w Hc Hf; simpl; [by destruct (handle_sys e (sys w))|].
  unfold forgotten in *. destruct w as [s [[ps sessions] [pt states]]]. simpl in *.
  destruct e as [session|id|st|id]; simpl in *;
    unfold store_session, get_session, get_session_by_state, delete_session, v_locked; simpl;
    repeat (case_match; simplify_eq/=; try done).
  - by rewrite lookup_insert_ne.
  - by rewrite lookup_delete_None; right.
Qed.

Lemma accepted_forgotten response key w result w' `{!KeyPairLaws key} :
  sessions_ok (store w) ->
  run verifier_handler (process_response response key) w = (Ok result, w') ->
  exists state, aur_state response = Some state /\ forgotten state w'.
Proof.
  intros Hok Hr. apply process_response_run in Hr; [|done..].
  destruct Hr as (session & claims & ((state & Hst & Hs & _) & _) & _ & Hw').
  exists state. split; [done|]. unfold forgotten. rewrite Hw'.
  destruct (delete_session_ok (vs_id session) _ Hok) as (_ & Hok' & Hlook).
  specialize (Hlook state). rewrite Hs in Hlook. simpl in Hlook. rewrite decide_True in Hlook by done.
  unfold session_of_state in Hlook. fold (without_session session (store w)) in *.
  destruct (inner (v_state_to_id (without_session session (store w))) !! state) as [id|] eqn:Hid; [|done].
  destruct (so_by_state _ Hok' _ _ Hid) as (s & Hs' & _). simpl in Hlook. by rewrite Hs' in Hlook.
Qed.

(** C12: A session serves one response.  After a response was accepted, a response
    with the same state is refused, whatever it presents and whatever ran in
    between, until a session with that state is stored again. *)
Theorem response_accepted_once {A} response response' key key' (p : prog VerifierF A) w result w1 a w2 r w3
    `{!KeyPairLaws key} :
  sessions_ok (store w) ->
  run verifier_handler (process_response response key) w = (Ok result, w1) ->
  (forall state, aur_state response = Some state -> calls_made (never_stores state) verifier_handler p w1) ->
  run verifier_handler p w1 = (a, w2) ->
  aur_state response' = aur_state response ->
  run verifier_handler (process_response response' key') w2 = (r, w3) ->
  (r = Err RE_InvalidState \/ r = Err (RE_StateError "lock poisoned")) /\ store w3 = store w2.
Proof.
  intros Hok R1 Hp R2 Heq R3. destruct (accepted_forgotten _ _ _ _ _ Hok R1) as (state & Hst & Hf).
  specialize (Hp state Hst). pose proof (forgotten_run state p w1 Hp Hf) as Hf2. rewrite R2 in Hf2. simpl in Hf2.
  unfold process_response in R3. rewrite Heq, Hst in R3. rewrite run_bind_res in R3. simpl in R3.
  unfold forgotten in Hf2. unfold get_session_by_state, v_locked in R3.
  destruct (poisoned (v_state_to_id (store w2))); simpl in R3; [simplify_eq; split; [by right|done]|].
  rewrite Hf2 in R3. simpl in R3. simplify_eq. split; [by left|done].
Qed.

Context `{BL : !Base64UrlLaws H0} `{HL : !HeaderSerdeLaws H3}.

(** C24: The plain JWT branch has no holder.  Whatever JWT the issuer's key ever
    signed, of any type and however old, is accepted for any live session
    whose queries its members answer: no key binding, nonce, audience or
    expiry is looked at.  So whoever has seen one presentation of a credential
    can present its issuer-signed part. *)
Theorem bearer_jwt_accepted response key w session header payload v jwt `{!KeyPairLaws key} :
  sessions_ok (store w) -> live_session response w session ->
  Forall is_u8 payload -> sign_compact key header (inl payload) = Ok jwt ->
  value_from_slice payload = inl v -> queries_answered session (object_claims v) ->
  aur_vp_token response = Some (VString jwt) ->
  exists w', run verifier_handler (process_response response key) w
    = (Ok (mkVerificationResult (vs_id session) (object_claims v)), w').
Proof.
  intros Hok Hl Hu Hs Hv Hq Ht.
  destruct (sign_decode _ _ _ Hu Hs) as (d & Hd & _ & Hpd & Hver & _).
  destruct (signed_part_ok _ _ _ Hu Hs) as [_ Htl].
  assert (Ha : acceptable response key w session (object_claims v)).
  { split; [done|]. split; [|done]. exists (VString jwt). split; [done|]. exists jwt. split; [done|]. rewrite Htl.
    exists d, v. unfold verify_compact. rewrite Hd. simpl. rewrite Hver. simpl. by rewrite Hpd. }
  by apply acceptable_accepted.
Qed.
End ResponseTheorems.
