(* ===== verification/VerifierRace.v ===== *)
(** * Concurrent responses

    Looking the session of a response up and deleting it are separate calls of
    the store (crates/verifier/src/response.rs), so responses that arrive
    together can all be accepted. *)
From S2P Require Import Prelude Externals Strings Effects Json Keys Jws Credentials SdJwt Oid4vp Dcql VerifierState.
From S2P Require Import VerifierResponse.

Section Race.
Context `{Sha2} `{Base64Url} `{P256} `{Ed25519} `{HeaderSerde} `{SerdeJson} `{ClaimsSerde} `{Chrono} `{UrlApi}.

(** What is left of a response once its session was found. *)
Definition after_lookup (response : AuthorizationResponse) (key : KeyPair) (session : VerifierSession)
    : prog VerifierF (res VerificationResult ResponseError) :=
  do now <- utc_now;
  if vs_expires_at session <? now then
    do _ <- trigger (DeleteSession (vs_id session));
    Ret (Err RE_SessionExpired)
  else
    do? vp_token <- Ret (ok_or (aur_vp_token response) RE_MissingVpToken);
    do? disclosed_claims <- verify_vp_token vp_token key session;
    do? _ <- Ret (check_queries (session_queries session) disclosed_claims);
    do _ <- trigger (DeleteSession (vs_id session));
    Ret (Ok (mkVerificationResult (vs_id session) disclosed_claims)).

Lemma process_response_lookup response key state :
  aur_state response = Some state ->
  exists k, process_response response key = Vis (inrE (GetSessionByState state)) k /\
    forall session, k (Ok (Some session)) = after_lookup response key session.
Proof. intros Hs. unfold process_response. rewrite Hs. eexists. by split. Qed.

(** ** Programs that make a bounded number of allowed calls *)
Fixpoint spends {E A} (P : forall X, E X -> Prop) (n : nat) (p : prog E A) {struct p} : Prop :=
  match p with
  | Ret _ => True
  | Vis e k => match n with O => False | S n' => P _ e /\ forall x, spends P n' (k x) end
  end.

Lemma spends_ret {E A} (P : forall X, E X -> Prop) n (a : A) : spends P n (Ret a).
Proof. by destruct n. Qed.

(** The calls of a response: the system's, lookups by state, and deletions. *)
Definition of_response X (e : VerifierF X) : Prop :=
  match e with inrE (GetSessionByState _) | inrE (DeleteSession _) => True | inrE _ => False | inlE _ => True end.

Lemma verify_vp_token_spends {B} vp_token key session
    (f : res (gmap string Value) ResponseError -> prog VerifierF B) n :
  (forall r, spends of_response n (f r)) -> spends of_response (S n) (pbind (verify_vp_token vp_token key session) f).
Proof.
  intros Hf. assert (Hret : forall r, spends of_response (S n) (pbind (Ret r) f)).
  { intros r. specialize (Hf r). simpl. revert n Hf. induction (f r) as [b|X e k IH]; intros n Hf; [done|].
    destruct n as [|n]; [done|]. destruct Hf as [He Hk]. split; [done|]. intros x. by apply IH. }
  destruct vp_token as [| | |token| |]; try apply Hret. unfold verify_vp_token. destruct (has_char tilde token); [|apply Hret].
  unfold verify_sd_jwt_vp, verify_sd_jwt_vc. destruct (verify_issuer token key) as [[parsed payload]|e|]; [|apply Hret..].
  simpl. split; [done|]. intros now. by destruct (verify_payload _ _ _); simpl.
Qed.

(** A response makes four calls at most: the lookup, two readings of the clock
    and the deletion. *)
Lemma process_response_spends response key : spends of_response 4 (process_response response key).
Proof.
  unfold process_response. destruct (aur_state response) as [state|]; [|done]. simpl.
  split; [done|]. intros [[session|]|e|]; try apply spends_ret. simpl. split; [done|]. intros now.
  destruct (_ <? _); simpl; [by split|].
  destruct (aur_vp_token response) as [vp_token|]; simpl; [|done].
  apply (verify_vp_token_spends _ _ _ _ 1). intros [claims|e|]; [|done..].
  simpl. destruct (check_queries _ claims) as [[]|e|]; simpl; [|done..]. by split.
Qed.

(** ** While the readings of the clock are in a window *)

Definition reading (s : Sys) (n : nat) (now : DateTime) : Prop :=
  exists i, (ticks s <= i < ticks s + n)%nat /\ now = clock s i.

(** What the clock and the store answer in the window. *)
Definition in_window (s : Sys) (n : nat) X (e : VerifierF X) : X -> Prop :=
  match e with
  | inlE e => match e in SysE X return X -> Prop with UtcNow => reading s n | _ => fun _ => True end
  | inrE e => match e in VerifierStateE X return X -> Prop with DeleteSession _ => fun r => r = Ok tt | _ => fun _ => True end
  end.

(** A response to the session, acceptable at each of the next [n] readings of
    the clock. *)
Definition acceptable_during (w : World InMemoryVerifierState) (n : nat) (response : AuthorizationResponse)
    (key : KeyPair) (session : VerifierSession) (claims : gmap string Value) : Prop :=
  (exists state, aur_state response = Some state /\ session_of_state (store w) state = Some session) /\
  (exists vp_token, aur_vp_token response = Some vp_token /\
     forall now, reading (sys w) n now -> now <= vs_expires_at session /\
       accepted_token session key vp_token (timestamp now) claims) /\
  queries_answered session claims.

Lemma verify_vp_token_accepts s n vp_token key session claims :
  (0 < n)%nat -> (forall now, reading s n now -> accepted_token session key vp_token (timestamp now) claims) ->
  outcomes (in_window s n) (fun r => r = Ok claims) (verify_vp_token vp_token key session).
Proof.
  intros Hn Ha. assert (Hnow0 : reading s n (clock s (ticks s))) by (exists (ticks s); split; [lia|done]).
  destruct (Ha _ Hnow0) as (token & -> & Hb). unfold verify_vp_token.
  destruct (has_char tilde token) eqn:Ht; [|by apply verify_jwt_vp_Ok].
  unfold verify_sd_jwt_vp, verify_sd_jwt_vc. destruct Hb as (parsed & payload & _ & _ & Hi & _).
  rewrite Hi. simpl. intros now Hnow. destruct (Ha now Hnow) as (? & [= <-] & Hb). rewrite Ht in Hb.
  destruct Hb as (? & ? & vc & holder & Hi' & Hp & Hb). rewrite Hi in Hi'. simplify_eq. rewrite Hp. simpl.
  apply holder_claims_Ok. eauto.
Qed.

Lemma after_lookup_accepts w n response key session claims :
  (0 < n)%nat -> acceptable_during w n response key session claims ->
  outcomes (in_window (sys w) n) (fun r => r = Ok (mkVerificationResult (vs_id session) claims))
    (after_lookup response key session).
Proof.
  intros Hn (_ & (vp_token & Hv & Ha) & Hq). unfold after_lookup. simpl. intros now Hnow.
  destruct (Z.ltb_spec (vs_expires_at session) now) as [Hlt|_]; [by apply Ha in Hnow as [? _]; lia|].
  rewrite Hv. apply outcomes_bind. cbn [ok_or outcomes]. apply outcomes_bind.
  eapply outcomes_mono, verify_vp_token_accepts; [|done|intros; by apply Ha].
  intros r ->. simpl. apply check_queries_Ok in Hq as ->. simpl. by intros r ->.
Qed.

(** ** Interleaved responses *)

(** As long as the calls the programs may still make end in the window. *)
Definition on_time (w : World InMemoryVerifierState) (n : nat) {A} (c : list (prog VerifierF A) * World InMemoryVerifierState) : Prop :=
  sessions_ok (store c.2) /\ clock (sys c.2) = clock (sys w) /\ (ticks (sys w) <= ticks (sys c.2))%nat /\
  exists ks, Forall2 (spends of_response) ks c.1 /\ (ticks (sys c.2) + sum_list ks <= ticks (sys w) + n)%nat.

Lemma response_call (w : World InMemoryVerifierState) n X (e : VerifierF X) u :
  of_response X e -> sessions_ok (store u) -> clock (sys u) = clock (sys w) ->
  (ticks (sys w) <= ticks (sys u) < ticks (sys w) + n)%nat ->
  let '(x, u') := verifier_handler X e u in
  in_window (sys w) n X e x /\ sessions_ok (store u') /\ clock (sys u') = clock (sys w) /\
  (ticks (sys u) <= ticks (sys u') <= S (ticks (sys u)))%nat.
Proof.
  intros He Hok Hc Ht. destruct u as [s st]. simpl in *. destruct e as [[| |]|[]]; try done; simpl.
  - split_and!; try done; try lia. exists (ticks s). split; [done|]. by rewrite Hc.
  - split_and!; try done; lia.
  - split_and!; try done; lia.
  - rewrite (get_session_by_state_ok _ _ Hok). simpl. split_and!; try done; lia.
  - destruct (delete_session_ok id _ Hok) as (H1' & H2' & _). destruct (delete_session id st). simpl in *.
    split_and!; try done; lia.
Qed.

Lemma response_step w n {A} (Qs : list (A -> Prop)) c c' :
  cstep verifier_handler c c' -> on_time w n c ->
  on_time w n c' /\
  (Forall2 (outcomes (in_window (sys w) n)) Qs c.1 -> Forall2 (outcomes (in_window (sys w) n)) Qs c'.1).
Proof.
  intros Hs (Hok & Hc & Ht & ks & Hk & Hn). destruct Hs as [l1 l2 X e k u x u' Hx]. simpl in *.
  apply Forall2_app_inv_r in Hk as (ks1 & ks2 & Hk1 & Hk2 & ->).
  apply Forall2_cons_inv_r in Hk2 as (m & ks3 & He & Hk3 & ->).
  destruct m as [|m]; [done|]. destruct He as [He Hm]. rewrite sum_list_with_app in Hn. simpl in Hn.
  pose proof (response_call w n X e u He Hok Hc ltac:(lia)) as Hr. rewrite Hx in Hr.
  destruct Hr as (Hp & Hok' & Hc' & Ht'). split.
  - unfold on_time. simpl. split_and!; try done; try lia. exists (ks1 ++ m :: ks3). split.
    + apply Forall2_app; [done|]. by constructor.
    + rewrite sum_list_with_app. simpl. lia.
  - intros HQ. apply Forall2_app_inv_r in HQ as (Q1 & Q2 & HQ1 & HQ2 & ->).
    apply Forall2_cons_inv_r in HQ2 as (Q & Q3 & HQe & HQ3 & ->).
    apply Forall2_app; [done|]. constructor; [|done]. by apply HQe.
Qed.

Lemma responses_on_time w n {A} (Qs : list (A -> Prop)) c c' :
  csteps verifier_handler c c' -> on_time w n c ->
  on_time w n c' /\
  (Forall2 (outcomes (in_window (sys w) n)) Qs c.1 -> Forall2 (outcomes (in_window (sys w) n)) Qs c'.1).
Proof.
  induction 1 as [c|c1 c2 c3 H12' _ IH]; [done|]. intros Hc.
  destruct (response_step w n Qs c1 c2 H12' Hc) as [Hc2 HQ]. destruct (IH Hc2). auto.
Qed.

Definition arrived (key : KeyPair) (rc : AuthorizationResponse * gmap string Value) := process_response rc.1 key.
Definition looked_up (key : KeyPair) (session : VerifierSession) (rc : AuthorizationResponse * gmap string Value) :=
  after_lookup rc.1 key session.
Definition accepted (session : VerifierSession) (rc : AuthorizationResponse * gmap string Value)
    : res VerificationResult ResponseError := Ok (mkVerificationResult (vs_id session) rc.2).

(** The lookups can all come first. *)
Lemma all_look_up key session rs1 rs2 w :
  sessions_ok (store w) ->
  (forall rc, rc ∈ rs2 -> exists state, aur_state rc.1 = Some state /\ session_of_state (store w) state = Some session) ->
  exists w1, csteps verifier_handler
    (map (looked_up key session) rs1 ++ map (arrived key) rs2, w) (map (looked_up key session) (rs1 ++ rs2), w1).
Proof.
  revert rs1 w. induction rs2 as [|rc rs2 IH]; intros rs1 w Hok Hl.
  { exists w. rewrite !app_nil_r. constructor. }
  destruct (Hl rc ltac:(by left)) as (state & Hs & Hf).
  destruct (process_response_lookup rc.1 key state Hs) as (k & Hk & Hafter).
  destruct w as [s st]. simpl in Hok, Hf.
  destruct (IH (rs1 ++ [rc]) (mkWorld (read_clock s).2 st) Hok) as [w1 Hw1].
  { intros rc' Hrc. apply Hl. by right. }
  exists w1. rewrite <- app_assoc in Hw1. eapply csteps_step; [|exact Hw1]. rewrite map_app, <- app_assoc. simpl.
  unfold arrived at 1. rewrite Hk. unfold looked_up at 3. rewrite <- (Hafter session). apply cstep_call.
  simpl. by rewrite (get_session_by_state_ok _ _ Hok), Hf.
Qed.

(** C26: Any number of responses at once.  Take responses to one session, each
    acceptable at every one of the next readings of the clock, four for each
    response.  There are interleavings in which they all look the session up
    before any of them deletes it; and whatever the interleaving after that,
    every response that is done was accepted, and all of them can be: the nonce
    of one request serves many presentations. *)
Theorem response_race w session responses key `{!KeyPairLaws key} :
  sessions_ok (store w) ->
  (forall response claims, (response, claims) ∈ responses ->
     acceptable_during w (4 * length responses) response key session claims) ->
  (exists w1, csteps verifier_handler (map (arrived key) responses, w) (map (looked_up key session) responses, w1)) /\
  forall w1, csteps verifier_handler (map (arrived key) responses, w) (map (looked_up key session) responses, w1) ->
    (forall ps w2, csteps verifier_handler (map (looked_up key session) responses, w1) (ps, w2) ->
       Forall2 (fun p rc => forall r, p = Ret r -> r = accepted session rc) ps responses) /\
    exists w2, csteps verifier_handler (map (looked_up key session) responses, w1)
      (map (fun rc => Ret (accepted session rc)) responses, w2).
Proof.
  intros Hok Ha. split.
  { apply (all_look_up key session [] responses w Hok). intros [response claims] Hin. exact (proj1 (Ha _ _ Hin)). }
  intros w1 Hw1. set (n := (4 * length responses)%nat) in *.
  assert (Hon : on_time w n (map (arrived key) responses, w)).
  { split_and!; try done. exists (map (fun _ => 4%nat) responses). split.
    - clear. induction responses; constructor; [apply process_response_spends|done].
    - simpl. subst n. clear. induction responses; simpl in *; lia. }
  destruct (responses_on_time w n [] _ _ Hw1 Hon) as [Ht _].
  assert (HQ : Forall2 (outcomes (in_window (sys w) n)) (map (fun rc r => r = accepted session rc) responses)
    (map (looked_up key session) responses)).
  { assert (Hn : responses <> [] -> (0 < n)%nat) by (subst n; destruct responses; simpl; [done|lia]).
    clearbody n. clear Hw1 Hon Ht. induction responses as [|[response claims] responses IH]; constructor.
    - apply after_lookup_accepts; [by apply Hn|]. apply Ha. by left.
    - apply IH; [|intros _; by apply Hn]. intros. apply Ha. by right. }
  assert (Hall : forall ps w2, csteps verifier_handler (map (looked_up key session) responses, w1) (ps, w2) ->
    Forall2 (fun p rc => forall r, p = Ret r -> r = accepted session rc) ps responses).
  { intros ps w2 Hps. destruct (responses_on_time w n (map (fun rc r => r = accepted session rc) responses) _ _ Hps Ht) as [_ Hout].
    specialize (Hout HQ). simpl in Hout.
    apply (proj1 (list.Forall2_fmap_l _ _ _ _)), list.Forall2_flip in Hout. eapply list.Forall2_impl; [exact Hout|].
    intros p rc Hp r ->. exact Hp. }
  split; [exact Hall|].
  destruct (csteps_finish verifier_handler (map (looked_up key session) responses) w1) as (rs & w2 & Hf).
  exists w2. specialize (Hall _ _ Hf). apply (proj1 (list.Forall2_fmap_l _ _ _ _)) in Hall.
  assert (rs = map (accepted session) responses) as ->.
  { apply list_eq_Forall2, Forall2_fmap_r. eapply list.Forall2_impl; [exact Hall|]. auto. }
  by rewrite map_map in Hf.
Qed.
End Race.
