(* ===== verification/VerifierFlow.v ===== *)
(** * From the issuer over the holder to the verifier

    The composition of the credential library with the verifier: a credential
    that was issued, presented as the library presents it, is accepted by the
    session it was made for.  Concrete runs close the file, two of them at the
    same time. *)
From S2P Require Import Prelude Externals Strings Effects Json Keys Jws Credentials SdJwt Oid4vp.
From S2P Require Import Oid4vci IssuerState Credential CredentialSpec CredentialIssuance CredentialDemo Dcql VerifierState VerifierLocks VerifierRequest VerifierResponse VerifierRace.

Section Flow.
Context `{S2 : Sha2} `{B64 : Base64Url} `{BL : !Base64UrlLaws B64} `{P : P256} `{D : Ed25519}.
Context `{HS : HeaderSerde} `{HL : !HeaderSerdeLaws HS} `{J : SerdeJson} `{JL : !SerdeJsonLaws J}.
Context `{CS : ClaimsSerde} `{CSL : !ClaimsSerdeLaws CS J} `{KSL : !JwkSerdeLaws CS}.
Context `{CH : Chrono} `{CHL : !ChronoLaws CH} `{UA : UrlApi}.

(** The issuer and the holder run over storages of their own. *)
Context {E : Type -> Type} {St : Type} (op : backend E St).
Context {E' : Type -> Type} {St' : Type} (op' : backend E' St').

Definition cnf_of (jwk : Jwk) : Value := json_obj [("jwk"%string, jwk_json jwk)].

Lemma issued_holder iss vct plain hashes jwk status t claims :
  (forall k, is_Some (plain !! k) -> reserved k = false) ->
  holder_jwk (mkVerifiedSdJwtVc claims (claims_value (issued_claims iss vct plain hashes (Some (cnf_of jwk)) status t)))
  = Some jwk.
Proof.
  intros Hplain. unfold holder_jwk. cbn [vs_payload]. rewrite claims_get by done.
  set (fixed := fixed_members _).
  assert (obj_get fixed "cnf" = Some (cnf_of jwk)) as ->
    by (unfold fixed, fixed_members; destruct (bool_decide _); reflexivity).
  simpl. by rewrite jwk_roundtrip.
Qed.

(** The verifier's part of [verify_sd_jwt_vc], without the clock. *)
Lemma verified_parts sd_jwt key (w : World InMemoryVerifierState) vc :
  (run verifier_handler (verify_sd_jwt_vc sd_jwt key) w).1 = Ok vc ->
  exists parsed payload, verify_issuer sd_jwt key = Ok (parsed, payload) /\
    verify_payload parsed payload (timestamp (clock (sys w) (ticks (sys w)))) = Ok vc.
Proof.
  rewrite (verify_sd_jwt_vc_run verifier_backend sd_jwt key w :
    run verifier_handler (verify_sd_jwt_vc sd_jwt key) w = _).
  destruct (verify_issuer sd_jwt key) as [[parsed payload]|e|]; simpl; [by eauto|done..].
Qed.

(** The parts of a presentation are not empty and hold no separator. *)
Lemma presented_parts `{KL : !KeyPairLaws key} claims header jwt entries ds shown :
  sign_compact key header (claims_to_vec claims) = Ok jwt -> fits 127 (claims_value claims) = true ->
  Forall2 discloses entries ds -> shown `sublist_of` ds ->
  part_ok jwt /\ Forall part_ok (map di_encoded shown).
Proof.
  intros Hsign Hdoc Hds Hsub. destruct (claims_to_vec claims) as [payload|e] eqn:Hvec.
  2:{ unfold sign_compact in Hsign. inv_ok. discriminate. }
  destruct (claims_roundtrip _ payload Hvec Hdoc) as [Hu _].
  split; [by eapply signed_part_ok|]. apply Forall_fmap, list.Forall_forall. intros x Hx.
  assert (Hin : x ∈ ds) by (by eapply elem_of_sublist).
  apply list_elem_of_lookup in Hin as [i Hi].
  by destruct (Forall2_lookup_r _ _ _ _ _ Hds Hi) as ([] & _ & _ & _ & _ & ?).
Qed.

Lemma joined_tilde jwt parts last : has_char tilde (join TILDE (jwt :: parts ++ [last])) = true.
Proof. destruct parts; cbn [join app]; rewrite !has_char_app; by rewrite orb_true_r. Qed.

(** What is left of the verifier's checks is that of the credential. *)
Lemma bound_accepted response key (w : World InMemoryVerifierState) session token holder vc `{!KeyPairLaws key} :
  sessions_ok (store w) -> live_session response w session -> aur_vp_token response = Some (VString token) ->
  has_char tilde token = true ->
  (forall v : World InMemoryVerifierState, clock (sys v) (ticks (sys v)) = clock (sys w) (S (S (ticks (sys w)))) ->
     (run verifier_handler (verify_sd_jwt_vc token key) v).1 = Ok vc) ->
  holder_jwk vc = Some holder ->
  verify_key_binding token holder (vs_nonce session) (ar_client_id (vs_request session)) = Ok tt ->
  queries_answered session (vs_claims vc) ->
  exists w', run verifier_handler (process_response response key) w
    = (Ok (mkVerificationResult (vs_id session) (vs_claims vc)), w').
Proof.
  intros Hok Hl Ht Htl Hv Hh Hk Hq. apply acceptable_accepted; [done..|]. split; [done|]. split; [|done].
  exists (VString token). split; [done|]. exists token. split; [done|]. rewrite Htl.
  destruct w as [s st]. simpl in *.
  destruct (verified_parts token key (mkWorld (mkSys (clock s) (S (S (ticks s))) (uuids s) (uuids_used s) (noise s)
    (noise_used s)) st) vc) as (parsed & payload & Hi & Hp); [by apply Hv|].
  by exists parsed, payload, vc, holder.
Qed.

Lemma join_head_inj jwt jwt' parts last :
  join TILDE (jwt :: parts ++ [last]) = join TILDE (jwt' :: parts ++ [last]) -> jwt = jwt'.
Proof. destruct parts; cbn [join app]; apply string_app_cancel_r. Qed.

(** C6: Honest presentations are accepted.  A credential issued to a holder's
    key can be presented with any selection of its claims to a live session:
    the presentation that binds it to the session's nonce and the verifier is
    accepted during the credential's year if the selected claims answer the
    queries, and exactly the plain and the selected claims are reported. *)
Theorem honest_presentation_accepted `{KI : !KeyPairLaws issuer_key} `{KH : !KeyPairLaws holder_key}
    iss vct plain entries jwk status w jwt ds w' :
  run (world_handler op) (issue_sd_jwt_vc issuer_key iss vct plain entries (Some (cnf_of jwk)) status) w
    = (Ok (join TILDE (jwt :: map di_encoded ds ++ [EmptyString]), ds), w') ->
  kp_public_jwk holder_key = Ok jwk -> clock_in_range (sys w) ->
  Forall (fun e => fits 126 e.2 = true) entries -> NoDup entries.*1 -> NoDup (map di_hash ds) ->
  (forall k v, plain !! k = Some v -> reserved k = false /\ fits 126 v = true) ->
  (forall v, status = Some v -> fits 126 v = true) ->
  exists n, let issued_at := timestamp (clock (sys w) n) in
    forall shown (h h' : World St') kb response (v : World InMemoryVerifierState) session,
      shown `sublist_of` ds ->
      let base := join TILDE (jwt :: map di_encoded shown ++ [EmptyString]) in
      clock_in_range (sys h) ->
      run (world_handler op')
        (create_key_binding_jwt holder_key (vs_nonce session) (ar_client_id (vs_request session)) (compute_sd_hash base)) h
        = (Ok kb, h') ->
      sessions_ok (store v) -> live_session response v session ->
      aur_vp_token response = Some (VString (base +:+ kb)) ->
      (let now := timestamp (clock (sys v) (S (S (ticks (sys v))))) in
       issued_at - issued_at mod DAY_SECS <= now < issued_at - issued_at mod DAY_SECS + DAY_SECS * 365) ->
      queries_answered session (plain ∪ shown_claims shown) ->
      exists v', run verifier_handler (process_response response issuer_key) v
        = (Ok (mkVerificationResult (vs_id session) (plain ∪ shown_claims shown)), v').
Proof.
  intros Hrun Hjwk Hclk Hfit Hnames Hhash Hplain Hst.
  destruct (issue_run op iss vct plain entries _ status None w _ ds w' Hfit Hrun)
    as (jwt' & now & Hsd%join_head_inj & Hds & Hsign & n & ->). subst jwt'. exists n.
  set (t := timestamp (clock (sys w) n)) in *. assert (Ht : unix_time t) by by apply timestamp_unix.
  set (claims := issued_claims _ _ _ _ _ _ _) in Hsign.
  assert (Hdoc : fits 127 (claims_value claims) = true).
  { apply issued_fits; [done|by intros; eapply Hplain| |done].
    intros ? [= <-]. apply (json_obj_fits 125). constructor; [apply (jwk_json_fits 124)|constructor]. }
  assert (Hres : forall k, is_Some (plain !! k) -> reserved k = false) by (intros k [? ?]; by eapply Hplain).
  intros issued_at shown h h' kb response v session Hsub base Hclk' Hkb Hok Hlive Htoken Hwin Hq.
  destruct (presented_parts _ _ _ _ _ _ Hsign Hdoc Hds Hsub) as [Hpart Henc].
  destruct (key_binding_made op' jwk jwt (map di_encoded shown) (vs_nonce session)
    (ar_client_id (vs_request session)) h kb h' Hpart Henc Hjwk (timestamp_unix _ _ Hclk') Hkb) as (Hv & Hlast & Hbase).
  subst base. rewrite Hbase in *.
  set (vc := mkVerifiedSdJwtVc (plain ∪ shown_claims shown) (claims_value claims)).
  change (plain ∪ shown_claims shown) with (vs_claims vc) in Hq |- *.
  apply (bound_accepted response issuer_key v session (join TILDE (jwt :: map di_encoded shown ++ [kb])) jwk vc); try done.
  - apply joined_tilde.
  - intros u Hu. eapply issued_verifies; try done. by rewrite Hu.
  - by apply issued_holder.
Qed.
End Flow.

(** ** A concrete presentation *)
Module VerifierDemo.
Import Toy ToyCurves ToyCodec JwsDemo SysDemo SdJwtDemo CredentialDemo VerifierLockDemo.

Definition given_name : CredentialQuery :=
  mkCredentialQuery "q" "dc+sd-jwt" (Some "https://i/vct"%string) None
    (Some [mkClaimQuery ["given_name"%string] None None None]).
Definition params : RequestParams := mkRequestParams "v" "https://v/cb" (Some (mkDcqlQuery [given_name])) 600.
Definition start : World InMemoryVerifierState := mkWorld demo_sys verifier_state_new.

Lemma start_fresh : fresh_ids start.
Proof. split; reflexivity. Qed.

Definition created := run verifier_handler (create_authorization_request params) start.

Lemma create_request_exact_witness :
  exists session w',
    run verifier_handler (create_authorization_request params) start = (Ok (vs_request session, vs_id session), w') /\
    sessions_ok (store w') /\
    (forall state, session_of_state (store w') state =
       if decide (state = vs_state session) then Some session else session_of_state (store start) state) /\
    vs_request session = vp_request params (vs_nonce session) (vs_state session) /\
    vs_id session = "uuid-0"%string /\ vs_nonce session = "uuid-1"%string /\ vs_state session = "uuid-2"%string /\
    vs_expires_at session = clock demo_sys 1 + 600 * NANOS.
Proof.
  apply (create_request_exact params start).
  - apply sessions_ok_new.
  - split; reflexivity.
  - apply demo_sys_clock.
  - split; discriminate.
Defined.

(** The session of the request, in its store. *)
Definition session1 : VerifierSession :=
  mkVerifierSession "uuid-0" "uuid-1" "uuid-2" (vp_request params "uuid-1" "uuid-2")
    (1000 * NANOS) (1000 * NANOS + 1000000 + 600 * NANOS).
Definition asked_store : InMemoryVerifierState := Eval vm_compute in store created.2.
Definition asked : World InMemoryVerifierState :=
  mkWorld (mkSys (clock demo_sys) 2 (uuids demo_sys) 3 (noise demo_sys) 0) asked_store.

Lemma asked_ok : sessions_ok (store asked).
Proof.
  change (store asked) with (store_session session1 verifier_state_new).2.
  apply store_session_ok; [apply sessions_ok_new|]. split; reflexivity.
Qed.

(** A credential for the holder's key, and one claim of it presented. *)
Definition issued := run (world_handler no_backend)
  (issue_sd_jwt_vc key "https://i" "https://i/vct" plain entries (Some (cnf_of holder)) None) SdJwtDemo.world.
Definition cred : string * list Disclosure := Eval vm_compute in unwrap_or (EmptyString, []) issued.1.
Definition cred_jwt : string := Eval vm_compute in match split tilde cred.1 with j :: _ => j | [] => EmptyString end.
Definition base : string := Eval vm_compute in join TILDE (cred_jwt :: map di_encoded (take 1 cred.2) ++ [EmptyString]).
Definition binding := run (world_handler no_backend)
  (create_key_binding_jwt (ed_key_pair ed0) "uuid-1" "v" (compute_sd_hash base)) SdJwtDemo.world.
Definition kb : string := Eval vm_compute in unwrap_or EmptyString binding.1.
Definition presentation : AuthorizationResponse :=
  mkAuthorizationResponse (Some (VString (base +:+ kb))) None (Some "uuid-2"%string).
Definition disclosed : gmap string Value := Eval vm_compute in plain ∪ shown_claims (take 1 cred.2).

#[local] Strategy expand [issued binding].

Lemma bound_issued_eq : issued = (Ok (join TILDE (cred_jwt :: map di_encoded cred.2 ++ [EmptyString]), cred.2), issued.2).
Proof. apply pair_eq_fst. vm_compute. reflexivity. Qed.

Lemma presentation_live : live_session presentation asked session1.
Proof. exists "uuid-2"%string. split; [done|]. split; [reflexivity|]. vm_compute. discriminate. Qed.

Lemma presentation_answers : queries_answered session1 disclosed.
Proof. intros q Hq. apply list_elem_of_singleton in Hq as ->. reflexivity. Qed.

Lemma honest_presentation_accepted_witness :
  exists v', run verifier_handler (process_response presentation key) asked
    = (Ok (mkVerificationResult "uuid-0" disclosed), v').
Proof.
  destruct (honest_presentation_accepted no_backend no_backend (issuer_key := key) (holder_key := ed_key_pair ed0)
    "https://i" "https://i/vct" plain entries holder None SdJwtDemo.world cred_jwt cred.2 issued.2) as [n Hall].
  - exact bound_issued_eq.
  - reflexivity.
  - apply demo_sys_clock.
  - by repeat constructor.
  - apply (bool_decide_unpack _). vm_compute. exact I.
  - apply (bool_decide_unpack _). vm_compute. exact I.
  - intros k v Hk. unfold plain in Hk. apply lookup_singleton_Some in Hk as [<- <-]. by split.
  - done.
  - apply (Hall (take 1 cred.2) SdJwtDemo.world binding.2 kb presentation asked session1).
    + apply sublist_take.
    + apply demo_sys_clock.
    + apply pair_eq_fst. vm_compute. reflexivity.
    + apply asked_ok.
    + apply presentation_live.
    + reflexivity.
    + destruct (demo_timestamps n) as [-> | ->]; vm_compute; split; congruence.
    + apply presentation_answers.
Defined.

Definition verified := run verifier_handler (process_response presentation key) asked.
Definition result : VerificationResult := mkVerificationResult "uuid-0" disclosed.

#[local] Strategy expand [verified].

Lemma accepted_eq : verified = (Ok result, verified.2).
Proof. apply pair_eq_fst. vm_compute. reflexivity. Qed.

Lemma process_response_exact_witness :
  sessions_ok (store verified.2) /\
  exists session claims, acceptable presentation key asked session claims /\
    result = mkVerificationResult (vs_id session) claims /\
    store verified.2 = without_session session (store asked).
Proof.
  apply (process_response_exact presentation key asked (Ok result) verified.2).
  - apply asked_ok.
  - exact accepted_eq.
Defined.

(** The same presentation again, after another request was made. *)
Definition between := run verifier_handler (create_authorization_request params) verified.2.
Definition replayed := run verifier_handler (process_response presentation key) between.2.

#[local] Strategy expand [between replayed].

Lemma response_accepted_once_witness :
  (Err (A := VerificationResult) RE_InvalidState = Err RE_InvalidState \/
   Err (A := VerificationResult) RE_InvalidState = Err (RE_StateError "lock poisoned")) /\
  store replayed.2 = store between.2.
Proof.
  apply (response_accepted_once presentation presentation key key (create_authorization_request params)
    asked result verified.2 between.1 between.2 (Err RE_InvalidState) replayed.2).
  - apply asked_ok.
  - exact accepted_eq.
  - intros state [= <-]. vm_compute. repeat split; discriminate.
  - change (between = (between.1, between.2)). apply surjective_pairing.
  - reflexivity.
  - change (replayed = (Err RE_InvalidState, replayed.2)). apply pair_eq_fst. vm_compute. reflexivity.
Defined.

Definition parts : SdJwtVc * Value := Eval vm_compute in
  unwrap_or (mkSdJwtVc EmptyString [] None, VNull) (verify_issuer (base +:+ kb) key).

(** The presentation is acceptable whenever it comes, so it can come twice. *)
Lemma presentation_acceptable n : acceptable_during asked n presentation key session1 disclosed.
Proof.
  split; [|split; [|apply presentation_answers]].
  { exists "uuid-2"%string. by split. }
  eexists. split; [reflexivity|]. intros now (i & _ & ->). change (clock (sys asked)) with (clock demo_sys).
  split; [simpl; unfold NANOS; lia|]. exists (base +:+ kb). split; [done|].
  assert (Hb : forall now, now = 1000 \/ now = 1001 -> bound_presentation session1 key (base +:+ kb) now disclosed).
  { intros now Hnow. exists parts.1, parts.2, (mkVerifiedSdJwtVc disclosed parts.2), holder.
    destruct Hnow as [-> | ->]; split_and!; vm_compute; reflexivity. }
  change (has_char tilde (base +:+ kb)) with true. apply Hb. apply demo_timestamps.
Qed.

Definition twice : list (AuthorizationResponse * gmap string Value) :=
  [(presentation, disclosed); (presentation, disclosed)].

Lemma response_race_witness :
  (exists w1, csteps verifier_handler (map (arrived key) twice, asked) (map (looked_up key session1) twice, w1)) /\
  forall w1, csteps verifier_handler (map (arrived key) twice, asked) (map (looked_up key session1) twice, w1) ->
    (forall ps w2, csteps verifier_handler (map (looked_up key session1) twice, w1) (ps, w2) ->
       Forall2 (fun p rc => forall r, p = Ret r -> r = accepted session1 rc) ps twice) /\
    exists w2, csteps verifier_handler (map (looked_up key session1) twice, w1)
      (map (fun rc => Ret (accepted session1 rc)) twice, w2).
Proof.
  apply (response_race asked session1 twice key).
  - apply asked_ok.
  - intros response claims Hin. apply list_elem_of_In in Hin.
    destruct Hin as [[= <- <-]|[[= <- <-]|[]]]; apply presentation_acceptable.
Defined.

(** The issuer's part of the credential, presented alone. *)
Definition signed_claims : bytes + string :=
  claims_to_vec (issued_claims "https://i" "https://i/vct" ({["given_name"%string := VString "Ada"]}) [] None None 1000).
Definition payload : bytes := Eval vm_compute in match signed_claims with inl b => b | inr _ => [] end.
Definition payload_value : Value := Eval vm_compute in
  match value_from_slice payload with inl v => v | inr _ => VNull end.
Definition bearer : string := Eval vm_compute in
  unwrap_or EmptyString (sign_compact key (build_header key (Some "dc+sd-jwt"%string)) (inl payload)).

Lemma bearer_jwt_accepted_witness :
  exists w', run verifier_handler (process_response
      (mkAuthorizationResponse (Some (VString bearer)) None (Some "uuid-2"%string)) key) asked
    = (Ok (mkVerificationResult "uuid-0" (object_claims payload_value)), w').
Proof.
  apply (bearer_jwt_accepted (mkAuthorizationResponse (Some (VString bearer)) None (Some "uuid-2"%string)) key asked
    session1 (build_header key (Some "dc+sd-jwt"%string)) payload payload_value bearer).
  - apply asked_ok.
  - exact presentation_live.
  - apply (bool_decide_unpack _). vm_compute. exact I.
  - vm_compute. reflexivity.
  - vm_compute. reflexivity.
  - intros q Hq. apply list_elem_of_singleton in Hq as ->. reflexivity.
  - reflexivity.
Defined.
End VerifierDemo.
