(* ===== verification/Http.v ===== *)
(** * HTTP responses

    What the routes of crates/server share: the shape of a response, the JSON
    error body of middleware.rs, the body extractor of extract.rs and the
    escaping of the pages of routes/issuer.rs.  The header maps of the [http]
    crate are a parameter. *)
From S2P Require Import Prelude Externals Strings Effects Json Keys Errors Oid4vci Oid4vp StatusManager.

(** ** [http] *)
Class HttpApi := {
  HeaderMap : Type;
  HeaderValue : Type;
  (** [headers.get_all(name)], in order *)
  headers_get_all : HeaderMap -> string -> list HeaderValue;
  header_to_str : HeaderValue -> string + string;
  header_from_str : string -> HeaderValue + string;
  header_from_static : string -> HeaderValue;
}.

(** [replace(c, by)] for a character of one byte. *)
Fixpoint replace_char (c : ascii) (by_ s : string) : string :=
  match s with
  | EmptyString => EmptyString
  | String a s' => if bool_decide (a = c) then by_ +:+ replace_char c by_ s' else String a (replace_char c by_ s')
  end.

Definition AMP : ascii := Eval compute in chr 38.
Definition LT : ascii := Eval compute in chr 60.
Definition GT : ascii := Eval compute in chr 62.
Definition QUOT : ascii := Eval compute in chr 34.
Definition APOS : ascii := Eval compute in chr 39.
Definition BACKSLASH : ascii := Eval compute in chr 92.

Definition html_escape (value : string) : string :=
  replace_char APOS "&#39;"
    (replace_char QUOT "&quot;" (replace_char GT "&gt;" (replace_char LT "&lt;" (replace_char AMP "&amp;" value)))).

(** A continuation byte of UTF-8: every other byte begins a character. *)
Definition continuation (a : ascii) : bool :=
  (128 <=? Z.of_N (Ascii.N_of_ascii a)) && (Z.of_N (Ascii.N_of_ascii a) <? 192).

Definition description_char (a : ascii) : ascii :=
  if bool_decide (a = QUOT) then APOS
  else if bool_decide (a = BACKSLASH) then slash
  else if (32 <=? Z.of_N (Ascii.N_of_ascii a)) && (Z.of_N (Ascii.N_of_ascii a) <=? 126) then a
  else chr 63.

(** The characters of the description, each mapped to one of RFC 6749's. *)
Fixpoint description_of (s : string) : string :=
  match s with
  | EmptyString => EmptyString
  | String a s' => if continuation a then description_of s' else String (description_char a) (description_of s')
  end.

Section Http.
Context `{UrlApi} `{HttpApi}.

(** ** Responses *)

(** What [Json] is given, by its type; [WireAnswers.doc_value] is its JSON. *)
Inductive JsonDoc :=
| ErrorDoc (e : ErrorResponse)
| ParDoc (r : PushedAuthorizationResponse)
| TokenDoc (r : TokenResponse)
| NonceDoc (r : NonceResponse)
| CredentialDoc (r : CredentialResponse)
| OfferDoc (offer : CredentialOffer) (offer_uri : string)
| IssuerMetadataDoc (m : CredentialIssuerMetadata)
| ServerMetadataDoc (m : AuthorizationServerMetadata)
| JwksDoc (k : Jwks)
| StatusListDoc (c : StatusList2021Credential)
| RequestDoc (session_id : string) (request_uri : Url) (wallet_uri : string) (request : AuthorizationRequest)
| ValueDoc (v : Value).

Inductive Body :=
| JsonBody (doc : JsonDoc)
| HtmlBody (html : string)
| TextBody (text : string)
| BytesBody (b : bytes)
| RedirectBody (location : string).

Record Response := mkResponse {
  rs_status : Z;
  rs_headers : gmap string HeaderValue;
  rs_body : Body;
}.

Definition json_response (status : Z) (doc : JsonDoc) : Response := mkResponse status ∅ (JsonBody doc).
Definition html_response (status : Z) (html : string) : Response := mkResponse status ∅ (HtmlBody html).
(** [Redirect::to]: 303 See Other. *)
Definition redirect_to (location : string) : Response := mkResponse 303 ∅ (RedirectBody location).

(** [response.headers_mut().insert(name, value)] *)
Definition with_header (name : string) (value : HeaderValue) (r : Response) : Response :=
  mkResponse (rs_status r) (<[name := value]> (rs_headers r)) (rs_body r).

(** A body with its content type. *)
Definition typed_response (content_type : string) (body : Body) : Response :=
  with_header "content-type" (header_from_static content_type) (mkResponse 200 ∅ body).

Definition headers_get (headers : HeaderMap) (name : string) : option HeaderValue :=
  head (headers_get_all headers name).

(** [headers.get(name).and_then(|v| v.to_str().ok())] *)
Definition header_str (headers : HeaderMap) (name : string) : option string :=
  headers_get headers name ≫= fun v => match header_to_str v with inl s => Some s | inr _ => None end.

(** ** middleware.rs *)
Definition json_error (status : Z) (error description : string) : Response :=
  json_response status (ErrorDoc (mkErrorResponse error (Some (description_of description)) None None)).

(** [StatusCode::from_u16(status).unwrap_or(default)] *)
Definition status_code_or (status default : Z) : Z :=
  if (100 <=? status) && (status <? 1000) then status else default.

Definition app_error_response (e : Oid4vcError) : Response :=
  json_response (status_code_or (http_status_code e) 500) (ErrorDoc (to_error_response e)).

(** ** extract.rs *)

(** The two extractors give a value or the text of their rejection. *)
Definition form_or_json {T} (headers : HeaderMap) (json form : T + string) : res T Response :=
  let is_json := from_option (starts_with "application/json") false (header_str headers "content-type") in
  map_err (fun rejection => json_error 400 "invalid_request" rejection) (from_ext (if is_json then json else form)).
End Http.

(** ** Escaping *)

(** One pass over the text. *)
Definition escaped (a : ascii) : string :=
  if bool_decide (a = AMP) then "&amp;"
  else if bool_decide (a = LT) then "&lt;"
  else if bool_decide (a = GT) then "&gt;"
  else if bool_decide (a = QUOT) then "&quot;"
  else if bool_decide (a = APOS) then "&#39;"
  else String a EmptyString.

Fixpoint escape_once (s : string) : string :=
  match s with
  | EmptyString => EmptyString
  | String a s' => escaped a +:+ escape_once s'
  end.

Lemma replace_app c by_ s t : replace_char c by_ (s +:+ t) = replace_char c by_ s +:+ replace_char c by_ t.
Proof. induction s as [|a s IH]; app_simpl; simpl; [done|]. case_bool_decide; by rewrite IH, ?string_app_assoc. Qed.

Lemma html_escape_app s t : html_escape (s +:+ t) = html_escape s +:+ html_escape t.
Proof. unfold html_escape. by rewrite !replace_app. Qed.

Lemma html_escape_char a : html_escape (String a EmptyString) = escaped a.
Proof.
  unfold html_escape, escaped. simpl.
  destruct (decide (a = AMP)) as [->|?]; [reflexivity|]. rewrite !(bool_decide_eq_false_2 (a = AMP)) by done. simpl.
  destruct (decide (a = LT)) as [->|?]; [reflexivity|]. rewrite !(bool_decide_eq_false_2 (a = LT)) by done. simpl.
  destruct (decide (a = GT)) as [->|?]; [reflexivity|]. rewrite !(bool_decide_eq_false_2 (a = GT)) by done. simpl.
  destruct (decide (a = QUOT)) as [->|?]; [reflexivity|]. rewrite !(bool_decide_eq_false_2 (a = QUOT)) by done. simpl.
  destruct (decide (a = APOS)) as [->|?]; [reflexivity|]. by rewrite !(bool_decide_eq_false_2 (a = APOS)) by done.
Qed.

Lemma html_escape_once s : html_escape s = escape_once s.
Proof.
  induction s as [|a s IH]; [done|]. change (String a s) with (String a EmptyString +:+ s).
  by rewrite html_escape_app, html_escape_char, IH.
Qed.

Definition specials : list ascii := [AMP; LT; GT; QUOT; APOS].

Lemma escaped_plain a : a ∉ specials -> escaped a = String a EmptyString.
Proof. intros Ha. unfold escaped, specials in *. repeat case_bool_decide; subst; [set_solver..|done]. Qed.

Lemma specials_inv a : a ∈ specials -> a = AMP \/ a = LT \/ a = GT \/ a = QUOT \/ a = APOS.
Proof. unfold specials. rewrite !elem_of_cons, elem_of_nil. naive_solver. Qed.

Lemma escaped_first a : a ∈ specials -> exists e, escaped a = String AMP e.
Proof. intros [->|[->|[->|[->| ->]]]]%specials_inv; by eexists. Qed.

Lemma escaped_special a b x y :
  a ∈ specials -> b ∈ specials -> escaped a +:+ x = escaped b +:+ y -> a = b /\ x = y.
Proof.
  intros [->|[->|[->|[->| ->]]]]%specials_inv [->|[->|[->|[->| ->]]]]%specials_inv; unfold escaped; simpl; app_simpl;
    intros Heq; by simplify_eq.
Qed.

Lemma escaped_head a b x y : escaped a +:+ x = escaped b +:+ y -> a = b /\ x = y.
Proof.
  destruct (decide (a ∈ specials)) as [Ha|Ha], (decide (b ∈ specials)) as [Hb|Hb].
  - by apply escaped_special.
  - rewrite (escaped_plain b Hb). destruct (escaped_first a Ha) as [e ->]. app_simpl. intros [= <- _].
    destruct Hb. left.
  - rewrite (escaped_plain a Ha). destruct (escaped_first b Hb) as [e ->]. app_simpl. intros [= -> _].
    destruct Ha. left.
  - rewrite (escaped_plain a Ha), (escaped_plain b Hb). app_simpl. by intros [= -> ->].
Qed.

Lemma escaped_nonempty a x : EmptyString <> escaped a +:+ x.
Proof.
  destruct (decide (a ∈ specials)) as [Ha|Ha]; [destruct (escaped_first a Ha) as [e ->]|rewrite (escaped_plain a Ha)];
    by app_simpl.
Qed.

Lemma escape_once_inj s t : escape_once s = escape_once t -> s = t.
Proof.
  revert t. induction s as [|a s IH]; intros [|b t] Heq; simpl in Heq; 
    [done|by destruct (escaped_nonempty b (escape_once t))|by destruct (escaped_nonempty a (escape_once s))|].
  apply escaped_head in Heq as [-> Heq]. by rewrite (IH t Heq).
Qed.

(** C37: Page text.  The five successive replacements are one pass over the text
    that escapes each character on its own.  The result has none of the
    characters that end text or an attribute value, so no value breaks out of
    the place the pages give it, and it tells the original from every other
    text. *)
Theorem html_escape_exact s :
  html_escape s = escape_once s /\
  (forall c, c ∈ [LT; GT; QUOT; APOS] -> has_char c (html_escape s) = false) /\
  (forall t, html_escape t = html_escape s -> t = s).
Proof.
  split; [apply html_escape_once|]. split; [|intros t; rewrite !html_escape_once; apply escape_once_inj].
  intros c Hc. rewrite html_escape_once. induction s as [|a s IH]; [done|]. simpl. rewrite has_char_app, IH, orb_false_r.
  destruct (decide (a ∈ specials)) as [Ha|Ha].
  - assert (Hc' : c = LT \/ c = GT \/ c = QUOT \/ c = APOS) by (rewrite !elem_of_cons, elem_of_nil in Hc; naive_solver).
    by apply specials_inv in Ha as [->|[->|[->|[->| ->]]]]; destruct Hc' as [->|[->|[->| ->]]].
  - rewrite (escaped_plain a Ha). simpl. rewrite orb_false_r. apply bool_decide_eq_false_2. intros ->.
    destruct Ha. by right.
Qed.

(** ** Error descriptions *)

(** RFC 6749 section 5.2: %x20-21 / %x23-5B / %x5D-7E. *)
Definition rfc6749_char (a : ascii) : bool :=
  let n := Z.of_N (Ascii.N_of_ascii a) in (32 <=? n) && (n <=? 126) && negb (n =? 34) && negb (n =? 92).

Lemma description_char_allowed a : rfc6749_char (description_char a) = true.
Proof. destruct a as [[] [] [] [] [] [] [] []]; reflexivity. Qed.

Lemma description_char_id a : rfc6749_char a = true -> description_char a = a /\ continuation a = false.
Proof. destruct a as [[] [] [] [] [] [] [] []]; intros Ha; (discriminate Ha || by split). Qed.

(** Error descriptions.  Whatever text an error carries, its description has
    only the characters that RFC 6749 allows there; a text that has no others
    is kept. *)
Theorem json_error_description `{UrlApi} `{HttpApi} status error description :
  exists text, json_error status error description
      = json_response status (ErrorDoc (mkErrorResponse error (Some text) None None)) /\
    all_chars rfc6749_char text = true /\
    (all_chars rfc6749_char description = true -> text = description).
Proof.
  assert (Hc : forall a s, all_chars rfc6749_char (String a s) = rfc6749_char a && all_chars rfc6749_char s) by done.
  exists (description_of description). split; [done|]. induction description as [|a s [IH1 IH2]]; [done|]. cbn [description_of].
  rewrite !Hc. split.
  - destruct (continuation a); [done|]. by rewrite Hc, description_char_allowed, IH1.
  - intros [Ha Hs]%andb_true_iff. destruct (description_char_id a Ha) as [-> ->]. by rewrite IH2.
Qed.
