(* ===== verification/ServerState.v ===== *)
(** * The server's state

    The immutable part of [AppState] (crates/server/src/state.rs) and what its
    routes build from it; the storages behind the routes are the backends of
    their programs. *)
From S2P Require Import Prelude Externals Strings Effects Json Keys X509 Oid4vci Metadata Http.

Section ServerState.
Context `{Sha2} `{Base64Url} `{Base64Std} `{P256} `{Ed25519} `{UrlApi} `{HttpApi}.

Record AppState := mkAppState {
  app_metadata : CredentialIssuerMetadata;
  app_primary_key : KeyPair;
  app_secondary_key : KeyPair;
  app_issuer_pki : IssuerPki;
  app_external_url : Url;
  app_issuer_id : string;
  app_admin_token : string;
  app_client_attesters : list Jwk;
}.

(** [self.external_url.join(path).expect(..)] *)
Definition url_for {E} (state : AppState) (path : string) : res Url E :=
  unwrap (from_ext (url_join (app_external_url state) path)).

(** Only the public parts of the attesters' keys are kept. *)
Definition attester_keys (jwks : Jwks) : list Jwk :=
  map (fun key => mkJwk (jwk_kty key) (jwk_crv key) (jwk_x key) (jwk_y key) None (jwk_alg key) (jwk_kid key) (jwk_use key))
    (keys jwks).
End ServerState.
