(* ===== verification/IssuerRoutes.v ===== *)
(** * The issuer's routes

    crates/server/src/routes/issuer.rs: client authentication, DPoP and bearer
    authorization of a request, the pushed authorization request, the consent
    page and its decision, and the token, nonce, credential and offer
    endpoints.  A handler's early return of an error response is the [Err] of
    its program. *)
From S2P Require Import Prelude Externals Strings Effects Json Keys Jws Credentials SdJwt X509 Cbor Cose Mdoc.
From S2P Require Import StatusManager Errors Oid4vci IssuerState Authorization Token Dpop ClientAttestation Metadata Offer.
From S2P Require Import Credential Http ServerState.

Section IssuerRoutes.
Context `{Sha2} `{Base64Url} `{Base64Std} `{P256} `{Ed25519} `{HeaderSerde} `{SerdeJson} `{ClaimsSerde}.
Context `{Chrono} `{UrlApi} `{CT : CosetTypes} `{!Coset} `{Ciborium} `{DebugStr} `{X509Api}.
Context `{Profile} `{Assets} `{HashIter} `{HttpApi}.

(** ** Client authentication and DPoP *)
Definition invalid_client (description : string) : Response := json_error 401 "invalid_client" description.

Definition attested_client (state : AppState) (headers : HeaderMap)
    : prog IssuerF (res (option AttestedClient) Response) :=
  match header_str headers "oauth-client-attestation", header_str headers "oauth-client-attestation-pop" with
  | None, None => Ret (Ok None)
  | Some attestation, Some pop =>
      do? client <- pmap_err (fun e => invalid_client (attestation_error_to_string e))
        (verify_client_attestation attestation pop (app_client_attesters state) (app_issuer_id state));
      Ret (Ok (Some client))
  | _, _ => Ret (Err (invalid_client
      "OAuth-Client-Attestation and OAuth-Client-Attestation-PoP must be sent together"))
  end.

Definition dpop_jkt (state : AppState) (headers : HeaderMap) (path : string) (access_token : option string)
    : prog IssuerF (res (option string) string) :=
  match headers_get_all headers "dpop" with
  | [] => Ret (Ok None)
  | [proof] =>
      do? proof <- Ret (from_ext (header_to_str proof));
      do? htu <- Ret (url_for state path);
      let ctx := mkDpopContext "POST" (url_as_str htu) access_token in
      do? jkt <- pmap_err dpop_error_to_string (verify_dpop_proof proof ctx);
      Ret (Ok (Some jkt))
  | _ => Ret (Err "more than one DPoP header"%string)
  end.

(** [unauthorized] *)
Definition unauthorized (scheme code description : string) : Response :=
  let response := json_error 401 code description in
  let q := String QUOT EmptyString in
  let challenge := scheme +:+ " error=" +:+ q +:+ code +:+ q +:+ ", algs=" +:+ q +:+ "ES256 EdDSA" +:+ q in
  match header_from_str challenge with
  | inl value => with_header "www-authenticate" value response
  | inr _ => response
  end.

(** [eq_ignore_ascii_case] *)
Definition to_lower (a : ascii) : ascii :=
  let n := Ascii.N_of_ascii a in
  if ((65 <=? n) && (n <=? 90))%N then Ascii.ascii_of_N (n + 32) else a.
Fixpoint lowercase (s : string) : string :=
  match s with EmptyString => EmptyString | String a s' => String (to_lower a) (lowercase s') end.
Definition eq_ignore_ascii_case (s t : string) : bool := bool_decide (lowercase s = lowercase t).

Definition authorization_parts (headers : HeaderMap) : string * string :=
  let authorization := default EmptyString (header_str headers "authorization") in
  let '(scheme, token) := default (EmptyString, EmptyString) (split_once (chr 32) authorization) in
  (scheme, trim token).

(** The use of a token whose grant was found. *)
Definition use_token (state : AppState) (headers : HeaderMap) (path token : string) (grant : AccessGrant)
    (is_dpop : bool) : prog IssuerF (res string Response) :=
  match ag_dpop_jkt grant, is_dpop with
  | Some bound, true =>
      do? sent <- pmap_err (unauthorized "DPoP" "invalid_dpop_proof") (dpop_jkt state headers path (Some token));
      do? jkt <- Ret (ok_or sent (unauthorized "DPoP" "invalid_dpop_proof" "DPoP proof required"));
      pfail? bool_decide (jkt <> bound)
        with unauthorized "DPoP" "invalid_dpop_proof" "DPoP key does not match the access token";
      Ret (Ok token)
  | Some _, false =>
      Ret (Err (unauthorized "DPoP" "invalid_token" "this access token is DPoP-bound; use the DPoP scheme"))
  | None, true => Ret (Err (unauthorized "Bearer" "invalid_token" "this access token is not DPoP-bound"))
  | None, false => Ret (Ok token)
  end.

Definition authorize_resource (state : AppState) (headers : HeaderMap) (path : string)
    : prog IssuerF (res string Response) :=
  let '(scheme, token) := authorization_parts headers in
  let is_dpop := eq_ignore_ascii_case scheme "DPoP" in
  pfail? bool_decide (token = EmptyString) || negb (is_dpop || eq_ignore_ascii_case scheme "Bearer")
    with unauthorized "DPoP" "invalid_token" "missing access token";
  do? found <- pmap_err (fun e => json_error 500 "server_error" (state_error_to_string e))
    (trigger (GetAccessGrant token));
  do? grant <- Ret (ok_or found (unauthorized "DPoP" "invalid_token" "unknown or expired access token"));
  use_token state headers path token grant is_dpop.

(** ** Authorization *)

(** A literal of the source, its double quotes written as back quotes. *)
Definition html (literal : string) : string := replace_char (chr 96) (String QUOT EmptyString) literal.

Definition no_store (response : Response) : Response :=
  with_header "cache-control" (header_from_static "no-store") response.

Definition par_error_code (e : AuthorizationError) : string :=
  match e with
  | AE_InvalidScope => "invalid_scope"
  | AE_UnsupportedResponseType _ => "unsupported_response_type"
  | AE_InvalidAuthorizationDetails _ => "invalid_authorization_details"
  | AE_DpopJktMismatch => "invalid_dpop_proof"
  | _ => "invalid_request"
  end.

Definition par_endpoint (state : AppState) (headers : HeaderMap) (request : PushedAuthorizationRequest)
    : prog IssuerF (res Response Response) :=
  do? attested <- attested_client state headers;
  do? client <- Ret (ok_or attested (invalid_client "client attestation is required"));
  do? jkt <- pmap_err (json_error 400 "invalid_dpop_proof") (dpop_jkt state headers "/authorize/par" None);
  let ctx := mkParContext (atc_client_id client) jkt in
  do? response <- pmap_err (fun e => json_error 400 (par_error_code e) (authorization_error_to_string e))
    (process_par request ctx (app_metadata state));
  Ret (Ok (no_store (json_response 201 (ParDoc response)))).

Inductive RequestUriError :=
| RU_Page (reason : string)
| RU_Redirect (session : AuthorizationSession) (reason : string).

Definition resolve_request_uri (request_uri client_id : option string)
    : prog IssuerF (res AuthorizationSession RequestUriError) :=
  do? request_uri <- Ret (ok_or request_uri
    (RU_Page "request_uri is required: this server only accepts pushed requests"));
  do? session <- pmap_err (fun _ => RU_Page "unknown request_uri") (trigger (GetAuthorizationSession request_uri));
  do? session <- Ret (ok_or session (RU_Page "unknown request_uri"));
  pfail? bool_decide (client_id <> Some (ses_client_id session))
    with RU_Page "request_uri was not issued to this client_id";
  do now <- utc_now;
  let age_ms := num_millis_between now (ses_created_at session) in
  pfail? REQUEST_URI_TTL_SECS * 1000 <=? age_ms with RU_Redirect session "request_uri has expired";
  pfail? bool_decide (is_Some (ses_authorization_code session))
    with RU_Redirect session "request_uri has already been used";
  Ret (Ok session).

(** [query_pairs_mut().append_pair(k, v)] for each pair in turn *)
Definition append_pairs (redirect : Url) (pairs : list (string * string)) : Url :=
  fold_left (fun u kv => url_append_pair u kv.1 kv.2) pairs redirect.

Definition error_page (code description : string) : Response :=
  html_response 400 (
    html "<!doctype html><html lang=`en`><head><meta charset=`utf-8`><title>Authorization error</title></head>" +:+
    "<body><h1>Authorization error</h1><p><code>" +:+ html_escape code +:+
    "</code>: " +:+ html_escape description +:+ "</p></body></html>").

(** The pairs of the redirect after the answer's own: the client's state and
    the issuer. *)
Definition state_and_issuer (state : AppState) (session : AuthorizationSession) : list (string * string) :=
  match ses_client_state session with Some s => [("state"%string, s)] | None => [] end ++
  [("iss"%string, app_issuer_id state)].

Definition request_uri_error (state : AppState) (error : RequestUriError) : Response :=
  match error with
  | RU_Page reason => error_page "invalid_request_uri" reason
  | RU_Redirect session reason =>
      match url_parse (ses_redirect_uri session) with
      | inl redirect =>
          redirect_to (url_as_str (append_pairs redirect
            ([("error"%string, "invalid_request_uri"%string); ("error_description"%string, reason)] ++
             state_and_issuer state session)))
      | inr _ => error_page "invalid_request_uri" reason
      end
  end.

Definition consent_page (session : AuthorizationSession) : string :=
  let client := html_escape (ses_client_id session) in
  let credentials := concat (map (fun id => "<li>" +:+ html_escape id +:+ "</li>")
    (ses_credential_configuration_ids session)) in
  join (String LF EmptyString) [
    "<!doctype html>";
    html "<html lang=`en`><head><meta charset=`utf-8`><title>Authorize credential issuance</title></head>";
    "<body>";
    "<h1>Authorize credential issuance</h1>";
    "<p><strong>" +:+ client +:+ "</strong> is asking for:</p>";
    "<ul>" +:+ credentials +:+ "</ul>";
    html "<form method=`post` action=`/authorize/decision`>";
    html "<input type=`hidden` name=`request_uri` value=`" +:+ html_escape (ses_request_uri session) +:+ html "`>";
    html "<input type=`hidden` name=`client_id` value=`" +:+ client +:+ html "`>";
    html "<button type=`submit` id=`approve` name=`decision` value=`approve`>Approve</button>";
    html "<button type=`submit` id=`deny` name=`decision` value=`deny`>Deny</button>";
    "</form>";
    "</body></html>"]%string.

Definition authorize_endpoint (state : AppState) (request_uri client_id : option string) : prog IssuerF (res Response Response) :=
  do? session <- pmap_err (request_uri_error state) (resolve_request_uri request_uri client_id);
  Ret (Ok (html_response 200 (consent_page session))).

Record Decision := mkDecision {
  de_request_uri : string;
  de_client_id : string;
  de_decision : string;
}.

(** The pairs that tell the client what the user decided. *)
Definition decision_pairs (session : AuthorizationSession) (decision : Decision)
    : prog IssuerF (res (list (string * string)) Response) :=
  if bool_decide (de_decision decision = "approve"%string) then
    do? code <- pmap_err (fun e => error_page "server_error" (authorization_error_to_string e))
      (generate_authorization_code (ses_request_uri session));
    Ret (Ok [("code"%string, code)])
  else
    Ret (Ok [("error"%string, "access_denied"%string);
             ("error_description"%string, "The user denied the request"%string)]).

Definition authorize_decision (state : AppState) (decision : Decision) : prog IssuerF (res Response Response) :=
  do? session <- pmap_err (request_uri_error state)
    (resolve_request_uri (Some (de_request_uri decision)) (Some (de_client_id decision)));
  do? redirect <- Ret (map_err (fun _ => error_page "invalid_request" "stored redirect_uri is not a valid URL")
    (from_ext (url_parse (ses_redirect_uri session))));
  do? pairs <- decision_pairs session decision;
  Ret (Ok (redirect_to (url_as_str (append_pairs redirect (pairs ++ state_and_issuer state session))))).

(** ** Token and nonce *)
Definition token_endpoint (state : AppState) (headers : HeaderMap) (request : TokenRequest) : prog IssuerF (res Response Response) :=
  do? client <- attested_client state headers;
  do? jkt <- pmap_err (json_error 400 "invalid_dpop_proof") (dpop_jkt state headers "/token" None);
  let ctx := mkTokenContext (atc_client_id <$> client) jkt in
  do? response <- pmap_err (fun e =>
      let '(status, code) := status_and_code e in
      json_error (status_code_or status 400) code (token_error_to_string e))
    (process_token_request request ctx);
  Ret (Ok (no_store (json_response 200 (TokenDoc response)))).

Definition C_NONCE_TTL_SECS : Z := 300.

Definition nonce_endpoint : prog IssuerF (res Response Response) :=
  do c_nonce <- new_v4;
  do? _ <- pmap_err (fun e => json_error 500 "server_error" (state_error_to_string e))
    (trigger (StoreCNonce c_nonce C_NONCE_TTL_SECS));
  Ret (Ok (no_store (json_response 200 (NonceDoc (mkNonceResponse c_nonce))))).

(** ** Credential offers *)
Definition credential_offer_endpoint `{!OfferSerde} (state : AppState) (credential_configuration_id : option string)
    : prog IssuerF (res Response Response) :=
  let config_id := default "IdentityCredential_SD_JWT_VC"%string credential_configuration_id in
  pfail? negb (bool_decide (is_Some (cim_credential_configurations_supported (app_metadata state) !! config_id)))
    with json_error 400 "invalid_request" ("unknown credential configuration: " +:+ config_id);
  let params := mkOfferParams [config_id] true true false in
  do created <- create_offer (app_external_url state) params;
  let '(offer, pre_auth_code) := created in
  do? _ <- match pre_auth_code with
    | Some code => pmap_err (fun e => json_error 500 "server_error" (state_error_to_string e))
        (trigger (StorePreAuthorizedCode code None (op_credential_configuration_ids params)))
    | None => Ret (Ok tt)
    end;
  Ret (Ok (json_response 200 (OfferDoc offer (encode_offer_uri (app_external_url state) offer)))).

(** ** Credentials *)

(** The status manager as the credential endpoint calls it. *)
Inductive StatusE : Type -> Type :=
| AllocateEntry (purpose : StatusPurpose) : StatusE (res StatusList2021Entry Manager.ManagerError)
| AllocateMdocIndex : StatusE (res Z Manager.ManagerError).

(** Programs over the storage and the status manager. *)
Definition CredentialF : Type -> Type := sumE SysE (sumE IssuerStateE StatusE).
#[export] Instance Sub_sys_credential : Sub SysE CredentialF := fun X e => inlE e.
#[export] Instance Sub_state_credential : Sub IssuerStateE CredentialF := fun X e => inrE (inlE e).
#[export] Instance Sub_status_credential : Sub StatusE CredentialF := fun X e => inrE (inrE e).
#[export] Instance Sub_issuer_credential : Sub IssuerF CredentialF := fun X e =>
  match e with inlE e => inlE e | inrE e => inrE (inlE e) end.

(** [s.parse::<u64>().ok()] *)
Definition parse_u64 (s : string) : option Z := match parse_uint (2 ^ 64) s with Ok n => Some n | _ => None end.

Definition status_claim (entry : StatusList2021Entry) (uri : Url) : Value :=
  json_obj [("status_list"%string, json_obj [
    ("idx"%string, VNumber (NInt (default 0 (parse_u64 (status_list_index entry)))));
    ("uri"%string, VString (url_as_str uri))])].

Definition allocate_status (status_uri : Url) : prog CredentialF (res (option Value) string) :=
  do? entry <- pmap_err (fun e => "could not allocate a credential status entry: " +:+ Manager.manager_error_to_string e)%string
    (trigger (AllocateEntry Revocation));
  Ret (Ok (Some (status_claim entry status_uri))).

Definition allocate_mdoc_status (mdoc_status_uri : Url)
    : prog CredentialF (res (option Mdoc.StatusListRef) string) :=
  do? idx <- pmap_err (fun e => "could not allocate an mdoc status entry: " +:+ Manager.manager_error_to_string e)%string
    (trigger AllocateMdocIndex);
  Ret (Ok (Some (Mdoc.mkStatusListRef idx (url_as_str mdoc_status_uri)))).

Definition MDOC_STATUS_PATH : string := "/status/mdoc".

Definition credential_error_status (e : CredentialError) : Z :=
  match e with
  | CR_InvalidAccessToken => 401
  | CR_IssuanceError _ | CR_StateError _ => 500
  | _ => 400
  end.

(** An error [None] of the issuance: the loop that draws digest ids used up its
    fuel, no answer of the source. *)
Definition credential_error_response (e : option CredentialError) : option Response :=
  (fun e => json_error (credential_error_status e) (credential_error_code e) (credential_error_to_string e)) <$> e.

Definition credential_endpoint (fuel : nat) (state : AppState) (headers : HeaderMap) (request : CredentialRequest)
    : prog CredentialF (res Response (option Response)) :=
  do? access_token <- pmap_err Some (embed (authorize_resource state headers "/credential"));
  do? status_uri <- Ret (url_for state "/status/revocation/token");
  do? mdoc_status_uri <- Ret (url_for state MDOC_STATUS_PATH);
  let ctx := {|
    ic_issuer_key := app_primary_key state;
    ic_issuer_url := app_issuer_id state;
    ic_metadata := app_metadata state;
    ic_allocate_status := allocate_status status_uri;
    ic_x5c := Some (x5c (pki_leaf (app_issuer_pki state)));
    ic_mdoc := Some {|
      ms_certificate := pki_mdoc_signer (app_issuer_pki state);
      ms_allocate_status := allocate_mdoc_status mdoc_status_uri |} |} in
  do? response <- pmap_err credential_error_response (process_credential_request fuel request access_token ctx);
  Ret (Ok (json_response 200 (CredentialDoc response))).
End IssuerRoutes.
