(* ===== verification/RequestAuth.v ===== *)
(** * Who may call the issuer

    What the routes of crates/server/src/routes/issuer.rs establish about a
    request before they serve it: the attested client, the DPoP proof, and the
    right of an access token to a protected resource. *)
From S2P Require Import Prelude Externals Strings Effects Json Keys Jws SdJwt X509 Oid4vci IssuerState IssuerStateSpec.
From S2P Require Import Dpop ClientAttestation Http ServerState IssuerRoutes.

Section RequestAuth.
Context `{Sha2} `{Base64Url} `{Base64Std} `{P256} `{Ed25519} `{HeaderSerde} `{SerdeJson} `{ClaimsSerde}.
Context `{CH : Chrono} `{CHL : !ChronoLaws CH} `{UrlApi} `{Profile} `{HttpApi}.

(** ** The DPoP proof of a request *)

(** Exactly one DPoP header, with a proof for a POST to this path. *)
Definition sent_proof (state : AppState) (headers : HeaderMap) (path : string) (token : option string)
    (now : Z) (jwk : Jwk) (jti : string) : Prop :=
  exists value proof htu, headers_get_all headers "dpop" = [value] /\ header_to_str value = inl proof /\
    url_join (app_external_url state) path = inl htu /\
    dpop_accepts proof (mkDpopContext "POST" (url_as_str htu) token) now jwk jti.

Definition record_dpop (jti : string) (v : World IssuerStore) : IssuerStore :=
  Spec.set_jti_log (<[dpop_key jti := stored_at v + 360 * NANOS]> (jti_log (store v))) (store v).

Lemma dpop_jkt_run state headers path token v r v' :
  run Spec.handler (dpop_jkt state headers path token) v = (r, v') ->
  match r with
  | Ok None => headers_get_all headers "dpop" = [] /\ v' = v
  | Ok (Some jkt) => exists jwk jti, sent_proof state headers path token (read_at v) jwk jti /\
      jkt = compute_thumbprint jwk /\ ~ Spec.jti_seen (store v) (dpop_key jti) (stored_at v) /\
      store v' = record_dpop jti v
  | Err _ => store v' = store v /\ headers_get_all headers "dpop" <> [] /\
      forall jwk jti, sent_proof state headers path token (read_at v) jwk jti ->
        Spec.jti_seen (store v) (dpop_key jti) (stored_at v)
  | Panic => forall htu, url_join (app_external_url state) path <> inl htu
  end.
Proof.
  unfold dpop_jkt, sent_proof. destruct (headers_get_all headers "dpop") as [|value [|value' rest]].
  - simpl. intros [= <- <-]. done.
  - rewrite run_bind_res. simpl. destruct (header_to_str value) as [proof|e] eqn:Hv; simpl.
    2:{ intros [= <- <-]. repeat split; try done. intros jwk jti (? & ? & ? & [= <-] & ? & _). congruence. }
    unfold url_for, unwrap. rewrite run_bind_res. simpl.
    destruct (url_join (app_external_url state) path) as [htu|e] eqn:Hu; simpl; [|by intros [= <- <-]].
    rewrite run_bind_res, run_map_err.
    destruct (run Spec.handler (verify_dpop_proof _ _) v) as [r1 v1] eqn:Hd. apply dpop_run in Hd.
    destruct r1 as [jkt|e|]; simpl; intros [= <- <-]; [|destruct Hd as [Hst Hno]|done].
    + destruct Hd as (jwk & jti & Ha & -> & Hn & Hs). exists jwk, jti. split; [by exists value, proof, htu|done].
    + split; [done|]. split; [done|]. intros jwk jti (? & proof2 & htu2 & [= <-] & Hp2 & Hu2 & Ha).
      rewrite Hv in Hp2. simplify_eq. exact (Hno _ _ Ha).
  - simpl. intros [= <- <-]. repeat split; try done. by intros jwk jti (? & ? & ? & [=] & _).
Qed.

(** ** The attested client *)
Definition attested_as (state : AppState) (headers : HeaderMap) (now : Z) (client : AttestedClient) (jti : string)
    : Prop :=
  exists attestation pop, header_str headers "oauth-client-attestation" = Some attestation /\
    header_str headers "oauth-client-attestation-pop" = Some pop /\
    attests attestation (app_client_attesters state) now client /\ possesses pop client (app_issuer_id state) now jti.

Definition record_pop (client : AttestedClient) (jti : string) (v : World IssuerStore) : IssuerStore :=
  Spec.set_jti_log (<[pop_key (atc_client_id client) jti := stored_at v + 360 * NANOS]> (jti_log (store v))) (store v).

Lemma attested_client_run state headers v r v' :
  0 <= read_at v -> run Spec.handler (attested_client state headers) v = (r, v') ->
  match r with
  | Ok None => v' = v
  | Ok (Some client) => exists jti, attested_as state headers (read_at v) client jti /\
      ~ Spec.jti_seen (store v) (pop_key (atc_client_id client) jti) (stored_at v) /\
      store v' = record_pop client jti v
  | Err response => rs_status response = 401 /\ store v' = store v /\
      forall client jti, attested_as state headers (read_at v) client jti ->
        Spec.jti_seen (store v) (pop_key (atc_client_id client) jti) (stored_at v)
  | Panic => overflow_checks = true
  end.
Proof.
  intros Hnow. unfold attested_client, attested_as.
  destruct (header_str headers "oauth-client-attestation") as [attestation|],
    (header_str headers "oauth-client-attestation-pop") as [pop|];
    try (simpl; intros [= <- <-]; repeat split; try done; intros client jti (? & ? & [=] & [=] & _); fail).
  rewrite run_bind_res, run_map_err.
  destruct (run Spec.handler (verify_client_attestation _ _ _ _) v) as [r1 v1] eqn:Hd.
  apply attestation_run in Hd; [|done].
  destruct r1 as [client|e|]; simpl; intros [= <- <-]; [|destruct Hd as [Hst Hno]|by destruct Hd].
  - destruct Hd as (Ha & jti & Hp & Hn & Hs). exists jti. split; [by exists attestation, pop|done].
  - repeat split; try done. intros client jti (? & ? & [= <-] & [= <-] & Ha & Hp). by eapply Hno.
Qed.

(** ** Protected resources *)

(** A token is used the way it is bound: with the DPoP scheme and a proof by its
    key, or with the bearer scheme if it is bound to none.  The option is the
    identifier of the proof. *)
Definition use_allowed (state : AppState) (headers : HeaderMap) (path : string) (v : World IssuerStore)
    (scheme token : string) (grant : AccessGrant) (proof_id : option string) : Prop :=
  match ag_dpop_jkt grant, proof_id with
  | None, None => lowercase scheme = "bearer"%string
  | Some bound, Some jti => lowercase scheme = "dpop"%string /\
      exists jwk, sent_proof state headers path (Some token) (read_at v) jwk jti /\
        compute_thumbprint jwk = bound /\ ~ Spec.jti_seen (store v) (dpop_key jti) (stored_at v)
  | _, _ => False
  end.

(** The world after the token was looked up. *)
Definition looked_up (v : World IssuerStore) : World IssuerStore := mkWorld (read_clock (sys v)).2 (store v).

Definition authorized (state : AppState) (headers : HeaderMap) (path : string) (v : World IssuerStore)
    (token : string) (proof_id : option string) : Prop :=
  token = (authorization_parts headers).2 /\ token <> EmptyString /\
  exists grant, Spec.grant_at (store v) token (clock (sys v) (ticks (sys v))) = Some grant /\
    use_allowed state headers path (looked_up v) (authorization_parts headers).1 token grant proof_id.

(** The storage after the use of a token. *)
Definition after_use (proof_id : option string) (v : World IssuerStore) : IssuerStore :=
  from_option (fun jti => record_dpop jti (looked_up v)) (store v) proof_id.

Lemma unauthorized_status scheme code description : rs_status (unauthorized scheme code description) = 401.
Proof. unfold unauthorized. by destruct (header_from_str _). Qed.

Lemma use_token_run state headers path scheme token grant v r v' :
  lowercase scheme = "dpop"%string \/ lowercase scheme = "bearer"%string ->
  run Spec.handler (use_token state headers path token grant (bool_decide (lowercase scheme = "dpop"%string))) v = (r, v') ->
  let recorded proof_id := store v' = from_option (fun jti => record_dpop jti v) (store v) proof_id in
  match r with
  | Ok t => t = token /\ exists proof_id, use_allowed state headers path v scheme token grant proof_id /\ recorded proof_id
  | Err response => rs_status response = 401 /\
      (forall proof_id, ~ use_allowed state headers path v scheme token grant proof_id) /\ exists proof_id, recorded proof_id
  | Panic => forall htu, url_join (app_external_url state) path <> inl htu
  end.
Proof.
  intros Hscheme. unfold use_token, use_allowed.
  destruct (ag_dpop_jkt grant) as [bound|]; case_bool_decide as Hd.
  - rewrite run_bind_res, run_map_err.
    destruct (run _ (dpop_jkt _ _ _ _) v) as [r1 v1] eqn:Hr. apply dpop_jkt_run in Hr.
    destruct r1 as [[jkt|]|e|]; simpl.
    + destruct Hr as (jwk & jti & Hs & -> & Hn & Hst). rewrite run_bind_res; simpl; case_bool_decide as Hb; simpl; intros [= <- <-].
      * split; [apply unauthorized_status|]. split; [|by exists (Some jti)]. intros [jti'|]; [|by intros []].
        intros (_ & jwk' & (v1' & p1 & h1 & E1 & E2 & E3 & A1) & <- & _).
        destruct Hs as (v2' & p2 & h2 & F1 & F2 & F3 & A2). simplify_eq.
        assert (p2 = p1) as -> by congruence. assert (h2 = h1) as -> by congruence.
        by destruct (dpop_accepts_fun _ _ _ _ _ _ _ _ _ A1 A2) as (-> & _ & _).
      * split; [done|]. exists (Some jti). split; [|done]. split; [done|]. exists jwk. split; [done|].
        by split.
    + destruct Hr as [Hh ->]. intros [= <- <-]. split; [apply unauthorized_status|]. split; [|by exists None].
      intros [jti|]; [|by intros []]. intros (_ & jwk & (? & ? & ? & Hh' & _) & _). congruence.
    + destruct Hr as (Hst & _ & Hno). intros [= <- <-]. split; [apply unauthorized_status|]. split; [|by exists None].
      intros [jti|]; [|by intros []]. intros (_ & jwk & Hs & _ & Hn). by apply Hn, (Hno jwk).
    + by intros [= <- <-].
  - simpl. intros [= <- <-]. split; [apply unauthorized_status|]. split; [|by exists None]. intros [jti|]; [|by intros []]. by intros [? _].
  - simpl. intros [= <- <-]. split; [apply unauthorized_status|]. split; [|by exists None]. intros [jti|]; [by intros []|]. congruence.
  - simpl. intros [= <- <-]. split; [done|]. exists None. split; [|done]. by destruct Hscheme.
Qed.

Lemma authorize_resource_run state headers path v r v' :
  run Spec.handler (authorize_resource state headers path) v = (r, v') ->
  match r with
  | Ok token => exists proof_id, authorized state headers path v token proof_id /\ store v' = after_use proof_id v
  | Err response => rs_status response = 401 /\ (forall token proof_id, ~ authorized state headers path v token proof_id) /\
      exists proof_id, store v' = after_use proof_id v
  | Panic => forall htu, url_join (app_external_url state) path <> inl htu
  end.
Proof.
  unfold authorize_resource, authorized, eq_ignore_ascii_case.
  destruct (authorization_parts headers) as [scheme token]. simpl fst. simpl snd.
  change (lowercase "DPoP") with "dpop"%string. change (lowercase "Bearer") with "bearer"%string.
  destruct (bool_decide (token = EmptyString) || _) eqn:Hguard.
  { simpl. intros [= <- <-]. split; [apply unauthorized_status|]. split; [|by exists None].
    intros token' proof_id (-> & Hne & grant & _ & Hm). rewrite bool_decide_eq_false_2 in Hguard by done. simpl in Hguard.
    apply negb_true_iff, orb_false_iff in Hguard as [Hd%bool_decide_eq_false Hb%bool_decide_eq_false].
    unfold use_allowed in Hm. destruct (ag_dpop_jkt grant), proof_id; by try destruct Hm. }
  apply orb_false_iff in Hguard as [Hne%bool_decide_eq_false Hscheme%negb_false_iff].
  apply orb_true_iff in Hscheme. rewrite !bool_decide_eq_true in Hscheme.
  rewrite run_bind_res, run_map_err, run_trigger. simpl. fold (looked_up v).
  destruct (Spec.grant_at (store v) token (clock (sys v) (ticks (sys v)))) as [grant|] eqn:Hgrant; simpl.
  2:{ intros [= <- <-]. split; [apply unauthorized_status|]. split; [|by exists None].
      intros token' proof_id (-> & _ & grant & Hg & _). congruence. }
  intros Hr. apply use_token_run in Hr; [|done]. destruct r as [t|response|]; [|..|done].
  - destruct Hr as (-> & proof_id & Hu & Hs). exists proof_id. split; [|done]. split; [done|]. split; [done|]. by exists grant.
  - destruct Hr as (Hst & Hno & Hs). split; [done|]. split; [|done]. intros token' proof_id (-> & _ & grant' & Hg & Hu).
    apply (Hno proof_id). by assert (grant' = grant) as <- by congruence.
Qed.
(** ** Over the in-memory storage *)
Lemma dpop_jkt_calls state headers path token : calls_in allowed (dpop_jkt state headers path token).
Proof. pose proof verify_dpop_calls. unfold dpop_jkt. solve_calls; auto. Qed.

Lemma attested_client_calls state headers : calls_in allowed (attested_client state headers).
Proof. pose proof verify_attestation_calls. unfold attested_client. solve_calls; auto. Qed.

Lemma authorize_resource_calls state headers path : calls_in allowed (authorize_resource state headers path).
Proof. pose proof dpop_jkt_calls. unfold authorize_resource, use_token. solve_calls; auto. Qed.

(** C8: Access to a protected resource.  A request is let through exactly when it
    carries a live access token and uses it the way it is bound: a token bound
    to a key needs the DPoP scheme and exactly one fresh proof, for this method
    and path and this token, by that key; an unbound one needs the bearer
    scheme.  Every other request is answered with status 401.  Only the
    identifier of an accepted proof is recorded, and nothing panics as long as
    the server's paths are valid. *)
Theorem authorize_resource_exact state headers path w v r w' :
  world_refines w v ->
  run InMemory.handler (authorize_resource state headers path) w = (r, w') ->
  exists v', world_refines w' v' /\
  match r with
  | Ok token => exists proof_id, authorized state headers path v token proof_id /\ store v' = after_use proof_id v
  | Err response => rs_status response = 401 /\ (forall token proof_id, ~ authorized state headers path v token proof_id) /\
      exists proof_id, store v' = after_use proof_id v
  | Panic => forall htu, url_join (app_external_url state) path <> inl htu
  end.
Proof.
  intros Hw Hr. destruct (run_in_memory _ _ _ _ _ (authorize_resource_calls _ _ _) Hw Hr) as (v' & Hv & Hw').
  exists v'. split; [done|]. by apply authorize_resource_run.
Qed.
End RequestAuth.
