(* ===== verification/IssuerRoutesSpec.v ===== *)
(** * What the issuer's routes guarantee

    The composition of client attestation, DPoP and the token endpoint in
    POST /token, the decision of the user at POST /authorize/decision, and the
    way of an offer to its token. *)
From S2P Require Import Prelude Externals Strings Effects Json Keys Jws SdJwt X509 Oid4vci IssuerState IssuerStateSpec CredentialSpec.
From S2P Require Import Authorization Token Dpop ClientAttestation Offer Http ServerState IssuerRoutes RequestAuth.

Section TokenRoute.
Context `{Sha2} `{Base64Url} `{Base64Std} `{P256} `{Ed25519} `{HeaderSerde} `{SerdeJson} `{ClaimsSerde}.
Context `{CH : Chrono} `{CHL : !ChronoLaws CH} `{UrlApi} `{Profile} `{HttpApi}.

Lemma token_endpoint_calls state headers request : calls_in allowed (token_endpoint state headers request).
Proof.
  pose proof attested_client_calls. pose proof dpop_jkt_calls. pose proof process_token_request_calls.
  unfold token_endpoint. repeat (apply calls_in_bind_res || apply calls_in_map_err || intros ? || constructor); auto.
Qed.

(** The code of the request may be redeemed by this caller: the attested client
    whose session it is, with the session's PKCE verifier and redirect URI,
    once, in time, and with a DPoP proof by the key the session is bound to. *)
Definition redeemed_by (request : TokenRequest) (v : World IssuerStore) (client : AttestedClient) (jwk : Jwk)
    (code : string) : Prop :=
  exists ses now, tr_code request = Some code /\ Spec.session_of (store v) code = Some ses /\
    code_accepts request (mkTokenContext (Some (atc_client_id client)) (Some (compute_thumbprint jwk))) ses now
      (compute_thumbprint jwk).

(** A token, as long as it is one, is bound to the key. *)
Definition bound_to (token jkt : string) (v : World IssuerStore) : Prop :=
  forall grant expires, grants (store v) !! token = Some (grant, expires) -> ag_dpop_jkt grant = Some jkt.

(** The calls that do not store another grant under the token. *)
Definition leaves_token (token : string) X (e : IssuerF X) : Prop :=
  match e with inrE (StoreAccessToken t _ _) => t <> token | _ => True end.

Lemma bound_step token jkt X (e : IssuerF X) v :
  leaves_token token X e -> bound_to token jkt v -> bound_to token jkt (Spec.handler X e v).2.
Proof.
  destruct v as [sv s]. unfold bound_to. simpl. intros He Hb. destruct e as [e|e]; simpl in *; [by destruct (handle_sys e sv)|].
  destruct e; simpl in *; repeat case_match; simplify_eq/=; try done; intros g x;
    rewrite ?lookup_insert_ne, ?lookup_delete_Some by done; naive_solver.
Qed.

(** What letting a request through for a token took: exactly one proof, for
    this method, path and token, by a key with this thumbprint, and never seen
    before; it is recorded. *)
Definition proved_possession (state : AppState) (headers : HeaderMap) (path token jkt : string)
    (v v' : World IssuerStore) : Prop :=
  exists jwk jti, sent_proof state headers path (Some token) (read_at (looked_up v)) jwk jti /\
    compute_thumbprint jwk = jkt /\ ~ Spec.jti_seen (store v) (dpop_key jti) (stored_at (looked_up v)) /\
    store v' = record_dpop jti (looked_up v).

Lemma bound_use state headers path token jkt v v' :
  bound_to token jkt v -> run Spec.handler (authorize_resource state headers path) v = (Ok token, v') ->
  proved_possession state headers path token jkt v v'.
Proof.
  intros Hb Hr. apply authorize_resource_run in Hr as (proof_id & (_ & _ & grant & Hg & Hu) & Hs).
  unfold Spec.grant_at in Hg. destruct (grants (store v) !! token) as [[g expires]|] eqn:He; [|done].
  case_decide; [|done]. injection Hg as ->. unfold use_allowed in Hu. rewrite (Hb _ _ He) in Hu.
  destruct proof_id as [jti|]; [|done]. destruct Hu as (_ & jwk & ? & ? & ?). by exists jwk, jti.
Qed.

Lemma token_endpoint_code_run state headers request v response v' :
  0 <= read_at v -> tr_grant_type request = "authorization_code"%string ->
  run Spec.handler (token_endpoint state headers request) v = (Ok response, v') ->
  exists client client_jti now jwk jti code reply grant expires,
    attested_as state headers (read_at v) client client_jti /\
    sent_proof state headers "/token" None now jwk jti /\
    redeemed_by request v client jwk code /\
    response = no_store (json_response 200 (TokenDoc reply)) /\
    grants (store v') !! tor_access_token reply = Some (grant, expires) /\
    ag_dpop_jkt grant = Some (compute_thumbprint jwk).
Proof.
  intros Hnow Hg. unfold token_endpoint. rewrite run_bind_res.
  destruct (run _ (attested_client _ _) v) as [r1 v1] eqn:R1. apply attested_client_run in R1; [|done].
  destruct r1 as [client|e|]; [|done..]. rewrite run_bind_res, run_map_err.
  destruct (run _ (dpop_jkt _ _ _ _) v1) as [r2 v2] eqn:R2. apply dpop_jkt_run in R2.
  destruct r2 as [jkt|e|]; [|done..]. cbn [map_err]. rewrite run_bind_res, run_map_err.
  destruct (run _ (process_token_request _ _) v2) as [r3 v3] eqn:R3. apply process_code_outcome in R3; [|done].
  destruct r3 as [reply|e|]; [|done..]. simpl. intros [= <- <-].
  destruct R3 as (code & ses & jkt' & at_ & Hcode & Hses & Ha & Hat & -> & Hst).
  pose proof (ca_client _ _ _ _ _ Ha) as Hc. pose proof (ca_dpop _ _ _ _ _ Ha) as Hd. simpl in Hc, Hd.
  destruct client as [client|]; [|done]. destruct jkt as [jkt|]; [|done]. simpl in Hc. simplify_eq.
  destruct R1 as (client_jti & Hatt & _ & Hs1), R2 as (jwk & jti & Hsent & -> & _ & Hs2).
  assert (Hses0 : Spec.session_of (store v) code = Some ses) by (rewrite Hs2 in Hses; unfold record_dpop in Hses; by rewrite Hs1 in Hses).
  exists client, client_jti, (read_at v1), jwk, jti, code. eexists _, _, _.
  split; [done|]. split; [done|]. split; [by exists ses, (clock (sys v2) (S (ticks (sys v2))))|]. split; [done|].
  rewrite Hst. unfold after_redeem. simpl. split; [apply lookup_insert_eq|done].
Qed.

(** C9: Tokens from the code flow.  When POST /token answers an authorization
    code with a token, the caller was an attested client, the code's session
    was pushed by that client, PKCE and redirect URI are the session's, and
    exactly one DPoP proof came with the request.  The token is bound to that
    proof's key: whatever program of calls within the storage's contract runs
    afterwards, as long as no other grant is stored under the same token, a
    request that is let through with it to a protected resource brings exactly
    one DPoP proof for that resource and token by the same key, one that was
    not seen before, and it is recorded. *)
Theorem code_token_confined {A} state headers request w v response w1 (p : prog IssuerF A) a w2 :
  world_refines w v -> tr_grant_type request = "authorization_code"%string ->
  run InMemory.handler (token_endpoint state headers request) w = (Ok response, w1) ->
  calls_in allowed p -> run InMemory.handler p w1 = (a, w2) ->
  exists client client_jti now jwk jti code reply,
    attested_as state headers (read_at w) client client_jti /\
    sent_proof state headers "/token" None now jwk jti /\
    redeemed_by request v client jwk code /\
    response = no_store (json_response 200 (TokenDoc reply)) /\
    (calls_made (leaves_token (tor_access_token reply)) InMemory.handler p w1 ->
     forall later path w3,
     run InMemory.handler (authorize_resource state later path) w2 = (Ok (tor_access_token reply), w3) ->
     exists v2 v3, world_refines w2 v2 /\ world_refines w3 v3 /\
       proved_possession state later path (tor_access_token reply) (compute_thumbprint jwk) v2 v3).
Proof.
  intros Hw Hg R1 Hp R2. destruct (run_in_memory _ _ _ _ _ (token_endpoint_calls _ _ _) Hw R1) as (v1 & S1 & Hw1).
  destruct Hw as (Hsys & _ & Hrange & _).
  assert (Hnow : read_at w = read_at v) by (unfold read_at; by rewrite Hsys).
  apply token_endpoint_code_run in S1; [|rewrite <- Hnow; by apply timestamp_unix|done].
  destruct S1 as (client & client_jti & now & jwk & jti & code & reply & grant & expires & ? & ? & ? & ? & Hgr & Hb).
  exists client, client_jti, now, jwk, jti, code, reply. rewrite Hnow.
  repeat (split; [done|]). intros Hm later path w3 R3.
  pose proof (calls_made_simulates _ _ _ _ _ handler_refines p w1 v1 Hp Hw1 Hm) as Hm'.
  destruct (run_in_memory _ _ _ _ _ Hp Hw1 R2) as (v2 & S2 & Hw2).
  destruct (run_in_memory _ _ _ _ _ (authorize_resource_calls _ _ _) Hw2 R3) as (v3 & S3 & Hw3).
  exists v2, v3. split; [done|]. split; [done|]. apply bound_use; [|done].
  assert (Hb1 : bound_to (tor_access_token reply) (compute_thumbprint jwk) v1).
  { intros g x Hx. rewrite Hgr in Hx. by injection Hx as <- _. }
  pose proof (run_made_invariant (bound_to (tor_access_token reply) (compute_thumbprint jwk)) _ Spec.handler
    (fun X e v => bound_step _ _ X e v) p v1 Hm' Hb1) as Hb2. by rewrite S2 in Hb2.
Qed.
End TokenRoute.

(** ** The user's decision *)
Section DecisionRoute.
Context `{Sha2} `{Base64Url} `{Base64Std} `{P256} `{Ed25519} `{HeaderSerde} `{SerdeJson} `{ClaimsSerde}.
Context `{CH : Chrono} `{CHL : !ChronoLaws CH} `{UrlApi} `{Profile} `{HttpApi}.

(** Every session is stored under its own request URI. *)
Definition keyed (s : IssuerStore) : Prop :=
  forall uri ses, auth_sessions s !! uri = Some ses -> ses_request_uri ses = uri.

(** A pushed request its client may still use: less than a minute old, and
    without a code. *)
Definition usable (uri client_id : string) (v : World IssuerStore) (ses : AuthorizationSession) : Prop :=
  auth_sessions (store v) !! uri = Some ses /\ ses_client_id ses = client_id /\
  num_millis_between (clock (sys v) (S (ticks (sys v)))) (ses_created_at ses) < 60000 /\
  ses_authorization_code ses = None.

Lemma resolve_run uri client_id v r v' :
  run Spec.handler (resolve_request_uri (Some uri) (Some client_id)) v = (r, v') ->
  store v' = store v /\ uuids (sys v') = uuids (sys v) /\ uuids_used (sys v') = uuids_used (sys v) /\
  match r with
  | Ok ses => usable uri client_id v ses /\ clock (sys v') = clock (sys v) /\ ticks (sys v') = S (S (ticks (sys v)))
  | Err _ => forall ses, ~ usable uri client_id v ses
  | Panic => False
  end.
Proof.
  unfold resolve_request_uri, usable. simpl. destruct (auth_sessions (store v) !! uri) as [ses|] eqn:Hs; simpl.
  2:{ intros [= <- <-]. repeat split. by intros ses [? _]. }
  rewrite run_bind_res; simpl; case_bool_decide as Hc; simpl.
  { intros [= <- <-]. repeat split. intros ses' (? & <- & _). by simplify_eq. }
  simplify_eq.
  destruct (Z.leb_spec (REQUEST_URI_TTL_SECS * 1000)
    (num_millis_between (clock (sys v) (S (ticks (sys v)))) (ses_created_at ses))) as [Hold|Hyoung]; simpl.
  { intros [= <- <-]. repeat split. intros ses' (? & _ & ? & _). simplify_eq. unfold REQUEST_URI_TTL_SECS in Hold. lia. }
  unfold REQUEST_URI_TTL_SECS in Hyoung. case_bool_decide as Hcode; simpl; intros [= <- <-]; (split; [done|]; split; [done|]; split; [done|]).
  - intros ses' (? & _ & _ & Hn). simplify_eq. rewrite Hn in Hcode. by destruct Hcode.
  - split; [|done]. split; [done|]. split; [done|]. split; [lia|]. by apply eq_None_not_Some.
Qed.

(** The redirect to the client, with the pairs that tell the decision. *)
Definition decision_redirect (state : AppState) (ses : AuthorizationSession) (redirect : Url)
    (pairs : list (string * string)) : Response :=
  redirect_to (url_as_str (append_pairs redirect (pairs ++ state_and_issuer state ses))).

Definition denied : list (string * string) :=
  [("error", "access_denied"); ("error_description", "The user denied the request")]%string.

(** The storage once the session was given its code. *)
Definition with_new_code (uri code : string) (ses : AuthorizationSession) (now : DateTime) (s : IssuerStore) : IssuerStore :=
  Spec.set_codes (<[code := uri]> (codes s)) (Spec.set_auth_sessions (<[uri := with_code ses code now]> (auth_sessions s)) s).

Definition decision_outcome (state : AppState) (decision : Decision) (v v' : World IssuerStore)
    (r : res Response Response) : Prop :=
  let ready ses redirect := usable (de_request_uri decision) (de_client_id decision) v ses /\
    url_parse (ses_redirect_uri ses) = inl redirect in
  match r with
  | Ok response => exists ses redirect, ready ses redirect /\
      if decide (de_decision decision = "approve"%string) then
        let code := uuids (sys v) (uuids_used (sys v)) in
        response = decision_redirect state ses redirect [("code"%string, code)] /\
        store v' = with_new_code (de_request_uri decision) code ses (clock (sys v) (S (S (ticks (sys v))))) (store v)
      else response = decision_redirect state ses redirect denied /\ store v' = store v
  | Err _ => (forall ses redirect, ~ ready ses redirect) /\ store v' = store v
  | Panic => False
  end.

Lemma decision_run state decision v r v' :
  (forall ses, auth_sessions (store v) !! de_request_uri decision = Some ses -> ses_request_uri ses = de_request_uri decision) ->
  run Spec.handler (authorize_decision state decision) v = (r, v') ->
  decision_outcome state decision v v' r.
Proof.
  intros Hk. unfold authorize_decision, decision_outcome. rewrite run_bind_res, run_map_err.
  destruct (run _ (resolve_request_uri _ _) v) as [r1 v1] eqn:R1. apply resolve_run in R1 as (Hs1 & Hu1 & Hd1 & R1).
  destruct r1 as [ses|e|]; [|simpl; intros [= <- <-]; split; [|done]; intros ses redirect [Hu _]; by eapply R1|done].
  cbn [map_err]. rewrite run_bind_res. cbn [run].
  destruct (url_parse (ses_redirect_uri ses)) as [redirect|e] eqn:Hp; simpl.
  2:{ intros [= <- <-]. split; [|done]. intros ses' redirect [Hu Hp']. destruct R1 as [[? _] _], Hu as [? _]. congruence. }
  rewrite run_bind_res. unfold decision_pairs. case_bool_decide as Hd.
  - simpl. rewrite Hs1. destruct R1 as ((Hses & Hc & Ht & Hn) & Hck & Htk). rewrite (Hk _ Hses), Hses. simpl. intros [= <- <-].
    exists ses, redirect. split; [done|]. rewrite decide_True by done. rewrite Hu1, Hd1. split; [done|]. by rewrite Hck, Htk.
  - simpl. intros [= <- <-]. exists ses, redirect. split; [split; [by destruct R1|done]|]. by rewrite decide_False.
Qed.

Lemma authorize_decision_calls state decision : calls_in allowed (authorize_decision state decision).
Proof.
  unfold authorize_decision, resolve_request_uri, decision_pairs, generate_authorization_code, utc_now, new_v4, trigger.
  solve_calls.
Qed.

(** C30: The decision.  The user's decision is taken exactly while the pushed
    request is its client's, less than a minute old and without a code, and its
    redirect URI is a URL; otherwise nothing changes.  An approval gives the
    session a new code, in the storage and in the redirect, so that the request
    cannot be approved again.  A denial tells the client and changes nothing:
    the same request can still be approved afterwards. *)
Theorem authorize_decision_exact state decision w v r w' :
  world_refines w v -> keyed (store v) ->
  run InMemory.handler (authorize_decision state decision) w = (r, w') ->
  exists v', world_refines w' v' /\ decision_outcome state decision v v' r.
Proof.
  intros Hw Hk Hr. destruct (run_in_memory _ _ _ _ _ (authorize_decision_calls _ _) Hw Hr) as (v' & Hv & Hw').
  exists v'. split; [done|]. apply decision_run; [apply Hk|done].
Qed.
End DecisionRoute.

(** ** What the routes do to the sessions *)
Section Sessions.
Context `{Sha2} `{Base64Url} `{Base64Std} `{P256} `{Ed25519} `{HeaderSerde} `{SerdeJson} `{ClaimsSerde}.
Context `{CH : Chrono} `{CHL : !ChronoLaws CH} `{UrlApi} `{Profile} `{HttpApi} `{!OfferSerde}.

(** The calls within the contract of the storage that store a session under its
    own request URI. *)
Definition keeps_keyed X (e : IssuerF X) : Prop :=
  allowed X e /\ match e with inrE (StoreAuthorizationSession uri ses) => ses_request_uri ses = uri | _ => True end.

Section Calls.
Context (state : AppState).

Lemma dpop_jkt_keyed headers path token : calls_in keeps_keyed (dpop_jkt state headers path token).
Proof. unfold dpop_jkt, verify_dpop_proof, utc_now, trigger. solve_calls. Qed.

Lemma attested_client_keyed headers : calls_in keeps_keyed (attested_client state headers).
Proof. unfold attested_client, verify_client_attestation, utc_now, trigger. solve_calls. Qed.

Lemma par_endpoint_calls headers request : calls_in keeps_keyed (par_endpoint state headers request).
Proof.
  unfold par_endpoint, process_par, new_v4, utc_now, trigger.
  solve_calls; auto using dpop_jkt_keyed, attested_client_keyed.
Qed.

Lemma authorize_endpoint_calls request_uri client_id :
  calls_in keeps_keyed (authorize_endpoint state request_uri client_id).
Proof. unfold authorize_endpoint, resolve_request_uri, utc_now, trigger. solve_calls. Qed.

Lemma decision_keyed decision : calls_in keeps_keyed (authorize_decision state decision).
Proof.
  unfold authorize_decision, resolve_request_uri, decision_pairs, generate_authorization_code, utc_now, new_v4, trigger.
  solve_calls.
Qed.

Lemma token_endpoint_keyed headers request : calls_in keeps_keyed (token_endpoint state headers request).
Proof.
  assert (Hi : forall ids m, calls_in keeps_keyed (mint_identifiers ids m)) by (intros; by apply mint_identifiers_calls).
  unfold token_endpoint, process_token_request, process_authorization_code_grant, process_pre_authorized_code_grant,
    issue_access_token, new_v4, utc_now, trigger.
  solve_calls; auto using dpop_jkt_keyed, attested_client_keyed.
Qed.

Lemma nonce_endpoint_calls : calls_in keeps_keyed nonce_endpoint.
Proof. unfold nonce_endpoint, new_v4, trigger. solve_calls. Qed.

Lemma offer_endpoint_calls config : calls_in keeps_keyed (credential_offer_endpoint state config).
Proof. unfold credential_offer_endpoint, create_offer, new_v4, trigger, pmap. solve_calls. Qed.

Lemma authorize_resource_keyed headers path : calls_in keeps_keyed (authorize_resource state headers path).
Proof. unfold authorize_resource, use_token, trigger. solve_calls; auto using dpop_jkt_keyed. Qed.
End Calls.

Lemma keyed_allowed {A} (p : prog IssuerF A) : calls_in keeps_keyed p -> calls_in allowed p.
Proof. apply calls_in_mono. by intros X e [? _]. Qed.

(** The code of a session leads back to a session. *)
Definition indexed (s : IssuerStore) : Prop :=
  forall code uri, codes s !! code = Some uri -> is_Some (auth_sessions s !! uri).

(** The two invariants of the sessions. *)
Definition sessions_well_formed (s : IssuerStore) : Prop := keyed s /\ indexed s.

Lemma keyed_step X (e : IssuerF X) v :
  keeps_keyed X e -> sessions_well_formed (store v) -> sessions_well_formed (store (Spec.handler X e v).2).
Proof.
  destruct v as [sv s]. intros [_ He] [Hk Hi]. simpl in Hk, Hi. unfold sessions_well_formed, keyed, indexed.
  destruct e as [e|e]; simpl; [by destruct (handle_sys e sv)|].
  destruct e; simpl in *; repeat case_match; simplify_eq/=; try done.
  - split; [intros uri ses; rewrite lookup_insert_Some; naive_solver|].
    intros code uri Hc. rewrite lookup_insert_is_Some'. naive_solver.
  - split; intros k x; rewrite lookup_insert_Some.
    + intros [[<- <-]|[_ Hx]]; [simpl; by eapply Hk|by apply Hk].
    + intros [[<- <-]|[_ Hx]]; rewrite lookup_insert_is_Some'; naive_solver.
  - split; intros k x; [rewrite lookup_alter_Some; intros [(<- & y & Hy & ->)|[_ Hx]]; [simpl; by apply Hk|by apply Hk]|].
    intros Hx%Hi. by rewrite lookup_alter_is_Some.
Qed.

End Sessions.

(** ** From an offer to its token *)
Section OfferRoute.
Context `{Sha2} `{Base64Url} `{Base64Std} `{P256} `{Ed25519} `{HeaderSerde} `{SerdeJson} `{ClaimsSerde}.
Context `{CH : Chrono} `{CHL : !ChronoLaws CH} `{UrlApi} `{Profile} `{HttpApi} `{!OfferSerde}.

(** The calls that neither redeem the offered code nor store another offer
    under it. *)
Definition leaves_offer (code : string) X (e : IssuerF X) : Prop :=
  match e with
  | inrE (StorePreAuthorizedCode c _ _) | inrE (RedeemPreAuthorizedCode c _) => c <> code
  | _ => True
  end.

Definition offered (code : string) (ids : list string) (v : World IssuerStore) : Prop :=
  pending (store v) !! code = Some (None, ids).

Lemma offered_step code ids X (e : IssuerF X) v :
  leaves_offer code X e -> offered code ids v -> offered code ids (Spec.handler X e v).2.
Proof.
  destruct v as [sv s]. unfold offered. simpl. intros He Hp. destruct e as [e|e]; simpl in *; [by destruct (handle_sys e sv)|].
  destruct e; simpl in *; repeat case_match; simplify_eq/=; try done; by rewrite ?lookup_insert_ne, ?lookup_delete_ne by done.
Qed.

(** The offer of a single configuration, with its pre-authorized code. *)
Definition offer_of (offer : CredentialOffer) (code config_id : string) : Prop :=
  co_credential_configuration_ids offer = [config_id] /\
  co_grants offer ≫= g_pre_authorized_code = Some (mkPreAuthorizedCodeGrant code None).

Lemma offer_endpoint_run state config v r v' :
  run Spec.handler (credential_offer_endpoint state config) v = (r, v') ->
  let config_id := default "IdentityCredential_SD_JWT_VC"%string config in
  match r with
  | Ok response => exists offer uri code, response = json_response 200 (OfferDoc offer uri) /\
      offer_of offer code config_id /\ offered code [config_id] v'
  | Err response => rs_status response = 400 /\ v' = v /\
      cim_credential_configurations_supported (app_metadata state) !! config_id = None
  | Panic => False
  end.
Proof.
  unfold credential_offer_endpoint. set (config_id := default _ config).
  destruct (negb _) eqn:Hn.
  - simpl. intros [= <- <-]. repeat split. apply negb_true_iff, bool_decide_eq_false in Hn. by apply eq_None_not_Some.
  - simpl. intros [= <- <-]. eexists _, _, _. split; [done|]. split; [done|]. apply lookup_insert_eq.
Qed.

Lemma credential_offer_calls state config : calls_in allowed (credential_offer_endpoint state config).
Proof.
  unfold credential_offer_endpoint, create_offer, new_v4, trigger, pmap. solve_calls.
Qed.

(** A token request for an offered code that brings nothing else. *)
Record plain_redemption (headers : HeaderMap) (request : TokenRequest) (code : string) : Prop := {
  pr_grant_type : tr_grant_type request = PRE_AUTHORIZED;
  pr_code : tr_pre_authorized_code request = Some code;
  pr_tx_code : tr_tx_code request = None;
  pr_attestation : header_str headers "oauth-client-attestation" = None;
  pr_pop : header_str headers "oauth-client-attestation-pop" = None;
  pr_dpop : headers_get_all headers "dpop" = [];
}.

Lemma redeem_offer_run state headers request code ids v :
  plain_redemption headers request code -> offered code ids v ->
  exists reply grant expires v', run Spec.handler (token_endpoint state headers request) v
      = (Ok (no_store (json_response 200 (TokenDoc reply))), v') /\
    grants (store v') !! tor_access_token reply = Some (grant, expires) /\
    ag_credential_configuration_ids grant = ids /\ ag_dpop_jkt grant = None.
Proof.
  intros [Hg Hc Ht Ha Hp Hd] Ho.
  assert (token_endpoint state headers request =
    do? response <- pmap_err (fun e => let '(status, code) := status_and_code e in
        json_error (status_code_or status 400) code (token_error_to_string e))
      (process_token_request request (mkTokenContext None None));
    Ret (Ok (no_store (json_response 200 (TokenDoc response))))) as ->
    by (unfold token_endpoint, attested_client, dpop_jkt; by rewrite Ha, Hp, Hd).
  rewrite run_bind_res, run_map_err.
  destruct (run _ (process_token_request _ _) v) as [r v1] eqn:Hr. apply process_pre_authorized_outcome in Hr; [|done].
  destruct r as [reply|e|]; [|destruct Hr as [Hno _]|done].
  - destruct Hr as (code' & ids' & at_ & (_ & Hc' & Hp') & _ & -> & Hst).
    rewrite Hc in Hc'. simplify_eq. unfold offered in Ho. rewrite Ho in Hp'. simplify_eq.
    simpl. eexists _, _, _, _. split; [done|]. rewrite Hst. simpl. split; [apply lookup_insert_eq|done].
  - exfalso. apply (Hno code ids). split; [by intros c d _ ?|]. by rewrite Ht.
Qed.

(** C20: Offers can be redeemed.  An offer of a configuration the issuer supports
    is always made, with a code that no PIN guards.  Whatever else the issuer
    serves in between, as long as the code is not redeemed, a token request
    with that code and nothing else is answered with an access token for
    exactly the offered configuration. *)
Theorem offer_redeemable {A} state config w v r w1 (p : prog IssuerF A) a w2 headers request :
  let config_id := default "IdentityCredential_SD_JWT_VC"%string config in
  world_refines w v -> is_Some (cim_credential_configurations_supported (app_metadata state) !! config_id) ->
  run InMemory.handler (credential_offer_endpoint state config) w = (r, w1) ->
  calls_in allowed p -> run InMemory.handler p w1 = (a, w2) ->
  exists offer uri code, r = Ok (json_response 200 (OfferDoc offer uri)) /\ offer_of offer code config_id /\
    (calls_made (leaves_offer code) InMemory.handler p w1 -> plain_redemption headers request code ->
     exists reply grant expires w3 v3, run InMemory.handler (token_endpoint state headers request) w2
         = (Ok (no_store (json_response 200 (TokenDoc reply))), w3) /\
       world_refines w3 v3 /\ grants (store v3) !! tor_access_token reply = Some (grant, expires) /\
       ag_credential_configuration_ids grant = [config_id] /\ ag_dpop_jkt grant = None).
Proof.
  intros config_id Hw Hsup R1 Hp R2.
  destruct (run_in_memory _ _ _ _ _ (credential_offer_calls _ _) Hw R1) as (v1 & S1 & Hw1).
  apply offer_endpoint_run in S1. fold config_id in S1.
  destruct r as [response|e|]; [|destruct S1 as (_ & _ & Hn); rewrite Hn in Hsup; by destruct Hsup|done].
  destruct S1 as (offer & uri & code & -> & Hoff & Ho). exists offer, uri, code. split; [done|]. split; [done|].
  intros Hm Hred. pose proof (calls_made_simulates _ _ _ _ _ handler_refines p w1 v1 Hp Hw1 Hm) as Hm'.
  destruct (run_in_memory _ _ _ _ _ Hp Hw1 R2) as (v2 & S2 & Hw2).
  pose proof (run_made_invariant (offered code [config_id]) (leaves_offer code) Spec.handler
    (fun X e v => offered_step code [config_id] X e v) p v1 Hm' Ho) as Ho2. rewrite S2 in Ho2. simpl in Ho2.
  destruct (redeem_offer_run state headers request code [config_id] v2 Hred Ho2) as (reply & grant & expires & v3 & S3 & ?).
  destruct (run_simulates _ _ _ _ handler_refines _ w2 v2 (token_endpoint_calls state headers request) Hw2) as [Heq Hw3].
  rewrite S3 in Heq, Hw3. simpl in Heq, Hw3.
  exists reply, grant, expires, (run InMemory.handler (token_endpoint state headers request) w2).2, v3.
  split; [|done]. rewrite <- Heq. apply surjective_pairing.
Qed.
End OfferRoute.
