(* ===== verification/CodeFlow.v ===== *)
(** * The authorization code flow, from the pushed request to the token

    What the theorems about the PAR endpoint, the user's decision and the token
    endpoint amount to together: a client that keeps to the protocol gets its
    token, whatever the issuer serves between its requests. *)
From S2P Require Import Prelude Externals Strings Effects Json Keys Jws SdJwt X509 Oid4vci IssuerState IssuerStateSpec.
From S2P Require Import Authorization Token Metadata Http ServerState IssuerRoutes IssuerRoutesSpec.

(** ** What other requests leave alone *)
Section Interference.

(** The calls that neither store a session under the request URI nor give its
    session a code. *)
Definition leaves_request (uri : string) X (e : IssuerF X) : Prop :=
  match e with
  | inrE (StoreAuthorizationSession u _) | inrE (SetAuthorizationCode u _) => u <> uri
  | _ => True
  end.

(** The calls that, besides, neither issue the code again nor consume it. *)
Definition leaves_code (uri code : string) X (e : IssuerF X) : Prop :=
  leaves_request uri X e /\
  match e with
  | inrE (SetAuthorizationCode _ c) | inrE (ConsumeAuthorizationCode c) => c <> code
  | _ => True
  end.

(** The request is pushed, and no code leads to it yet. *)
Definition request_pushed (uri : string) (ses : AuthorizationSession) (v : World IssuerStore) : Prop :=
  auth_sessions (store v) !! uri = Some ses /\ forall c, codes (store v) !! c <> Some uri.

(** The request is approved: one code leads to it. *)
Definition request_approved (uri code : string) (ses : AuthorizationSession) (v : World IssuerStore) : Prop :=
  auth_sessions (store v) !! uri = Some ses /\ forall c, codes (store v) !! c = Some uri <-> c = code.

Lemma session_step uri ses X (e : IssuerF X) v :
  leaves_request uri X e ->
  match e with inrE (ConsumeAuthorizationCode c) => codes (store v) !! c <> Some uri | _ => True end ->
  auth_sessions (store v) !! uri = Some ses ->
  auth_sessions (store (Spec.handler X e v).2) !! uri = Some ses.
Proof.
  destruct v as [sv s]. simpl. intros He Hc Hs. destruct e as [e|e]; simpl in *; [by destruct (handle_sys e sv)|].
  destruct e; simpl in *; repeat case_match; simplify_eq/=; try done; by rewrite ?lookup_insert_ne, ?lookup_alter_ne by congruence.
Qed.

Lemma codes_step uri code X (e : IssuerF X) v :
  leaves_request uri X e ->
  codes (store (Spec.handler X e v).2) !! code = Some uri -> codes (store v) !! code = Some uri.
Proof.
  destruct v as [sv s]. simpl. intros He. destruct e as [e|e]; simpl in *; [by destruct (handle_sys e sv)|].
  destruct e; simpl in *; repeat case_match; simplify_eq/=; try done. rewrite lookup_insert_Some. naive_solver.
Qed.

Lemma code_kept uri code X (e : IssuerF X) v :
  leaves_code uri code X e ->
  codes (store v) !! code = Some uri -> codes (store (Spec.handler X e v).2) !! code = Some uri.
Proof.
  destruct v as [sv s]. simpl. intros [_ He]. destruct e as [e|e]; simpl in *; [by destruct (handle_sys e sv)|].
  destruct e; simpl in *; repeat case_match; simplify_eq/=; try done. by rewrite lookup_insert_ne.
Qed.

Lemma pushed_step uri ses X (e : IssuerF X) v :
  leaves_request uri X e -> request_pushed uri ses v -> request_pushed uri ses (Spec.handler X e v).2.
Proof.
  intros He [Hs Hc]. split; [|intros c Hc'; eapply Hc, codes_step; eassumption].
  apply session_step; [done| |done]. by repeat case_match.
Qed.

Lemma approved_step uri code ses X (e : IssuerF X) v :
  leaves_code uri code X e -> request_approved uri code ses v -> request_approved uri code ses (Spec.handler X e v).2.
Proof.
  intros He [Hs Hc]. split.
  - apply session_step; [apply He| |done]. destruct He as [_ He]. repeat case_match; try done. by rewrite Hc.
  - intros c. split; [intros Hc'; apply Hc; by eapply codes_step; [apply He|]|]. intros ->. apply code_kept; [done|by apply Hc].
Qed.
End Interference.

(** ** The flow *)
Section CodeFlow.
Context `{Sha2} `{Base64Url} `{Base64Std} `{P256} `{Ed25519} `{HeaderSerde} `{SerdeJson} `{ClaimsSerde}.
Context `{CH : Chrono} `{CHL : !ChronoLaws CH} `{UrlApi} `{Profile} `{HttpApi}.

(** The URI is not that of an earlier request. *)
Definition unpushed (uri : string) (s : IssuerStore) : Prop :=
  sessions_well_formed s /\ auth_sessions s !! uri = None.

(** What a run over the abstract storage does, the one over the in-memory
    storage does. *)
Lemma carried {A} (p : prog IssuerF A) (Q : A -> World IssuerStore -> Prop) w v :
  calls_in allowed p -> world_refines w v -> Q (run Spec.handler p v).1 (run Spec.handler p v).2 ->
  exists v', world_refines (run InMemory.handler p w).2 v' /\ Q (run InMemory.handler p w).1 v'.
Proof.
  intros Hp Hw HQ. destruct (run_simulates _ _ _ _ handler_refines p w v Hp Hw) as [-> ?]. by eexists.
Qed.

(** A condition that the calls between two requests keep. *)
Lemma kept_between {A} (I : World IssuerStore -> Prop) (P : forall X, IssuerF X -> Prop) (p : prog IssuerF A) w v :
  (forall X (e : IssuerF X) v, P X e -> I v -> I (Spec.handler X e v).2) ->
  calls_in allowed p -> world_refines w v -> calls_made P InMemory.handler p w -> I v ->
  exists v', world_refines (run InMemory.handler p w).2 v' /\ I v'.
Proof.
  intros Hs Hp Hw Hm HI. apply (carried p (fun _ => I) w v Hp Hw). apply (run_made_invariant I P Spec.handler Hs); [|done].
  exact (calls_made_simulates _ _ _ _ _ handler_refines p w v Hp Hw Hm).
Qed.

Lemma par_phase request ctx metadata jkt ids via w v :
  let uri := request_uri_of (uuids (sys w) (uuids_used (sys w))) in
  let outcome := run InMemory.handler (process_par request ctx metadata) w in
  world_refines w v -> unpushed uri (store v) -> par_accepts request ctx metadata jkt ids via ->
  exists v', world_refines outcome.2 v' /\ outcome.1 = Ok (mkPushedAuthorizationResponse uri 60) /\
    request_pushed uri (par_session request uri ids via (clock (sys w) (ticks (sys w))) jkt) v'.
Proof.
  intros uri outcome Hw [[_ Hi] Hn] Hacc%par_checks_Ok.
  apply (carried _ (fun r v' => r = Ok _ /\ request_pushed _ _ v') w v (process_par_calls _ _ _) Hw).
  unfold process_par. rewrite Hacc. subst uri. rewrite (proj1 Hw) in *. simpl.
  split; [done|]. split; simpl; [apply lookup_insert_eq|]. intros c [? Hs]%Hi. by rewrite Hn in Hs.
Qed.

Lemma decision_phase state uri ses redirect w v :
  let code := uuids (sys w) (uuids_used (sys w)) in
  let outcome := run InMemory.handler (authorize_decision state (mkDecision uri (ses_client_id ses) "approve")) w in
  world_refines w v -> request_pushed uri ses v -> ses_request_uri ses = uri -> ses_authorization_code ses = None ->
  num_millis_between (clock (sys w) (S (ticks (sys w)))) (ses_created_at ses) < 60000 ->
  url_parse (ses_redirect_uri ses) = inl redirect ->
  exists v', world_refines outcome.2 v' /\
    outcome.1 = Ok (decision_redirect state ses redirect [("code"%string, code)]) /\
    request_approved uri code (with_code ses code (clock (sys w) (S (S (ticks (sys w)))))) v'.
Proof.
  intros code outcome Hw [Hs Hc] Hu Hn Ht Hr. subst code. rewrite (proj1 Hw) in *.
  apply (carried _ (fun r v' => r = Ok _ /\ request_approved _ _ _ v') w v (authorize_decision_calls _ _) Hw).
  destruct (run Spec.handler (authorize_decision _ _) v) as [r v'] eqn:Hrun.
  apply decision_run in Hrun; [|simpl; intros ? ?; by simplify_eq].
  destruct r as [response|e|]; [|by destruct (proj1 Hrun ses redirect)|destruct Hrun].
  destruct Hrun as (ses' & redirect' & [(Hs' & _) Hr'] & -> & Hst). clear outcome. simpl in *. simplify_eq.
  assert (redirect' = redirect) as -> by congruence. split; [done|].
  unfold request_approved. rewrite Hst. simpl. split; [apply lookup_insert_eq|].
  intros c. rewrite lookup_insert_Some. naive_solver.
Qed.

(** A token request that keeps to what was pushed. *)
Record honest_redemption (request : PushedAuthorizationRequest) (jkt : option string) (trequest : TokenRequest)
    (tctx : TokenContext) (code key : string) : Prop := {
  hr_grant_type : tr_grant_type trequest = "authorization_code"%string;
  hr_code : tr_code trequest = Some code;
  hr_redirect : url_as_str <$> tr_redirect_uri trequest = Some (url_as_str (par_redirect_uri request));
  hr_verifier : exists verifier, tr_code_verifier trequest = Some verifier /\
    b64url_encode (sha256 (as_bytes verifier)) = par_code_challenge request;
  hr_client : tx_authenticated_client tctx = Some (par_client_id request);
  hr_client_param c : tr_client_id trequest = Some c -> c = par_client_id request;
  hr_dpop : tx_dpop_jkt tctx = Some key;
  hr_bound b : jkt = Some b -> b = key;
}.

(** The token is stored for exactly these configurations and this key, for an
    hour from an instant not before [since]. *)
Definition token_granted (token : string) (ids : list string) (key : string) (since : Sys) (s : IssuerStore) : Prop :=
  exists grant minted_at, sys_after since minted_at /\
    grants s !! token = Some (grant, clock minted_at (ticks minted_at) + 3600 * NANOS) /\
    ag_credential_configuration_ids grant = ids /\ ag_dpop_jkt grant = Some key.

Lemma redeem_phase request jkt trequest tctx uri code key ids via now at_ w v :
  let outcome := run InMemory.handler (process_token_request trequest tctx) w in
  world_refines w v -> request_approved uri code (with_code (par_session request uri ids via now jkt) code at_) v ->
  honest_redemption request jkt trequest tctx code key ->
  num_seconds_between (clock (sys w) (S (ticks (sys w)))) at_ <= 60 ->
  exists v', world_refines outcome.2 v' /\ exists reply, outcome.1 = Ok reply /\
    tor_token_type reply = "DPoP"%string /\ token_granted (tor_access_token reply) ids key (sys w) (store v').
Proof.
  intros outcome Hw [Hs Hc] [Hg Hco Hr Hv Hcl Hp Hd Hb] Ht. subst outcome. rewrite (proj1 Hw) in Ht |- *.
  apply (carried _ (fun r v' => exists reply, r = Ok reply /\ _ /\ token_granted _ _ _ _ (store v')) w v
    (process_token_request_calls _ _) Hw).
  assert (Hses : Spec.session_of (store v) code = Some (with_code (par_session request uri ids via now jkt) code at_)).
  { unfold Spec.session_of. by rewrite (proj2 (Hc code) eq_refl). }
  destruct (run Spec.handler (process_token_request _ _) v) as [r v'] eqn:Hrun. simpl.
  apply process_code_outcome in Hrun as Ho; [|done]. destruct r as [reply|e|]; [|exfalso|done].
  - destruct Ho as (code' & ses & jkt' & at' & Hco' & Hses' & Ha & Hat & -> & Hst). simplify_eq.
    pose proof (ca_dpop _ _ _ _ _ Ha). simplify_eq. eexists. split; [done|]. split; [done|].
    unfold token_granted. rewrite Hst. eexists _, at'. split; [done|]. split; [apply lookup_insert_eq|done].
  - destruct Ho as [Hno _]. apply (Hno code _ key Hco Hses). split; simpl; eauto.
Qed.

(** C10: The code flow completes.  A client pushes a request that the PAR
    endpoint accepts; the issuer serves whatever else comes, but no call
    touches the request; the user approves within a minute; the issuer serves
    whatever else comes, but no call consumes the code; and within a minute of
    the approval the client redeems the code, with its verifier, its redirect
    URI and a proof by its key.  Then each of the three requests succeeds: the
    redirect carries a code, and the code is worth a DPoP token, stored for an
    hour, for exactly the configurations the pushed request resolved to and for
    the key of the proof. *)
Theorem code_flow_completes {A B} state request ctx jkt ids via redirect w v (p1 : prog IssuerF A) (p2 : prog IssuerF B)
    trequest tctx key :
  let uri := request_uri_of (uuids (sys w) (uuids_used (sys w))) in
  let ses := par_session request uri ids via (clock (sys w) (ticks (sys w))) jkt in
  let par := run InMemory.handler (process_par request ctx (app_metadata state)) w in
  let w1 := (run InMemory.handler p1 par.2).2 in
  let code := uuids (sys w1) (uuids_used (sys w1)) in
  let issued_at := clock (sys w1) (S (S (ticks (sys w1)))) in
  let approval := mkDecision uri (par_client_id request) "approve" in
  let decided := run InMemory.handler (authorize_decision state approval) w1 in
  let w2 := (run InMemory.handler p2 decided.2).2 in
  let redeemed := run InMemory.handler (process_token_request trequest tctx) w2 in
  world_refines w v -> unpushed uri (store v) ->
  par_accepts request ctx (app_metadata state) jkt ids via ->
  url_parse (url_as_str (par_redirect_uri request)) = inl redirect ->
  calls_in allowed p1 -> calls_made (leaves_request uri) InMemory.handler p1 par.2 ->
  num_millis_between (clock (sys w1) (S (ticks (sys w1)))) (clock (sys w) (ticks (sys w))) < 60000 ->
  calls_in allowed p2 -> calls_made (leaves_code uri code) InMemory.handler p2 decided.2 ->
  honest_redemption request jkt trequest tctx code key ->
  num_seconds_between (clock (sys w2) (S (ticks (sys w2)))) issued_at <= 60 ->
  par.1 = Ok (mkPushedAuthorizationResponse uri 60) /\
  decided.1 = Ok (decision_redirect state ses redirect [("code"%string, code)]) /\
  exists reply v', redeemed.1 = Ok reply /\ tor_token_type reply = "DPoP"%string /\
    world_refines redeemed.2 v' /\ token_granted (tor_access_token reply) ids key (sys w2) (store v').
Proof.
  intros uri ses par w1 code issued_at approval decided w2 redeemed Hw Hun Hacc Hr Hp1 Hm1 Ht1 Hp2 Hm2 Hhon Ht2.
  destruct (par_phase _ _ _ _ _ _ w v Hw Hun Hacc) as (v1 & Hw1 & Hpar & Hpushed). split; [done|].
  destruct (kept_between _ _ p1 _ v1 (fun X e v => pushed_step uri ses X e v) Hp1 Hw1 Hm1 Hpushed) as (v2 & Hw2 & Hpushed2).
  destruct (decision_phase state uri ses redirect w1 v2 Hw2 Hpushed2 eq_refl eq_refl Ht1 Hr) as (v3 & Hw3 & Hdec & Happ).
  split; [done|].
  destruct (kept_between _ _ p2 _ v3 (fun X e v => approved_step uri code _ X e v) Hp2 Hw3 Hm2 Happ) as (v4 & Hw4 & Happ4).
  destruct (redeem_phase _ _ _ _ _ _ _ _ _ _ _ w2 v4 Hw4 Happ4 Hhon Ht2) as (v5 & Hw5 & reply & ? & ? & ?). by exists reply, v5.
Qed.

End CodeFlow.
