(* ===== verification/IssuerServer.v ===== *)
(** * The issuer's server

    Every request the issuer's routes serve, POST /credential with the status
    manager included, over one storage: the in-memory one behind its requests,
    and the manager of status lists.  Requests interleave call by call; every
    call of the storage or the manager is one step, as the locks make it (what
    the locks themselves do is in Locks.v).  Here: the sessions of the issuer. *)
From S2P Require Import Prelude Externals Strings Effects Json Keys Jws SdJwt X509 Cbor Cose Mdoc Oid4vci IssuerState IssuerStateSpec.
From S2P Require Import StatusManager Authorization Token Dpop ClientAttestation Metadata Offer Credential CredentialSpec.
From S2P Require Import Http ServerState IssuerRoutes RequestAuth IssuerRoutesSpec.

(** ** Programs over a part of the calls *)
Section Embed.
Context {E F : Type -> Type} `{Sub E F}.

Lemma calls_in_embed {A} (P : forall X, F X -> Prop) (p : prog E A) :
  calls_in (fun X e => P X (inj1 e)) p -> calls_in P (embed p).
Proof. induction 1; simpl; constructor; auto. Qed.

Lemma outcomes_embed {A} (post : forall X, F X -> X -> Prop) (Q : A -> Prop) (p : prog E A) :
  outcomes (fun X e => post X (inj1 e)) Q p -> outcomes post Q (embed p).
Proof. induction p; simpl; auto. Qed.

Lemma outcomes_weaken {A} (post post' : forall X, E X -> X -> Prop) (Q : A -> Prop) (p : prog E A) :
  (forall X e x, post' X e x -> post X e x) -> outcomes post Q p -> outcomes post' Q p.
Proof. intros Hp. induction p; simpl; auto. Qed.

Lemma assures_embed {A W} (R : W -> W -> Prop) P (h : handler F W) (Q : A -> W -> Prop) (p : prog E A) w :
  assures R (fun X e w => P X (inj1 e) w) (fun X e w => h X (inj1 e) w) Q p w -> assures R P h Q (embed p) w.
Proof. revert w. induction p; simpl; auto. Qed.
End Embed.

(** ** The state of the server *)
Section World.
Context `{UrlApi} `{CH : Chrono}.

(** What the manager's calls answer and how they leave it: that of the
    operations of StatusManager.v, for some random numbers. *)
Definition Status : Type := forall X, StatusE X -> Manager.StatusManager -> X * Manager.StatusManager.

Definition draws_indices (status : Status) : Prop :=
  forall X (e : StatusE X) m,
    match e in StatusE X return X * Manager.StatusManager -> Prop with
    | AllocateEntry p => fun a => exists draws rest, Manager.allocate_entry m p draws = Some (a, rest)
    | AllocateMdocIndex => fun a => exists draws rest, Manager.allocate_mdoc_index m draws = Some (a, rest)
    end (status X e m).

(** The two storages side by side. *)
Definition server_backend {St} (op : backend IssuerStateE St) (status : Status)
    : backend (sumE IssuerStateE StatusE) (St * Manager.StatusManager) := fun X e now st =>
  match e with
  | inlE e => let '(x, s) := op X e now st.1 in (x, (s, st.2))
  | inrE e => let '(x, m) := status X e st.2 in (x, (st.1, m))
  end.

Abbreviation ServerWorld := (World (InMemoryIssuerState * Manager.StatusManager)).
Abbreviation SpecWorld := (World (IssuerStore * Manager.StatusManager)).

Definition server_handler (status : Status) : handler CredentialF ServerWorld :=
  world_handler (server_backend InMemory.backend status).
Definition spec_handler (status : Status) : handler CredentialF SpecWorld :=
  world_handler (server_backend Spec.backend status).

Definition issuer_world {St} (w : World (St * Manager.StatusManager)) : World St := mkWorld (sys w) (store w).1.

Definition server_refines (w : ServerWorld) (v : SpecWorld) : Prop :=
  world_refines (issuer_world w) (issuer_world v) /\ (store w).2 = (store v).2.

Definition server_allowed X (e : CredentialF X) : Prop :=
  match e with inlE _ => True | inrE (inlE e) => allowed X (inrE e) | inrE (inrE _) => True end.

Lemma server_simulates `{!ChronoLaws CH} status :
  simulates server_refines server_allowed (server_handler status) (spec_handler status).
Proof.
  intros X e [sw [m mgr]] [sv [s mgr']] Ha [Hw Hm]. simpl in Hm. subst mgr'. unfold issuer_world in Hw. simpl in Hw.
  destruct e as [e|[e|e]].
  - destruct (handler_refines X (inlE e) _ _ Logic.I Hw) as [H1 H2]. simpl in *.
    destruct (handle_sys e sw) as [x sw'], (handle_sys e sv) as [y sv']. simpl in *. done.
  - destruct (handler_refines X (inrE e) _ _ Ha Hw) as [H1 H2]. simpl in *.
    destruct (InMemory.backend X e _ m) as [x m'], (Spec.backend X e _ s) as [y s']. simpl in *. done.
  - destruct (handler_refines _ (inlE UtcNow) _ _ Logic.I Hw) as [_ H2]. simpl in *.
    destruct (status X e mgr) as [x m']. simpl in *. done.
Qed.

(** *** Every state of the manager has draws that answer *)

(** One draw more than there are entries in use. *)
Definition enough_draws (allocated : gset Z) : list Z := seqZ 0 (Z.of_nat (size allocated) + 1).

Lemma enough_draws_answer a c : exists r a' rest, Manager.draw_index a c (enough_draws a) = Some (r, a', rest).
Proof.
  unfold Manager.draw_index. destruct (Z.leb_spec c (Z.of_nat (size a))) as [Hfull|Hfree]; [by do 3 eexists|].
  destruct (decide (Forall (fun i => i ∈ a) (enough_draws a))) as [Hall|Hno].
  - exfalso. assert (Hsub : (list_to_set (enough_draws a) : gset Z) ⊆ a).
    { intros i Hi%elem_of_list_to_set. by eapply list.Forall_forall in Hall. }
    apply subseteq_size in Hsub. rewrite size_list_to_set in Hsub by apply NoDup_seqZ.
    unfold enough_draws in Hsub. rewrite length_seqZ in Hsub. lia.
  - apply not_Forall_Exists, Exists_exists in Hno as (i & Hi & Hn); [|apply _].
    assert (is_Some (Manager.draw_loop a c (enough_draws a))) as [[i' rest] ->]; [|by do 3 eexists].
    apply Manager.draw_loop_total. exists i. split; [done|]. apply elem_of_seqZ in Hi. rewrite Z.mod_small by lia. done.
Qed.

(** Draws in order: the manager's calls with the first numbers that answer. *)
Definition in_order : Status := fun X e m =>
  match e in StatusE X return X * Manager.StatusManager with
  | AllocateEntry p =>
      let draws := match inner (Manager.lists m) !! purpose_to_string p with
                   | Some l => enough_draws (Manager.allocated l) | None => [] end in
      match Manager.allocate_entry m p draws with Some (r, m', _) => (r, m') | None => (Panic, m) end
  | AllocateMdocIndex =>
      match Manager.allocate_mdoc_index m (enough_draws (Manager.mdoc_allocated (inner (Manager.mdoc m)))) with
      | Some (r, m', _) => (r, m') | None => (Panic, m)
      end
  end.

Lemma in_order_draws : draws_indices in_order.
Proof.
  intros X e m. destruct e as [p|]; simpl.
  - match goal with |- exists _ _, Manager.allocate_entry m p _ = Some (match Manager.allocate_entry m p ?d with _ => _ end, _) =>
      exists d; assert (Hs : is_Some (Manager.allocate_entry m p d)) end.
    { unfold Manager.allocate_entry. destruct (poisoned _); [by eexists|].
      destruct (inner (Manager.lists m) !! purpose_to_string p) as [l|]; [|by eexists].
      destruct (enough_draws_answer (Manager.allocated l) (Manager.capacity l)) as (r & a & rest & ->). simpl.
      destruct r as [i|e|]; [|by eexists..]. destruct (Manager.entry_for m p i); by eexists. }
    destruct Hs as [[[r m'] rest] Hs]. exists rest. by rewrite Hs.
  - eexists. unfold Manager.allocate_mdoc_index. destruct (poisoned _); [by eexists|].
    destruct (enough_draws_answer (Manager.mdoc_allocated (inner (Manager.mdoc m))) Manager.LIST_CAPACITY)
      as (r & a & rest & Hd). eexists. rewrite Hd. simpl. done.
Qed.
End World.

(** ** The requests *)
Section Serve.
Context `{Sha2} `{Base64Url} `{Base64Std} `{P256} `{Ed25519} `{HeaderSerde} `{SerdeJson} `{ClaimsSerde}.
Context `{CH : Chrono} `{U : UrlApi} `{CT : CosetTypes} `{!Coset} `{Ciborium} `{DebugStr} `{X509Api}.
Context `{Profile} `{Assets} `{HI : HashIter} `{HttpApi} `{!OfferSerde}.

Inductive IssuerRequest :=
| ParRequest (headers : HeaderMap) (request : PushedAuthorizationRequest)
| ConsentRequest (request_uri client_id : option string)
| DecisionRequest (decision : Decision)
| CodeOrOfferRequest (headers : HeaderMap) (request : TokenRequest)
| NonceRequest
| OfferRequest (credential_configuration_id : option string)
| CredentialCall (headers : HeaderMap) (request : CredentialRequest).

(** The handler of a request over the storage alone, within the server. *)
Definition over_storage (p : prog IssuerF (res Response Response)) : prog CredentialF (res Response (option Response)) :=
  pmap_err Some (embed p).

(** The routes of [issuer_router]. *)
Definition serve (fuel : nat) (state : AppState) (request : IssuerRequest)
    : prog CredentialF (res Response (option Response)) :=
  match request with
  | ParRequest headers request => over_storage (par_endpoint state headers request)
  | ConsentRequest request_uri client_id => over_storage (authorize_endpoint state request_uri client_id)
  | DecisionRequest decision => over_storage (authorize_decision state decision)
  | CodeOrOfferRequest headers request => over_storage (token_endpoint state headers request)
  | NonceRequest => over_storage nonce_endpoint
  | OfferRequest config => over_storage (credential_offer_endpoint state config)
  | CredentialCall headers request => credential_endpoint fuel state headers request
  end.

(** The calls within the contract of the storage that store a session under its
    own request URI. *)
Definition server_keyed X (e : CredentialF X) : Prop :=
  match e with inlE _ => True | inrE (inlE e) => keeps_keyed X (inrE e) | inrE (inrE _) => True end.

Lemma server_keyed_allowed X (e : CredentialF X) : server_keyed X e -> server_allowed X e.
Proof. destruct e as [e|[e|e]]; [done| |done]. by intros [? _]. Qed.

Lemma over_storage_calls p : calls_in keeps_keyed p -> calls_in server_keyed (over_storage p).
Proof.
  intros Hp. apply calls_in_map_err, calls_in_embed. eapply calls_in_mono; [|exact Hp]. by intros X [e|e].
Qed.

Lemma credential_endpoint_calls fuel state headers request :
  calls_in server_keyed (credential_endpoint fuel state headers request).
Proof.
  unfold credential_endpoint. apply calls_in_bind_res.
  { apply calls_in_map_err, calls_in_embed. eapply calls_in_mono; [|apply authorize_resource_keyed]. by intros X [e|e]. }
  intros token. apply calls_in_bind_res; [constructor|]. intros u. apply calls_in_bind_res; [constructor|]. intros u'.
  apply calls_in_bind_res; [|constructor]. apply calls_in_map_err, credential_request_calls; [done..|].
  split; [|intros signer [= <-]]; cbn; unfold allocate_status, allocate_mdoc_status; solve_calls.
Qed.

Lemma serve_calls fuel state request : calls_in server_keyed (serve fuel state request).
Proof.
  destruct request; simpl; try apply over_storage_calls.
  - apply par_endpoint_calls.
  - apply authorize_endpoint_calls.
  - apply decision_keyed.
  - apply token_endpoint_keyed.
  - apply nonce_endpoint_calls.
  - apply offer_endpoint_calls.
  - apply credential_endpoint_calls.
Qed.

Lemma serve_allowed fuel state request : calls_in server_allowed (serve fuel state request).
Proof. eapply calls_in_mono; [apply server_keyed_allowed|apply serve_calls]. Qed.
End Serve.

(** ** The sessions, whatever is served at once *)
Section AssuresBind.
Context {E : Type -> Type} {W : Type} (R : W -> W -> Prop) (P : forall X, E X -> W -> Prop) (h : handler E W).

Lemma assures_any {A} (Q : A -> W -> Prop) (p : prog E A) w : (forall a v, Q a v) -> assures R P h Q p w.
Proof. intros HQ. revert w. induction p; simpl; auto. Qed.

Lemma assures_bind {A B} (Q : B -> W -> Prop) (p : prog E A) (f : A -> prog E B) w :
  assures R P h (fun a v => assures R P h Q (f a) v) p w -> assures R P h Q (pbind p f) w.
Proof. revert w. induction p; simpl; auto. Qed.

Lemma assures_bind_res {A B Er} (Q : res B Er -> W -> Prop) (p : prog E (res A Er)) (f : A -> prog E (res B Er)) w :
  (forall e v, Q (Err e) v) -> (forall v, Q Panic v) ->
  assures R P h (fun r v => forall a, r = Ok a -> assures R P h Q (f a) v) p w ->
  assures R P h Q (pbind_res p f) w.
Proof.
  intros He Hp Ha. apply assures_bind. revert w Ha. induction p as [[a|e|]|X e k IH]; simpl; intros w Ha; auto.
Qed.

Lemma assures_map_err {A Er Er'} (Q : res A Er' -> W -> Prop) (g : Er -> Er') (p : prog E (res A Er)) w :
  assures R P h (fun r => Q (map_err g r)) p w -> assures R P h Q (pmap_err g p) w.
Proof. intros Hp. apply assures_bind. exact Hp. Qed.
End AssuresBind.

Section Sessions.
Context `{Sha2} `{Base64Url} `{Base64Std} `{P256} `{Ed25519} `{HeaderSerde} `{SerdeJson} `{ClaimsSerde}.
Context `{CH : Chrono} `{CHL : !ChronoLaws CH} `{U : UrlApi} `{CT : CosetTypes} `{!Coset} `{Ciborium} `{DebugStr}.
Context `{X509Api} `{Profile} `{Assets} `{HI : HashIter} `{HttpApi} `{!OfferSerde}.

(** A session without what redeeming it adds: its code and whether that was
    used. *)
Definition as_pushed (ses : AuthorizationSession) : AuthorizationSession := {|
  ses_request_uri := ses_request_uri ses;
  ses_authorization_code := None;
  ses_code_challenge := ses_code_challenge ses;
  ses_client_id := ses_client_id ses;
  ses_redirect_uri := ses_redirect_uri ses;
  ses_credential_configuration_ids := ses_credential_configuration_ids ses;
  ses_via_authorization_details := ses_via_authorization_details ses;
  ses_issuer_state := ses_issuer_state ses;
  ses_client_state := ses_client_state ses;
  ses_created_at := ses_created_at ses;
  ses_code_issued_at := None;
  ses_dpop_jkt := ses_dpop_jkt ses;
  ses_consumed := false |}.

(** Every session of [s] is one of [s'], as it was pushed. *)
Definition sessions_kept (s s' : IssuerStore) : Prop :=
  forall uri ses, auth_sessions s !! uri = Some ses ->
  exists ses', auth_sessions s' !! uri = Some ses' /\ as_pushed ses' = as_pushed ses.

#[local] Instance sessions_kept_preorder : PreOrder sessions_kept.
Proof.
  split; [intros s uri ses Hs; eauto|]. intros s1 s2 s3 Ha Hb uri ses Hs.
  destruct (Ha _ _ Hs) as (ses2 & Hs2 & He2), (Hb _ _ Hs2) as (ses3 & Hs3 & He3).
  exists ses3. split; [done|congruence].
Qed.

Definition kept (v v' : World (IssuerStore * Manager.StatusManager)) : Prop := sessions_kept (store v).1 (store v').1.
#[local] Instance kept_preorder : PreOrder kept.
Proof. split; [intros v; unfold kept; reflexivity|]. intros v1 v2 v3. unfold kept. apply transitivity. Qed.

(** No request URI is stored a second time: they are new UUIDs. *)
Definition new_uris X (e : CredentialF X) (w : World (InMemoryIssuerState * Manager.StatusManager)) : Prop :=
  match e with
  | inrE (inlE (StoreAuthorizationSession uri _)) => inner (sessions (store w).1) !! uri = None
  | _ => True
  end.

(** The same over the abstract storage, and the calls keyed. *)
Definition keyed_and_new X (e : CredentialF X) (v : World (IssuerStore * Manager.StatusManager)) : Prop :=
  server_keyed X e /\
  match e with
  | inrE (inlE (StoreAuthorizationSession uri _)) => auth_sessions (store v).1 !! uri = None
  | _ => True
  end.

Lemma kept_step status X (e : CredentialF X) v : keyed_and_new X e v -> kept v (spec_handler status X e v).2.
Proof.
  destruct v as [sv [s m]]. intros [_ He]. unfold kept. destruct e as [e|[e|e]]; simpl.
  - by destruct (handle_sys e sv).
  - destruct e; simpl in *; repeat case_match; simplify_eq/=; intros u ses' Hs; simpl;
      try (by exists ses').
    + exists ses'. split; [|done]. rewrite lookup_insert_ne; [done|]. intros ->. congruence.
    + destruct (decide (u = request_uri)) as [->|Hne]; [|exists ses'; by rewrite lookup_insert_ne].
      simplify_eq. eexists. split; [apply lookup_insert_eq|done].
    + destruct (decide (u = s0)) as [->|Hne]; [|exists ses'; by rewrite lookup_alter_ne].
      rewrite lookup_alter_eq, Hs. by eexists.
  - by destruct (status X e m).
Qed.

(** The session an answered push has stored. *)
Definition pushed_as (state : AppState) (request : PushedAuthorizationRequest) (response : Response)
    (s : IssuerStore) : Prop :=
  exists ctx jkt ids via uri now ses,
    par_accepts request ctx (app_metadata state) jkt ids via /\
    response = no_store (json_response 201 (ParDoc (mkPushedAuthorizationResponse uri 60))) /\
    auth_sessions s !! uri = Some ses /\ as_pushed ses = par_session request uri ids via now jkt.

Lemma pushed_as_kept state request response s s' :
  sessions_kept s s' -> pushed_as state request response s -> pushed_as state request response s'.
Proof.
  intros Hk (ctx & jkt & ids & via & uri & now & ses & Ha & Hr & Hs & Hp).
  destruct (Hk _ _ Hs) as (ses' & Hs' & He). exists ctx, jkt, ids, via, uri, now, ses'.
  repeat (split; [done|]). congruence.
Qed.

(** What a request that was answered has left in the storage. *)
Definition session_left (state : AppState) (request : IssuerRequest) (r : res Response (option Response))
    (s : IssuerStore) : Prop :=
  match request, r with
  | ParRequest _ request, Ok response => pushed_as state request response s
  | _, _ => True
  end.

Lemma par_assures status state headers request v :
  assures kept keyed_and_new (spec_handler status) (fun r v => session_left state (ParRequest headers request) r (store v).1)
    (over_storage (par_endpoint state headers request)) v.
Proof.
  apply assures_map_err, assures_embed. unfold par_endpoint.
  apply assures_bind_res; [done..|]. apply assures_any. intros r1 v1 client _.
  apply assures_bind_res; [done..|]. destruct client as [client|]; [|done]. intros a [= <-].
  apply assures_bind_res; [done..|]. apply assures_map_err, assures_any. intros r2 v2 jkt _.
  apply assures_bind_res; [done..|]. apply assures_map_err. unfold process_par.
  pose proof (par_checks_Ok request (mkParContext (atc_client_id client) jkt) (app_metadata state)) as Hc.
  destruct (par_checks _ _ _) as [[bound [ids via]]|e|]; [|done..].
  intros v3 _ _. destruct v3 as [s3 st3]. simpl. intros v4 _ _. destruct v4 as [s4 st4]. simpl.
  intros v5 _ _. destruct v5 as [s5 [st5 m5]]. simpl. intros a [= <-]. simpl.
  do 7 eexists. split; [by apply Hc|]. split; [done|]. split; [apply lookup_insert_eq|done].
Qed.

Lemma serve_assures fuel status state request v :
  assures kept keyed_and_new (spec_handler status) (fun r v => session_left state request r (store v).1)
    (serve fuel state request) v.
Proof. destruct request; [apply par_assures|by apply assures_any..]. Qed.

Lemma well_formed_step status X (e : CredentialF X) (v : World (IssuerStore * Manager.StatusManager)) :
  keyed_and_new X e v -> sessions_well_formed (store v).1 -> sessions_well_formed (store (spec_handler status X e v).2).1.
Proof.
  destruct v as [sv [s m]]. intros [Hk _] Hwf. destruct e as [e|[e|e]].
  - pose proof (keyed_step X (inlE e) (mkWorld sv s)) as Hstep. simpl in *. destruct (handle_sys e sv). by apply Hstep.
  - pose proof (keyed_step X (inrE e) (mkWorld sv s) Hk Hwf) as Hstep. simpl in *. by destruct (Spec.backend X e _ s).
  - simpl. by destruct (status X e m).
Qed.

Lemma new_uris_refine X (e : CredentialF X) w v :
  server_refines w v -> server_keyed X e /\ new_uris X e w -> server_allowed X e /\ keyed_and_new X e v.
Proof.
  intros [(_ & _ & _ & Hr) _] [Hk Hn]. split; [by apply server_keyed_allowed|]. split; [done|].
  pose proof (r_sessions _ _ _ Hr) as Hs. simpl in Hs.
  destruct e as [e|[e|e]]; try done. destruct e; try done. simpl in *. by rewrite Hs in Hn.
Qed.

(** C35: The issuer's sessions.  However the requests to the issuer, those for
    credentials included, interleave, call by call, and as long as no request
    URI is stored twice (the server draws them as new UUIDs): the storage
    behaves as the abstract one; every session that was stored before is still
    stored, and so is the session of every pushed request that was answered,
    under the request URI of the answer and with the client, redirect URI,
    challenge, configurations, state and DPoP key of the request; only its code
    and whether that was consumed ever change.  Every session stays under its
    own request URI, and every authorization code belongs to a stored
    session. *)
Theorem pushed_sessions_kept fuel state status requests w v ps w' :
  server_refines w v -> sessions_well_formed (store v).1 ->
  csteps_where new_uris (server_handler status) (map (serve fuel state) requests, w) (ps, w') ->
  exists v', server_refines w' v' /\ sessions_well_formed (store v').1 /\
    sessions_kept (store v).1 (store v').1 /\
    Forall2 (fun request p => forall r, p = Ret r -> session_left state request r (store v').1) requests ps.
Proof.
  intros Hw Hwf Hc.
  assert (Hcalls : Forall (calls_in server_keyed) (map (serve fuel state) requests)).
  { apply Forall_map, list.Forall_forall. intros request _. apply serve_calls. }
  apply (csteps_where_and server_keyed new_uris _ (map (serve fuel state) requests, w) (ps, w') Hcalls) in Hc.
  destruct (csteps_where_simulates server_refines server_allowed _ keyed_and_new _ (spec_handler status) _ _
    (server_simulates status) new_uris_refine Hc v Hw)
    as (v' & Hv & Hw').
  exists v'. split; [done|]. split.
  { exact (csteps_where_invariant (fun v => sessions_well_formed (store v).1) _ _ _ _ (well_formed_step status) Hv Hwf). }
  destruct (csteps_where_assures kept keyed_and_new (spec_handler status) (kept_step status)
    (map (fun request r v => session_left state request r (store v).1) requests) _ _
    ltac:(apply Forall_map, list.Forall_forall; intros request _ r v1 v2 Hk;
      destruct request, r; try done; by apply pushed_as_kept) Hv) as [Hkept Hend].
  { clear. simpl. induction requests as [|request requests IH]; constructor; [apply serve_assures|exact IH]. }
  split; [done|]. simpl in Hend. apply Forall2_fmap_l in Hend. eapply Forall2_impl; [exact Hend|].
  intros request p Hp r ->. exact Hp.
Qed.
End Sessions.
