(* ===== verification/IssuerAnswers.v ===== *)
(** * Every request to the issuer is answered

    What the issuer's routes answer, request by request: the status codes and
    the documents of the answers, and that they do not panic, whatever other
    requests are served at the same time. *)
From S2P Require Import Prelude Externals Strings Effects Json Keys Jws SdJwt X509 Cbor Cose Mdoc MdocFlow Oid4vci IssuerState IssuerStateSpec.
From S2P Require Import StatusManager Errors Authorization Token Dpop ClientAttestation Metadata Offer Credential CredentialSpec CredentialIssuance.
From S2P Require Import CredentialServing Http ServerState IssuerRoutes RequestAuth IssuerRoutesSpec IssuerServer.

(** What the storage answers: only one call of it can fail. *)
Definition issuer_answer X (e : IssuerF X) : X -> Prop :=
  match e with
  | inlE _ => fun _ => True
  | inrE e =>
      match e in IssuerStateE X return X -> Prop with
      | SetAuthorizationCode _ _ => fun x => x <> Panic
      | StoreAuthorizationSession _ _ | ConsumeAuthorizationCode _ | RecordTokenForCode _ _ | RevokeTokensForCode _
      | StorePreAuthorizedCode _ _ _ | StoreAccessToken _ _ _ | StoreCNonce _ _ => fun x => x = Ok tt
      | GetAuthorizationSession _ | GetSessionByCode _ => fun x => exists o, x = Ok o
      | RedeemPreAuthorizedCode _ _ => fun x => exists o, x = Ok o
      | GetAccessGrant _ => fun x => exists o, x = Ok o
      | RecordJti _ _ | ConsumeCNonce _ => fun x => exists b, x = Ok b
      end
  end.

Lemma spec_answers X (e : IssuerF X) v : issuer_answer X e (Spec.handler X e v).1.
Proof.
  destruct v as [sv s]. destruct e as [e|e]; simpl; [done|]. destruct e; simpl; repeat case_match; simplify_eq/=; eauto; done.
Qed.

#[local] Hint Resolve dpop_claims_np dpop_fresh_np par_checks_np check_attestation_np check_pop_np : no_panic.

(** A function that does not panic did not. *)
Ltac np_absurd :=
  match goal with E : ?x = Panic |- _ => exfalso; revert E; change (x <> Panic); solve_np end.

(** Splits a goal about the outcomes of a program along the program. *)
Ltac answer_step :=
  first
    [ progress intros | done | exact Logic.I | np_absurd
    | match goal with
      | |- outcomes _ _ (pbind_res _ _) => apply outcomes_bind_res
      | |- outcomes _ _ (pmap_err _ _) => apply outcomes_map_err
      | |- outcomes _ _ (pbind _ _) => apply outcomes_bind
      | H : exists _, ?x = Ok _ |- _ => destruct H as [? ->]
      | H : ?x = Ok tt |- _ => is_var x; subst x
      | |- context [ok_or ?o _] => destruct o eqn:?; cbn [ok_or]
      end
    | progress cbn
    | match goal with
      | |- match ?c with _ => _ end => destruct c eqn:?
      | |- on_res _ _ (match ?c with _ => _ end) => destruct c eqn:?
      | |- on_res _ _ ?r => destruct r eqn:?
      | |- outcomes _ _ (match ?x with _ => _ end) => destruct x eqn:?
      end ].
Ltac solve_answers := repeat answer_step.

(** ** What is answered *)
Section Shapes.
Context `{U : UrlApi} `{HttpApi}.

(** A JSON answer with one of these statuses and documents, and an answer that
    is no JSON: a page or a redirect. *)
Definition json_with (statuses : list Z) (documents : JsonDoc -> Prop) (r : Response) : Prop :=
  rs_status r ∈ statuses /\ exists doc, rs_body r = JsonBody doc /\ documents doc.
Definition page_with (statuses : list Z) (r : Response) : Prop :=
  rs_status r ∈ statuses /\ match rs_body r with HtmlBody _ | RedirectBody _ => True | _ => False end.

Definition error_doc (doc : JsonDoc) : Prop :=
  exists code description, doc = ErrorDoc (mkErrorResponse code (Some description) None None).
Definition par_doc (doc : JsonDoc) : Prop :=
  exists uri, doc = ParDoc (mkPushedAuthorizationResponse uri 60).
Definition token_doc (doc : JsonDoc) : Prop :=
  exists token kind details, doc = TokenDoc (mkTokenResponse token kind ACCESS_TOKEN_TTL_SECS details).
Definition nonce_doc (doc : JsonDoc) : Prop := exists nonce, doc = NonceDoc (mkNonceResponse nonce).
Definition offer_doc (config_id : string) (doc : JsonDoc) : Prop :=
  exists issuer issuer_state code uri, doc = OfferDoc (mkCredentialOffer issuer [config_id]
    (Some (mkGrants (Some (mkAuthorizationCodeGrant (Some issuer_state) None))
      (Some (mkPreAuthorizedCodeGrant code None))))) uri.
Definition credential_doc (doc : JsonDoc) : Prop :=
  exists credentials : list string, doc = CredentialDoc
    (mkCredentialResponse (Some (map (fun c => mkIssuedCredential (VString c)) credentials)) None None None).

Abbreviation refused statuses := (json_with statuses error_doc).

Lemma json_error_refused statuses status code description :
  status ∈ statuses -> refused statuses (json_error status code description).
Proof. intros Hs. split; [done|]. eexists. split; [done|]. by do 2 eexists. Qed.

Lemma json_with_mono (statuses statuses' : list Z) documents r :
  statuses ⊆ statuses' -> json_with statuses documents r -> json_with statuses' documents r.
Proof. intros Hs [? ?]. split; [by apply Hs|done]. Qed.

(** What a request may be answered with.  [Err None] is no answer of the code:
    the loop that draws the digest ids of an mDL used up its fuel. *)
Definition answers_to (request : IssuerRequest) (r : res Response (option Response)) : Prop :=
  match r with
  | Ok response =>
      match request with
      | ParRequest _ _ => json_with [201] par_doc response
      | ConsentRequest _ _ => page_with [200] response
      | DecisionRequest _ => page_with [303] response
      | CodeOrOfferRequest _ _ => json_with [200] token_doc response
      | NonceRequest => json_with [200] nonce_doc response
      | OfferRequest config => json_with [200] (offer_doc (default "IdentityCredential_SD_JWT_VC"%string config)) response
      | CredentialCall _ _ => json_with [200] credential_doc response
      end
  | Err (Some response) =>
      match request with
      | ParRequest _ _ | CodeOrOfferRequest _ _ => refused [400; 401] response
      | ConsentRequest _ _ | DecisionRequest _ => page_with [303; 400] response
      | NonceRequest => False
      | OfferRequest _ => refused [400] response
      | CredentialCall _ _ => refused [400; 401; 500] response
      end
  | Err None => match request with CredentialCall _ _ => True | _ => False end
  | Panic => False
  end.
End Shapes.

Abbreviation refused statuses := (json_with statuses error_doc).

(** ** The endpoints over the storage *)
Section Answers.
Context `{Sha2} `{Base64Url} `{Base64Std} `{P256} `{Ed25519} `{HeaderSerde} `{SerdeJson} `{ClaimsSerde}.
Context `{CH : Chrono} `{CHL : !ChronoLaws CH} `{UrlApi} `{Profile} `{HttpApi} `{!OfferSerde}.

Definition whatever {A} (_ : A) : Prop := True.

Abbreviation answers ok err p := (outcomes issuer_answer (on_res ok err) p).

Lemma dpop_answers proof ctx : answers whatever whatever (verify_dpop_proof proof ctx).
Proof. unfold verify_dpop_proof. solve_answers. Qed.

Lemma dpop_jkt_answers state headers path token :
  (exists htu, url_join (app_external_url state) path = inl htu) ->
  answers whatever whatever (dpop_jkt state headers path token).
Proof.
  intros [htu Hu]. unfold dpop_jkt. destruct (headers_get_all headers "dpop") as [|value [|]]; [done| |done].
  apply outcomes_bind_res. destruct (header_to_str value); cbn; [|done]. unfold url_for. rewrite Hu. cbn.
  apply outcomes_bind_res, outcomes_map_err. eapply outcomes_mono; [|apply dpop_answers]. by intros [].
Qed.

Ltac listed := repeat (apply list_elem_of_here || apply list_elem_of_further).
Ltac error := apply json_error_refused; listed.

Lemma attested_answers state headers :
  overflow_checks = false -> answers whatever (refused [401]) (attested_client state headers).
Proof.
  intros Ho. unfold attested_client.
  destruct (header_str headers "oauth-client-attestation"), (header_str headers "oauth-client-attestation-pop");
    [|error..|done]. apply outcomes_bind_res, outcomes_map_err.
  unfold verify_client_attestation. solve_answers; error.
Qed.

Lemma par_answers state headers request :
  overflow_checks = false -> (exists htu, url_join (app_external_url state) "/authorize/par" = inl htu) ->
  answers (json_with [201] par_doc) (refused [400; 401]) (par_endpoint state headers request).
Proof.
  intros Ho Hp. unfold par_endpoint. apply outcomes_bind_res.
  eapply outcomes_mono; [|by apply attested_answers].
  intros [client|r|]; cbn; [|apply json_with_mono; set_solver|done]. intros _.
  destruct client as [client|]; cbn; [|error].
  apply outcomes_bind_res, outcomes_map_err. eapply outcomes_mono; [|by apply dpop_jkt_answers].
  intros [jkt|e|]; cbn; [|intros _; error|done]. intros _. unfold process_par.
  solve_answers; try error. split; [listed|]. eexists. split; [done|]. by eexists.
Qed.

Lemma resolve_answers uri client_id : answers whatever whatever (resolve_request_uri uri client_id).
Proof. unfold resolve_request_uri. solve_answers. Qed.

Lemma error_page_answer code description : page_with [303; 400] (error_page code description).
Proof. split; [listed|done]. Qed.

Lemma request_uri_error_answer state e : page_with [303; 400] (request_uri_error state e).
Proof.
  destruct e as [reason|ses reason]; simpl; [apply error_page_answer|].
  destruct (url_parse _); [split; [listed|done]|apply error_page_answer].
Qed.

Lemma consent_answers state request_uri client_id :
  answers (page_with [200]) (page_with [303; 400]) (authorize_endpoint state request_uri client_id).
Proof.
  unfold authorize_endpoint. apply outcomes_bind_res, outcomes_map_err. eapply outcomes_mono; [|apply resolve_answers].
  intros [ses|e|]; cbn [on_res]; [|intros _; apply request_uri_error_answer|done]. intros _. split; [listed|done].
Qed.

Lemma decision_answers state decision :
  answers (page_with [303]) (page_with [303; 400]) (authorize_decision state decision).
Proof.
  unfold authorize_decision. apply outcomes_bind_res, outcomes_map_err. eapply outcomes_mono; [|apply resolve_answers].
  intros [ses|e|]; cbn [on_res]; [|intros _; apply request_uri_error_answer|done]. intros _.
  apply outcomes_bind_res.
  destruct (url_parse _) as [redirect|e]; cbn [on_res outcomes from_ext map_err]; [|apply error_page_answer].
  assert (Hr : forall pairs, page_with [303] (redirect_to (url_as_str (append_pairs redirect pairs)))).
  { intros pairs. split; [listed|done]. }
  apply outcomes_bind_res. unfold decision_pairs. destruct (bool_decide _); [|apply Hr].
  apply outcomes_bind_res, outcomes_map_err. unfold generate_authorization_code. apply outcomes_bind. intros code _.
  apply outcomes_bind_res, outcomes_map_err. intros [x|e|] Hx; [apply Hr|apply error_page_answer|done].
Qed.

(** The reply of the token endpoint. *)
Definition token_reply (r : TokenResponse) : Prop :=
  exists token kind details, r = mkTokenResponse token kind ACCESS_TOKEN_TTL_SECS details.

Lemma issue_answers ids via jkt : answers token_reply (fun _ => False) (issue_access_token ids via jkt).
Proof.
  assert (Hm : forall m, outcomes issuer_answer whatever (mint_identifiers ids m)).
  { induction ids as [|id ids IH]; intros m; simpl; [done|]. intros uuid _. apply outcomes_bind.
    eapply outcomes_mono; [|apply IH]. done. }
  unfold issue_access_token. destruct via; cbn -[mint_identifiers]; intros token _.
  - apply outcomes_bind, outcomes_bind. eapply outcomes_mono; [|apply Hm]. intros m _. solve_answers; by do 3 eexists.
  - solve_answers; by do 3 eexists.
Qed.

Definition client_error (e : TokenError) : Prop := (status_and_code e).1 = 400 \/ (status_and_code e).1 = 401.

Lemma code_checks_answers request ctx client_id ses : on_res whatever client_error (code_checks request ctx client_id ses).
Proof. unfold code_checks. repeat ((case_match; [by left|]) || (solve_answers; try by left)). Qed.

Lemma code_checks_np request ctx client_id ses : code_checks request ctx client_id ses <> Panic.
Proof. intros Hp. pose proof (code_checks_answers request ctx client_id ses) as Hc. by rewrite Hp in Hc. Qed.
#[local] Hint Resolve code_checks_np : no_panic.

Lemma token_answers request ctx : answers token_reply client_error (process_token_request request ctx).
Proof.
  Opaque issue_access_token code_checks.
  unfold process_token_request, process_authorization_code_grant, process_pre_authorized_code_grant.
  solve_answers; try (first [by left | by right]);
    try (eapply outcomes_mono; [|apply issue_answers]; intros [reply|e|]; solve_answers).
  all: match goal with E : code_checks ?r ?c ?i ?s = Err _ |- _ => pose proof (code_checks_answers r c i s) as Hc; by rewrite E in Hc end.
Qed.

Lemma token_endpoint_answers state headers request :
  overflow_checks = false -> (exists htu, url_join (app_external_url state) "/token" = inl htu) ->
  answers (json_with [200] token_doc) (refused [400; 401]) (token_endpoint state headers request).
Proof.
  intros Ho Hp. unfold token_endpoint. apply outcomes_bind_res.
  eapply outcomes_mono; [|by apply attested_answers].
  intros [client|r|]; cbn [on_res]; [|apply json_with_mono; set_solver|done]. intros _.
  apply outcomes_bind_res, outcomes_map_err. eapply outcomes_mono; [|by apply dpop_jkt_answers].
  intros [jkt|e|]; cbn [on_res]; [|intros _; error|done]. intros _. apply outcomes_bind_res, outcomes_map_err.
  eapply outcomes_mono; [|apply token_answers]. intros [reply|e|]; cbn [on_res]; [| |done].
  - intros (token & kind & details & ->). split; [listed|]. eexists. split; [done|]. by do 3 eexists.
  - intros He. unfold client_error in He. destruct (status_and_code e) as [status code]. cbn in He.
    apply json_error_refused. destruct He as [-> | ->]; listed.
Qed.

Lemma nonce_answers : answers (json_with [200] nonce_doc) (fun _ => False) nonce_endpoint.
Proof. unfold nonce_endpoint. solve_answers. split; [listed|]. eexists. split; [done|]. by eexists. Qed.

Lemma offer_answers state config :
  answers (json_with [200] (offer_doc (default "IdentityCredential_SD_JWT_VC"%string config))) (refused [400])
    (credential_offer_endpoint state config).
Proof.
  unfold credential_offer_endpoint, create_offer.
  destruct (negb _); cbn -[encode_offer_uri]; [error|]. intros u _ c _ x ->. cbn -[encode_offer_uri].
  split; [listed|]. eexists. split; [done|]. by do 4 eexists.
Qed.

Lemma unauthorized_refused scheme code description : refused [401] (unauthorized scheme code description).
Proof.
  unfold unauthorized. destruct (header_from_str _); (split; [listed|]; eexists; split; [done|]; by do 2 eexists).
Qed.

Lemma resource_answers state headers path :
  (exists htu, url_join (app_external_url state) path = inl htu) ->
  answers whatever (refused [401]) (authorize_resource state headers path).
Proof.
  intros Hp. unfold authorize_resource. destruct (authorization_parts headers) as [scheme token].
  destruct (_ || _); [apply unauthorized_refused|]. apply outcomes_bind_res, outcomes_map_err. intros x [found ->].
  cbn [on_res outcomes]. apply outcomes_bind_res. destruct found as [grant|]; cbn; [|apply unauthorized_refused].
  unfold use_token. destruct (ag_dpop_jkt grant), (eq_ignore_ascii_case scheme "DPoP");
    try (cbn; (done || apply unauthorized_refused)).
  apply outcomes_bind_res, outcomes_map_err. eapply outcomes_mono; [|by apply dpop_jkt_answers].
  intros [jkt|e|]; cbn; [|intros _; apply unauthorized_refused|done]. intros _.
  destruct jkt; cbn; [|apply unauthorized_refused]. destruct (bool_decide _); cbn; [apply unauthorized_refused|done].
Qed.
End Answers.

(** ** The credential endpoint *)
Section CredentialAnswers.
Context `{S2 : Sha2} `{B64 : Base64Url} `{B64S : Base64Std} `{P : P256} `{D : Ed25519} `{HS : HeaderSerde}.
Context `{J : SerdeJson} `{JL : !SerdeJsonLaws J} `{CS : ClaimsSerde} `{UA : UrlApi}.
Context `{CT : CosetTypes} `{K : !Coset} `{CB : Ciborium} `{KL : !CosetLaws K CB} `{DS : DebugStr} `{XA : X509Api}.
Context `{PR : Profile} `{AS : Assets} `{HI : HashIter} `{HIL : !HashIterLaws HI} `{HA : HttpApi} `{!OfferSerde}.
Context `{CH : Chrono} `{CHL : !ChronoLaws CH}.

(** The instants the clock shows. *)
Definition in_clock (t : DateTime) : Prop := 0 <= t <= 1000000000000 * NANOS.

(** What the calls answer: the clock is in its range, and the manager does not
    panic. *)
Definition server_answer X (e : CredentialF X) : X -> Prop :=
  match e with
  | inlE e => match e in SysE X return X -> Prop with UtcNow => in_clock | _ => fun _ => True end
  | inrE (inlE e) => issuer_answer X (inrE e)
  | inrE (inrE e) =>
      match e in StatusE X return X -> Prop with
      | AllocateEntry _ => fun x => x <> Panic
      | AllocateMdocIndex => fun x => x <> Panic
      end
  end.

Abbreviation answers ok err p := (outcomes server_answer (on_res ok err) p).

(** The URLs of the entries of a manager. *)
Definition manager_urls (m : Manager.StatusManager) : Prop :=
  forall p index, exists entry, Manager.entry_for m p index = Ok entry.

Lemma entry_for_url m m' : Manager.issuer_url m' = Manager.issuer_url m -> manager_urls m -> manager_urls m'.
Proof. intros Hu Hm p index. destruct (Hm p index) as [entry He]. exists entry. rewrite <- He. unfold Manager.entry_for, Manager.join. by rewrite Hu. Qed.

Lemma allocate_entry_answer m p draws r m' rest :
  manager_urls m -> Manager.allocate_entry m p draws = Some (r, m', rest) -> r <> Panic /\ manager_urls m'.
Proof.
  intros Hm. unfold Manager.allocate_entry. destruct (poisoned _); [by intros [= <- <- <-]|].
  destruct (inner (Manager.lists m) !! _) as [l|]; [|by intros [= <- <- <-]].
  destruct (Manager.draw_index _ _ _) as [[[i a] ds]|] eqn:Hd; simpl; [|done].
  assert (Hi : i <> Panic).
  { unfold Manager.draw_index in Hd. destruct (_ <=? _); [by simplify_eq|].
    destruct (Manager.draw_loop _ _ _) as [[j ds']|]; simpl in Hd; by simplify_eq. }
  destruct i as [i|e|]; [| |done].
  - destruct (Hm p i) as [entry ->]. intros [= <- <- <-]. split; [done|]. by apply (entry_for_url m).
  - intros [= <- <- <-]. split; [done|]. by apply (entry_for_url m).
Qed.

Lemma allocate_mdoc_answer m draws r m' rest :
  manager_urls m -> Manager.allocate_mdoc_index m draws = Some (r, m', rest) -> r <> Panic /\ manager_urls m'.
Proof.
  intros Hm. unfold Manager.allocate_mdoc_index. destruct (poisoned _); [by intros [= <- <- <-]|].
  destruct (Manager.draw_index _ _ _) as [[[i a] ds]|] eqn:Hd; simpl; [|done]. intros [= <- <- <-].
  split; [|by apply (entry_for_url m)].
  unfold Manager.draw_index in Hd. destruct (_ <=? _); [by simplify_eq|].
  destruct (Manager.draw_loop _ _ _) as [[j ds']|]; simpl in Hd; by simplify_eq.
Qed.

(** In every world of a run. *)
Definition in_order_world (v : World (IssuerStore * Manager.StatusManager)) : Prop :=
  clock_in_range (sys v) /\ manager_urls (store v).2.

Lemma server_answers status X (e : CredentialF X) v :
  draws_indices status -> in_order_world v ->
  server_answer X e (spec_handler status X e v).1 /\ in_order_world (spec_handler status X e v).2.
Proof.
  destruct v as [sv [s m]]. intros Hd [Hc Hm]. unfold in_order_world. destruct e as [e|[e|e]].
  - destruct e; simpl; (split; [first [apply Hc|done]|done]).
  - pose proof (spec_answers X (inrE e) (mkWorld sv s)) as Ha. simpl in *.
    by destruct (Spec.backend X e _ s).
  - specialize (Hd X e m). destruct e as [p|]; simpl in *; destruct (status _ _ m) as [r m'];
      destruct Hd as (draws & rest & Hd).
    + destruct (allocate_entry_answer _ _ _ _ _ _ Hm Hd). done.
    + destruct (allocate_mdoc_answer _ _ _ _ _ Hm Hd). done.
Qed.

(** *** What issuing needs not to panic *)
Lemma sign_compact_np key header payload : KeyPairLaws key -> sign_compact key header payload <> Panic.
Proof. intros HL. pose proof (@kp_sign_no_panic _ _ _ _ _ HL). unfold sign_compact. solve_np; auto. Qed.

Lemma disclosures_answer {Er} entries :
  Forall (fun e => fits 126 e.2 = true) entries ->
  answers whatever whatever (make_disclosures (F := CredentialF) (E := Er) entries).
Proof.
  induction 1 as [|[name value] entries He _ IH]; [done|]. cbn [make_disclosures]. apply outcomes_bind_res.
  unfold disclosure_new, random_bytes. intros salt _. cbn -[value_to_vec].
  destruct (value_to_vec_total (VArray [VString (b64url_encode salt); VString name; value])) as [b ->].
  { rewrite (fits_array 126). cbn [forallb]. change (fits 126 value = true) in He. by rewrite !fits_string, He. }
  cbn. apply outcomes_bind_res. eapply outcomes_mono; [|exact IH]. by intros [].
Qed.

(** A credential that was issued is a string. *)
Definition is_string (v : Value) : Prop := exists s, v = VString s.

Lemma sd_jwt_answers config ctx key :
  KeyPairLaws (ic_issuer_key ctx) -> answers whatever whatever (ic_allocate_status ctx) ->
  answers is_string whatever (issue_sd_jwt_credential config ctx key).
Proof.
  intros HL Hs. unfold issue_sd_jwt_credential. apply outcomes_bind_res. destruct (cc_vct config); cbn; [|done].
  apply outcomes_bind_res, outcomes_map_err. eapply outcomes_mono; [|exact Hs]. intros [status|e|]; cbn; [|done..]. intros _.
  apply outcomes_bind_res, outcomes_map_err. unfold issue_sd_jwt_vc_with_x5c. apply outcomes_bind_res.
  eapply outcomes_mono; [|apply disclosures_answer, demo_claims_fit]. intros [ds|e|]; cbn; [|done..]. intros _ t _.
  pose proof (fun h p => sign_compact_np (ic_issuer_key ctx) h p HL) as Hnp.
  match goal with |- context [sign_compact ?k ?h ?p] => specialize (Hnp h p); destruct (sign_compact k h p) end;
    cbn; [by eexists|done..].
Qed.

(** The dates of a request for an mDL are dates. *)
Definition dated (r : Mdoc.IssueRequest) : Prop :=
  Mdoc.whole_seconds (Mdoc.ir_signed r) <> Panic /\ Mdoc.whole_seconds (Mdoc.ir_valid_from r) <> Panic /\
  Mdoc.whole_seconds (Mdoc.ir_valid_until r) <> Panic.

(** What the calendar and the signer's certificate must be. *)
Record mdl_dates (signer : IssuerCertificate) : Prop := {
  md_birth : exists d, parse_ymd DEMO_BIRTH_DATE = inl d;
  md_months t : in_clock t -> is_Some (add_months (date_naive (start_of_day t)) (5 * 12));
  md_expiry expiry : not_after (E := CredentialError) signer = Ok expiry -> 0 <= expiry;
}.

Lemma whole_seconds_np t : 0 <= t <= 2000000000000 * NANOS -> Mdoc.whole_seconds t <> Panic.
Proof.
  intros Ht. unfold Mdoc.whole_seconds. rewrite timestamp_spec.
  destruct (from_timestamp_total (t / NANOS)) as [u ->]; [|done].
  split; [apply Z.div_pos; unfold NANOS; lia|]. apply Z.div_le_upper_bound; unfold NANOS in *; lia.
Qed.

Lemma start_of_day_in t hi : 0 <= t <= hi -> 0 <= start_of_day t <= hi.
Proof.
  intros Ht. pose proof (start_of_day_bounds t). split; [|lia]. unfold start_of_day.
  rewrite date_naive_spec, midnight_spec. apply Z.mul_nonneg_nonneg; [|done].
  apply Z.div_pos; [lia|]. unfold DAY_NANOS, NANOS. lia.
Qed.

Lemma mdl_request_answers signer doc_type country now key :
  in_clock now -> mdl_dates (ms_certificate signer) -> subject_country (ms_certificate signer) = Some country ->
  answers whatever whatever (ms_allocate_status signer) ->
  answers dated whatever (mdl_request (F := CredentialF) signer doc_type country now key).
Proof.
  intros Hnow [[birth Hb] Hmonths Hexp] Hc Hs. unfold mdl_request.
  pose proof (start_of_day_in now _ Hnow) as Hday. destruct (Hmonths now Hnow) as [expiry He].
  unfold mdl_elements. rewrite Hb, He. cbn -[MSO_VALIDITY_DAYS DAY_SECS].
  destruct (add_seconds_total (start_of_day now) (MSO_VALIDITY_DAYS * DAY_SECS)) as [limit Hlimit];
    [done|unfold MSO_VALIDITY_DAYS, DAY_SECS; lia|].
  rewrite Hlimit. apply add_seconds_spec in Hlimit. change (MSO_VALIDITY_DAYS * DAY_SECS) with 31536000 in Hlimit.
  cbn -[not_after]. destruct (subject_country_parses _ _ Hc) as [last Hlast]. rewrite Hlast. specialize (Hexp _ Hlast).
  cbn. apply outcomes_bind_res, outcomes_map_err. eapply outcomes_mono; [|exact Hs].
  intros [status|e|]; cbn; [|done..]. intros _. unfold dated. cbn.
  assert (Hu : 0 <= start_of_day (Z.min limit last) <= 2000000000000 * NANOS).
  { apply start_of_day_in. unfold NANOS in *. lia. }
  repeat split; apply whole_seconds_np; unfold NANOS in *; lia.
Qed.

Lemma draw_digest_id_answer fuel ids : answers whatever whatever (Mdoc.draw_digest_id (F := CredentialF) fuel ids).
Proof.
  revert ids. induction fuel as [|fuel IH]; intros ids; [done|]. cbn [Mdoc.draw_digest_id]. intros b _. cbn.
  destruct (bool_decide _); [apply IH|done].
Qed.

Lemma issue_elements_answer fuel ids elements :
  answers whatever whatever (Mdoc.issue_elements (F := CredentialF) fuel ids elements).
Proof.
  revert ids. induction elements as [|[i v] es IH]; intros ids; [done|]. cbn [Mdoc.issue_elements].
  apply outcomes_bind_res. eapply outcomes_mono; [|apply draw_digest_id_answer]. intros [id|e|]; cbn [on_res]; [|done..].
  intros _. apply outcomes_bind. intros random _. cbn [pbind outcomes].
  unfold Mdoc.embed, Mdoc.encode. destruct (cbor_encode _); cbn; [|done]. destruct (cbor_encode _); cbn; [|done].
  apply outcomes_bind_res. eapply outcomes_mono; [|apply IH]. by intros [].
Qed.

Lemma issue_namespaces_answer fuel namespaces :
  answers whatever whatever (Mdoc.issue_namespaces (F := CredentialF) fuel namespaces).
Proof.
  induction namespaces as [|[n es] nss IH]; [done|]. cbn [Mdoc.issue_namespaces].
  apply outcomes_bind_res. eapply outcomes_mono; [|apply issue_elements_answer]. intros [ns|e|]; cbn [on_res]; [|done..].
  intros _. apply outcomes_bind_res. eapply outcomes_mono; [|apply IH]. by intros [].
Qed.

Lemma cose_key_np jwk : cose_key jwk <> Panic.
Proof. unfold cose_key, coordinate_bytes. destruct (key_type jwk) as [[|]|]; [| |done]; solve_np. Qed.

Lemma cose_sign_np key payload chain :
  KeyPairLaws key -> cose_sign key payload [] [(HEADER_X5CHAIN, x5chain_value chain)] <> Panic.
Proof.
  intros HL. pose proof (@kp_sign_no_panic _ _ _ _ _ HL) as Hnp. unfold cose_sign, protected_header, unprotected_header.
  rewrite !add_values_Ok by (repeat constructor; unfold HEADER_X5CHAIN; simpl; lia). cbn [res_bind]. solve_np; auto.
Qed.

Lemma sign_mso_np request key spaces digests t1 t2 t3 :
  KeyPairLaws key -> Mdoc.sign_mso request key spaces digests t1 t2 t3 <> Panic.
Proof.
  intros HL. pose proof cose_key_np. pose proof (fun p c => cose_sign_np key p c HL).
  unfold Mdoc.sign_mso, Mdoc.embed, Mdoc.encode, to_value. solve_np; auto.
Qed.

Lemma mdoc_issue_answers fuel request key :
  KeyPairLaws key -> dated request -> answers whatever whatever (Mdoc.issue (F := CredentialF) fuel request key).
Proof.
  intros HL (H1 & H2 & H3). unfold Mdoc.issue.
  destruct (Mdoc.whole_seconds (Mdoc.ir_signed request)); [|done..].
  destruct (Mdoc.whole_seconds (Mdoc.ir_valid_from request)); [|done..].
  destruct (Mdoc.whole_seconds (Mdoc.ir_valid_until request)); [|done..]. cbn [map_err pbind_res pbind].
  destruct (_ <=? _); [done|]. apply outcomes_bind_res.
  eapply outcomes_mono; [|apply issue_namespaces_answer]. intros [spaces|e|]; cbn [on_res outcomes]; [|done..]. intros _.
  match goal with |- context [Mdoc.sign_mso ?r ?k ?a ?b ?t1 ?t2 ?t3] =>
    pose proof (sign_mso_np r k a b t1 t2 t3 HL); destruct (Mdoc.sign_mso r k a b t1 t2 t3) end; done.
Qed.

Lemma mdoc_answers fuel config ctx key :
  KeyPairLaws (ic_issuer_key ctx) ->
  (forall signer, ic_mdoc ctx = Some signer ->
     mdl_dates (ms_certificate signer) /\ answers whatever whatever (ms_allocate_status signer)) ->
  answers is_string whatever (issue_mdoc_credential fuel config ctx key).
Proof.
  intros HL Hm. unfold issue_mdoc_credential. destruct (ic_mdoc ctx) as [signer|]; cbn -[subject_country]; [|done].
  destruct (Hm signer eq_refl) as [Hd Hs]. destruct (bool_decide _); [done|].
  destruct (subject_country (ms_certificate signer)) as [country|] eqn:Hc; cbn; [|done]. intros now Hnow.
  apply outcomes_bind_res, outcomes_map_err. eapply outcomes_mono; [|by apply mdl_request_answers].
  intros [request|e|]; cbn [on_res]; [|done..]. intros Hr. apply outcomes_bind_res, outcomes_map_err.
  eapply outcomes_mono; [|by apply mdoc_issue_answers]. intros [b|e|]; cbn; [|done..]. intros _. by eexists.
Qed.

Lemma issue_one_answers fuel id config ctx key :
  KeyPairLaws (ic_issuer_key ctx) -> answers whatever whatever (ic_allocate_status ctx) ->
  (forall signer, ic_mdoc ctx = Some signer ->
     mdl_dates (ms_certificate signer) /\ answers whatever whatever (ms_allocate_status signer)) ->
  answers (fun c => is_string (ic_credential c)) whatever (issue_one fuel id config ctx key).
Proof.
  intros HL Hs Hm. unfold issue_one. apply outcomes_bind_res.
  apply (outcomes_mono _ (on_res is_string whatever)); [by intros [v|e|]|].
  repeat case_bool_decide; [|by apply mdoc_answers|done].
  apply outcomes_map_err. eapply outcomes_mono; [|by apply sd_jwt_answers]. by intros [].
Qed.

(** The credentials of an answer. *)
Definition string_credentials (l : list IssuedCredential) : Prop :=
  exists credentials, l = map (fun c => mkIssuedCredential (VString c)) credentials.

Lemma issue_all_answers fuel id config ctx keys :
  KeyPairLaws (ic_issuer_key ctx) -> answers whatever whatever (ic_allocate_status ctx) ->
  (forall signer, ic_mdoc ctx = Some signer ->
     mdl_dates (ms_certificate signer) /\ answers whatever whatever (ms_allocate_status signer)) ->
  answers string_credentials whatever (issue_all fuel id config ctx keys).
Proof.
  intros HL Hs Hm. induction keys as [|key keys IH]; cbn [issue_all]; [by exists []|].
  apply outcomes_bind_res. eapply outcomes_mono; [|by apply issue_one_answers]. intros [[c]|e|]; cbn [on_res]; [|done..].
  intros [s Hc]. simpl in Hc. subst c. apply outcomes_bind_res. eapply outcomes_mono; [|exact IH].
  intros [cs|e|]; cbn; [|done..]. intros [l ->]. by exists (s :: l).
Qed.

Lemma proof_nonce_np payload iat now : overflow_checks = false -> proof_nonce payload iat now <> Panic.
Proof.
  intros Ho. unfold proof_nonce, i64_sub, i64_abs, i64_result. rewrite Ho.
  repeat (destruct (in_i64 _); cbn [res_bind]); destruct (_ <? _); try done; by destruct (get_str _ _).
Qed.

Lemma verify_proofs_answer jwts issuer_url config :
  overflow_checks = false -> answers whatever whatever (verify_proofs (F := CredentialF) jwts issuer_url config).
Proof.
  intros Ho. induction jwts as [|jwt jwts IH]; [done|]. cbn [verify_proofs]. apply outcomes_bind_res. unfold verify_proof_jwt.
  pose proof (proof_claims_np jwt issuer_url config).
  destruct (proof_claims jwt issuer_url config) as [[[key payload] iat]|e|]; [|done..]. cbn -[proof_nonce]. intros t _.
  pose proof (proof_nonce_np payload iat (timestamp t) Ho). destruct (proof_nonce _ _ _); cbn; [|done..].
  apply outcomes_bind_res. eapply outcomes_mono; [|exact IH]. by intros [[keys nonces]|e|].
Qed.

Lemma consume_nonces_answer ns : answers whatever whatever (consume_nonces (F := CredentialF) ns).
Proof.
  induction ns as [|n ns IH]; [done|]. cbn [consume_nonces]. apply outcomes_bind_res, outcomes_map_err.
  intros x [b ->]. cbn. by destruct b.
Qed.

Lemma check_request_answers request token (ctx : IssuanceContext CredentialF) :
  overflow_checks = false -> answers whatever whatever (check_request request token ctx).
Proof.
  intros Ho. unfold check_request. apply outcomes_bind_res, outcomes_map_err. intros x [found ->]. cbn.
  destruct found as [grant|]; cbn -[resolve_configuration]; [|done].
  pose proof (resolve_configuration_np request grant (ic_metadata ctx)).
  destruct (resolve_configuration _ _ _) as [[id config]|e|]; cbn -[request_proofs]; [|done..].
  pose proof (request_proofs_np request (ic_metadata ctx)).
  destruct (request_proofs _ _) as [jwts|e|]; cbn; [|done..]. apply outcomes_bind_res.
  eapply outcomes_mono; [|by apply verify_proofs_answer]. intros [[keys nonces]|e|]; cbn [on_res]; [|done..]. intros _.
  apply outcomes_bind_res. eapply outcomes_mono; [|apply consume_nonces_answer]. by intros [].
Qed.

Lemma process_credential_answers fuel request token ctx :
  overflow_checks = false -> KeyPairLaws (ic_issuer_key ctx) ->
  answers whatever whatever (ic_allocate_status ctx) ->
  (forall signer, ic_mdoc ctx = Some signer ->
     mdl_dates (ms_certificate signer) /\ answers whatever whatever (ms_allocate_status signer)) ->
  answers (fun r => exists l, r = mkCredentialResponse (Some l) None None None /\ string_credentials l) whatever
    (process_credential_request fuel request token ctx).
Proof.
  intros Ho HL Hs Hm. unfold process_credential_request. apply outcomes_bind_res, outcomes_map_err.
  eapply outcomes_mono; [|by apply check_request_answers]. intros [[[id config] keys]|e|]; cbn [on_res]; [|done..]. intros _.
  apply outcomes_bind_res. eapply outcomes_mono; [|by apply issue_all_answers]. intros [cs|e|]; cbn; [|done..].
  intros Hcs. by exists cs.
Qed.

(** What the server needs to answer every request: a build without overflow
    checks, paths that are valid, and a key pair, calendar and document signer
    as they should be. *)
Record can_serve (state : AppState) : Prop := {
  cs_release : overflow_checks = false;
  cs_paths path :
    path ∈ ["/authorize/par"; "/token"; "/credential"; "/status/revocation/token"; MDOC_STATUS_PATH]%string ->
    exists u, url_join (app_external_url state) path = inl u;
  cs_key : KeyPairLaws (app_primary_key state);
  cs_mdl : mdl_dates (pki_mdoc_signer (app_issuer_pki state));
}.

Lemma credential_endpoint_answers fuel state headers request :
  can_serve state ->
  outcomes server_answer (answers_to (CredentialCall headers request)) (credential_endpoint fuel state headers request).
Proof.
  intros [Ho Hp HL Hd].
  apply (outcomes_mono _ (on_res (json_with [200] credential_doc) (fun e => match e with
    | Some r => refused [400; 401; 500] r | None => True end))).
  { intros [r|[r|]|]; done. }
  unfold credential_endpoint. apply outcomes_bind_res, outcomes_map_err, outcomes_embed.
  eapply outcomes_weaken; [|eapply outcomes_mono; [|apply resource_answers, Hp; set_solver]].
  { intros X [e|e] x; [done|]. exact id. }
  intros [token|r|]; cbn [on_res]; [|apply json_with_mono; set_solver|done]. intros _.
  unfold url_for. destruct (Hp "/status/revocation/token") as [u Hu]; [set_solver|].
  destruct (Hp MDOC_STATUS_PATH) as [u' Hu']; [set_solver|]. rewrite Hu, Hu'. cbn [from_ext unwrap pbind_res pbind].
  apply outcomes_bind_res, outcomes_map_err. eapply outcomes_mono; [|apply process_credential_answers; [done|done|..]].
  - intros [response|e|]; cbn [on_res outcomes]; [| |done].
    + intros (l & -> & credentials & ->). split; [repeat constructor|]. eexists. split; [done|]. by exists credentials.
    + intros _. destruct e as [e|]; [|done]. apply json_error_refused. destruct e; simpl; set_solver.
  - simpl. unfold allocate_status. intros x Hx. by destruct x.
  - intros signer [= <-]. split; [exact Hd|]. simpl. unfold allocate_mdoc_status. intros x Hx. by destruct x.
Qed.

Lemma over_storage_answers ok err p (request : IssuerRequest) :
  outcomes issuer_answer (on_res ok err) p ->
  (forall r, ok r -> answers_to request (Ok r)) -> (forall r, err r -> answers_to request (Err (Some r))) ->
  outcomes server_answer (answers_to request) (over_storage p).
Proof.
  intros Hp Hok Herr. unfold over_storage, pmap_err, pmap. apply outcomes_bind, outcomes_embed.
  eapply outcomes_weaken; [|eapply outcomes_mono; [|exact Hp]].
  { intros X [e|e] x; [done|]. exact id. }
  intros [r|r|] Hr; [by apply Hok|by apply Herr|done].
Qed.

Lemma serve_answers fuel state request :
  can_serve state -> outcomes server_answer (answers_to request) (serve fuel state request).
Proof.
  intros Hs. pose proof (cs_release _ Hs) as Ho. pose proof (cs_paths _ Hs) as Hp.
  destruct request; cbn [serve].
  - by apply (over_storage_answers (json_with [201] par_doc) (refused [400; 401])); [apply par_answers, Hp; [|set_solver]|..].
  - by apply (over_storage_answers (page_with [200]) (page_with [303; 400])); [apply consent_answers|..].
  - by apply (over_storage_answers (page_with [303]) (page_with [303; 400])); [apply decision_answers|..].
  - by apply (over_storage_answers (json_with [200] token_doc) (refused [400; 401]));
      [apply token_endpoint_answers, Hp; [|set_solver]|..].
  - by apply (over_storage_answers (json_with [200] nonce_doc) (fun _ => False)); [apply nonce_answers|..].
  - by eapply over_storage_answers; [apply offer_answers|..].
  - by apply credential_endpoint_answers.
Qed.

(** Every request that was answered was answered as it may be. *)
Lemma served_answers fuel state status requests w v ps w' :
  can_serve state -> draws_indices status -> server_refines w v -> manager_urls (store w).2 ->
  csteps (server_handler status) (map (serve fuel state) requests, w) (ps, w') ->
  Forall2 (fun request p => forall r, p = Ret r -> answers_to request r) requests ps.
Proof.
  intros Hs Hd Hw Hm Hc.
  assert (Hallowed : Forall (calls_in server_allowed) (map (serve fuel state) requests)).
  { apply Forall_map, list.Forall_forall. intros request _. apply serve_allowed. }
  destruct (csteps_simulates _ _ _ _ _ _ (server_simulates status) Hc v Hallowed Hw) as (v' & Hv & _).
  assert (Hin : in_order_world v).
  { destruct Hw as [(Hsys & _ & Hr & _) He]. split; [|by rewrite <- He]. simpl in Hsys, Hr. by rewrite <- Hsys. }
  assert (Hall : Forall2 (outcomes server_answer) (map answers_to requests) (map (serve fuel state) requests)).
  { clear -Hs CHL JL KL HIL. induction requests; constructor; [by apply serve_answers|done]. }
  pose proof (csteps_outcomes in_order_world _ _ _ _ _ (fun X e v => server_answers status X e v Hd) Hv Hin Hall) as Hps.
  simpl in Hps. apply (Forall2_fmap_l answers_to) in Hps.
  eapply Forall2_impl; [exact Hps|]. intros request p Hp r ->. exact Hp.
Qed.

(** ** The statuses *)
Definition success_status (request : IssuerRequest) : Z :=
  match request with ParRequest _ _ => 201 | DecisionRequest _ => 303 | _ => 200 end.

Definition refusal_statuses (request : IssuerRequest) : list Z :=
  match request with
  | ParRequest _ _ | CodeOrOfferRequest _ _ => [400; 401]
  | ConsentRequest _ _ | DecisionRequest _ => [303; 400]
  | NonceRequest => []
  | OfferRequest _ => [400]
  | CredentialCall _ _ => [400; 401; 500]
  end.

Definition answered (request : IssuerRequest) (r : res Response (option Response)) : Prop :=
  match r with
  | Ok response => rs_status response = success_status request
  | Err (Some response) => rs_status response ∈ refusal_statuses request
  | Err None => exists headers credential_request, request = CredentialCall headers credential_request
  | Panic => False
  end.

(** C7: Answers.  In a build without overflow checks, when the server's own paths
    are valid, its key pair keeps its contract, the calendar goes on for five
    years and its document signer's certificate does not end before 1970: no
    request to the issuer panics, those for credentials included, whatever
    others are served at the same time and however they interleave call by
    call.  Each request that is finished was answered with the status of its
    success (201 for a pushed request, a redirect for a decision, 200
    otherwise) or refused with one of its own: 400 or 401 for pushed requests
    and tokens, an error page or a redirect for consent and decisions, 400 for
    offers, 400, 401 or 500 for credentials, and a nonce is never refused.  The
    model alone has one more outcome, for credentials: the loop that draws
    digest ids used up its fuel. *)
Theorem requests_answered fuel state status requests w v ps w' :
  can_serve state -> draws_indices status -> server_refines w v -> manager_urls (store w).2 ->
  csteps (server_handler status) (map (serve fuel state) requests, w) (ps, w') ->
  Forall2 (fun request p => forall r, p = Ret r -> answered request r) requests ps.
Proof.
  intros Hs Hd Hw Hm Hc. eapply Forall2_impl; [by eapply served_answers|]. intros request p Hp r Hr.
  specialize (Hp r Hr). destruct r as [response|[response|]|]; [| | |done]; destruct request; simpl in *; try done;
    try (by destruct Hp); try (by eexists _, _); destruct Hp as [Hp%list_elem_of_singleton _]; done.
Qed.
End CredentialAnswers.
