(* ===== verification/Wire.v ===== *)
(** * The JSON form of the messages

    The codecs of the structs of crates/types (and of [Jwk], [Jwks],
    [JwsHeader] and [SdJwtVcClaims] of crates/crypto) as their [serde]
    attributes derive them, and the laws that hold of them.  The text of a URL,
    of a time and of base64 is third-party code. *)
From S2P Require Import Prelude Externals Json Serde StatusManager Keys Jws Credentials SdJwt Errors Oid4vci Oid4vp Credential.

(** ** Texts of other crates *)

(** A URL that was parsed is parsed again from its text. *)
Class UrlLaws (U : UrlApi) : Prop := { url_reparse s u : url_parse s = inl u -> url_parse (url_as_str u) = inl u }.

(** [Serialize] and [Deserialize] of [DateTime<Utc>]. *)
Class ChronoSerde := {
  datetime_to_json : DateTime -> string;
  datetime_from_json : string -> DateTime + string;
}.
Class ChronoSerdeLaws (C : ChronoSerde) : Prop := {
  datetime_reread s t : datetime_from_json s = inl t -> datetime_from_json (datetime_to_json t) = inl t
}.

(** A type that is written as a text and parsed from one. *)
Definition parsed {A} (print : A -> string) (parse : string -> A + string) : codec A :=
  mkCodec _ (fun a => VString (print a))
    (fun v => s ← as_str v; match parse s with inl a => Some a | inr _ => None end)
    (fun a => parse (print a) = inl a).

Lemma parsed_lawful {A} (print : A -> string) parse :
  (forall s a, parse s = inl a -> parse (print a) = inl a) -> Lawful (parsed print parse).
Proof.
  intros Hp. split; simpl; [by intros a ->| |done]. intros v a. destruct v; try done. simpl.
  destruct (parse s) eqn:E; [|done]. intros [= <-]. by eapply Hp.
Qed.

#[export] Instance parsed_fits {A} d (print : A -> string) parse : Fits d (parsed print parse).
Proof. intros a _. apply fits_string. Qed.

(** An enum of variants without data: the name of the variant, or an object
    that maps it to [null]. *)
Definition variant {A} (name : A -> string) (all : list A) : codec A :=
  mkCodec _ (fun a => VString (name a))
    (fun v => match v with
       | VString s | VObject [(s, VNull)] => snd <$> list_find (fun a => name a = s) all
       | _ => None end)
    (fun _ => True).

Lemma variant_lawful {A} (name : A -> string) all :
  (forall a, snd <$> list_find (fun b => name b = name a) all = Some a) -> Lawful (variant name all).
Proof. intros Hn. split; simpl; [by intros a _|done|done]. Qed.

(** ** status.rs *)
Section Status.
Context `{U : UrlApi} `{UL : !UrlLaws U}.

Definition url : codec Url := parsed url_as_str url_parse.
#[export] Instance url_lawful : Lawful url.
Proof. apply parsed_lawful, url_reparse. Qed.

Definition status_purpose : codec StatusPurpose := variant purpose_to_string [Revocation; Suspension].
#[export] Instance status_purpose_lawful : Lawful status_purpose.
Proof. apply variant_lawful. by intros []. Qed.

Definition status_list_2021_subject : codec StatusList2021Subject :=
  struct
    ("id" ~> required url |>
     "type" ~> required text |>
     "statusPurpose" ~> required status_purpose |>
     "encodedList" ~> required text |> no_fields)%serde
    (fun r => (subject_id r, (subject_type r, (subject_status_purpose r, (encoded_list r, tt)))))
    (fun '(x0, (x1, (x2, (x3, _)))) => mkSubject x0 x1 x2 x3).
#[export] Instance status_list_2021_subject_lawful : Lawful status_list_2021_subject.
Proof. solve_struct. Qed.

Definition status_list_2021_credential : codec StatusList2021Credential :=
  struct
    ("id" ~> required url |>
     "type" ~> required (list_of text) |>
     "issuer" ~> required text |>
     "validFrom" ~> required text |>
     "credentialSubject" ~> required status_list_2021_subject |> no_fields)%serde
    (fun r => (cred_id r, (credential_type r, (issuer r, (valid_from r, (credential_subject r, tt))))))
    (fun '(x0, (x1, (x2, (x3, (x4, _))))) => mkCredential x0 x1 x2 x3 x4).
#[export] Instance status_list_2021_credential_lawful : Lawful status_list_2021_credential.
Proof. solve_struct. Qed.

Definition status_list_2021_entry : codec StatusList2021Entry :=
  struct
    ("id" ~> required url |>
     "type" ~> required text |>
     "statusPurpose" ~> required status_purpose |>
     "statusListCredential" ~> required url |>
     "statusListIndex" ~> required text |> no_fields)%serde
    (fun r => (entry_id r, (entry_type r, (StatusManager.status_purpose r, (status_list_credential r, (status_list_index r, tt))))))
    (fun '(x0, (x1, (x2, (x3, (x4, _))))) => mkEntry x0 x1 x2 x3 x4).
#[export] Instance status_list_2021_entry_lawful : Lawful status_list_2021_entry.
Proof. solve_struct. Qed.
End Status.

(** ** error.rs, jwk.rs and jws.rs *)
Definition error_response : codec ErrorResponse :=
  struct
    ("error" ~> required text |>
     "error_description" ~> skip_none text |>
     "c_nonce" ~> skip_none text |>
     "c_nonce_expires_in" ~> skip_none (uint 64) |> no_fields)%serde
    (fun r => (er_error r, (er_error_description r, (er_c_nonce r, (er_c_nonce_expires_in r, tt)))))
    (fun '(x0, (x1, (x2, (x3, _)))) => mkErrorResponse x0 x1 x2 x3).
#[export] Instance error_response_lawful : Lawful error_response.
Proof. solve_struct. Qed.

Definition jwk : codec Jwk :=
  struct
    ("kty" ~> required text |>
     "crv" ~> skip_none text |>
     "x" ~> skip_none text |>
     "y" ~> skip_none text |>
     "d" ~> skip_none text |>
     "alg" ~> skip_none text |>
     "kid" ~> skip_none text |>
     "use" ~> skip_none text |> no_fields)%serde
    (fun r => (jwk_kty r, (jwk_crv r, (jwk_x r, (jwk_y r, (jwk_d r, (jwk_alg r, (jwk_kid r, (jwk_use r, tt)))))))))
    (fun '(x0, (x1, (x2, (x3, (x4, (x5, (x6, (x7, _)))))))) => mkJwk x0 x1 x2 x3 x4 x5 x6 x7).
#[export] Instance jwk_lawful : Lawful jwk.
Proof. solve_struct. Qed.

Definition jwks : codec Jwks :=
  struct ("keys" ~> required (list_of jwk) |> no_fields)%serde (fun r => (keys r, tt)) (fun '(x0, _) => mkJwks x0).
#[export] Instance jwks_lawful : Lawful jwks.
Proof. solve_struct. Qed.

Definition jws_header : codec JwsHeader :=
  struct
    ("alg" ~> required text |>
     "typ" ~> skip_none text |>
     "kid" ~> skip_none text |>
     "jwk" ~> skip_none jwk |>
     "x5c" ~> skip_none (list_of text) |> no_fields)%serde
    (fun r => (hdr_alg r, (hdr_typ r, (hdr_kid r, (hdr_jwk r, (hdr_x5c r, tt))))))
    (fun '(x0, (x1, (x2, (x3, (x4, _))))) => mkJwsHeader x0 x1 x2 x3 x4).
#[export] Instance jws_header_lawful : Lawful jws_header.
Proof. solve_struct. Qed.

(** ** oid4vci.rs *)
Section Oid4vci.
Context `{U : UrlApi} `{UL : !UrlLaws U}.

Definition batch_credential_issuance : codec BatchCredentialIssuance :=
  struct
    ("batch_size" ~> required (uint 64) |> no_fields)%serde
    (fun r => (bci_batch_size r, tt))
    (fun '(x0, _) => mkBatchCredentialIssuance x0).
#[export] Instance batch_credential_issuance_lawful : Lawful batch_credential_issuance.
Proof. solve_struct. Qed.

Definition proof_type_metadata : codec ProofTypeMetadata :=
  struct
    ("proof_signing_alg_values_supported" ~> required (list_of text) |> no_fields)%serde
    (fun r => (ptm_proof_signing_alg_values_supported r, tt))
    (fun '(x0, _) => mkProofTypeMetadata x0).
#[export] Instance proof_type_metadata_lawful : Lawful proof_type_metadata.
Proof. solve_struct. Qed.

Definition logo : codec Logo :=
  struct
    ("uri" ~> required text |>
     "alt_text" ~> skip_none text |> no_fields)%serde
    (fun r => (l_uri r, (l_alt_text r, tt)))
    (fun '(x0, (x1, _)) => mkLogo x0 x1).
#[export] Instance logo_lawful : Lawful logo.
Proof. solve_struct. Qed.

Definition credential_display : codec CredentialDisplay :=
  struct
    ("name" ~> required text |>
     "locale" ~> skip_none text |>
     "logo" ~> skip_none logo |>
     "description" ~> skip_none text |>
     "background_color" ~> skip_none text |>
     "text_color" ~> skip_none text |> no_fields)%serde
    (fun r => (cd_name r, (cd_locale r, (cd_logo r, (cd_description r, (cd_background_color r, (cd_text_color r, tt)))))))
    (fun '(x0, (x1, (x2, (x3, (x4, (x5, _)))))) => mkCredentialDisplay x0 x1 x2 x3 x4 x5).
#[export] Instance credential_display_lawful : Lawful credential_display.
Proof. solve_struct. Qed.

Definition claim_description : codec ClaimDescription :=
  struct
    ("path" ~> required (list_of value) |>
     "mandatory" ~> skip_none boolean |> no_fields)%serde
    (fun r => (cld_path r, (cld_mandatory r, tt)))
    (fun '(x0, (x1, _)) => mkClaimDescription x0 x1).
#[export] Instance claim_description_lawful : Lawful claim_description.
Proof. solve_struct. Qed.

Definition credential_metadata : codec CredentialMetadata :=
  struct
    ("display" ~> skip_none (list_of credential_display) |>
     "claims" ~> skip_none (list_of claim_description) |> no_fields)%serde
    (fun r => (cm_display r, (cm_claims r, tt)))
    (fun '(x0, (x1, _)) => mkCredentialMetadata x0 x1).
#[export] Instance credential_metadata_lawful : Lawful credential_metadata.
Proof. solve_struct. Qed.

Definition credential_configuration : codec CredentialConfiguration :=
  struct
    ("format" ~> required text |>
     "scope" ~> skip_none text |>
     "cryptographic_binding_methods_supported" ~> skip_none (list_of text) |>
     "credential_signing_alg_values_supported" ~> skip_none (list_of value) |>
     "proof_types_supported" ~> skip_none (map_of proof_type_metadata) |>
     "credential_metadata" ~> skip_none credential_metadata |>
     "vct" ~> skip_none text |>
     "doctype" ~> skip_none text |> no_fields)%serde
    (fun r => (cc_format r, (cc_scope r, (cc_cryptographic_binding_methods_supported r, (cc_credential_signing_alg_values_supported r, (cc_proof_types_supported r, (cc_credential_metadata r, (cc_vct r, (cc_doctype r, tt)))))))))
    (fun '(x0, (x1, (x2, (x3, (x4, (x5, (x6, (x7, _)))))))) => mkCredentialConfiguration x0 x1 x2 x3 x4 x5 x6 x7).
#[export] Instance credential_configuration_lawful : Lawful credential_configuration.
Proof. solve_struct. Qed.

Definition issuer_display : codec IssuerDisplay :=
  struct
    ("name" ~> required text |>
     "locale" ~> skip_none text |>
     "logo" ~> skip_none logo |> no_fields)%serde
    (fun r => (id_name r, (id_locale r, (id_logo r, tt))))
    (fun '(x0, (x1, (x2, _))) => mkIssuerDisplay x0 x1 x2).
#[export] Instance issuer_display_lawful : Lawful issuer_display.
Proof. solve_struct. Qed.

Definition credential_issuer_metadata : codec CredentialIssuerMetadata :=
  struct
    ("credential_issuer" ~> required text |>
     "authorization_servers" ~> skip_none (list_of url) |>
     "credential_endpoint" ~> required url |>
     "deferred_credential_endpoint" ~> skip_none url |>
     "nonce_endpoint" ~> skip_none url |>
     "batch_credential_issuance" ~> skip_none batch_credential_issuance |>
     "credential_configurations_supported" ~> required (map_of credential_configuration) |>
     "display" ~> skip_none (list_of issuer_display) |> no_fields)%serde
    (fun r => (cim_credential_issuer r, (cim_authorization_servers r, (cim_credential_endpoint r, (cim_deferred_credential_endpoint r, (cim_nonce_endpoint r, (cim_batch_credential_issuance r, (cim_credential_configurations_supported r, (cim_display r, tt)))))))))
    (fun '(x0, (x1, (x2, (x3, (x4, (x5, (x6, (x7, _)))))))) => mkCredentialIssuerMetadata x0 x1 x2 x3 x4 x5 x6 x7).
#[export] Instance credential_issuer_metadata_lawful : Lawful credential_issuer_metadata.
Proof. solve_struct. Qed.

Definition authorization_server_metadata : codec AuthorizationServerMetadata :=
  struct
    ("issuer" ~> required text |>
     "authorization_endpoint" ~> required url |>
     "token_endpoint" ~> required url |>
     "pushed_authorization_request_endpoint" ~> skip_none url |>
     "require_pushed_authorization_requests" ~> required boolean |>
     "jwks_uri" ~> required url |>
     "response_types_supported" ~> required (list_of text) |>
     "grant_types_supported" ~> required (list_of text) |>
     "code_challenge_methods_supported" ~> required (list_of text) |>
     "token_endpoint_auth_methods_supported" ~> required (list_of text) |>
     "pre-authorized_grant_anonymous_access_supported" ~> required boolean |>
     "dpop_signing_alg_values_supported" ~> required (list_of text) |>
     "client_attestation_signing_alg_values_supported" ~> required (list_of text) |>
     "client_attestation_pop_signing_alg_values_supported" ~> required (list_of text) |>
     "authorization_response_iss_parameter_supported" ~> required boolean |> no_fields)%serde
    (fun r => (asm_issuer r, (asm_authorization_endpoint r, (asm_token_endpoint r, (asm_pushed_authorization_request_endpoint r, (asm_require_pushed_authorization_requests r, (asm_jwks_uri r, (asm_response_types_supported r, (asm_grant_types_supported r, (asm_code_challenge_methods_supported r, (asm_token_endpoint_auth_methods_supported r, (asm_pre_authorized_grant_anonymous_access_supported r, (asm_dpop_signing_alg_values_supported r, (asm_client_attestation_signing_alg_values_supported r, (asm_client_attestation_pop_signing_alg_values_supported r, (asm_authorization_response_iss_parameter_supported r, tt))))))))))))))))
    (fun '(x0, (x1, (x2, (x3, (x4, (x5, (x6, (x7, (x8, (x9, (x10, (x11, (x12, (x13, (x14, _))))))))))))))) => mkAuthorizationServerMetadata x0 x1 x2 x3 x4 x5 x6 x7 x8 x9 x10 x11 x12 x13 x14).
#[export] Instance authorization_server_metadata_lawful : Lawful authorization_server_metadata.
Proof. solve_struct. Qed.

Definition authorization_code_grant : codec AuthorizationCodeGrant :=
  struct
    ("issuer_state" ~> skip_none text |>
     "authorization_server" ~> skip_none url |> no_fields)%serde
    (fun r => (acg_issuer_state r, (acg_authorization_server r, tt)))
    (fun '(x0, (x1, _)) => mkAuthorizationCodeGrant x0 x1).
#[export] Instance authorization_code_grant_lawful : Lawful authorization_code_grant.
Proof. solve_struct. Qed.

Definition tx_code : codec TxCode :=
  struct
    ("input_mode" ~> skip_none text |>
     "length" ~> skip_none (uint 32) |>
     "description" ~> skip_none text |> no_fields)%serde
    (fun r => (tc_input_mode r, (tc_length r, (tc_description r, tt))))
    (fun '(x0, (x1, (x2, _))) => mkTxCode x0 x1 x2).
#[export] Instance tx_code_lawful : Lawful tx_code.
Proof. solve_struct. Qed.

Definition pre_authorized_code_grant : codec PreAuthorizedCodeGrant :=
  struct
    ("pre-authorized_code" ~> required text |>
     "tx_code" ~> skip_none tx_code |> no_fields)%serde
    (fun r => (pacg_pre_authorized_code r, (pacg_tx_code r, tt)))
    (fun '(x0, (x1, _)) => mkPreAuthorizedCodeGrant x0 x1).
#[export] Instance pre_authorized_code_grant_lawful : Lawful pre_authorized_code_grant.
Proof. solve_struct. Qed.

Definition grants : codec Grants :=
  struct
    ("authorization_code" ~> skip_none authorization_code_grant |>
     "urn:ietf:params:oauth:grant-type:pre-authorized_code" ~> skip_none pre_authorized_code_grant |> no_fields)%serde
    (fun r => (g_authorization_code r, (g_pre_authorized_code r, tt)))
    (fun '(x0, (x1, _)) => mkGrants x0 x1).
#[export] Instance grants_lawful : Lawful grants.
Proof. solve_struct. Qed.

Definition credential_offer : codec CredentialOffer :=
  struct
    ("credential_issuer" ~> required text |>
     "credential_configuration_ids" ~> required (list_of text) |>
     "grants" ~> skip_none grants |> no_fields)%serde
    (fun r => (co_credential_issuer r, (co_credential_configuration_ids r, (co_grants r, tt))))
    (fun '(x0, (x1, (x2, _))) => mkCredentialOffer x0 x1 x2).
#[export] Instance credential_offer_lawful : Lawful credential_offer.
Proof. solve_struct. Qed.

Definition authorization_detail : codec AuthorizationDetail :=
  struct
    ("type" ~> required text |>
     "credential_configuration_id" ~> skip_none text |>
     "format" ~> skip_none text |>
     "vct" ~> skip_none text |>
     "doctype" ~> skip_none text |> no_fields)%serde
    (fun r => (ad_detail_type r, (ad_credential_configuration_id r, (ad_format r, (ad_vct r, (ad_doctype r, tt))))))
    (fun '(x0, (x1, (x2, (x3, (x4, _))))) => mkAuthorizationDetail x0 x1 x2 x3 x4).
#[export] Instance authorization_detail_lawful : Lawful authorization_detail.
Proof. solve_struct. Qed.

(** [authorization_details] of a pushed request: a missing member is [None],
    and [json_or_json_string] reads the others.  The parser of a text, from
    which it reads the details, is [serde_json::from_str]. *)
Context `{SerdeJson} (details_from_str : string -> list AuthorizationDetail + string).

Definition details_from_value (v : Value) : list AuthorizationDetail + string :=
  match de (list_of authorization_detail) v with
  | Some l => inl l
  | None => inr (type_error "a sequence" v)
  end.
Definition details_member : member (option (list AuthorizationDetail)) :=
  mkMember _ (fmap (ser (list_of authorization_detail)))
    (fun o => res_ok (json_or_json_string details_from_value details_from_str o))
    (present (list_of authorization_detail)).

(** The details consist of texts: all of them are typed. *)
Lemma details_typed l : typed (list_of authorization_detail) l.
Proof. apply Forall_forall. intros [? ? ? ? ?] _. repeat split; done. Qed.

#[export] Instance details_lawful : LawfulMember details_member.
Proof.
  split.
  - intros [l|] Hl; [|done]. pose proof (read_written (c := list_of authorization_detail) l (details_typed l)) as Hr.
    cbn [m_put m_get details_member fmap option_fmap option_map]. unfold json_or_json_string, details_from_value.
    cbn [ser list_of] in Hr |- *. by rewrite Hr.
  - intros o a _ l ->. split; [apply details_typed|done].
Qed.

Definition pushed_authorization_request : codec PushedAuthorizationRequest :=
  struct
    ("response_type" ~> required text |>
     "client_id" ~> required text |>
     "redirect_uri" ~> required url |>
     "scope" ~> optional text |>
     "state" ~> optional text |>
     "code_challenge" ~> required text |>
     "code_challenge_method" ~> required text |>
     "authorization_details" ~> details_member |>
     "issuer_state" ~> skip_none text |>
     "dpop_jkt" ~> skip_none text |>
     "request_uri" ~> skip_none text |> no_fields)%serde
    (fun r => (par_response_type r, (par_client_id r, (par_redirect_uri r, (par_scope r, (par_state r, (par_code_challenge r, (par_code_challenge_method r, (par_authorization_details r, (par_issuer_state r, (par_dpop_jkt r, (par_request_uri r, tt))))))))))))
    (fun '(x0, (x1, (x2, (x3, (x4, (x5, (x6, (x7, (x8, (x9, (x10, _))))))))))) => mkPushedAuthorizationRequest x0 x1 x2 x3 x4 x5 x6 x7 x8 x9 x10).
#[export] Instance pushed_authorization_request_lawful : Lawful pushed_authorization_request.
Proof. solve_struct. Qed.

Definition pushed_authorization_response : codec PushedAuthorizationResponse :=
  struct
    ("request_uri" ~> required text |>
     "expires_in" ~> required (uint 64) |> no_fields)%serde
    (fun r => (puar_request_uri r, (puar_expires_in r, tt)))
    (fun '(x0, (x1, _)) => mkPushedAuthorizationResponse x0 x1).
#[export] Instance pushed_authorization_response_lawful : Lawful pushed_authorization_response.
Proof. solve_struct. Qed.

Definition token_request : codec TokenRequest :=
  struct
    ("grant_type" ~> required text |>
     "code" ~> skip_none text |>
     "redirect_uri" ~> skip_none url |>
     "code_verifier" ~> skip_none text |>
     "client_id" ~> skip_none text |>
     "pre-authorized_code" ~> skip_none text |>
     "tx_code" ~> skip_none text |> no_fields)%serde
    (fun r => (tr_grant_type r, (tr_code r, (tr_redirect_uri r, (tr_code_verifier r, (tr_client_id r, (tr_pre_authorized_code r, (tr_tx_code r, tt))))))))
    (fun '(x0, (x1, (x2, (x3, (x4, (x5, (x6, _))))))) => mkTokenRequest x0 x1 x2 x3 x4 x5 x6).
#[export] Instance token_request_lawful : Lawful token_request.
Proof. solve_struct. Qed.

Definition authorized_detail : codec AuthorizedDetail :=
  struct
    ("type" ~> required text |>
     "credential_configuration_id" ~> required text |>
     "credential_identifiers" ~> required (list_of text) |> no_fields)%serde
    (fun r => (aud_detail_type r, (aud_credential_configuration_id r, (aud_credential_identifiers r, tt))))
    (fun '(x0, (x1, (x2, _))) => mkAuthorizedDetail x0 x1 x2).
#[export] Instance authorized_detail_lawful : Lawful authorized_detail.
Proof. solve_struct. Qed.

Definition token_response : codec TokenResponse :=
  struct
    ("access_token" ~> required text |>
     "token_type" ~> required text |>
     "expires_in" ~> required (uint 64) |>
     "authorization_details" ~> skip_none (list_of authorized_detail) |> no_fields)%serde
    (fun r => (tor_access_token r, (tor_token_type r, (tor_expires_in r, (tor_authorization_details r, tt)))))
    (fun '(x0, (x1, (x2, (x3, _)))) => mkTokenResponse x0 x1 x2 x3).
#[export] Instance token_response_lawful : Lawful token_response.
Proof. solve_struct. Qed.

Definition nonce_response : codec NonceResponse :=
  struct
    ("c_nonce" ~> required text |> no_fields)%serde
    (fun r => (nr_c_nonce r, tt))
    (fun '(x0, _) => mkNonceResponse x0).
#[export] Instance nonce_response_lawful : Lawful nonce_response.
Proof. solve_struct. Qed.

Definition proofs : codec Proofs :=
  flattened ("jwt" ~> skip_none (list_of text) |> no_fields)%serde value
    (fun r => ((p_jwt r, tt), p_other r)) (fun '((x0, _), m) => mkProofs x0 m).
#[export] Instance proofs_lawful : Lawful proofs.
Proof. solve_struct. Qed.

Definition credential_request : codec CredentialRequest :=
  struct
    ("credential_identifier" ~> skip_none text |>
     "credential_configuration_id" ~> skip_none text |>
     "proofs" ~> skip_none proofs |>
     "proof" ~> skip_none value |>
     "credential_response_encryption" ~> skip_none value |> no_fields)%serde
    (fun r => (cr_credential_identifier r, (cr_credential_configuration_id r, (cr_proofs r, (cr_proof r, (cr_credential_response_encryption r, tt))))))
    (fun '(x0, (x1, (x2, (x3, (x4, _))))) => mkCredentialRequest x0 x1 x2 x3 x4).
#[export] Instance credential_request_lawful : Lawful credential_request.
Proof. solve_struct. Qed.

Definition issued_credential : codec IssuedCredential :=
  struct
    ("credential" ~> required value |> no_fields)%serde
    (fun r => (ic_credential r, tt))
    (fun '(x0, _) => mkIssuedCredential x0).
#[export] Instance issued_credential_lawful : Lawful issued_credential.
Proof. solve_struct. Qed.

Definition credential_response : codec CredentialResponse :=
  struct
    ("credentials" ~> skip_none (list_of issued_credential) |>
     "transaction_id" ~> skip_none text |>
     "interval" ~> skip_none (uint 64) |>
     "notification_id" ~> skip_none text |> no_fields)%serde
    (fun r => (crr_credentials r, (crr_transaction_id r, (crr_interval r, (crr_notification_id r, tt)))))
    (fun '(x0, (x1, (x2, (x3, _)))) => mkCredentialResponse x0 x1 x2 x3).
#[export] Instance credential_response_lawful : Lawful credential_response.
Proof. solve_struct. Qed.

End Oid4vci.

(** ** oid4vp.rs *)
Section Oid4vp.
Context `{U : UrlApi} `{UL : !UrlLaws U}.

Definition claim_query : codec ClaimQuery :=
  struct
    ("path" ~> required (list_of text) |>
     "namespace" ~> skip_none text |>
     "id" ~> skip_none text |>
     "values" ~> skip_none (list_of value) |> no_fields)%serde
    (fun r => (cq_path r, (cq_namespace r, (cq_id r, (cq_values r, tt)))))
    (fun '(x0, (x1, (x2, (x3, _)))) => mkClaimQuery x0 x1 x2 x3).
#[export] Instance claim_query_lawful : Lawful claim_query.
Proof. solve_struct. Qed.

Definition credential_query : codec CredentialQuery :=
  struct
    ("id" ~> required text |>
     "format" ~> required text |>
     "vct" ~> skip_none text |>
     "doctype" ~> skip_none text |>
     "claims" ~> skip_none (list_of claim_query) |> no_fields)%serde
    (fun r => (crq_id r, (crq_format r, (crq_vct r, (crq_doctype r, (crq_claims r, tt))))))
    (fun '(x0, (x1, (x2, (x3, (x4, _))))) => mkCredentialQuery x0 x1 x2 x3 x4).
#[export] Instance credential_query_lawful : Lawful credential_query.
Proof. solve_struct. Qed.

Definition dcql_query : codec DcqlQuery :=
  struct
    ("credentials" ~> required (list_of credential_query) |> no_fields)%serde
    (fun r => (dq_credentials r, tt))
    (fun '(x0, _) => mkDcqlQuery x0).
#[export] Instance dcql_query_lawful : Lawful dcql_query.
Proof. solve_struct. Qed.

Definition format_algorithms : codec FormatAlgorithms :=
  struct
    ("alg" ~> skip_none (list_of text) |> no_fields)%serde
    (fun r => (fa_alg r, tt))
    (fun '(x0, _) => mkFormatAlgorithms x0).
#[export] Instance format_algorithms_lawful : Lawful format_algorithms.
Proof. solve_struct. Qed.

Definition vp_formats_supported : codec VpFormatsSupported :=
  struct
    ("dc+sd-jwt" ~> skip_none format_algorithms |>
     "mso_mdoc" ~> skip_none format_algorithms |> no_fields)%serde
    (fun r => (vfs_sd_jwt_vc r, (vfs_mso_mdoc r, tt)))
    (fun '(x0, (x1, _)) => mkVpFormatsSupported x0 x1).
#[export] Instance vp_formats_supported_lawful : Lawful vp_formats_supported.
Proof. solve_struct. Qed.

Definition client_metadata : codec ClientMetadata :=
  struct
    ("vp_formats" ~> skip_none vp_formats_supported |>
     "client_name" ~> skip_none text |>
     "logo_uri" ~> skip_none text |> no_fields)%serde
    (fun r => (clm_vp_formats r, (clm_client_name r, (clm_logo_uri r, tt))))
    (fun '(x0, (x1, (x2, _))) => mkClientMetadata x0 x1 x2).
#[export] Instance client_metadata_lawful : Lawful client_metadata.
Proof. solve_struct. Qed.

Definition authorization_request : codec AuthorizationRequest :=
  struct
    ("response_type" ~> required text |>
     "client_id" ~> required text |>
     "client_id_scheme" ~> skip_none text |>
     "response_uri" ~> required url |>
     "response_mode" ~> skip_none text |>
     "nonce" ~> required text |>
     "state" ~> skip_none text |>
     "dcql_query" ~> skip_none dcql_query |>
     "presentation_definition" ~> skip_none value |>
     "client_metadata" ~> skip_none client_metadata |> no_fields)%serde
    (fun r => (ar_response_type r, (ar_client_id r, (ar_client_id_scheme r, (ar_response_uri r, (ar_response_mode r, (ar_nonce r, (ar_state r, (ar_dcql_query r, (ar_presentation_definition r, (ar_client_metadata r, tt)))))))))))
    (fun '(x0, (x1, (x2, (x3, (x4, (x5, (x6, (x7, (x8, (x9, _)))))))))) => mkAuthorizationRequest x0 x1 x2 x3 x4 x5 x6 x7 x8 x9).
#[export] Instance authorization_request_lawful : Lawful authorization_request.
Proof. solve_struct. Qed.

(** A descriptor may hold another one.  The parser of [serde_json] stops at 127
    levels; the entries it reads are shallower still. *)
Definition entry_fields (c : codec DescriptorMapEntry) :=
  ("id" ~> required text |>
   "format" ~> required text |>
   "path" ~> required text |>
   "path_nested" ~> skip_none c |> no_fields)%serde.
Definition nested_entry (c : codec DescriptorMapEntry) : codec DescriptorMapEntry :=
  struct (entry_fields c)
    (fun '(mkDescriptorMapEntry i f p n) => (i, (f, (p, (n, tt)))))
    (fun '(x0, (x1, (x2, (x3, _)))) => mkDescriptorMapEntry x0 x1 x2 x3).
Definition no_entry : codec DescriptorMapEntry := mkCodec _ (fun _ => VNull) (fun _ => None) (fun _ => False).
Fixpoint entry_codec (levels : nat) : codec DescriptorMapEntry :=
  match levels with O => no_entry | S n => nested_entry (entry_codec n) end.
Definition descriptor_map_entry : codec DescriptorMapEntry := entry_codec 127.

#[export] Instance entry_codec_lawful n : Lawful (entry_codec n).
Proof. induction n as [|n IH]; [by split|]. unfold entry_codec, nested_entry, entry_fields. fold entry_codec. solve_struct. Qed.
#[export] Instance descriptor_map_entry_lawful : Lawful descriptor_map_entry.
Proof. apply entry_codec_lawful. Qed.

Definition presentation_submission : codec PresentationSubmission :=
  struct
    ("id" ~> required text |>
     "definition_id" ~> required text |>
     "descriptor_map" ~> required (list_of descriptor_map_entry) |> no_fields)%serde
    (fun r => (ps_id r, (ps_definition_id r, (ps_descriptor_map r, tt))))
    (fun '(x0, (x1, (x2, _))) => mkPresentationSubmission x0 x1 x2).
#[export] Instance presentation_submission_lawful : Lawful presentation_submission.
Proof. solve_struct. Qed.

Definition authorization_response : codec AuthorizationResponse :=
  struct
    ("vp_token" ~> skip_none value |>
     "presentation_submission" ~> skip_none presentation_submission |>
     "state" ~> skip_none text |> no_fields)%serde
    (fun r => (aur_vp_token r, (aur_presentation_submission r, (aur_state r, tt))))
    (fun '(x0, (x1, (x2, _))) => mkAuthorizationResponse x0 x1 x2).
#[export] Instance authorization_response_lawful : Lawful authorization_response.
Proof. solve_struct. Qed.

Context `{CS : ChronoSerde} `{CSL : !ChronoSerdeLaws CS}.

Definition datetime : codec DateTime := parsed datetime_to_json datetime_from_json.
#[export] Instance datetime_lawful : Lawful datetime.
Proof. apply parsed_lawful, datetime_reread. Qed.

Definition verifier_session : codec VerifierSession :=
  struct
    ("id" ~> required text |>
     "nonce" ~> required text |>
     "state" ~> required text |>
     "request" ~> required authorization_request |>
     "created_at" ~> required datetime |>
     "expires_at" ~> required datetime |> no_fields)%serde
    (fun r => (vs_id r, (vs_nonce r, (vs_state r, (vs_request r, (vs_created_at r, (vs_expires_at r, tt)))))))
    (fun '(x0, (x1, (x2, (x3, (x4, (x5, _)))))) => mkVerifierSession x0 x1 x2 x3 x4 x5).
#[export] Instance verifier_session_lawful : Lawful verifier_session.
Proof. solve_struct. Qed.
End Oid4vp.

(** ** credentials.rs and sd_jwt.rs *)
Definition credential_format : codec CredentialFormat := variant format_as_str [CF_SdJwtVc; CF_Mdoc; CF_JwtVc].
#[export] Instance credential_format_lawful : Lawful credential_format.
Proof. apply variant_lawful. by intros []. Qed.

Definition jwt_vc : codec JwtVc := struct ("jwt" ~> required text |> no_fields)%serde (fun r => (jv_jwt r, tt)) (fun '(x0, _) => mkJwtVc x0).
#[export] Instance jwt_vc_lawful : Lawful jwt_vc.
Proof. solve_struct. Qed.

(** A field with a deserializer of its own and no [default] has to be there,
    even when it is an [Option]. *)
Definition with_required {A} (write : A -> option Value) (read : Value -> option A) : member A :=
  mkMember _ write (fun o => o ≫= read) (fun _ => True).

Section MdocJson.
Context `{B : Base64Url}.

Definition bytes_codec : codec bytes :=
  mkCodec _ (fun b => VString (bytes_serialize b)) (fun v => s ← as_str v; res_ok (bytes_deserialize s))
    (fun b => bytes_deserialize (bytes_serialize b) = Ok b).
Definition device_signed_member : member (option bytes) :=
  with_required (fun o => VString <$> option_bytes_serialize o)
    (fun v => s ← de (nullable text) v; res_ok (option_bytes_deserialize s)).

Definition mdoc_credential : codec MdocCredential :=
  struct
    ("doc_type" ~> required text |>
     "issuer_signed" ~> required bytes_codec |>
     "device_signed" ~> device_signed_member |> no_fields)%serde
    (fun r => (mc_doc_type r, (mc_issuer_signed r, (mc_device_signed r, tt))))
    (fun '(x0, (x1, (x2, _))) => mkMdocCredential x0 x1 x2).
End MdocJson.

(** [skip_serializing_if = Vec::is_empty], again without [default] *)
Definition skip_empty {A} (c : codec A) : member (list A) :=
  mkMember _ (fun l => if bool_decide (length l = 0%nat) then None else Some (ser (list_of c) l)) (fun o => o ≫= de (list_of c))
    (Forall (typed c)).

Definition sd_jwt_vc_claims : codec SdJwtVcClaims :=
  flattened
    ("iss" ~> required text |>
     "sub" ~> skip_none text |>
     "iat" ~> required i64 |>
     "exp" ~> skip_none i64 |>
     "nbf" ~> skip_none i64 |>
     "vct" ~> required text |>
     "_sd" ~> skip_empty text |>
     "_sd_alg" ~> skip_none text |>
     "cnf" ~> skip_none value |>
     "status" ~> skip_none value |> no_fields)%serde value
    (fun c => ((sc_iss c, (sc_sub c, (sc_iat c, (sc_exp c, (sc_nbf c, (sc_vct c, (sc_sd c, (sc_sd_alg c, (sc_cnf c, (sc_status c,
      tt)))))))))), sc_plain_claims c))
    (fun '((x0, (x1, (x2, (x3, (x4, (x5, (x6, (x7, (x8, (x9, _)))))))))), m) => mkSdJwtVcClaims x0 x1 x2 x3 x4 x5 x6 x7 x8 x9 m).

(** The claims are written as [SdJwt] has them. *)
Lemma claims_ser c : ser sd_jwt_vc_claims c = claims_value c.
Proof.
  destruct c as [iss sub iat exp nbf vct sd alg cnf status plain]. unfold claims_value, claims_members. cbn.
  assert (Hp : map_entries value plain = map_to_list plain).
  { unfold map_entries. rewrite <- (list_fmap_id (map_to_list plain)) at 2. by apply list_fmap_ext; intros i []. }
  rewrite Hp. destruct sd, sub, exp, nbf, alg, cnf, status; reflexivity.
Qed.

(** A JWK is written as [Credential] has it. *)
Lemma jwk_ser k : ser jwk k = jwk_json k.
Proof. destruct k as [kty [] [] [] [] [] [] []]; reflexivity. Qed.

(** ** Every message is typed *)

(** Closes goals that every field of a struct of texts is typed. *)
Ltac solve_typed :=
  repeat match goal with
  | |- _ /\ _ => split
  | |- True => exact Logic.I
  | |- present _ None => intros ? [=]
  | |- present _ (Some _) => intros ? [= <-]
  | |- present _ _ => intros ? _
  | |- VString _ <> VNull => discriminate
  | |- VArray _ <> VNull => discriminate
  | |- VObject _ <> VNull => discriminate
  | |- json_obj _ <> VNull => discriminate
  | |- Forall _ _ => apply list.Forall_forall; intros ? _
  | |- typed _ _ => progress cbn
  | |- ser _ _ <> VNull => progress cbn
  | |- _ => progress cbn
  end.

Lemma jwk_typed k : typed jwk k.
Proof. destruct k. solve_typed. Qed.
Lemma jws_header_typed h : typed jws_header h.
Proof. destruct h. solve_typed. Qed.

Lemma present_value o : present value o <-> o <> Some VNull.
Proof. split; [intros Hp ->; by destruct (Hp VNull eq_refl)|]. intros Hn v ->. split; [done|]. intros Hv. apply Hn. by f_equal. Qed.

(** ** The requests of clients, member by member *)

(** A member of an object that may be left out, or be [null]. *)
Definition member_read {A} (reads : Value -> A -> Prop) (ms : list (string * Value)) (name : string) (o : option A)
    : Prop :=
  match obj_get ms name with
  | None | Some VNull => o = None
  | Some v => exists a, o = Some a /\ reads v a
  end.

Definition is_text (v : Value) (s : string) : Prop := v = VString s.
Definition is_texts (v : Value) (l : list string) : Prop := v = VArray (map VString l).
Definition is_value (v w : Value) : Prop := v = w.
Definition is_url `{U : UrlApi} (v : Value) (u : Url) : Prop := exists s, v = VString s /\ url_parse s = inl u.

(** The proofs of a credential request: those of type [jwt], and the other
    members whatever they are. *)
Definition is_proofs (v : Value) (p : Proofs) : Prop :=
  exists ps, v = VObject ps /\ member_read is_texts ps "jwt" (p_jwt p) /\
    forall k, p_other p !! k = if decide (k = "jwt"%string) then None else obj_get ps k.

Lemma skip_none_read_at {A} (c : codec A) (reads : Value -> A -> Prop) ms name o :
  (forall v a, obj_get ms name = Some v -> de c v = Some a <-> reads v a) ->
  m_get (skip_none c) (obj_get ms name) = Some o <-> member_read reads ms name o.
Proof.
  intros Hc. unfold member_read. cbn [m_get skip_none]. destruct (obj_get ms name) as [v|]; simpl; [|naive_solver].
  case_bool_decide as Hn; [subst v; naive_solver|].
  transitivity (exists a, o = Some a /\ de c v = Some a).
  { destruct (de c v) as [a|]; simpl; split; [intros [= <-]; eauto|by intros (a' & -> & [= ->])|done|by intros (? & _ & ?)]. }
  transitivity (exists a, o = Some a /\ reads v a); [|by destruct v].
  split; intros (a & -> & Ha); exists a; (split; [done|]); by apply (Hc v a eq_refl).
Qed.

Lemma skip_none_read {A} (c : codec A) (reads : Value -> A -> Prop) ms name o :
  (forall v a, de c v = Some a <-> reads v a) ->
  m_get (skip_none c) (obj_get ms name) = Some o <-> member_read reads ms name o.
Proof. intros Hc. apply skip_none_read_at. intros v a _. apply Hc. Qed.

Lemma text_read v s : de text v = Some s <-> is_text v s.
Proof. unfold is_text. destruct v; simpl; naive_solver. Qed.

Lemma texts_read v l : de (list_of text) v = Some l <-> is_texts v l.
Proof.
  unfold is_texts. destruct v as [| | | |vs|]; simpl; try done. rewrite mapM_Some. split.
  - intros Hl. f_equal. induction Hl as [|v s vs l Hs _ IH]; simpl; [done|]. destruct v; simplify_eq/=. done.
  - intros [= ->]. induction l; constructor; done.
Qed.

Lemma value_read v w : de value v = Some w <-> is_value v w.
Proof. unfold is_value. simpl. naive_solver. Qed.

Lemma url_read `{U : UrlApi} v u : de url v = Some u <-> is_url v u.
Proof.
  unfold is_url. destruct v as [| | |s| |]; simpl; try (split; [done|naive_solver]).
  split.
  - destruct (url_parse s) as [u'|e] eqn:E; [|done]. intros [= <-]. by exists s.
  - intros (s' & [= <-] & ->). done.
Qed.

(** A struct is read from an object without repeated names. *)
Lemma struct_read {R T} (fs : fields T) (to : R -> T) make ms r :
  NoDup ms.*1 -> (forall r, make (to r) = r) -> (forall t, to (make t) = t) ->
  de (struct fs to make) (VObject ms) = Some r <-> take_fields fs ms = Some (to r).
Proof.
  intros Hd Hr Ht. cbn [de struct entries_of].
  assert (Hall : forallb (once ms) (names fs) = true) by (apply forallb_forall; intros n _; by apply once_NoDup).
  rewrite Hall. simpl. destruct (take_fields fs ms) as [t|]; simpl; [|naive_solver].
  split; [intros [= <-]; by rewrite Ht|intros [= ->]; by rewrite Hr].
Qed.

Lemma take_field_read {A T} name (m : member A) (fs : fields T) ms a t :
  take_fields (field name m fs) ms = Some (a, t) <-> m_get m (obj_get ms name) = Some a /\ take_fields fs ms = Some t.
Proof. simpl. destruct (m_get m _), (take_fields fs ms); simpl; naive_solver. Qed.

Lemma value_map_read ms m : read_map value ms = Some m <-> m = list_to_map (reverse ms).
Proof.
  unfold read_map. assert (mapM (read_entry value) ms = Some ms) as ->; [|simpl; naive_solver].
  apply mapM_Some. induction ms as [|[k v] ms IH]; constructor; done.
Qed.

Lemma others_lookup ns ms k :
  NoDup ms.*1 -> (list_to_map (reverse (others ns ms)) : gmap string Value) !! k = if decide (k ∈ ns) then None else obj_get ms k.
Proof.
  intros Hd. assert (Hd' : NoDup (others ns ms).*1).
  { unfold others. clear k. induction ms as [|kv ms IH]; [constructor|]. apply NoDup_cons in Hd as [Hn Hd].
    rewrite filter_cons. case_decide; [|by apply IH]. constructor; [|by apply IH].
    intros (kv' & Heq & [_ Hin]%list_elem_of_filter)%list_elem_of_fmap. apply Hn. rewrite Heq. by apply list_elem_of_fmap_2. }
  assert (Hrev : (list_to_map (reverse (others ns ms)) : gmap string Value) = list_to_map (others ns ms)).
  { symmetry. apply list_to_map_proper; [done|]. by rewrite reverse_Permutation. }
  rewrite Hrev. apply option_eq. intros v. rewrite <- elem_of_list_to_map by done. unfold others.
  rewrite list_elem_of_filter. simpl. case_decide as Hk; [naive_solver|]. rewrite (obj_get_NoDup ms) by done. naive_solver.
Qed.

Lemma proofs_read v p :
  (forall ps, v = VObject ps -> NoDup ps.*1) -> de proofs v = Some p <-> is_proofs v p.
Proof.
  intros Hd. unfold is_proofs. destruct v as [| | | | |ps]; try (split; [done|naive_solver]). specialize (Hd ps eq_refl).
  cbn [de proofs flattened as_object mbind option_bind names].
  assert (Hall : forallb (once ps) ["jwt"%string] = true) by (simpl; by rewrite once_NoDup).
  rewrite Hall. pose proof (fun o => skip_none_read (list_of text) is_texts ps "jwt" o texts_read) as Hj.
  cbn [take_fields]. pose proof (proj2 (value_map_read (others ["jwt"%string] ps) _) eq_refl) as Hm.
  set (m := list_to_map _) in Hm.
  assert (Hl : forall k, m !! k = if decide (k = "jwt"%string) then None else obj_get ps k).
  { intros k. unfold m. rewrite others_lookup by done. repeat case_decide; set_solver. }
  destruct (m_get _ (obj_get ps "jwt")) as [jwts|]; simpl; [rewrite Hm; simpl|]; split.
  - intros [= <-]. exists ps. split; [done|]. split; [by apply Hj|done].
  - intros (ps' & [= <-] & Hjwt%Hj & Hk). injection Hjwt as ->. destruct p as [j o]. simpl in *. do 2 f_equal.
    apply map_eq. intros k. by rewrite Hk, Hl.
  - done.
  - by intros (ps' & [= <-] & Hjwt%Hj & _).
Qed.

Section Requests.
Context `{U : UrlApi}.

(** C25: The requests of clients, by the names of their members.  From a JSON
    object whose names do not repeat, a credential request is read exactly
    when [credential_identifier] and [credential_configuration_id] are texts,
    [proofs] is an object whose [jwt] is a list of texts, [proof] and
    [credential_response_encryption] are anything, each of them missing or
    [null] where it is [None], and the other members of [proofs] are kept
    under their names; and a token request exactly when [grant_type] is a text
    and [code], [code_verifier], [client_id], [pre-authorized_code] and
    [tx_code] are texts and [redirect_uri] a URL, each of them missing or
    [null] where it is [None].  Other members are ignored. *)
Theorem client_requests_read ms :
  NoDup ms.*1 -> (forall ps, obj_get ms "proofs" = Some (VObject ps) -> NoDup ps.*1) ->
  (forall r, de credential_request (VObject ms) = Some r <->
     member_read is_text ms "credential_identifier" (cr_credential_identifier r) /\
     member_read is_text ms "credential_configuration_id" (cr_credential_configuration_id r) /\
     member_read is_proofs ms "proofs" (cr_proofs r) /\
     member_read is_value ms "proof" (cr_proof r) /\
     member_read is_value ms "credential_response_encryption" (cr_credential_response_encryption r)) /\
  (forall r, de token_request (VObject ms) = Some r <->
     obj_get ms "grant_type" = Some (VString (tr_grant_type r)) /\
     member_read is_text ms "code" (tr_code r) /\
     member_read is_url ms "redirect_uri" (tr_redirect_uri r) /\
     member_read is_text ms "code_verifier" (tr_code_verifier r) /\
     member_read is_text ms "client_id" (tr_client_id r) /\
     member_read is_text ms "pre-authorized_code" (tr_pre_authorized_code r) /\
     member_read is_text ms "tx_code" (tr_tx_code r)).
Proof.
  intros Hd Hps. split; intros r.
  - unfold credential_request. rewrite struct_read by (done || (by intros []) || solve_tuples).
    rewrite !take_field_read, !(skip_none_read _ _ _ _ _ text_read), !(skip_none_read _ _ _ _ _ value_read). simpl (take_fields _ _).
    assert (Hp : m_get (skip_none proofs) (obj_get ms "proofs") = Some (cr_proofs r) <->
      member_read is_proofs ms "proofs" (cr_proofs r)).
    { apply skip_none_read_at. intros v p Hv. apply proofs_read. intros ps ->. by apply Hps. }
    rewrite Hp. naive_solver.
  - unfold token_request. rewrite struct_read by (done || (by intros []) || solve_tuples).
    rewrite !take_field_read, !(skip_none_read _ _ _ _ _ text_read), !(skip_none_read _ _ _ _ _ url_read). simpl (take_fields _ _).
    cbn [m_get required]. destruct (obj_get ms "grant_type") as [v|]; simpl; [|naive_solver].
    assert (as_str v = Some (tr_grant_type r) <-> Some v = Some (VString (tr_grant_type r))) as ->; [|naive_solver].
    destruct v; simpl; naive_solver.
Qed.
End Requests.

Lemma i64_typed z : in_i64 z = true -> typed i64 z.
Proof. rewrite in_i64_spec. unfold i64_min, i64_max. simpl. lia. Qed.

(** C32: Two types are not read back.  An mdoc credential without a device
    signature leaves the member out when it is written, and its reader, which
    has a deserializer of its own and no default, then misses it; and SD-JWT VC
    claims without digests leave [_sd] out, which their reader demands.  With a
    device signature, and with a digest, both are read back as they were. *)
Theorem absent_members_unreadable `{B : Base64Url} `{BL : !Base64UrlLaws B} :
  (forall c, Forall is_u8 (mc_issuer_signed c) -> (forall b, mc_device_signed c = Some b -> Forall is_u8 b) ->
     de mdoc_credential (ser mdoc_credential c) = match mc_device_signed c with Some _ => Some c | None => None end) /\
  (forall c, in_i64 (sc_iat c) = true -> (forall t, sc_exp c = Some t -> in_i64 t = true) ->
     (forall t, sc_nbf c = Some t -> in_i64 t = true) -> sc_cnf c <> Some VNull -> sc_status c <> Some VNull ->
     Forall (fun n => sc_plain_claims c !! n = None)
       ["iss"; "sub"; "iat"; "exp"; "nbf"; "vct"; "_sd"; "_sd_alg"; "cnf"; "status"]%string ->
     de sd_jwt_vc_claims (ser sd_jwt_vc_claims c) = match sc_sd c with [] => None | _ => Some c end).
Proof.
  split.
  - intros [doc issuer device] Hi Hd. simpl in Hi, Hd. unfold mdoc_credential. rewrite struct_again by (by apply (bool_decide_unpack _)).
    cbn. unfold bytes_deserialize, bytes_serialize. pose proof (b64url_roundtrip issuer Hi) as Hb. rewrite Hb. cbn.
    destruct device as [d|]; cbn; [|done]. pose proof (b64url_roundtrip d (Hd d eq_refl)) as Hb'.
    rewrite bool_decide_eq_false_2 by done. cbn. unfold option_bytes_deserialize. by rewrite Hb'.
  - intros c Hiat Hexp Hnbf Hcnf Hst Hpl. unfold sd_jwt_vc_claims.
    rewrite flattened_again; [|typeclasses eauto|by apply (bool_decide_unpack _)|done|by intros ? ? ?].
    destruct c as [iss sub iat exp nbf vct sd alg cnf st plain].
    cbn [sc_iss sc_sub sc_iat sc_exp sc_nbf sc_vct sc_sd sc_sd_alg sc_cnf sc_status sc_plain_claims] in *.
    cbn [again fst snd]. rewrite !(get_put (m := required text)), !(get_put (m := skip_none text)), (get_put (m := required i64)),
      !(get_put (m := skip_none i64)), !(get_put (m := skip_none value)).
    all: try done. all: try (by apply present_value). all: try (by intros ? [=]); try (by apply i64_typed).
    2,3: intros t Ht; split; [apply i64_typed; by auto|done].
    destruct sd as [|s sd]; [reflexivity|].
    assert (Hsd : m_get (skip_empty text) (m_put (skip_empty text) (s :: sd)) = Some (s :: sd)); [|by rewrite Hsd].
    apply (read_written (c := list_of text)), list.Forall_forall. done.
Qed.

(** ** The derived serializers of the other files *)
Section Derived.
Context `{J : SerdeJson} `{JL : !SerdeJsonLaws J}.

(** The text of a value is read as an [A]. *)
Definition from_text {A} (c : codec A) (b : bytes) : A + string :=
  match value_from_slice b with
  | inl v => match de c v with Some a => inl a | None => inr (type_error "a struct" v) end
  | inr e => inr e
  end.

Definition derived_header : HeaderSerde := {|
  header_to_vec h := value_to_vec (ser jws_header h);
  header_from_slice := from_text jws_header |}.
Definition derived_claims : ClaimsSerde := {|
  claims_to_vec c := value_to_vec (ser sd_jwt_vc_claims c);
  jwk_from_value v := match de jwk v with Some k => inl k | None => inr (type_error "struct Jwk" v) end |}.

#[export] Instance jwk_fits d : Fits (S d) jwk.
Proof. solve_fits. Qed.
#[export] Instance jws_header_fits d : Fits (S (S (S d))) jws_header.
Proof. solve_fits. Qed.
End Derived.
