(* ===== verification/WireAnswers.v ===== *)
(** * What clients read

    The JSON of the answers of crates/server: the value a response's document
    is written to, and that a client that parses the body of any answer of the
    issuer reads the document that was sent.  Here too, the laws that the other
    files assume of the derived serializers are derived from those of
    [serde_json]. *)
From S2P Require Import Prelude Externals Strings Effects Json Serde Keys Jws SdJwt X509 StatusManager Errors Oid4vci Oid4vp.
From S2P Require Import IssuerState IssuerStateSpec Authorization Token Dpop ClientAttestation Offer Credential CredentialIssuance.
From S2P Require Import X509 Cbor Cose Mdoc Metadata Http ServerState IssuerRoutes RequestAuth IssuerRoutesSpec IssuerServer IssuerAnswers Wire.

(** The laws of the derived serializers hold.  When [serde_json] reads back
    the values it prints, JWS headers and JWKs are read back as they were
    written, and SD-JWT VC claims as the object that the other files take them
    for. *)
Theorem serde_laws_derived `{J : SerdeJson} `{JL : !SerdeJsonLaws J} :
  HeaderSerdeLaws derived_header /\ ClaimsSerdeLaws derived_claims J /\ JwkSerdeLaws derived_claims.
Proof.
  split; [|split]; split.
  - intros h b Hb. cbn [header_to_vec header_from_slice derived_header] in *.
    pose proof (fits_typed (d := 127) (c := jws_header) h (jws_header_typed h)) as Hf.
    destruct (value_roundtrip _ _ Hf Hb) as [Hu Hr]. split; [done|]. unfold from_text. rewrite Hr.
    by rewrite (read_written (c := jws_header) h (jws_header_typed h)).
  - intros c b Hb Hf. cbn [claims_to_vec derived_claims] in Hb. rewrite claims_ser in Hb. by apply value_roundtrip.
  - intros k. cbn [jwk_from_value derived_claims]. rewrite <- jwk_ser.
    by rewrite (read_written (c := jwk) k (jwk_typed k)).
Qed.

Section Documents.
Context `{U : UrlApi} `{HttpApi}.

(** [Json(body)]: the value a document is written to. *)
Definition doc_value (doc : JsonDoc) : Value :=
  match doc with
  | ErrorDoc e => ser error_response e
  | ParDoc r => ser pushed_authorization_response r
  | TokenDoc r => ser token_response r
  | NonceDoc r => ser nonce_response r
  | CredentialDoc r => ser credential_response r
  | OfferDoc offer offer_uri =>
      json_obj [("credential_offer"%string, ser credential_offer offer); ("credential_offer_uri"%string, VString offer_uri)]
  | IssuerMetadataDoc m => ser credential_issuer_metadata m
  | ServerMetadataDoc m => ser authorization_server_metadata m
  | JwksDoc k => ser jwks k
  | StatusListDoc c => ser status_list_2021_credential c
  | RequestDoc session_id request_uri wallet_uri request =>
      json_obj [("session_id"%string, VString session_id); ("request_uri"%string, ser url request_uri);
        ("wallet_uri"%string, VString wallet_uri); ("authorization_request"%string, ser authorization_request request)]
  | ValueDoc v => v
  end.

(** A client reads the document from the value. *)
Definition doc_read (doc : JsonDoc) (v : Value) : Prop :=
  match doc with
  | ErrorDoc e => de error_response v = Some e
  | ParDoc r => de pushed_authorization_response v = Some r
  | TokenDoc r => de token_response v = Some r
  | NonceDoc r => de nonce_response v = Some r
  | CredentialDoc r => de credential_response v = Some r
  | OfferDoc offer offer_uri =>
      get v "credential_offer" ≫= de credential_offer = Some offer /\ get_str v "credential_offer_uri" = Some offer_uri
  | IssuerMetadataDoc m => de credential_issuer_metadata v = Some m
  | ServerMetadataDoc m => de authorization_server_metadata v = Some m
  | JwksDoc k => de jwks v = Some k
  | StatusListDoc c => de status_list_2021_credential v = Some c
  | RequestDoc session_id request_uri wallet_uri request =>
      get_str v "session_id" = Some session_id /\ get v "request_uri" ≫= de url = Some request_uri /\
      get_str v "wallet_uri" = Some wallet_uri /\ get v "authorization_request" ≫= de authorization_request = Some request
  | ValueDoc w => v = w
  end.

Definition doc_typed (doc : JsonDoc) : Prop :=
  match doc with
  | ErrorDoc e => typed error_response e
  | ParDoc r => typed pushed_authorization_response r
  | TokenDoc r => typed token_response r
  | NonceDoc r => typed nonce_response r
  | CredentialDoc r => typed credential_response r
  | OfferDoc offer _ => typed credential_offer offer
  | IssuerMetadataDoc m => typed credential_issuer_metadata m
  | ServerMetadataDoc m => typed authorization_server_metadata m
  | JwksDoc k => typed jwks k
  | StatusListDoc c => typed status_list_2021_credential c
  | RequestDoc _ request_uri _ request => typed url request_uri /\ typed authorization_request request
  | ValueDoc _ => True
  end.

Lemma doc_reads `{UL : !UrlLaws U} doc : doc_typed doc -> doc_read doc (doc_value doc).
Proof.
  destruct doc; cbn [doc_typed doc_read doc_value]; intros Ht; try (by apply read_written); try done.
  - unfold get_str. rewrite !json_obj_get by (by apply (bool_decide_unpack _)). cbn [obj_get]. 
    rewrite bool_decide_eq_true_2, bool_decide_eq_false_2 by done. cbn. split; [|done]. by apply (read_written (c := credential_offer)).
  - unfold get_str. rewrite !json_obj_get by (by apply (bool_decide_unpack _)). destruct Ht as [Hu Hr]. cbn -[de ser].
    split; [done|]. split; [by apply (read_written (c := url))|]. split; [done|]. by apply (read_written (c := authorization_request)).
Qed.

(** *** The members of the issuer's answers, by their names *)
Definition strings_json (l : list string) : Value := VArray (map VString l).

Definition error_json (e : ErrorResponse) : Value := json_obj (
  [("error"%string, VString (er_error e))] ++ opt_member "error_description" VString (er_error_description e) ++
  opt_member "c_nonce" VString (er_c_nonce e) ++ opt_member "c_nonce_expires_in" VInt (er_c_nonce_expires_in e)).

Definition detail_json (d : AuthorizedDetail) : Value := json_obj [
  ("type"%string, VString (aud_detail_type d));
  ("credential_configuration_id"%string, VString (aud_credential_configuration_id d));
  ("credential_identifiers"%string, strings_json (aud_credential_identifiers d))].

Definition token_json (r : TokenResponse) : Value := json_obj (
  [("access_token"%string, VString (tor_access_token r)); ("token_type"%string, VString (tor_token_type r));
   ("expires_in"%string, VInt (tor_expires_in r))] ++
  opt_member "authorization_details" (fun l => VArray (map detail_json l)) (tor_authorization_details r)).

Definition credentials_json (r : CredentialResponse) : Value := json_obj (
  opt_member "credentials" (fun l => VArray (map (fun c => json_obj [("credential"%string, ic_credential c)]) l))
    (crr_credentials r) ++
  opt_member "transaction_id" VString (crr_transaction_id r) ++ opt_member "interval" VInt (crr_interval r) ++
  opt_member "notification_id" VString (crr_notification_id r)).

Definition tx_code_json (t : TxCode) : Value := json_obj (
  opt_member "input_mode" VString (tc_input_mode t) ++ opt_member "length" VInt (tc_length t) ++
  opt_member "description" VString (tc_description t)).

Definition grants_json (g : Grants) : Value := json_obj (
  opt_member "authorization_code" (fun a => json_obj (
      opt_member "issuer_state" VString (acg_issuer_state a) ++
      opt_member "authorization_server" (fun u => VString (url_as_str u)) (acg_authorization_server a)))
    (g_authorization_code g) ++
  opt_member "urn:ietf:params:oauth:grant-type:pre-authorized_code" (fun p => json_obj (
      [("pre-authorized_code"%string, VString (pacg_pre_authorized_code p))] ++
      opt_member "tx_code" tx_code_json (pacg_tx_code p)))
    (g_pre_authorized_code g)).

Definition offer_json (o : CredentialOffer) : Value := json_obj (
  [("credential_issuer"%string, VString (co_credential_issuer o));
   ("credential_configuration_ids"%string, strings_json (co_credential_configuration_ids o))] ++
  opt_member "grants" grants_json (co_grants o)).

Definition answer_json (doc : JsonDoc) : option Value :=
  match doc with
  | ErrorDoc e => Some (error_json e)
  | ParDoc r => Some (json_obj [("request_uri"%string, VString (puar_request_uri r));
      ("expires_in"%string, VInt (puar_expires_in r))])
  | TokenDoc r => Some (token_json r)
  | NonceDoc r => Some (json_obj [("c_nonce"%string, VString (nr_c_nonce r))])
  | CredentialDoc r => Some (credentials_json r)
  | OfferDoc o uri => Some (json_obj [("credential_offer"%string, offer_json o);
      ("credential_offer_uri"%string, VString uri)])
  | _ => None
  end.

(** They are what the codecs write. *)
Lemma answer_json_written doc v : answer_json doc = Some v -> doc_value doc = v.
Proof.
  destruct doc as [[e [] [] []]|r|[t k x [l|]]|r|[[l|] [] [] []]|[i l [[[[[] []]|] [[c [[[] [] []]|]]|]]|]] u| | | | | |];
    simpl; intros [= <-]; try reflexivity.
Qed.

(** An answer whose document can be sent: it is typed, prints, and has the
    members above. *)
Definition sendable (r : Response) : Prop :=
  match rs_body r with
  | JsonBody doc => is_Some (answer_json doc) /\ doc_typed doc /\ fits 127 (doc_value doc) = true
  | HtmlBody _ | RedirectBody _ => True
  | _ => False
  end.

(** The client's side: the body, if it is JSON, is the text of an object with
    the members above, from which the document is read; otherwise it is a page
    or a redirect. *)
Definition readable `{SerdeJson} (r : Response) : Prop :=
  match rs_body r with
  | JsonBody doc => exists v b, answer_json doc = Some v /\
      value_to_vec (doc_value doc) = inl b /\ value_from_slice b = inl v /\ doc_read doc v
  | HtmlBody _ | RedirectBody _ => True
  | _ => False
  end.

Lemma sendable_readable `{UL : !UrlLaws U} `{J : SerdeJson} `{JL : !SerdeJsonLaws J} r : sendable r -> readable r.
Proof.
  unfold sendable, readable. destruct (rs_body r); try done. intros ([v Hv] & Ht & Hf).
  destruct (value_to_vec_total _ Hf) as [b Hb]. exists v, b. split; [done|]. split; [done|].
  rewrite <- (answer_json_written doc v Hv). split; [by eapply value_roundtrip|by apply doc_reads].
Qed.
End Documents.

(** ** The answers of the issuer *)
#[export] Instance error_response_fits d : Fits (S d) error_response.
Proof. solve_fits. Qed.
#[export] Instance pushed_authorization_response_fits d : Fits (S d) pushed_authorization_response.
Proof. solve_fits. Qed.
#[export] Instance authorized_detail_fits d : Fits (S (S d)) authorized_detail.
Proof. solve_fits. Qed.
#[export] Instance token_response_fits d : Fits (S (S (S (S d)))) token_response.
Proof. solve_fits. Qed.
#[export] Instance nonce_response_fits d : Fits (S d) nonce_response.
Proof. solve_fits. Qed.

Section OfferFits.
Context `{UrlApi}.
#[export] Instance url_fits d : Fits d url.
Proof. apply parsed_fits. Qed.
#[export] Instance authorization_code_grant_fits d : Fits (S d) authorization_code_grant.
Proof. solve_fits. Qed.
#[export] Instance tx_code_fits d : Fits (S d) tx_code.
Proof. solve_fits. Qed.
#[export] Instance pre_authorized_code_grant_fits d : Fits (S (S d)) pre_authorized_code_grant.
Proof. solve_fits. Qed.
#[export] Instance grants_fits d : Fits (S (S (S d))) grants.
Proof. solve_fits. Qed.
#[export] Instance credential_offer_fits d : Fits (S (S (S (S d)))) credential_offer.
Proof. solve_fits. Qed.
End OfferFits.

Section Answers.
Context `{S2 : Sha2} `{B64 : Base64Url} `{B64S : Base64Std} `{P : P256} `{D : Ed25519} `{HS : HeaderSerde}.
Context `{J : SerdeJson} `{JL : !SerdeJsonLaws J} `{CS : ClaimsSerde} `{U : UrlApi} `{UL : !UrlLaws U}.
Context `{CT : CosetTypes} `{K : !Coset} `{CB : Ciborium} `{KL : !CosetLaws K CB} `{DS : DebugStr} `{XA : X509Api}.
Context `{PR : Profile} `{AS : Assets} `{HI : HashIter} `{HIL : !HashIterLaws HI} `{HA : HttpApi} `{!OfferSerde}.
Context `{CH : Chrono} `{CHL : !ChronoLaws CH}.

Lemma json_with_sendable statuses documents r :
  (forall doc, documents doc -> is_Some (answer_json doc) /\ doc_typed doc /\ fits 127 (doc_value doc) = true) ->
  json_with statuses documents r -> sendable r.
Proof. intros Hd (_ & doc & Hb & Hdoc). unfold sendable. rewrite Hb. by apply Hd. Qed.

Lemma page_sendable statuses r : page_with statuses r -> sendable r.
Proof. intros [_ Hb]. unfold sendable. by destruct (rs_body r). Qed.

Lemma error_doc_sent doc : error_doc doc -> is_Some (answer_json doc) /\ doc_typed doc /\ fits 127 (doc_value doc) = true.
Proof.
  intros (code & d & ->). assert (Ht : typed error_response (mkErrorResponse code (Some d) None None)) by solve_typed.
  split; [by eexists|]. split; [exact Ht|]. exact (fits_typed (d := 127) _ Ht).
Qed.

Lemma par_doc_sent doc : par_doc doc -> is_Some (answer_json doc) /\ doc_typed doc /\ fits 127 (doc_value doc) = true.
Proof.
  intros [uri ->]. assert (Ht : typed pushed_authorization_response (mkPushedAuthorizationResponse uri 60)) by (by repeat split).
  split; [by eexists|]. split; [exact Ht|]. exact (fits_typed (d := 127) _ Ht).
Qed.

Lemma token_doc_sent doc : token_doc doc -> is_Some (answer_json doc) /\ doc_typed doc /\ fits 127 (doc_value doc) = true.
Proof.
  intros (token & kind & details & ->).
  assert (Ht : typed token_response (mkTokenResponse token kind ACCESS_TOKEN_TTL_SECS details)).
  { cbn -[uint]. split; [done|]. split; [done|]. split; [by repeat split|]. split; [|done]. solve_typed. }
  split; [by eexists|]. split; [exact Ht|]. exact (fits_typed (d := 127) _ Ht).
Qed.

Lemma nonce_doc_sent doc : nonce_doc doc -> is_Some (answer_json doc) /\ doc_typed doc /\ fits 127 (doc_value doc) = true.
Proof.
  intros [n ->]. split; [by eexists|]. split; [by repeat split|].
  by apply (fits_typed (d := 127) (c := nonce_response)).
Qed.

Lemma offer_doc_sent config doc :
  offer_doc config doc -> is_Some (answer_json doc) /\ doc_typed doc /\ fits 127 (doc_value doc) = true.
Proof.
  intros (issuer & issuer_state & code & uri & ->).
  set (offer := mkCredentialOffer _ _ _). assert (Ht : typed credential_offer offer) by solve_typed.
  split; [by eexists|]. split; [exact Ht|]. apply (json_obj_fits 126).
  constructor; [exact (fits_typed (d := 126) _ Ht)|]. by repeat constructor.
Qed.

Lemma credential_doc_sent doc :
  credential_doc doc -> is_Some (answer_json doc) /\ doc_typed doc /\ fits 127 (doc_value doc) = true.
Proof.
  intros [credentials ->]. split; [by eexists|]. split.
  - cbn -[uint]. split; [|solve_typed]. intros l [= <-]. split; [|done]. apply list.Forall_forall. intros c _. by repeat split.
  - apply (json_obj_fits 126). constructor; [|constructor]. simpl snd. rewrite (fits_array 125).
    apply forallb_forall. intros v (c & <- & Hc)%in_map_iff. apply in_map_iff in Hc as (s & <- & _).
    apply (json_obj_fits 124). repeat constructor.
Qed.

Lemma answers_to_sendable request r response :
  answers_to request r -> r = Ok response \/ r = Err (Some response) -> sendable response.
Proof.
  intros Ha [-> | ->]; destruct request; simpl in Ha; try done;
    first [by eapply page_sendable|eapply json_with_sendable; [|exact Ha]];
    auto using error_doc_sent, par_doc_sent, token_doc_sent, nonce_doc_sent, credential_doc_sent;
    apply offer_doc_sent.
Qed.

(** C22: Clients read what was sent.  Under the conditions under which the issuer
    answers (a build without overflow checks, valid paths, a key pair, calendar
    and document signer in order), and when [serde_json] reads back the values
    it prints: every answer to a request to the issuer, those for credentials
    included and whatever other requests are served at the same time, is a
    page, a redirect or a JSON body.  A JSON body is the text of an object with
    exactly the members that the protocols name: [error] and
    [error_description]; [request_uri] and [expires_in]; [access_token],
    [token_type], [expires_in] and the [authorization_details]; [c_nonce]; the
    [credentials] with a [credential] each; or the [credential_offer], its
    grants with the [issuer_state] and, under its URN, the
    [pre-authorized_code].  A client that parses it reads the document that
    was sent. *)
Theorem answers_readable fuel state status requests w v ps w' :
  can_serve state -> draws_indices status -> server_refines w v -> manager_urls (store w).2 ->
  csteps (server_handler status) (map (serve fuel state) requests, w) (ps, w') ->
  Forall (fun p => forall response, p = Ret (Ok response) \/ p = Ret (Err (Some response)) -> readable response) ps.
Proof.
  intros Hs Hd Hw Hm Hc. pose proof (served_answers _ _ _ _ _ _ _ _ Hs Hd Hw Hm Hc) as Hps.
  clear Hc. induction Hps as [|request p requests ps Hp _ IH]; constructor; [|exact IH].
  intros response Hr. apply sendable_readable. destruct Hr as [-> | ->];
    (eapply answers_to_sendable; [by apply Hp|]); by auto.
Qed.
End Answers.
