(* ===== verification/VerifierRoutes.v ===== *)
(** * The verifier's routes

    crates/server/src/routes/verifier.rs: starting a presentation, serving the
    request and receiving the response. *)
From S2P Require Import Prelude Externals Strings Effects Json Keys Jws Credentials SdJwt X509 Oid4vci Offer Oid4vp.
From S2P Require Import Dcql VerifierState VerifierRequest VerifierResponse Http ServerState.

Section VerifierRoutes.
Context `{Sha2} `{Base64Url} `{Base64Std} `{P256} `{Ed25519} `{HeaderSerde} `{SerdeJson} `{ClaimsSerde}.
Context `{Chrono} `{UrlApi} `{HttpApi}.

(** The query of the demonstration: the holder's two names. *)
Definition identity_query (state : AppState) : DcqlQuery :=
  dcql_build (add_sd_jwt_vc_query dcql_builder_new "identity_credential"
    (app_issuer_id state +:+ "/credentials/identity") [("given_name"%string, true); ("family_name"%string, true)]).

Definition create_authorization `{!OfferSerde} (state : AppState) : prog VerifierF (res Response Response) :=
  do? response_uri <- Ret (url_for state "/verifier/response");
  let params := mkRequestParams (app_issuer_id state) response_uri (Some (identity_query state)) 600 in
  do? ' (auth_request, session_id) <- pmap_err (json_error 500 "server_error") (create_authorization_request params);
  do? request_uri <- Ret (url_for state ("/verifier/request/" +:+ session_id));
  let wallet_uri := "openid4vp://?client_id=" +:+ percent_encode (app_issuer_id state) +:+
    "&request_uri=" +:+ percent_encode (url_as_str request_uri) in
  Ret (Ok (json_response 200 (RequestDoc session_id request_uri wallet_uri auth_request))).

Definition get_request `{!RequestSerde} (state : AppState) (id : string) : prog VerifierF (res Response Response) :=
  do? found <- pmap_err (fun e => json_error 500 "server_error" (session_error_to_string e)) (trigger (GetSession id));
  do? session <- Ret (ok_or found (json_error 404 "not_found" "Session not found"));
  do? jwt <- Ret (map_err (json_error 500 "server_error")
    (encode_request_as_jwt (vs_request session) (app_primary_key state)));
  Ret (Ok (typed_response "application/oauth-authz-req+jwt" (TextBody jwt))).

Definition response_status_and_code (e : ResponseError) : Z * string :=
  match e with
  | RE_InvalidState | RE_SessionExpired => (400, "invalid_request")
  | RE_MissingVpToken => (400, "invalid_request")
  | RE_QueryNotSatisfied _ => (400, "invalid_presentation")
  | RE_NonceMismatch | RE_KeyBindingFailed _ | RE_VerificationFailed _ => (401, "invalid_presentation")
  | RE_StateError _ => (500, "server_error")
  end.

Definition result_body (r : VerificationResult) : Value :=
  json_obj [("session_id"%string, VString (vr_session_id r));
            ("valid"%string, VBool true);
            ("disclosed_claims"%string, json_obj (map_to_list (vr_disclosed_claims r)))].

Definition receive_response (state : AppState) (auth_response : AuthorizationResponse)
    : prog VerifierF (res Response Response) :=
  do? result <- pmap_err (fun e =>
      let '(status, code) := response_status_and_code e in json_error status code (response_error_to_string e))
    (process_response auth_response (app_primary_key state));
  Ret (Ok (json_response 200 (ValueDoc (result_body result)))).
End VerifierRoutes.
