(* ===== verification/StatusRoutes.v ===== *)
(** * The status routes

    crates/server/src/routes/status.rs: publishing the status lists and the
    CRL, and the administration of statuses.  A handler is a function of the
    status manager, which it may update. *)
From S2P Require Import Prelude Externals Strings Effects Json Keys Jws Credentials SdJwt X509 Cbor Cose Mdoc.
From S2P Require Import StatusList TokenStatusList StatusManager Oid4vci Http ServerState.

Definition STATUS_LIST_TTL_SECS : Z := 300.

Record StatusUpdateRequest := mkStatusUpdateRequest {
  su_index : Z;
  su_format : option string;
}.

Definition is_mdoc (r : StatusUpdateRequest) : bool := bool_decide (su_format r = Some "mso_mdoc"%string).

Section StatusRoutes.
Context `{Sha2} `{Base64Url} `{Base64Std} `{P256} `{Ed25519} `{HeaderSerde} `{SerdeJson}.
Context `{Chrono} `{UrlApi} `{CT : CosetTypes} `{!Coset} `{Ciborium} `{DebugStr} `{Flate2} `{HttpApi}.

Definition manager_error (status : Z) (code : string) (e : Manager.ManagerError) : Response :=
  json_error status code (Manager.manager_error_to_string e).

(** ** Publication *)
Definition get_status_list (state : AppState) (id : string) (now : DateTime) (m : Manager.StatusManager)
    : res Response Response * Manager.StatusManager :=
  let '(r, m') := Manager.build_status_list_credential m now id (url_as_str (app_external_url state)) in
  (let? credential := map_err (manager_error 404 "not_found") r in
   Ok (json_response 200 (StatusListDoc credential)), m').

Definition token_status_list_claims (state : AppState) (uri : Url) (now : Z) (l : TokenStatusList) : Value :=
  json_obj [("iss"%string, VString (app_issuer_id state)); ("sub"%string, VString (url_as_str uri));
    ("iat"%string, VInt now); ("exp"%string, VInt (now + 24 * 3600)); ("ttl"%string, VInt STATUS_LIST_TTL_SECS);
    ("status_list"%string, json_obj [("bits"%string, VInt (tsl_bits l)); ("lst"%string, VString (tsl_lst l))])].

Definition get_token_status_list (state : AppState) (id : string) (t : DateTime) (m : Manager.StatusManager)
    : res Response Response :=
  let? l := map_err (manager_error 404 "not_found") (Manager.build_token_status_list m id) in
  let now := timestamp t in
  let? uri := url_for state ("/status/" +:+ id +:+ "/token") in
  let claims := token_status_list_claims state uri now l in
  let header := with_x5c (build_header (app_primary_key state) (Some "statuslist+jwt"%string))
    (Some (x5c (pki_leaf (app_issuer_pki state)))) in
  let? jwt := map_err (fun e => json_error 500 "server_error" (jws_error_to_string e))
    (sign_compact (app_primary_key state) header (value_to_vec claims)) in
  Ok (typed_response "application/statuslist+jwt" (TextBody jwt)).

Definition get_mdoc_status_list (state : AppState) (now : DateTime) (m : Manager.StatusManager)
    : res Response Response :=
  let? ' (bits, lst) := map_err (manager_error 500 "server_error") (Manager.mdoc_status_list m) in
  let? uri := url_for state "/status/mdoc" in
  let? exp := match add_seconds now (24 * 3600) with Some t => Ok t | None => Panic end in
  let l := Mdoc.mkStatusListCwt (url_as_str uri) bits lst now exp (Some (Prelude.as_u64 STATUS_LIST_TTL_SECS))
    [icert_der (pki_mdoc_status_signer (app_issuer_pki state))] in
  let? token := map_err (fun e => json_error 500 "server_error" (Mdoc.mdoc_error_to_string e))
    (Mdoc.sign_status_list_cwt l (app_primary_key state)) in
  Ok (typed_response Mdoc.STATUS_LIST_CWT_TYPE (BytesBody token)).

Definition get_crl (state : AppState) : Response :=
  typed_response "application/pkix-crl" (BytesBody (pki_crl (app_issuer_pki state))).

(** ** Administration *)
Definition reject_mdoc_suspension : Response :=
  json_error 400 "invalid_request"
    "an mdoc can be revoked but not suspended: its revocation list has one bit per mdoc".

(** [fold(0u8, |acc, (a, b)| acc | (a ^ b))] over the zipped bytes. *)
Definition difference (presented expected : bytes) : Z :=
  fold_left (fun acc ab => Z.lor acc (Z.lxor ab.1 ab.2)) (zip presented expected) 0.

Definition presented_token (headers : HeaderMap) : string :=
  default EmptyString (header_str headers "authorization" ≫= strip_prefix "Bearer ").

Definition reject_unauthorized_admin (state : AppState) (headers : HeaderMap) : option Response :=
  let expected := as_bytes (app_admin_token state) in
  let presented_bytes := as_bytes (presented_token headers) in
  let matches := (length presented_bytes =? length expected)%nat && (difference presented_bytes expected =? 0) in
  if matches then None
  else Some (json_error 401 "invalid_token" "admin endpoints require a valid Bearer token").

Definition status_updated (status : string) (index : Z) : Response :=
  json_response 200 (ValueDoc (json_obj [("status"%string, VString status); ("index"%string, VInt index)])).

(** [match revoked { Ok(()) => .., Err(e) => .. }] *)
Definition update_response (status : string) (index : Z) (r : res unit Manager.ManagerError) : res Response Response :=
  let? _ := map_err (manager_error 400 "invalid_request") r in
  Ok (status_updated status index).

Definition revoke_credential (state : AppState) (headers : HeaderMap) (request : StatusUpdateRequest)
    (m : Manager.StatusManager) : res Response Response * Manager.StatusManager :=
  match reject_unauthorized_admin state headers with
  | Some response => (Err response, m)
  | None =>
      let '(revoked, m') :=
        if is_mdoc request then Manager.revoke_mdoc m (su_index request) else Manager.revoke m (su_index request) in
      (update_response "revoked" (su_index request) revoked, m')
  end.

Definition suspend_credential (state : AppState) (headers : HeaderMap) (request : StatusUpdateRequest)
    (m : Manager.StatusManager) : res Response Response * Manager.StatusManager :=
  match reject_unauthorized_admin state headers with
  | Some response => (Err response, m)
  | None =>
      if is_mdoc request then (Err reject_mdoc_suspension, m)
      else
        let '(suspended, m') := Manager.suspend m (su_index request) in
        (update_response "suspended" (su_index request) suspended, m')
  end.

Definition reinstate_credential (state : AppState) (headers : HeaderMap) (request : StatusUpdateRequest)
    (m : Manager.StatusManager) : res Response Response * Manager.StatusManager :=
  match reject_unauthorized_admin state headers with
  | Some response => (Err response, m)
  | None =>
      if is_mdoc request then (Err reject_mdoc_suspension, m)
      else
        let '(reinstated, m') := Manager.reinstate m (su_index request) in
        (update_response "reinstated" (su_index request) reinstated, m')
  end.
End StatusRoutes.

(** ** Who may change a status, and to what *)
Section AdminRoutes.
Context `{Sha2} `{Base64Url} `{Base64Std} `{P256} `{Ed25519} `{Chrono} `{Flate2} `{UrlApi} `{HttpApi}.

Lemma difference_zero presented expected :
  length presented = length expected -> difference presented expected = 0 <-> presented = expected.
Proof.
  unfold difference. intros Hlen.
  assert (Hgo : forall acc, fold_left (fun acc ab => Z.lor acc (Z.lxor ab.1 ab.2)) (zip presented expected) acc = 0 <->
    acc = 0 /\ presented = expected).
  { revert expected Hlen. induction presented as [|a l IH]; intros [|b k] Hlen acc; simpl in Hlen |- *; [naive_solver|done..|].
    rewrite IH by lia. rewrite Z.lor_eq_0_iff, Z.lxor_eq_0_iff. naive_solver. }
  rewrite Hgo. naive_solver.
Qed.

(** The comparison is that of the two tokens. *)
Lemma reject_unauthorized_spec state headers :
  reject_unauthorized_admin state headers =
    if decide (presented_token headers = app_admin_token state) then None
    else Some (json_error 401 "invalid_token" "admin endpoints require a valid Bearer token").
Proof.
  unfold reject_unauthorized_admin. case_decide as Heq.
  - rewrite Heq, Nat.eqb_refl. by rewrite (proj2 (difference_zero _ _ eq_refl) eq_refl).
  - destruct (Nat.eqb_spec (length (as_bytes (presented_token headers))) (length (as_bytes (app_admin_token state))))
      as [Hlen|]; [|done].
    simpl. destruct (Z.eqb_spec (difference (as_bytes (presented_token headers)) (as_bytes (app_admin_token state))) 0)
      as [Hz|]; [|done].
    apply difference_zero, as_bytes_inj in Hz; done.
Qed.

(** The three endpoints. *)
Inductive admin_action := Revoke | Suspend | Reinstate.

Definition admin_endpoint (a : admin_action) :=
  match a with Revoke => revoke_credential | Suspend => suspend_credential | Reinstate => reinstate_credential end.

Definition action_status (a : admin_action) : StatusPurpose * bool * string :=
  match a with
  | Revoke => (Revocation, true, "revoked"%string)
  | Suspend => (Suspension, true, "suspended"%string)
  | Reinstate => (Suspension, false, "reinstated"%string)
  end.

(** C40: Administration.  An administrative request without the admin token is
    answered with status 401 and changes nothing.  With it, in every reachable
    state of the manager and for every index in range: an SD-JWT VC gets the
    status of the action, in both published formats, and no other status of any
    SD-JWT VC nor of any mdoc changes; an mdoc is revoked, and no other mdoc
    is, and the status of every SD-JWT VC, that of the same index included,
    stays what it was; but an mdoc cannot be suspended or reinstated. *)
Theorem admin_update_exact (u : Url) m0 tr m state headers request a :
  Manager.new u = Ok m0 -> Manager.steps m0 tr m ->
  poisoned (Manager.lists m) = false -> poisoned (Manager.mdoc m) = false ->
  0 <= su_index request < Manager.LIST_CAPACITY ->
  let '(r, m') := admin_endpoint a state headers request m in
  let '(p, v, word) := action_status a in
  if decide (presented_token headers = app_admin_token state) then
    if is_mdoc request then
      match a with
      | Revoke => r = Ok (status_updated word (su_index request)) /\
          (forall j, 0 <= j -> (Manager.mdoc_revoked m' j <-> j = su_index request \/ Manager.mdoc_revoked m j)) /\
          forall q j, Manager.published_status m' q j = Manager.published_status m q j
      | _ => r = Err reject_mdoc_suspension /\ m' = m
      end
    else r = Ok (status_updated word (su_index request)) /\
      (forall q j, 0 <= j < Manager.LIST_CAPACITY ->
        Manager.published_status m' q j =
          if decide (q = p /\ j = su_index request) then Some (Ok v, Ok (if v then Manager.marker p else Valid))
          else Manager.published_status m q j) /\
      forall j, Manager.mdoc_revoked m' j <-> Manager.mdoc_revoked m j
  else m' = m /\ exists response, r = Err response /\ rs_status response = 401.
Proof.
  intros Hnew Hs Hp Hpm Hi. apply Manager.new_inv in Hnew. pose proof (Manager.steps_inv _ _ _ Hs Hnew) as Hinv.
  destruct (Manager.mdoc_published m _ Hinv Hpm Hi) as (mm & Em & Hlists & Hmdoc).
  assert (Hother : forall m', Manager.mdoc m' = Manager.mdoc m -> forall j, Manager.mdoc_revoked m' j <-> Manager.mdoc_revoked m j).
  { intros m' Hm j. unfold Manager.mdoc_revoked. by rewrite Hm. }
  destruct a; simpl; unfold revoke_credential, suspend_credential, reinstate_credential; rewrite reject_unauthorized_spec;
    (case_decide; [|by eauto]); destruct (is_mdoc request); try done.
  - rewrite Em. split; [done|]. split; [done|]. intros q j. unfold Manager.published_status, Manager.list_of. by rewrite Hlists.
  - destruct (Manager.update_published m _ Revocation true Hinv Hp Hi) as (m' & E & Hm & Hpub); [done|].
    simpl in E. rewrite E. auto.
  - destruct (Manager.update_published m _ Suspension true Hinv Hp Hi) as (m' & E & Hm & Hpub); [done|].
    simpl in E. rewrite E. auto.
  - destruct (Manager.update_published m _ Suspension false Hinv Hp Hi) as (m' & E & Hm & Hpub); [done|].
    simpl in E. rewrite E. auto.
Qed.
End AdminRoutes.
