(* ===== verification/WellKnown.v ===== *)
(** * The well-known documents and the routing table

    crates/server/src/routes/well_known.rs, and the paths each router
    registers with the list of them in crates/server/src/lib.rs. *)
From S2P Require Import Prelude Externals Strings Effects Json Keys X509 Oid4vci Metadata Http ServerState IssuerRoutes.

Section WellKnown.
Context `{Sha2} `{Base64Url} `{Base64Std} `{P256} `{Ed25519} `{UrlApi} `{HttpApi}.

Definition unnamed_config (state : AppState) : MetadataConfig := mkMetadataConfig (app_external_url state) EmptyString.

Definition identity_type_metadata (state : AppState) : Response :=
  json_response 200 (ValueDoc (build_identity_type_metadata (unnamed_config state))).

Definition issuer_metadata (state : AppState) : Response := json_response 200 (IssuerMetadataDoc (app_metadata state)).

Definition authorization_server_metadata (state : AppState) : res Response Response :=
  let? m := build_authorization_server_metadata (unnamed_config state) in
  Ok (json_response 200 (ServerMetadataDoc m)).

Definition jwks (state : AppState) : res Response KeyError :=
  let? primary := kp_public_jwk (app_primary_key state) in
  let? secondary := kp_public_jwk (app_secondary_key state) in
  Ok (json_response 200 (JwksDoc (JwksOps.new [primary; secondary]))).
End WellKnown.

(** ** The routing table *)
Definition route : Type := string * string.

Definition well_known_routes : list route := [
  ("GET", "/.well-known/openid-credential-issuer");
  ("GET", "/.well-known/oauth-authorization-server");
  ("GET", "/.well-known/openid-configuration");
  ("GET", "/.well-known/jwks.json");
  ("GET", IDENTITY_VCT_PATH)]%string.

Definition issuer_routes : list route := [
  ("POST", "/authorize/par");
  ("GET", "/authorize");
  ("POST", "/authorize/decision");
  ("POST", "/token");
  ("POST", "/nonce");
  ("POST", "/credential");
  ("GET", "/credential_offer")]%string.

Definition verifier_routes : list route := [
  ("POST", "/verifier/authorize");
  ("GET", "/verifier/request/{id}");
  ("POST", "/verifier/response")]%string.

Definition status_routes : list route := [
  ("GET", MDOC_STATUS_PATH);
  ("GET", CRL_PATH);
  ("GET", "/status/{id}");
  ("GET", "/status/{id}/token");
  ("POST", "/admin/status/revoke");
  ("POST", "/admin/status/suspend");
  ("POST", "/admin/status/reinstate")]%string.

(** The routers merged, in the order of [build_router]. *)
Definition build_router : list route := well_known_routes ++ issuer_routes ++ verifier_routes ++ status_routes.

Definition ENDPOINTS : list route := [
  ("GET", "/.well-known/openid-credential-issuer");
  ("GET", "/.well-known/oauth-authorization-server");
  ("GET", "/.well-known/jwks.json");
  ("GET", "/credentials/identity");
  ("GET", "/credential_offer");
  ("POST", "/authorize/par");
  ("GET", "/authorize");
  ("POST", "/authorize/decision");
  ("POST", "/token");
  ("POST", "/nonce");
  ("POST", "/credential");
  ("POST", "/verifier/authorize");
  ("GET", "/verifier/request/{id}");
  ("POST", "/verifier/response");
  ("GET", "/status/{id}");
  ("GET", "/status/{id}/token");
  ("GET", "/status/mdoc");
  ("GET", "/iaca.crl");
  ("POST", "/admin/status/revoke");
  ("POST", "/admin/status/suspend");
  ("POST", "/admin/status/reinstate")]%string.

(** No path is registered twice for a method, which axum would panic on, and
    the list of endpoints misses one of the paths served. *)
Lemma endpoints_served :
  NoDup build_router /\ build_router ≡ₚ ("GET", "/.well-known/openid-configuration")%string :: ENDPOINTS.
Proof.
  assert (Hn : forall l : list route, bool_decide (NoDup l) = true -> NoDup l) by (intros l; apply bool_decide_eq_true).
  split; [by apply Hn|]. apply NoDup_Permutation; [by apply Hn..|]. intros r.
  split; intros Hr; (refine (proj1 (list.Forall_forall (fun x => x ∈ _) _) _ r Hr));
    apply (bool_decide_unpack _); vm_compute; exact I.
Qed.
