(* ===== verification/Startup.v ===== *)
(** * Configuration and start-up

    crates/server/src/config.rs and the construction of the shared state in
    crates/server/src/state.rs: the environment, the key and certificate files
    and what they hold after a start.  The file system is an effect, modelled
    as a map from paths to contents and modes; log lines are not modelled. *)
From S2P Require Import Prelude Externals Strings Effects Json Keys X509 X509Mint StatusManager Oid4vci Metadata Http.
From S2P Require Import ServerState StatusRoutes.

(** ** config.rs *)
Section Config.
Context `{UrlApi}.

Record ServerConfig := mkServerConfig {
  sc_host : string;
  sc_port : Z;
  sc_external_url : Url;
  sc_issuer_name : string;
  sc_p256_key_path : option string;
  sc_ed25519_key_path : option string;
  sc_cert_path : option string;
  sc_trust_anchor_path : option string;
  sc_client_attester_jwks_path : option string;
  sc_admin_token : option string;
}.

(** An error of [anyhow] is its text; the environment gives the variables that
    are set to Unicode text. *)
Definition from_env (env : string -> option string) : res ServerConfig string :=
  let host := default "0.0.0.0"%string (env "SERVER_HOST"%string) in
  let? port := parse_uint (2 ^ 16) (default "3000"%string (env "SERVER_PORT"%string)) in
  let? external_url := from_ext (url_parse
    (default ("http://localhost:" +:+ pretty (Z.to_N port)) (env "EXTERNAL_URL"%string))) in
  let issuer_name := default "OID4VC-RS Development Issuer"%string (env "CREDENTIAL_ISSUER_NAME"%string) in
  Ok {|
    sc_host := host;
    sc_port := port;
    sc_external_url := external_url;
    sc_issuer_name := issuer_name;
    sc_p256_key_path := env "ISSUER_KEY_P256_PEM"%string;
    sc_ed25519_key_path := env "ISSUER_KEY_ED25519_PEM"%string;
    sc_cert_path := env "ISSUER_CERT_PEM"%string;
    sc_trust_anchor_path := env "ISSUER_TRUST_ANCHOR_PEM"%string;
    sc_client_attester_jwks_path := env "CLIENT_ATTESTER_JWKS"%string;
    sc_admin_token := env "ADMIN_API_TOKEN"%string ≫= fun t => if bool_decide (t = EmptyString) then None else Some t |}.

Definition config_issuer_id (config : ServerConfig) : string :=
  trim_end_matches slash (url_as_str (sc_external_url config)).

Definition config_default {E} : res ServerConfig E :=
  let? external_url := unwrap (from_ext (url_parse "http://localhost:3000")) in
  Ok (mkServerConfig "127.0.0.1" 3000 external_url "OID4VC-RS Development Issuer" None None None None None None).
End Config.

(** ** The file system *)
Inductive FileE : Type -> Type :=
| PathExists (path : string) : FileE bool
| ReadToString (path : string) : FileE (string + string)
| CreateDirAll (path : string) : FileE (unit + string)
| WriteFile (path contents : string) : FileE (unit + string)
| SetMode (path : string) (mode : Z) : FileE (unit + string).

Definition StartF : Type -> Type := sumE SysE FileE.
#[export] Instance Sub_sys_start : Sub SysE StartF := fun X e => inlE e.
#[export] Instance Sub_file_start : Sub FileE StartF := fun X e => inrE e.

(** Contents and mode of every file. *)
Abbreviation Files := (gmap string (string * Z)).

(** The mode of a file the process creates: 0644. *)
Definition DEFAULT_MODE : Z := 420.
(** 0600 *)
Definition OWNER_ONLY : Z := 384.

(** A file system on which writing to some paths fails. *)
Definition file_backend (faulty : string -> bool) : backend FileE Files := fun X e now fs =>
  match e in FileE X return X * Files with
  | PathExists p => (bool_decide (is_Some (fs !! p)), fs)
  | ReadToString p =>
      (match fs !! p with Some f => inl f.1 | None => inr "No such file or directory (os error 2)"%string end, fs)
  | CreateDirAll p => (if faulty p then inr "Permission denied (os error 13)"%string else inl tt, fs)
  | WriteFile p contents =>
      if faulty p then (inr "Permission denied (os error 13)"%string, fs)
      else (inl tt, <[p := (contents, from_option snd DEFAULT_MODE (fs !! p))]> fs)
  | SetMode p mode =>
      if faulty p then (inr "Operation not permitted (os error 1)"%string, fs)
      else (inl tt, alter (fun f => (f.1, mode)) p fs)
  end.

(** What start-up uses of other crates, and of [std::path]: the parent of a
    path, [host_str], [serde_json] on a JWKS file, and the keys made from random
    bytes. *)
Class Deployment `{P256} `{Ed25519} `{UrlApi} := {
  path_parent : string -> option string;
  url_host_str : Url -> option string;
  jwks_from_str : string -> Jwks + string;
  p256_random : bytes -> P256SigningKey;
  ed_random : bytes -> EdSigningKey;
}.

(** ** state.rs *)
Section Startup.
Context `{Sha2} `{Base64Url} `{Base64Std} `{P256} `{Ed25519} `{Chrono} `{UrlApi} `{X509Api}.
Context `{RT : RcgenTypes} `{!Rcgen} `{HttpApi} `{!Deployment}.

Definition io {X} (e : FileE (X + string)) : prog StartF (res X string) := pmap from_ext (trigger e).

(** [if let Some(parent) .. create_dir_all(parent)?; std::fs::write(path, contents)?] *)
Definition write_public_file (path contents : string) : prog StartF (res unit string) :=
  do? _ <- match path_parent path with
    | Some parent => if bool_decide (parent = EmptyString) then Ret (Ok tt) else io (CreateDirAll parent)
    | None => Ret (Ok tt)
    end;
  io (WriteFile path contents).

Definition write_key_file (path pem : string) : prog StartF (res unit string) :=
  do? _ <- write_public_file path pem;
  io (SetMode path OWNER_ONLY).

(** What [load_or_create_p256] and [load_or_create_ed25519] have in common. *)
Definition load_or_create {K} (from_pem : string -> res K KeyError) (to_pem : K -> res string KeyError)
    (generate : prog StartF (res K KeyError)) (path : option string) : prog StartF (res K string) :=
  match path with
  | None => pmap_err key_error_to_string generate
  | Some path =>
      do exists_ <- trigger (PathExists path);
      if exists_ : bool then
        do? pem <- io (ReadToString path);
        Ret (map_err key_error_to_string (from_pem pem))
      else
        do? key <- pmap_err key_error_to_string generate;
        do? pem <- Ret (map_err key_error_to_string (to_pem key));
        do? _ <- write_key_file path pem;
        Ret (Ok key)
  end.

Definition generate_p256 : prog StartF (res EcdsaP256KeyPair KeyError) :=
  do seed <- random_bytes 32; Ret (ec_generate (p256_random seed)).
Definition generate_ed25519 : prog StartF (res Ed25519KeyPair KeyError) :=
  do seed <- random_bytes 32; Ret (ed_generate (ed_random seed)).

Definition load_or_create_p256 : option string -> prog StartF (res EcdsaP256KeyPair string) :=
  load_or_create ec_from_pkcs8_pem ec_to_pkcs8_pem generate_p256.
Definition load_or_create_ed25519 : option string -> prog StartF (res Ed25519KeyPair string) :=
  load_or_create edk_from_pkcs8_pem edk_to_pkcs8_pem generate_ed25519.

Definition load_client_attesters (path : option string) : prog StartF (res (list Jwk) string) :=
  match path with
  | None => Ret (Ok [])
  | Some path =>
      do? text <- io (ReadToString path);
      do? jwks <- Ret (map_err (fun e => path +:+ ": " +:+ e) (from_ext (jwks_from_str text)));
      Ret (Ok (attester_keys jwks))
  end.

(** The bundle on disk, if there is one with more than one certificate. *)
Definition load_pki (path : option string) (key : EcdsaP256KeyPair) : prog StartF (res (option IssuerPki) string) :=
  match path with
  | None => Ret (Ok None)
  | Some path =>
      do exists_ <- trigger (PathExists path);
      if exists_ : bool then
        do? pem <- io (ReadToString path);
        if (length (pem_blocks pem "CERTIFICATE") =? 1)%nat then Ret (Ok None)
        else
          do? pki <- pmap_err (fun e => path +:+ ": " +:+ x509_error_to_string e +:+ "; delete it to mint a new one")
            (pki_from_pem pem (ec_public_key_sec1 key));
          Ret (Ok (Some pki))
      else Ret (Ok None)
  end.

Definition write_if (path : option string) (contents : string) : prog StartF (res unit string) :=
  match path with Some path => write_public_file path contents | None => Ret (Ok tt) end.

Definition mint_pki (config : ServerConfig) (key : EcdsaP256KeyPair) : prog StartF (res IssuerPki string) :=
  do? pem <- Ret (map_err key_error_to_string (ec_to_pkcs8_pem key));
  let params := mkDevelopmentPkiParams pem (default "localhost"%string (url_host_str (sc_external_url config)))
    (config_issuer_id config) in
  do? pki <- pmap_err x509_error_to_string (mint_development params);
  do? _ <- write_if (sc_cert_path config) (pki_to_pem pki);
  do? _ <- write_if (sc_trust_anchor_path config) (trust_anchor_pem pki);
  Ret (Ok pki).

Definition load_or_create_pki (config : ServerConfig) (key : EcdsaP256KeyPair) : prog StartF (res IssuerPki string) :=
  do? loaded <- load_pki (sc_cert_path config) key;
  match loaded with Some pki => Ret (Ok pki) | None => mint_pki config key end.

(** The configured token, or a new one. *)
Definition choose_admin_token (config : ServerConfig) : prog StartF string :=
  match sc_admin_token config with Some token => Ret token | None => new_v4 end.

(** [AppState::new]: the state and its status manager; the two in-memory
    storages start empty. *)
Definition app_state_new (config : ServerConfig) : prog StartF (res (AppState * Manager.StatusManager) string) :=
  do? p256 <- load_or_create_p256 (sc_p256_key_path config);
  do? issuer_pki <- load_or_create_pki config p256;
  do? ed25519 <- load_or_create_ed25519 (sc_ed25519_key_path config);
  do? metadata <- Ret (build_metadata (mkMetadataConfig (sc_external_url config) (sc_issuer_name config)));
  do? status_manager <- Ret (map_err Manager.manager_error_to_string (Manager.new (sc_external_url config)));
  do admin_token <- choose_admin_token config;
  do? client_attesters <- load_client_attesters (sc_client_attester_jwks_path config);
  Ret (Ok (mkAppState metadata (ec_key_pair p256) (ed_key_pair ed25519) issuer_pki (sc_external_url config)
             (config_issuer_id config) admin_token client_attesters, status_manager)).
End Startup.

(** ** What a start leaves behind *)
Section StartupFacts.
Context `{Sha2} `{Base64Url} `{B64S : Base64Std} `{B64SL : !Base64StdLaws B64S} `{P : P256} `{PL : !P256Laws P}.
Context `{D : Ed25519} `{DL : !Ed25519Laws D} `{CH : Chrono} `{CHL : !ChronoLaws CH} `{UrlApi} `{X : X509Api}.
Context `{RT : RcgenTypes} `{R : !Rcgen} (name_der : DistinguishedName -> bytes) `{RL : !RcgenLaws name_der}.
Context `{HttpApi} `{!Deployment} (faulty : string -> bool).

Abbreviation fs_handler := (world_handler (file_backend faulty)).

(** The text of a file. *)
Definition contents (fs : Files) (path : string) : option string := fst <$> fs !! path.

Lemma write_public_file_Ok path text (w w' : World Files) :
  run fs_handler (write_public_file path text) w = (Ok tt, w') ->
  store w' = <[path := (text, from_option snd DEFAULT_MODE (store w !! path))]> (store w).
Proof.
  unfold write_public_file. intros Hr. run_inv.
  assert (Hs : store x0 = store w).
  { match goal with Hm : run _ (match path_parent path with _ => _ end) _ = _ |- _ => revert Hm end.
    destruct (path_parent path) as [parent|]; [|by intros [= _ <-]]. destruct (bool_decide _); [by intros [= _ <-]|].
    simpl. intros [= _ <-]. done. }
  revert Hr. simpl. rewrite Hs. destruct (faulty path); simpl; [done|]. by intros [= <-].
Qed.

Lemma write_key_file_Ok path pem (w w' : World Files) :
  run fs_handler (write_key_file path pem) w = (Ok tt, w') -> store w' = <[path := (pem, OWNER_ONLY)]> (store w).
Proof.
  unfold write_key_file. intros Hr. run_inv. destruct x.
  match goal with Hw : run _ (write_public_file _ _) _ = _ |- _ => apply write_public_file_Ok in Hw as Hs end.
  revert Hr. simpl. rewrite Hs. destruct (faulty path); simpl; [done|]. intros [= <-]. simpl.
  by rewrite alter_insert_eq.
Qed.

(** *** Keys *)
Section Keys.
Context {K : Type} (from_pem : string -> res K KeyError) (to_pem : K -> res string KeyError).
Context (generate : prog StartF (res K KeyError)).
Context (generate_files : forall w r w', run fs_handler generate w = (r, w') -> store w' = store w).
Context (generate_pem : forall w k w' pem, run fs_handler generate w = (Ok k, w') -> to_pem k = Ok pem -> from_pem pem = Ok k).

Lemma load_or_create_Ok path (w w' : World Files) k :
  run fs_handler (load_or_create from_pem to_pem generate (Some path)) w = (Ok k, w') ->
  (exists pem, contents (store w') path = Some pem /\ from_pem pem = Ok k) /\
  (forall q, q <> path -> store w' !! q = store w !! q) /\
  (store w !! path = None -> exists pem, store w' !! path = Some (pem, OWNER_ONLY)).
Proof.
  unfold load_or_create, trigger. cbn [pbind]. intros Hr. simpl in Hr.
  destruct (store w !! path) as [f|] eqn:Hf; simpl in Hr.
  - rewrite Hf in Hr. simpl in Hr. injection Hr as Hk <-. inv_ok. simpl. unfold contents. rewrite Hf. simpl.
    split; [by eexists|]. done.
  - run_inv. inv_ok.
    match goal with u : () |- _ => destruct u end.
    match goal with Hg : run _ generate _ = _, Hp : to_pem _ = Ok _ |- _ => pose proof (generate_pem _ _ _ _ Hg Hp) as Hload;
      apply generate_files in Hg as Hs; simpl in Hs end.
    match goal with Hw : run _ (write_key_file _ _) _ = _ |- _ => apply write_key_file_Ok in Hw as -> end. rewrite Hs.
    split; [|split].
    + eexists. split; [|exact Hload]. unfold contents. by rewrite lookup_insert_eq.
    + intros q Hq. by rewrite lookup_insert_ne.
    + intros _. eexists. apply lookup_insert_eq.
Qed.

(** A key that is on disk is loaded, and nothing is written. *)
Lemma load_again path pem k (v : World Files) :
  contents (store v) path = Some pem -> from_pem pem = Ok k ->
  exists v', run fs_handler (load_or_create from_pem to_pem generate (Some path)) v = (Ok k, v') /\ store v' = store v.
Proof.
  unfold contents. intros Hc Hk. apply fmap_Some in Hc as (f & Hf & ->). unfold load_or_create, trigger. simpl. rewrite Hf. simpl.
  rewrite Hf. simpl. rewrite Hk. by eexists.
Qed.
End Keys.

(** Programs that only call the system leave the files alone. *)
Definition sys_only X (e : StartF X) : Prop := match e with inlE _ => True | inrE _ => False end.

Lemma sys_keeps_files {A} (p : prog StartF A) (w w' : World Files) r :
  calls_in sys_only p -> run fs_handler p w = (r, w') -> store w' = store w.
Proof.
  intros Hc Hr. replace w' with (run fs_handler p w).2 by (by rewrite Hr).
  apply (run_invariant (fun v => store v = store w) sys_only fs_handler); [|done|done].
  intros T [e|e] v He Hv; [|by destruct He]. simpl. by destruct (handle_sys e (sys v)).
Qed.

Lemma mint_calls params : calls_in sys_only (mint_development (F := StartF) params).
Proof.
  unfold mint_development, mint_root, leaf_certificate, sign_leaf, random_serial, utc_now, random_bytes, trigger, pmap.
  solve_calls; exact Logic.I.
Qed.

Lemma pki_from_pem_calls pem key : calls_in sys_only (pki_from_pem (F := StartF) pem key).
Proof. unfold pki_from_pem, utc_now, trigger. solve_calls; exact Logic.I. Qed.

Lemma p256_generated (w : World Files) r w' : run fs_handler generate_p256 w = (r, w') -> store w' = store w.
Proof. apply sys_keeps_files. unfold generate_p256, random_bytes, trigger. solve_calls; exact Logic.I. Qed.

Lemma ed25519_generated (w : World Files) r w' : run fs_handler generate_ed25519 w = (r, w') -> store w' = store w.
Proof. apply sys_keeps_files. unfold generate_ed25519, random_bytes, trigger. solve_calls; exact Logic.I. Qed.

Lemma p256_pem (w : World Files) k w' pem :
  run fs_handler generate_p256 w = (Ok k, w') -> ec_to_pkcs8_pem k = Ok pem -> ec_from_pkcs8_pem pem = Ok k.
Proof.
  simpl. intros [= Hg _]. unfold ec_generate, ec_to_pkcs8_pem, ec_from_pkcs8_pem in *. intros Hp. inv_ok. simpl in *.
  match goal with Hp : p256_to_pkcs8_pem _ = inl _ |- _ => rewrite (p256_pem_roundtrip _ _ Hp) end. simpl.
  match goal with Hj : ec_build_public_jwk _ _ = Ok _ |- _ => by rewrite Hj end.
Qed.

Lemma ed25519_pem (w : World Files) k w' pem :
  run fs_handler generate_ed25519 w = (Ok k, w') -> edk_to_pkcs8_pem k = Ok pem -> edk_from_pkcs8_pem pem = Ok k.
Proof.
  simpl. intros [= Hg _]. unfold edk_to_pkcs8_pem, edk_from_pkcs8_pem in *. intros Hp. rewrite <- Hg in Hp. inv_ok. simpl in *.
  match goal with Hp : ed_to_pkcs8_pem _ = inl _ |- _ => rewrite (ed_pem_roundtrip _ _ Hp) end. simpl. by rewrite <- Hg.
Qed.

(** *** Certificates *)
Lemma write_if_Ok path text (w w' : World Files) :
  run fs_handler (write_if path text) w = (Ok tt, w') ->
  (forall q, path <> Some q -> store w' !! q = store w !! q) /\
  (forall q, path = Some q -> contents (store w') q = Some text).
Proof.
  destruct path as [path|]; simpl.
  - intros Hr%write_public_file_Ok. rewrite Hr. split.
    + intros q Hq. rewrite lookup_insert_ne; [done|congruence].
    + intros q [= ->]. unfold contents. by rewrite lookup_insert_eq.
  - intros [= <-]. by split.
Qed.

(** The bundle read from disk. *)
Lemma pki_from_pem_run pem key p (v : World Files) :
  pki_parse pem key = Ok p ->
  (forall n c, c ∈ leaves p -> is_ok (validate_chain [icert_der c] [pki_trust_anchor p] (clock (sys v) n)) = true) ->
  exists v', run fs_handler (pki_from_pem (F := StartF) pem key) v = (Ok p, v') /\ store v' = store v.
Proof.
  intros Hp Hv. unfold pki_from_pem. rewrite Hp. unfold leaves in Hv.
  assert (Hok : forall n c, c ∈ [pki_leaf p; pki_mdoc_signer p; pki_mdoc_status_signer p] ->
    exists k, validate_chain [icert_der c] [pki_trust_anchor p] (clock (sys v) n) = Ok k).
  { intros n c Hc. specialize (Hv n c Hc). destruct (validate_chain _ _ _); try done. eauto. }
  destruct (Hok (ticks (sys v)) (pki_leaf p)) as [k1 E1]; [set_solver|].
  destruct (Hok (S (ticks (sys v))) (pki_mdoc_signer p)) as [k2 E2]; [set_solver|].
  destruct (Hok (S (S (ticks (sys v)))) (pki_mdoc_status_signer p)) as [k3 E3]; [set_solver|].
  simpl. rewrite E1. simpl. rewrite E2. simpl. rewrite E3. simpl. by eexists.
Qed.

Lemma pki_from_pem_Ok pem key (w w' : World Files) p :
  run fs_handler (pki_from_pem (F := StartF) pem key) w = (Ok p, w') -> pki_parse pem key = Ok p.
Proof. unfold pki_from_pem. intros Hr. by run_inv. Qed.

Lemma load_pki_Ok path key (w w' : World Files) o :
  run fs_handler (load_pki (Some path) key) w = (Ok o, w') ->
  store w' = store w /\
  forall p, o = Some p -> exists pem, contents (store w) path = Some pem /\ pki_parse pem (ec_public_key_sec1 key) = Ok p.
Proof.
  unfold load_pki, trigger, contents. cbn [pbind]. simpl. destruct (store w !! path) as [f|] eqn:Hf; simpl; [|by intros [= <- <-]].
  rewrite Hf. simpl. destruct (Nat.eqb_spec (length (pem_blocks f.1 "CERTIFICATE")) 1); [by intros [= <- <-]|].
  intros Hr. run_inv.
  match goal with Hp : run _ (pki_from_pem _ _) _ = _ |- _ => apply sys_keeps_files in Hp as Hs; [|apply pki_from_pem_calls];
    apply pki_from_pem_Ok in Hp end.
  split; [done|]. intros p [= <-]. by exists f.1.
Qed.

Lemma load_pki_again path pem key p (v : World Files) :
  contents (store v) path = Some pem -> pki_parse pem (ec_public_key_sec1 key) = Ok p ->
  (forall n c, c ∈ leaves p -> is_ok (validate_chain [icert_der c] [pki_trust_anchor p] (clock (sys v) n)) = true) ->
  exists v', run fs_handler (load_pki (Some path) key) v = (Ok (Some p), v') /\ store v' = store v.
Proof.
  unfold contents. intros Hc Hp Hv. apply fmap_Some in Hc as (f & Hf & ->). unfold load_pki, trigger. cbn [pbind]. simpl.
  rewrite Hf. simpl. rewrite Hf. simpl.
  assert (Hlen : length (pem_blocks f.1 "CERTIFICATE") = 4%nat).
  { unfold pki_parse in Hp. by destruct (pem_blocks f.1 "CERTIFICATE") as [|? [|? [|? [|? [|? ?]]]]]. }
  rewrite Hlen. simpl. rewrite run_bind_res, run_map_err.
  match goal with |- context [run _ (pki_from_pem _ _) ?w] => destruct (pki_from_pem_run f.1 _ p w Hp Hv) as (v' & Hr & Hs) end.
  rewrite Hr. simpl. by eexists.
Qed.

(** The PEM of a key that was loaded is one for the same public key. *)
Lemma key_pem_point pem key pem' :
  ec_from_pkcs8_pem pem = Ok key -> ec_to_pkcs8_pem key = Ok pem' ->
  exists sk, p256_from_pkcs8_pem pem' = inl sk /\ ec_public_key_sec1 key = p256_sec1 (p256_verifying_key sk).
Proof.
  unfold ec_from_pkcs8_pem, ec_to_pkcs8_pem, ec_public_key_sec1. intros Hf Ht. inv_ok. simpl in *.
  eexists. split; [by apply p256_pem_roundtrip|done].
Qed.

Lemma mint_pki_Ok config path key kpem (w w' : World Files) p :
  sc_cert_path config = Some path -> sc_trust_anchor_path config <> Some path -> ec_from_pkcs8_pem kpem = Ok key ->
  run fs_handler (mint_pki config key) w = (Ok p, w') ->
  (exists pem, contents (store w') path = Some pem /\ pki_parse pem (ec_public_key_sec1 key) = Ok p) /\
  (forall q, q <> path -> sc_trust_anchor_path config <> Some q -> store w' !! q = store w !! q).
Proof.
  intros Hpath Htrust Hkey Hr. unfold mint_pki in Hr. run_inv. inv_ok.
  repeat match goal with u : () |- _ => destruct u end.
  repeat match goal with Hw : run _ (write_if _ _) _ = _ |- _ => apply write_if_Ok in Hw end.
  match goal with Hm : run _ (mint_development ?ps) _ = _ |- _ => apply sys_keeps_files in Hm as Hs; [|apply mint_calls];
    pose proof (mint_shape name_der (file_backend faulty) ps _ _ _ Hm) as Hmint end.
  match goal with Hp : ec_to_pkcs8_pem _ = Ok _ |- _ => destruct (key_pem_point _ _ _ Hkey Hp) as (sk & Hsk & Hpoint) end.
  destruct (minted_parses name_der _ _ sk _ Hmint Hsk) as (_ & _ & Hparse). rewrite <- Hpoint in Hparse.
  match goal with H1 : _ /\ _, H2 : _ /\ _ |- _ => destruct H1 as [Hk1 Hc1], H2 as [Hk2 Hc2] end. split.
  - exists (pki_to_pem p). split; [|done]. rewrite <- (Hc1 path Hpath). unfold contents. by rewrite Hk2.
  - intros q Hq Hqt. rewrite Hk2 by done. rewrite Hk1 by congruence. by rewrite Hs.
Qed.

Lemma pki_Ok config path key kpem (w w' : World Files) p :
  sc_cert_path config = Some path -> sc_trust_anchor_path config <> Some path -> ec_from_pkcs8_pem kpem = Ok key ->
  run fs_handler (load_or_create_pki config key) w = (Ok p, w') ->
  (exists pem, contents (store w') path = Some pem /\ pki_parse pem (ec_public_key_sec1 key) = Ok p) /\
  (forall q, q <> path -> sc_trust_anchor_path config <> Some q -> store w' !! q = store w !! q).
Proof.
  intros Hpath Htrust Hkey Hr. unfold load_or_create_pki in Hr. rewrite Hpath in Hr. run_inv.
  match goal with Hl : run _ (load_pki _ _) _ = _ |- _ => apply load_pki_Ok in Hl as [Hs Hload] end.
  destruct x as [p'|].
  - run_inv. rewrite Hs. split; [by apply Hload|done].
  - rewrite <- Hs. by eapply mint_pki_Ok.
Qed.

Lemma admin_token_run config (w w' : World Files) token :
  run fs_handler (choose_admin_token config) w = (token, w') ->
  store w' = store w /\ token = default (uuids (sys w) (uuids_used (sys w))) (sc_admin_token config).
Proof. unfold choose_admin_token. destruct (sc_admin_token config); simpl; by intros [= <- <-]. Qed.

Lemma attesters_again path (w w' v : World Files) keys :
  run fs_handler (load_client_attesters path) w = (Ok keys, w') -> store v = store w' ->
  store w' = store w /\ exists v', run fs_handler (load_client_attesters path) v = (Ok keys, v') /\ store v' = store v.
Proof.
  destruct path as [path|]; cbn [load_client_attesters]; [|intros [= <- <-]; simpl; by eauto]. rewrite !run_bind_res. simpl.
  destruct (store w !! path) as [f|] eqn:Hf; simpl; [|done]. intros Hr Hs. run_inv. simpl in Hs. split; [done|].
  rewrite Hs, Hf. simpl. rewrite run_bind_res. simpl. match goal with Hj : map_err _ _ = Ok _ |- _ => rewrite Hj end. simpl. by eexists.
Qed.

Definition with_admin_token (token : string) (s : AppState) : AppState :=
  mkAppState (app_metadata s) (app_primary_key s) (app_secondary_key s) (app_issuer_pki s) (app_external_url s)
    (app_issuer_id s) token (app_client_attesters s).

(** Where the identity is kept: three files, and none of them is where the
    trust anchor goes. *)
Record persistent (config : ServerConfig) (key_path ed_path cert_path : string) : Prop := {
  pe_key : sc_p256_key_path config = Some key_path;
  pe_ed : sc_ed25519_key_path config = Some ed_path;
  pe_cert : sc_cert_path config = Some cert_path;
  pe_distinct : NoDup [key_path; ed_path; cert_path];
  pe_trust : forall q, sc_trust_anchor_path config = Some q -> q ∉ [key_path; ed_path; cert_path];
}.

(** The files hold this identity. *)
Definition on_disk (key_path ed_path cert_path : string) (fs : Files) (k : EcdsaP256KeyPair) (ed : Ed25519KeyPair)
    (p : IssuerPki) : Prop :=
  (exists pem, contents fs key_path = Some pem /\ ec_from_pkcs8_pem pem = Ok k) /\
  (exists pem, contents fs ed_path = Some pem /\ edk_from_pkcs8_pem pem = Ok ed) /\
  (exists pem, contents fs cert_path = Some pem /\ pki_parse pem (ec_public_key_sec1 k) = Ok p).

(** What a start made of its configuration. *)
Definition built (config : ServerConfig) (k : EcdsaP256KeyPair) (ed : Ed25519KeyPair) (p : IssuerPki) (token : string)
    (keys : list Jwk) (s : AppState) (m : Manager.StatusManager) : Prop :=
  exists metadata, build_metadata (mkMetadataConfig (sc_external_url config) (sc_issuer_name config)) = Ok (E := string) metadata /\
    map_err Manager.manager_error_to_string (Manager.new (sc_external_url config)) = Ok m /\
    s = mkAppState metadata (ec_key_pair k) (ed_key_pair ed) p (sc_external_url config) (config_issuer_id config) token keys.

Lemma start_stages config key_path ed_path cert_path (w w' : World Files) s m :
  persistent config key_path ed_path cert_path -> run fs_handler (app_state_new config) w = (Ok (s, m), w') ->
  exists k ed p token keys (w1 : World Files), on_disk key_path ed_path cert_path (store w') k ed p /\
    built config k ed p token keys s m /\
    (forall t, sc_admin_token config = Some t -> token = t) /\
    run fs_handler (load_client_attesters (sc_client_attester_jwks_path config)) w1 = (Ok keys, w') /\
    (forall path, path ∈ [key_path; ed_path] -> store w !! path = None ->
       exists pem, store w' !! path = Some (pem, OWNER_ONLY)).
Proof.
  intros [Hk He Hc Hd Ht] Hr. unfold app_state_new, load_or_create_p256, load_or_create_ed25519 in Hr.
  rewrite Hk, He in Hr. apply run_bind_res_Ok in Hr as (k & w1 & R1 & Hr). apply run_bind_res_Ok in Hr as (p & w2 & R2 & Hr).
  apply run_bind_res_Ok in Hr as (ed & w3 & R3 & Hr). run_inv.
  apply (load_or_create_Ok _ _ _ p256_generated p256_pem) in R1 as ((kpem & Hkc & Hkp) & Hk1 & Hkm).
  assert (Htc : sc_trust_anchor_path config <> Some cert_path).
  { intros Hx. apply (Ht _ Hx). rewrite !elem_of_cons. auto. }
  destruct (pki_Ok _ _ _ _ _ _ _ Hc Htc Hkp R2) as ((ppem & Hpc & Hpp) & Hp1).
  apply (load_or_create_Ok _ _ _ ed25519_generated ed25519_pem) in R3 as ((epem & Hec & Hep) & He1 & Hem).
  match goal with Ha : run _ (load_client_attesters _) _ = (_, ?u) |- _ => assert (Hs : store u = store w3) end.
  { match goal with Ha : run _ (load_client_attesters _) _ = (_, ?u) |- _ =>
      destruct (attesters_again _ _ _ u _ Ha eq_refl) as [Hs _]; rewrite Hs end.
    match goal with Ha : run _ (choose_admin_token _) _ = _ |- _ => by apply admin_token_run in Ha as [-> _] end. }
  rewrite !NoDup_cons, !not_elem_of_cons in Hd. destruct Hd as ((Hke & Hkc' & _) & (Hec' & _) & _).
  assert (Htk : forall q, q ∈ [key_path; ed_path; cert_path] -> sc_trust_anchor_path config <> Some q)
    by (intros q Hq Hx; by apply (Ht q Hx)).
  assert (Hkk : sc_trust_anchor_path config <> Some key_path) by (apply Htk; rewrite !elem_of_cons; auto).
  assert (Hee : sc_trust_anchor_path config <> Some ed_path) by (apply Htk; rewrite !elem_of_cons; auto).
  do 6 eexists. split; [|split; [|split; [|split]]].
  - rewrite Hs. split; [|split]; eexists; (split; [|eassumption]).
    + unfold contents in *. by rewrite He1, Hp1 by done.
    + done.
    + unfold contents in *. by rewrite He1 by done.
  - by eexists.
  - intros t Htok. match goal with Ha : run _ (choose_admin_token _) _ = _ |- _ => apply admin_token_run in Ha as [_ ->] end.
    by rewrite Htok.
  - eassumption.
  - rewrite Hs. intros path Hpath Hnone. rewrite !elem_of_cons, elem_of_nil in Hpath. destruct Hpath as [->|[->|[]]].
    + destruct (Hkm Hnone) as [pem Hpem]. exists pem. by rewrite He1, Hp1 by done.
    + apply Hem. rewrite Hp1, Hk1 by done. done.
Qed.

(** C21: The server's identity survives a restart.  Once a server with paths for
    its keys and certificates has started, whatever was or was not on disk
    before, it starts again from what is on disk: with the same keys, the same
    certificates and the same attesters, writing nothing, as long as the
    certificates are valid when they are loaded.  A key it created is readable
    by its owner only. *)
Theorem restart_keeps_identity config key_path ed_path cert_path (w w' v : World Files) s m :
  persistent config key_path ed_path cert_path ->
  run fs_handler (app_state_new config) w = (Ok (s, m), w') -> store v = store w' ->
  (forall n c, c ∈ leaves (app_issuer_pki s) ->
     is_ok (validate_chain [icert_der c] [pki_trust_anchor (app_issuer_pki s)] (clock (sys v) n)) = true) ->
  (exists token v', run fs_handler (app_state_new config) v = (Ok (with_admin_token token s, m), v') /\
     store v' = store v /\ (is_Some (sc_admin_token config) -> token = app_admin_token s)) /\
  (forall path, path ∈ [key_path; ed_path] -> store w !! path = None ->
     exists pem, store w' !! path = Some (pem, OWNER_ONLY)).
Proof.
  intros Hpe Hr Hv Hlive. pose proof Hpe as [Hk He Hc _ _].
  destruct (start_stages _ _ _ _ _ _ _ _ Hpe Hr) as (k & ed & p & token & keys & w1 & Hdisk & Hb & Htok & Ratt & Hmode).
  split; [|done]. destruct Hb as (md & Hmd & Hm & ->). simpl in Hlive.
  destruct Hdisk as ((kpem & Hkc & Hkp) & (epem & Hec & Hep) & (ppem & Hpc & Hpp)). rewrite <- Hv in Hkc, Hec, Hpc.
  unfold app_state_new, load_or_create_p256, load_or_create_ed25519, load_or_create_pki. rewrite Hk, He, Hc.
  destruct (load_again _ ec_to_pkcs8_pem generate_p256 _ _ _ v Hkc Hkp) as (v1 & R1 & S1).
  pose proof (run_after (file_backend faulty) (load_or_create ec_from_pkcs8_pem ec_to_pkcs8_pem generate_p256 (Some key_path)) v) as Ha.
  rewrite run_bind_res, R1. rewrite R1 in Ha. destruct Ha as (Hclock & _). simpl in Hclock. rewrite <- Hclock in Hlive.
  rewrite <- S1 in Hpc, Hec. destruct (load_pki_again _ _ _ _ v1 Hpc Hpp Hlive) as (v2 & R2 & S2).
  rewrite run_bind_res. rewrite run_bind_res, R2. cbn [run]. rewrite run_bind_res.
  rewrite <- S2 in Hec. destruct (load_again _ edk_to_pkcs8_pem generate_ed25519 _ _ _ v2 Hec Hep) as (v3 & R3 & S3).
  rewrite R3, run_bind_res. cbn [run]. rewrite Hmd, run_bind_res. cbn [run]. rewrite Hm, run_bind.
  destruct (run fs_handler (choose_admin_token config) v3) as [t v4] eqn:R4. apply admin_token_run in R4 as [S4 Ht].
  rewrite run_bind_res.
  destruct (attesters_again _ _ _ v4 _ Ratt) as (_ & v5 & R5 & S5); [congruence|]. rewrite R5. cbn [run].
  exists t, v5. split; [done|]. split; [congruence|]. intros [t' Ht']. rewrite Ht, Ht'. symmetry. by apply Htok.
Qed.

(** C31: The admin endpoints are never open.  A server that started from the
    environment has a non-empty admin token, since an empty variable counts as
    unset and a new identifier is never empty; so the comparison that would
    accept an absent token against an empty one never does: an administrative
    request without an Authorization header is answered with status 401. *)
Theorem admin_never_open env config (w w' : World Files) s m headers :
  from_env env = Ok config -> (forall n, uuids (sys w) n <> EmptyString) ->
  run fs_handler (app_state_new config) w = (Ok (s, m), w') -> headers_get_all headers "authorization" = [] ->
  exists response, reject_unauthorized_admin s headers = Some response /\ rs_status response = 401.
Proof.
  intros Henv Hu Hr Hh.
  assert (Ht : forall t, sc_admin_token config = Some t -> t <> EmptyString).
  { intros t Ht. unfold from_env in Henv. inv_ok. subst. simpl in Ht. destruct (env "ADMIN_API_TOKEN"%string) as [t'|]; [|done].
    simpl in Ht. case_bool_decide; by simplify_eq. }
  assert (Hs : app_admin_token s <> EmptyString).
  { unfold app_state_new in Hr.
    apply run_bind_res_Ok in Hr as (? & w1 & R1 & Hr). apply run_bind_res_Ok in Hr as (? & w2 & R2 & Hr).
    apply run_bind_res_Ok in Hr as (? & w3 & R3 & Hr). run_inv. simpl.
    match goal with Ha : run _ (choose_admin_token _) _ = _ |- _ => apply admin_token_run in Ha as [_ ->] end.
    destruct (sc_admin_token config) as [t|] eqn:E; simpl; [by apply Ht|].
    pose proof (run_after (file_backend faulty) (load_or_create_p256 (sc_p256_key_path config)) w) as A1. rewrite R1 in A1.
    match type of R2 with run _ ?p _ = _ => pose proof (run_after (file_backend faulty) p w1) as A2 end. rewrite R2 in A2.
    match type of R3 with run _ ?p _ = _ => pose proof (run_after (file_backend faulty) p w2) as A3 end. rewrite R3 in A3.
    destruct A1 as (_ & U1 & _), A2 as (_ & U2 & _), A3 as (_ & U3 & _). simpl in U1, U2, U3. rewrite U3, U2, U1. apply Hu. }
  rewrite reject_unauthorized_spec. unfold presented_token, header_str, headers_get. rewrite Hh. simpl.
  rewrite decide_False by done. by eexists.
Qed.
End StartupFacts.

(** ** A first start and a restart *)
Module StartupDemo.
Import Toy ToyCurves ToyCodec SysDemo ToyX509 ToyRcgen.

#[export] Instance http : HttpApi := {|
  HeaderMap := list (string * string); HeaderValue := string;
  headers_get_all hs name := map snd (filter (fun h => h.1 = name) hs);
  header_to_str := inl; header_from_str := inl; header_from_static v := v |}.

#[export] Instance deployment : Deployment := {|
  path_parent _ := None;
  url_host_str _ := None;
  jwks_from_str _ := inl (mkJwks [ec1_jwk]);
  p256_random s := true;
  ed_random s := false |}.

Definition env (name : string) : option string :=
  match name with
  | "ISSUER_KEY_P256_PEM" => Some "p256.pem"%string
  | "ISSUER_KEY_ED25519_PEM" => Some "ed25519.pem"%string
  | "ISSUER_CERT_PEM" => Some "pki.pem"%string
  | "ADMIN_API_TOKEN" => Some EmptyString
  | _ => None
  end%string.
Definition config : ServerConfig := Eval vm_compute in
  match from_env env with Ok c => c | _ => mkServerConfig EmptyString 0 EmptyString EmptyString None None None None None None end.

Definition never (path : string) : bool := false.
Definition before : World Files := mkWorld (early 1) ∅.
Definition first := run (world_handler (file_backend never)) (app_state_new config) before.
Definition state : AppState * Manager.StatusManager :=
  match first.1 with
  | Ok s => s
  | _ => (mkAppState (mkCredentialIssuerMetadata EmptyString None EmptyString None None None ∅ None) (ec_key_pair ec1)
            (ec_key_pair ec1) minted_pki EmptyString EmptyString EmptyString [], Manager.demo)
  end.
Definition later : World Files := mkWorld (early 2) (store first.2).

Lemma first_start_Ok : is_ok first.1 = true.
Proof. vm_compute. reflexivity. Qed.

Lemma first_start_run : run (world_handler (file_backend never)) (app_state_new config) before = (Ok (state.1, state.2), first.2).
Proof.
  fold first. pose proof first_start_Ok as Hok. unfold state. destruct first as [[[s m]|e|] w]; [done|discriminate Hok..].
Qed.

Lemma later_store : store later = store first.2.
Proof. unfold later. by destruct first. Qed.

Lemma restart_keeps_identity_witness :
  (exists token v', run (world_handler (file_backend never)) (app_state_new config) later
       = (Ok (with_admin_token token state.1, state.2), v') /\
     store v' = store later /\ (is_Some (sc_admin_token config) -> token = app_admin_token state.1)) /\
  (forall path, path ∈ ["p256.pem"; "ed25519.pem"]%string -> store before !! path = None ->
     exists pem, store first.2 !! path = Some (pem, OWNER_ONLY)).
Proof.
  apply (restart_keeps_identity (as_bytes : @DistinguishedName types -> bytes) never config "p256.pem" "ed25519.pem" "pki.pem"
    before first.2 later state.1 state.2).
  - split; [reflexivity..| |].
    + apply (bool_decide_unpack _). vm_compute. exact I.
    + intros q Hq. discriminate Hq.
  - exact first_start_run.
  - exact later_store.
  - intros n c Hc.
    assert (Hall : forallb (fun c => is_ok (validate_chain [icert_der c] [pki_trust_anchor (app_issuer_pki state.1)] (2 * DAY_NANOS)))
      (leaves (app_issuer_pki state.1)) = true) by (vm_compute; reflexivity).
    rewrite forallb_forall in Hall. apply Hall. by apply list_elem_of_In.
Defined.

Lemma admin_never_open_witness :
  exists response, reject_unauthorized_admin state.1 ([] : @HeaderMap http) = Some response /\ rs_status response = 401.
Proof.
  apply (admin_never_open never env config before first.2 state.1 state.2 ([] : @HeaderMap http)).
  - vm_compute. reflexivity.
  - intros n. discriminate.
  - exact first_start_run.
  - reflexivity.
Defined.
End StartupDemo.
