(* ===== verification/ServerDemo.v ===== *)
(** * A served authorization code flow

    A concrete server and wallet: the pushed request, the user's approval, the
    token and its use, through the routes; and the witnesses of the theorems
    about the routes. *)
From S2P Require Import Prelude Externals Strings Effects Json Keys Jws Credentials SdJwt X509 Cbor Cose Mdoc MdocBinding.
From S2P Require Import StatusList TokenStatusList StatusManager Oid4vci IssuerState IssuerStateSpec Authorization Token Dpop ClientAttestation Metadata Offer.
From S2P Require Import Credential CredentialSpec CredentialIssuance CredentialDemo Http ServerState IssuerRoutes RequestAuth.
From S2P Require Import IssuerRoutesSpec CodeFlow IssuerServer IssuerAnswers StatusRoutes.

Module ServerDemo.
Import Toy ToyCurves ToyCodec JwsDemo IssuerDemo SdJwtDemo ToyX509 ToyCbor ToyCose CredentialDemo.

#[export] Instance http : HttpApi := {|
  HeaderMap := list (string * string);
  HeaderValue := string;
  headers_get_all hs name := map snd (filter (fun h => h.1 = name) hs);
  header_to_str := inl;
  header_from_str := inl;
  header_from_static v := v |}.

#[export] Instance offer_serde : OfferSerde := {| offer_to_string _ := inr "unused"%string; percent_encode s := s |}.

Definition state : AppState := mkAppState metadata (ec_key_pair ec1) (ed_key_pair ed0) pki
  ("https://i"%string : Url) "https://i" "admin" [ec1_jwk].

(** ** The wallet *)
Definition sign (k : KeyPair) (typ : string) (jwk : option Jwk) (v : Value) : string :=
  unwrap_or EmptyString (sign_compact k (mkJwsHeader (hdr_alg (build_header k None)) (Some typ) None jwk None) (value_to_vec v)).

Definition instance : Jwk := mkJwk "OKP" (Some "Ed25519"%string) (jwk_x holder) None None None None None.
Definition attestation : string := Eval vm_compute in
  sign (ec_key_pair ec1) "oauth-client-attestation+jwt" None (json_obj
    [("iss"%string, VString "a"); ("sub"%string, VString "w"); ("exp"%string, VInt 2000);
     ("cnf"%string, json_obj [("jwk"%string, json_obj [("kty"%string, VString (jwk_kty instance));
        ("crv"%string, opt_value (jwk_crv instance)); ("x"%string, opt_value (jwk_x instance))])])]).
Definition pop (jti : string) : string :=
  sign (ed_key_pair ed0) "oauth-client-attestation-pop+jwt" None (json_obj
    [("aud"%string, VString "https://i"); ("iat"%string, VInt 1000); ("jti"%string, VString jti)]).
Definition dpop (path jti : string) (token : option string) : string :=
  sign (ec_key_pair ec1) "dpop+jwt" (Some ec1_jwk) (json_obj
    ([("htm"%string, VString "POST"); ("htu"%string, VString ("https://i" +:+ path));
      ("iat"%string, VInt 1000); ("jti"%string, VString jti)] ++
     match token with Some t => [("ath"%string, VString (token_hash t))] | None => [] end)).

Definition client_headers (path jti : string) : HeaderMap :=
  [("oauth-client-attestation"%string, attestation); ("oauth-client-attestation-pop"%string, pop jti);
   ("dpop"%string, dpop path jti None)].

Definition pushed : PushedAuthorizationRequest :=
  mkPushedAuthorizationRequest "code" "w" ("https://w/cb"%string : Url) (Some "identity_credential"%string)
    (Some "st"%string) (b64url_encode (sha256 (as_bytes "verifier"))) "S256" None None None None.

(** ** The flow *)
Definition uri : string := request_uri_of "uuid-0".
Definition approval : Decision := mkDecision uri "w" "approve".
Definition par_headers : HeaderMap := Eval vm_compute in client_headers "/authorize/par" "j1".
Definition par := run InMemory.handler (par_endpoint state par_headers pushed) demo_world.
Definition decided := run InMemory.handler (authorize_decision state approval) par.2.
Definition token_request : TokenRequest :=
  mkTokenRequest "authorization_code" (Some "uuid-1"%string) (Some ("https://w/cb"%string : Url))
    (Some "verifier"%string) (Some "w"%string) None None.
Definition token_headers : HeaderMap := Eval vm_compute in client_headers "/token" "j2".
Definition token := run InMemory.handler (token_endpoint state token_headers token_request) decided.2.
Definition use_headers : HeaderMap := Eval vm_compute in
  [("authorization", "DPoP uuid-2"); ("dpop", dpop "/credential" "j3" (Some "uuid-2"))]%string.
Definition used := run InMemory.handler (authorize_resource state use_headers "/credential") token.2.

#[local] Strategy expand [par decided token used].

Definition token_response : Response := Eval vm_compute in
  match token.1 with Ok r => r | _ => html_response 0 EmptyString end.

(** The same flow over the abstract storage. *)
Definition par_spec := run Spec.handler (par_endpoint state par_headers pushed) demo_spec.
Definition decided_spec := run Spec.handler (authorize_decision state approval) par_spec.2.
Definition token_spec := run Spec.handler (token_endpoint state token_headers token_request) decided_spec.2.

Lemma par_refines : world_refines par.2 par_spec.2.
Proof.
  refine (proj2 (run_simulates _ _ _ _ handler_refines _ demo_world demo_spec _ demo_refines)).
  apply keyed_allowed, par_endpoint_calls.
Qed.

Lemma decided_refines : world_refines decided.2 decided_spec.2.
Proof.
  refine (proj2 (run_simulates _ _ _ _ handler_refines _ par.2 par_spec.2 _ par_refines)). apply authorize_decision_calls.
Qed.

Lemma token_refines : world_refines token.2 token_spec.2.
Proof.
  refine (proj2 (run_simulates _ _ _ _ handler_refines _ decided.2 decided_spec.2 _ decided_refines)).
  apply token_endpoint_calls.
Qed.

(** ** Witnesses *)
Lemma token_run :
  run InMemory.handler (token_endpoint state token_headers token_request) decided.2 = (Ok token_response, token.2).
Proof. change (token = (Ok token_response, token.2)). apply pair_eq_fst. vm_compute. reflexivity. Qed.

(** A nonce is served, and the token is used. *)
Definition later := run InMemory.handler nonce_endpoint token.2.
Definition used_later := run InMemory.handler (authorize_resource state use_headers "/credential") later.2.

#[local] Strategy expand [later used_later].

Lemma used_later_run :
  run InMemory.handler (authorize_resource state use_headers "/credential") later.2 = (Ok "uuid-2"%string, used_later.2).
Proof. change (used_later = (Ok "uuid-2"%string, used_later.2)). apply pair_eq_fst. vm_compute. reflexivity. Qed.

Lemma code_token_confined_witness :
  exists client client_jti now jwk jti code reply,
    attested_as state token_headers (read_at decided.2) client client_jti /\
    sent_proof state token_headers "/token" None now jwk jti /\
    redeemed_by token_request decided_spec.2 client jwk code /\
    token_response = no_store (json_response 200 (TokenDoc reply)) /\
    exists v2 v3, world_refines later.2 v2 /\ world_refines used_later.2 v3 /\
      proved_possession state use_headers "/credential" (tor_access_token reply) (compute_thumbprint jwk) v2 v3.
Proof.
  destruct (code_token_confined state token_headers token_request decided.2 decided_spec.2 token_response token.2
    nonce_endpoint later.1 later.2 decided_refines eq_refl token_run (keyed_allowed _ nonce_endpoint_calls)
    (surjective_pairing _)) as (client & client_jti & now & jwk & jti & code & reply & Hat & Hs & Hred & Hr & Hlater).
  exists client, client_jti, now, jwk, jti, code, reply. do 4 (split; [done|]).
  assert (tor_access_token reply = "uuid-2"%string) as Ht.
  { assert (Hd : exists r, token_response = no_store (json_response 200 (TokenDoc r)) /\ tor_access_token r = "uuid-2"%string)
      by (eexists; split; vm_compute; reflexivity).
    destruct Hd as (r & Hd & <-). rewrite Hd in Hr. by injection Hr as ->. }
  apply (Hlater ltac:(vm_compute; repeat split) use_headers "/credential"%string used_later.2).
  rewrite Ht. exact used_later_run.
Defined.

Lemma authorize_resource_exact_witness :
  is_ok used.1 = true /\
  exists v', world_refines used.2 v' /\
  match used.1 with
  | Ok t => exists proof_id, authorized state use_headers "/credential" token_spec.2 t proof_id /\
      store v' = after_use proof_id token_spec.2
  | Err response => rs_status response = 401 /\
      (forall t proof_id, ~ authorized state use_headers "/credential" token_spec.2 t proof_id) /\
      exists proof_id, store v' = after_use proof_id token_spec.2
  | Panic => forall htu, url_join (app_external_url state) "/credential" <> inl htu
  end.
Proof.
  split; [vm_compute; reflexivity|].
  apply (authorize_resource_exact state use_headers "/credential" token.2 token_spec.2 used.1 used.2).
  - apply token_refines.
  - apply surjective_pairing.
Defined.

Lemma empty_well_formed : sessions_well_formed (store demo_spec).
Proof.
  change (store demo_spec) with Spec.empty. unfold Spec.empty.
  split; [intros u ses Hs|intros code u Hs]; simpl in Hs; by rewrite lookup_empty in Hs.
Qed.

Lemma par_keyed : keyed (store par_spec.2).
Proof.
  apply (run_invariant (fun v => sessions_well_formed (store v)) keeps_keyed Spec.handler
    (fun X e v => keyed_step X e v) (par_endpoint state par_headers pushed) demo_spec
    (par_endpoint_calls state par_headers pushed) empty_well_formed).
Qed.

Lemma authorize_decision_exact_witness :
  is_ok decided.1 = true /\
  exists v', world_refines decided.2 v' /\ decision_outcome state approval par_spec.2 v' decided.1.
Proof.
  split; [vm_compute; reflexivity|].
  apply (authorize_decision_exact state approval par.2 par_spec.2 decided.1 decided.2).
  - apply par_refines.
  - apply par_keyed.
  - apply surjective_pairing.
Defined.

(** A pushed request, an offer and a credential, served at once. *)
Definition bearer_headers : HeaderMap := [("authorization", "Bearer t")]%string.
Definition requests : list IssuerRequest :=
  [ParRequest par_headers pushed; OfferRequest None; CredentialCall bearer_headers request].
Definition server_world : World (InMemoryIssuerState * Manager.StatusManager) :=
  mkWorld (sys before) (store before, Manager.demo).
Definition server_spec : World (IssuerStore * Manager.StatusManager) :=
  mkWorld (sys before_spec) (store before_spec, Manager.demo).
Definition schedule : list nat := [0; 2; 1; 0; 2; 1; 0; 0; 2; 0; 0; 2; 0; 0; 1; 2; 1; 0; 0; 2; 2; 2; 2; 2]%nat.
Definition interleaved :=
  run_schedule (server_handler in_order) schedule (map (serve 10 state) requests) server_world.

#[local] Strategy expand [interleaved].

Lemma server_world_refines : server_refines server_world server_spec.
Proof. split; [apply before_refines|reflexivity]. Qed.

(** All three are finished: the request is pushed, the offer and the
    credential are served. *)
Lemma interleaved_answers :
  map (fun p => match p with Ret (Ok r) => Some (rs_status r) | _ => None end) interleaved.1 = [Some 201; Some 200; Some 200].
Proof. vm_compute. reflexivity. Qed.

Lemma pushed_sessions_kept_witness :
  exists v', server_refines interleaved.2 v' /\ sessions_well_formed (store v').1 /\
    sessions_kept (store server_spec).1 (store v').1 /\
    Forall2 (fun request p => forall r, p = Ret r -> session_left state request r (store v').1) requests interleaved.1.
Proof.
  apply (pushed_sessions_kept 10 state in_order requests server_world server_spec interleaved.1 interleaved.2).
  - apply server_world_refines.
  - split; [intros u ses Hs|intros code u Hs]; simpl in Hs; by rewrite lookup_empty in Hs.
  - rewrite <- surjective_pairing. apply run_schedule_where. vm_compute. repeat split.
Defined.

Lemma state_serves : can_serve state.
Proof.
  split.
  - reflexivity.
  - intros path _. by eexists.
  - apply ec1_laws.
  - split.
    + by eexists.
    + intros t _. by eexists.
    + intros expiry He. vm_compute in He. injection He as <-. lia.
Qed.

Lemma demo_manager_urls : manager_urls Manager.demo.
Proof. intros [] index; by eexists. Qed.

Lemma requests_answered_witness :
  Forall2 (fun request p => forall r, p = Ret r -> answered request r) requests interleaved.1.
Proof.
  apply (requests_answered 10 state in_order requests server_world server_spec interleaved.1 interleaved.2).
  - apply state_serves.
  - apply in_order_draws.
  - apply server_world_refines.
  - apply demo_manager_urls.
  - rewrite <- surjective_pairing. apply run_schedule_csteps.
Defined.

(** An offer, redeemed after a nonce was served. *)
Definition offering := run InMemory.handler (credential_offer_endpoint state None) demo_world.
Definition offered_response : Response := Eval vm_compute in
  match offering.1 with Ok r => r | _ => html_response 0 EmptyString end.
Definition nonced := run InMemory.handler nonce_endpoint offering.2.
Definition redemption : TokenRequest :=
  mkTokenRequest PRE_AUTHORIZED None None None None (Some "uuid-1"%string) None.

#[local] Strategy expand [offering nonced].

Lemma offering_Ok : offering.1 = Ok offered_response.
Proof. vm_compute. reflexivity. Qed.

Lemma offer_redeemable_witness :
  exists reply grant expires w3 v3, run InMemory.handler (token_endpoint state [] redemption) nonced.2
      = (Ok (no_store (json_response 200 (TokenDoc reply))), w3) /\
    world_refines w3 v3 /\ grants (store v3) !! tor_access_token reply = Some (grant, expires) /\
    ag_credential_configuration_ids grant = [IDENTITY] /\ ag_dpop_jkt grant = None.
Proof.
  destruct (offer_redeemable state None demo_world demo_spec offering.1 offering.2 nonce_endpoint nonced.1 nonced.2
    [] redemption demo_refines ltac:(vm_compute; by eexists) (surjective_pairing _)
    (keyed_allowed _ nonce_endpoint_calls) (surjective_pairing _)) as (offer & u & code & Hr & [_ Hcode] & Hredeem).
  assert (code = "uuid-1"%string) as ->.
  { rewrite offering_Ok in Hr. injection Hr as Hoffer _. rewrite <- Hoffer in Hcode. simpl in Hcode. congruence. }
  apply Hredeem.
  - split; [done|]. by split.
  - by split.
Defined.

(** The code flow with a nonce and an offer served in between. *)
Definition flow_par := run InMemory.handler (process_par pushed (mkParContext "w" (Some "key"%string)) (app_metadata state)) demo_world.
Definition flow_between := run InMemory.handler nonce_endpoint flow_par.2.
Definition flow_decided := run InMemory.handler (authorize_decision state (mkDecision uri "w" "approve")) flow_between.2.
Definition flow_later := run InMemory.handler (credential_offer_endpoint state None) flow_decided.2.
Definition flow_request : TokenRequest :=
  mkTokenRequest "authorization_code" (Some "uuid-2"%string) (Some ("https://w/cb"%string : Url))
    (Some "verifier"%string) (Some "w"%string) None None.
Definition flow_ctx : TokenContext := mkTokenContext (Some "w"%string) (Some "key"%string).
Definition flow_redeemed := run InMemory.handler (process_token_request flow_request flow_ctx) flow_later.2.
Definition flow_session : AuthorizationSession :=
  par_session pushed uri [IDENTITY] false (clock (sys demo_world) (ticks (sys demo_world))) (Some "key"%string).

Lemma flow_accepted :
  par_accepts pushed (mkParContext "w" (Some "key"%string)) (app_metadata state) (Some "key"%string) [IDENTITY] false.
Proof. apply par_checks_Ok. vm_compute. reflexivity. Qed.

Lemma flow_honest : honest_redemption pushed (Some "key"%string) flow_request flow_ctx "uuid-2" "key".
Proof.
  split; try done; [by eexists|by intros c [= <-]|by intros b [= <-]].
Qed.

Lemma code_flow_completes_witness :
  flow_par.1 = Ok (mkPushedAuthorizationResponse uri 60) /\
  flow_decided.1 = Ok (decision_redirect state flow_session (par_redirect_uri pushed) [("code"%string, "uuid-2"%string)]) /\
  exists reply v', flow_redeemed.1 = Ok reply /\ tor_token_type reply = "DPoP"%string /\
    world_refines flow_redeemed.2 v' /\
    token_granted (tor_access_token reply) [IDENTITY] "key" (sys flow_later.2) (store v').
Proof.
  apply (code_flow_completes state pushed (mkParContext "w" (Some "key"%string)) (Some "key"%string) [IDENTITY] false
    (par_redirect_uri pushed) demo_world demo_spec nonce_endpoint (credential_offer_endpoint state None)
    flow_request flow_ctx "key").
  - apply demo_refines.
  - split; [apply empty_well_formed|apply lookup_empty].
  - apply flow_accepted.
  - reflexivity.
  - apply keyed_allowed, nonce_endpoint_calls.
  - vm_compute. repeat split.
  - vm_compute. reflexivity.
  - apply keyed_allowed, offer_endpoint_calls.
  - vm_compute. repeat split.
  - apply flow_honest.
  - vm_compute. discriminate.
Defined.

(** The administrator revokes a credential. *)
Definition admin_headers : HeaderMap := [("authorization", "Bearer admin")]%string.

Lemma admin_update_exact_witness :
  let '(r, m') := admin_endpoint Revoke state admin_headers (mkStatusUpdateRequest 5 (Some "mso_mdoc"%string)) Manager.demo in
  r = Ok (status_updated "revoked" 5) /\
  (forall j, 0 <= j -> (Manager.mdoc_revoked m' j <-> j = 5 \/ Manager.mdoc_revoked Manager.demo j)) /\
  forall q j, Manager.published_status m' q j = Manager.published_status Manager.demo q j.
Proof.
  assert (Hr : 0 <= 5 < Manager.LIST_CAPACITY) by (split; [lia|reflexivity]).
  exact (admin_update_exact _ Manager.demo [] Manager.demo state admin_headers
    (mkStatusUpdateRequest 5 (Some "mso_mdoc"%string)) Revoke Manager.demo_new (Manager.steps_nil _) eq_refl eq_refl Hr).
Defined.
End ServerDemo.
