(* ===== verification/WireDemo.v ===== *)
(** * Concrete messages

    Messages as JSON and the answers of a served flow as a client reads them:
    the witnesses of the theorems about the JSON forms. *)
From S2P Require Import Prelude Externals Strings Effects Json Serde Keys Jws Credentials SdJwt X509 Cbor Cose Mdoc StatusManager.
From S2P Require Import Errors Oid4vci Oid4vp IssuerState IssuerStateSpec Authorization Token Dpop ClientAttestation Metadata Offer.
From S2P Require Import Credential CredentialIssuance Http ServerState IssuerRoutes RequestAuth IssuerRoutesSpec IssuerServer IssuerAnswers Wire.
From S2P Require Import CredentialSpec CredentialDemo WireAnswers ServerDemo.

Module WireDemo.
Import Toy ToyCurves ToyCodec JwsDemo IssuerDemo SdJwtDemo ToyX509 ToyCbor ToyCose CredentialDemo ServerDemo.

#[export] Instance url_laws : UrlLaws url.
Proof. split. by intros s u [= ->]. Qed.

Definition strings (l : list string) : Value := VArray (map VString l).

(** A credential request with a draft-era [proof] of [null] and a proof of
    another type, and the members of a token request beside it. *)
Definition members : list (string * Value) := [
  ("credential_configuration_id"%string, VString "IdentityCredential_SD_JWT_VC");
  ("proof"%string, VNull);
  ("proofs"%string, VObject [("jwt"%string, strings ["a.b.c"%string]); ("attestation"%string, strings ["x"%string])]);
  ("grant_type"%string, VString PRE_AUTHORIZED); ("pre-authorized_code"%string, VString "c")].
Definition credential_read : CredentialRequest := mkCredentialRequest None (Some "IdentityCredential_SD_JWT_VC"%string)
  (Some (mkProofs (Some ["a.b.c"%string]) {["attestation"%string := strings ["x"%string]]})) None None.
Definition token_read : TokenRequest := mkTokenRequest PRE_AUTHORIZED None None None None (Some "c"%string) None.

Lemma client_requests_read_witness :
  (forall r, de Wire.credential_request (VObject members) = Some r <->
     member_read is_text members "credential_identifier" (cr_credential_identifier r) /\
     member_read is_text members "credential_configuration_id" (cr_credential_configuration_id r) /\
     member_read is_proofs members "proofs" (cr_proofs r) /\
     member_read is_value members "proof" (cr_proof r) /\
     member_read is_value members "credential_response_encryption" (cr_credential_response_encryption r)) /\
  (forall r, de Wire.token_request (VObject members) = Some r <->
     obj_get members "grant_type" = Some (VString (tr_grant_type r)) /\
     member_read is_text members "code" (tr_code r) /\
     member_read is_url members "redirect_uri" (tr_redirect_uri r) /\
     member_read is_text members "code_verifier" (tr_code_verifier r) /\
     member_read is_text members "client_id" (tr_client_id r) /\
     member_read is_text members "pre-authorized_code" (tr_pre_authorized_code r) /\
     member_read is_text members "tx_code" (tr_tx_code r)) /\
  de Wire.credential_request (VObject members) = Some credential_read /\
  de Wire.token_request (VObject members) = Some token_read.
Proof.
  assert (Hn : NoDup members.*1) by (apply (bool_decide_unpack _); reflexivity).
  assert (Hp : forall ps, obj_get members "proofs" = Some (VObject ps) -> NoDup ps.*1).
  { intros ps Hps. injection Hps as <-. apply (bool_decide_unpack _). reflexivity. }
  destruct (client_requests_read members Hn Hp) as [Hc Ht].
  split; [exact Hc|]. split; [exact Ht|]. split; vm_compute; reflexivity.
Defined.

Definition mdoc : MdocCredential := mkMdocCredential "org.iso.18013.5.1.mDL" [1; 2; 3] None.
Definition claims : SdJwtVcClaims := mkSdJwtVcClaims "i" None 1000 (Some 2000) None "v" [] None None None ∅.

Lemma absent_members_unreadable_witness :
  de mdoc_credential (ser mdoc_credential mdoc) = None /\ de sd_jwt_vc_claims (ser sd_jwt_vc_claims claims) = None.
Proof.
  split.
  - apply (proj1 absent_members_unreadable mdoc); [repeat constructor; done|discriminate].
  - apply (proj2 absent_members_unreadable claims); try discriminate; [reflexivity|intros t [= <-]; reflexivity|].
    repeat constructor.
Defined.

Lemma serde_laws_derived_witness : HeaderSerdeLaws (derived_header (J := json)) /\ ClaimsSerdeLaws (derived_claims (J := json)) json
  /\ JwkSerdeLaws (derived_claims (J := json)).
Proof. apply serde_laws_derived. Defined.

Lemma answers_readable_witness :
  Forall (fun p => forall response, p = Ret (Ok response) \/ p = Ret (Err (Some response)) -> readable response)
    interleaved.1.
Proof.
  apply (answers_readable 10 state in_order requests server_world server_spec interleaved.1 interleaved.2).
  - apply state_serves.
  - apply in_order_draws.
  - apply server_world_refines.
  - apply demo_manager_urls.
  - rewrite <- surjective_pairing. apply run_schedule_csteps.
Defined.
End WireDemo.
